(** * Front end of the COCO_24 compiler: lexer DFA and LL(1) parser

    A shallow embedding of [lexer.c], [lexerDef.h], [parser.c] and
    [parserDef.h], and the properties of the design document checked
    against it.

    Conventions of the embedding.
    - A C [char] is an [ascii]; comparisons go through its code, a [Z]
      in 0..255.  The C [int] cursors and line counters are [Z].
    - A C string held in a [char] array is a [string]: the characters up
      to the first NUL.
    - The [double] field [numericValue] is a rational [Q]: the arithmetic
      of the source is carried out exactly, rounding is not modelled.
    - [while (true)] loops run on fuel; the result says whether the code
      returned, ran out of fuel, or left the bounds of a C array. *)

From Stdlib Require Import ZArith List String Ascii Bool Lia QArith.
Import ListNotations.
Local Open Scope Z_scope.

(* ================================================================== *)
(** * lexerDef.h *)
(* ================================================================== *)

Definition ALPHABET_COUNT : Z := 26.
Definition BUFFER_SZ : Z := 256.

(** [typedef enum Token], in declaration order. *)
Inductive Token : Type :=
  | ASSIGNOP | COMMENT | FIELDID | ID | NUM | RNUM | FUNID | RUID
  | WITH | PARAMETERS | END | WHILE | UNION | ENDUNION | DEFINETYPE
  | AS | TYPE | MAIN | GLOBAL | PARAMETER | LIST | SQL | SQR | INPUT
  | OUTPUT | INT | REAL | COMMA | SEM | COLON | DOT | ENDWHILE | OP | CL
  | IF | THEN | ENDIF | READ | WRITE | RETURN | PLUS | MINUS | MUL | DIV
  | CALL | RECORD | ENDRECORD | ELSE | AND | OR | NOT | LT | LE | EQ | GT
  | GE | NE | EPS | DOLLAR | LEXICAL_ERROR | ID_LENGTH_EXC
  | FUN_LENGTH_EXC | TK_NOT_FOUND.

(** The integer value of an enumerator. *)
Definition Token_to_Z (t : Token) : Z :=
  match t with
  | ASSIGNOP => 0 | COMMENT => 1 | FIELDID => 2 | ID => 3 | NUM => 4
  | RNUM => 5 | FUNID => 6 | RUID => 7 | WITH => 8 | PARAMETERS => 9
  | END => 10 | WHILE => 11 | UNION => 12 | ENDUNION => 13
  | DEFINETYPE => 14 | AS => 15 | TYPE => 16 | MAIN => 17 | GLOBAL => 18
  | PARAMETER => 19 | LIST => 20 | SQL => 21 | SQR => 22 | INPUT => 23
  | OUTPUT => 24 | INT => 25 | REAL => 26 | COMMA => 27 | SEM => 28
  | COLON => 29 | DOT => 30 | ENDWHILE => 31 | OP => 32 | CL => 33
  | IF => 34 | THEN => 35 | ENDIF => 36 | READ => 37 | WRITE => 38
  | RETURN => 39 | PLUS => 40 | MINUS => 41 | MUL => 42 | DIV => 43
  | CALL => 44 | RECORD => 45 | ENDRECORD => 46 | ELSE => 47 | AND => 48
  | OR => 49 | NOT => 50 | LT => 51 | LE => 52 | EQ => 53 | GT => 54
  | GE => 55 | NE => 56 | EPS => 57 | DOLLAR => 58 | LEXICAL_ERROR => 59
  | ID_LENGTH_EXC => 60 | FUN_LENGTH_EXC => 61 | TK_NOT_FOUND => 62
  end.

Definition all_tokens : list Token :=
  [ASSIGNOP; COMMENT; FIELDID; ID; NUM; RNUM; FUNID; RUID; WITH;
   PARAMETERS; END; WHILE; UNION; ENDUNION; DEFINETYPE; AS; TYPE; MAIN;
   GLOBAL; PARAMETER; LIST; SQL; SQR; INPUT; OUTPUT; INT; REAL; COMMA;
   SEM; COLON; DOT; ENDWHILE; OP; CL; IF; THEN; ENDIF; READ; WRITE;
   RETURN; PLUS; MINUS; MUL; DIV; CALL; RECORD; ENDRECORD; ELSE; AND; OR;
   NOT; LT; LE; EQ; GT; GE; NE; EPS; DOLLAR; LEXICAL_ERROR;
   ID_LENGTH_EXC; FUN_LENGTH_EXC; TK_NOT_FOUND].

(** [a == b] on two enumerators. *)
Definition Token_eqb (a b : Token) : bool :=
  Token_to_Z a =? Token_to_Z b.

(** [struct SymbolTableEntry]. *)
Record SymbolTableEntry : Type := mkEntry {
  lexeme : string;
  tokenType : Token;
  numericValue : Q
}.

(** [struct SymbolTable]: the growable array of entries, in insertion
    order ([size] is its length, [capacity] is not observable). *)
Definition SymbolTable : Type := list SymbolTableEntry.

(** [struct TokenNode] without its link. *)
Record TokenNode : Type := mkTokenNode {
  entry : SymbolTableEntry;
  lineNum : Z
}.

(** [struct TokenList]: the nodes from [head] to [tail]. *)
Definition TokenList : Type := list TokenNode.

(** [struct TrieNode]: [children] is indexed by [c - 'a']. *)
#[local] Unset Elimination Schemes.
Inductive TrieNode : Type :=
  mkTrieNode (isEnd : bool) (trieToken : Token)
             (children : Z -> option TrieNode).
#[local] Set Elimination Schemes.

Definition isEnd (n : TrieNode) : bool :=
  match n with mkTrieNode e _ _ => e end.
Definition trieToken (n : TrieNode) : Token :=
  match n with mkTrieNode _ t _ => t end.
Definition children (n : TrieNode) : Z -> option TrieNode :=
  match n with mkTrieNode _ _ c => c end.

(* ================================================================== *)
(** * Characters and C strings *)
(* ================================================================== *)

Definition code (c : ascii) : Z := Z.of_N (N_of_ascii c).

Definition NUL : ascii := Ascii.zero.
Definition NL : ascii := "010"%char.
Definition TAB : ascii := "009"%char.
Definition CR : ascii := "013"%char.

Definition char_eqb (a b : ascii) : bool := code a =? code b.

(** [<ctype.h>] in the C locale. *)
Definition isdigit (c : ascii) : bool :=
  (code "0" <=? code c) && (code c <=? code "9").
Definition islower (c : ascii) : bool :=
  (code "a" <=? code c) && (code c <=? code "z").
Definition isupper (c : ascii) : bool :=
  (code "A" <=? code c) && (code c <=? code "Z").
Definition isalpha (c : ascii) : bool := isupper c || islower c.

(** The C string stored in a [char] array: everything before the first
    NUL. *)
Fixpoint cstring (l : list ascii) : string :=
  match l with
  | [] => EmptyString
  | c :: l' => if char_eqb c NUL then EmptyString else String c (cstring l')
  end.

(* ================================================================== *)
(** * The input stream ([FILE*]) *)
(* ================================================================== *)

(** The bytes not read yet and the end-of-file indicator. *)
Record FILE : Type := mkFILE {
  unread : list ascii;
  eof_flag : bool
}.

Definition fopen_contents (bytes : list ascii) : FILE :=
  {| unread := bytes; eof_flag := false |}.

Definition feof (fp : FILE) : bool := eof_flag fp.

(** [fread(dst, 1, n, fp)]: up to [n] bytes; a short read sets the
    end-of-file indicator. *)
Definition fread (n : nat) (fp : FILE) : list ascii * FILE :=
  let data := firstn n (unread fp) in
  (data,
   {| unread := skipn n (unread fp);
      eof_flag := eof_flag fp || (List.length data <? n)%nat |}).

(* ================================================================== *)
(** * lexer.c: trie and symbol table *)
(* ================================================================== *)

(** [newTrieNode]; the token field of a fresh node is never read. *)
Definition newTrieNode : TrieNode :=
  mkTrieNode false TK_NOT_FOUND (fun _ => None).

Definition initTrie : TrieNode := newTrieNode.

Fixpoint addKeyword (curr : TrieNode) (word : string) (tkType : Token)
  : TrieNode :=
  match word with
  | EmptyString => mkTrieNode true tkType (children curr)
  | String c word' =>
      let idx := code c - code "a" in
      let child := match children curr idx with
                   | Some n => n
                   | None => newTrieNode
                   end in
      mkTrieNode (isEnd curr) (trieToken curr)
        (fun j => if j =? idx
                  then Some (addKeyword child word' tkType)
                  else children curr j)
  end.

Fixpoint findKeyword (curr : TrieNode) (word : string) : Token :=
  match word with
  | EmptyString => if isEnd curr then trieToken curr else TK_NOT_FOUND
  | String c word' =>
      match children curr (code c - code "a") with
      | None => TK_NOT_FOUND
      | Some n => findKeyword n word'
      end
  end.

Definition newSymbolTable : SymbolTable := [].

Definition addToken (table : SymbolTable) (e : SymbolTableEntry)
  : SymbolTable := table ++ [e].

Definition newSymbolTableEntry (lex : string) (tkType : Token) (numVal : Q)
  : SymbolTableEntry :=
  {| lexeme := lex; tokenType := tkType; numericValue := numVal |}.

(** Linear scan with [strcmp]; the first match is returned. *)
Fixpoint lookupToken (table : SymbolTable) (lex : string)
  : option SymbolTableEntry :=
  match table with
  | [] => None
  | e :: table' =>
      if String.eqb lex (lexeme e) then Some e else lookupToken table' lex
  end.

Definition createTokenList : TokenList := [].

Definition newTokenNode (e : SymbolTableEntry) (line : Z) : TokenNode :=
  {| entry := e; lineNum := line |}.

Definition appendTokenNode (l : TokenList) (node : TokenNode) : TokenList :=
  l ++ [node].

Definition setupKeywordTrie (keywordTrie : TrieNode) : TrieNode :=
  fold_left (fun t kw => addKeyword t (fst kw) (snd kw))
    [("with", WITH); ("parameters", PARAMETERS); ("end", END);
     ("while", WHILE); ("union", UNION); ("endunion", ENDUNION);
     ("definetype", DEFINETYPE); ("as", AS); ("type", TYPE);
     ("global", GLOBAL); ("parameter", PARAMETER); ("list", LIST);
     ("input", INPUT); ("output", OUTPUT); ("int", INT); ("real", REAL);
     ("endwhile", ENDWHILE); ("if", IF); ("then", THEN); ("endif", ENDIF);
     ("read", READ); ("write", WRITE); ("return", RETURN); ("call", CALL);
     ("record", RECORD); ("endrecord", ENDRECORD); ("else", ELSE)]%string
    keywordTrie.

(* ================================================================== *)
(** * lexer.c: twin buffer *)
(* ================================================================== *)

(** What [getAllTokens] owns and [getNextToken] works on: the stream,
    [twinBuffer], [fwdPtr], [lineNumber], the global [retractFlag] and
    the symbol table. *)
Record LexerState : Type := mkLexerState {
  fp : FILE;
  buffer : list ascii;
  forwardPtr : Z;
  lineNumber : Z;
  retractFlag : bool;
  symTable : SymbolTable
}.

Definition set_forwardPtr (f : Z) (st : LexerState) : LexerState :=
  {| fp := fp st; buffer := buffer st; forwardPtr := f;
     lineNumber := lineNumber st; retractFlag := retractFlag st;
     symTable := symTable st |}.

Definition set_retractFlag (b : bool) (st : LexerState) : LexerState :=
  {| fp := fp st; buffer := buffer st; forwardPtr := forwardPtr st;
     lineNumber := lineNumber st; retractFlag := b;
     symTable := symTable st |}.

Definition set_lineNumber (n : Z) (st : LexerState) : LexerState :=
  {| fp := fp st; buffer := buffer st; forwardPtr := forwardPtr st;
     lineNumber := n; retractFlag := retractFlag st;
     symTable := symTable st |}.

Definition set_symTable (t : SymbolTable) (st : LexerState) : LexerState :=
  {| fp := fp st; buffer := buffer st; forwardPtr := forwardPtr st;
     lineNumber := lineNumber st; retractFlag := retractFlag st;
     symTable := t |}.

Definition set_stream (f : FILE) (b : list ascii) (st : LexerState)
  : LexerState :=
  {| fp := f; buffer := b; forwardPtr := forwardPtr st;
     lineNumber := lineNumber st; retractFlag := retractFlag st;
     symTable := symTable st |}.

(** [buffer[i]]. *)
Definition buf_get (b : list ascii) (i : Z) : ascii :=
  nth (Z.to_nat i) b NUL.

(** [buffer[i] = c], inside the array. *)
Fixpoint poke (i : nat) (c : ascii) (b : list ascii) {struct b}
  : list ascii :=
  match b, i with
  | [], _ => []
  | _ :: b', O => c :: b'
  | x :: b', S i' => x :: poke i' c b'
  end.

Definition buf_set (b : list ascii) (i : Z) (c : ascii) : list ascii :=
  poke (Z.to_nat i) c b.

(** The bytes [data] stored from index [off] on. *)
Fixpoint blit (off : nat) (data : list ascii) (b : list ascii)
  : list ascii :=
  match data with
  | [] => b
  | c :: data' => blit (S off) data' (poke off c b)
  end.

(** One refill of the half that starts at [off]: the body shared by the
    two branches of [fetchNextChar]. *)
Definition refill (off : Z) (st : LexerState) : LexerState :=
  if feof (fp st) then
    set_stream (fp st) (buf_set (buffer st) off NUL) st
  else
    let (data, fp') := fread (Z.to_nat BUFFER_SZ) (fp st) in
    let bytesRead := Z.of_nat (List.length data) in
    let b := blit (Z.to_nat off) data (buffer st) in
    if bytesRead <? BUFFER_SZ
    then set_stream fp' (buf_set b (off + bytesRead) NUL) st
    else set_stream fp' b st.

(** The two tests at the head of [fetchNextChar]. *)
Definition refill_at_boundary (st : LexerState) : LexerState :=
  if (forwardPtr st =? BUFFER_SZ - 1) && negb (retractFlag st) then
    refill BUFFER_SZ st
  else if (forwardPtr st =? 2 * BUFFER_SZ - 1) && negb (retractFlag st)
  then refill 0 st
  else st.

Definition fetchNextChar (st : LexerState) : ascii * LexerState :=
  let st1 := refill_at_boundary st in
  let st2 := if retractFlag st1 then set_retractFlag false st1 else st1 in
  let f := (forwardPtr st2 + 1) mod (2 * BUFFER_SZ) in
  (buf_get (buffer st2) f, set_forwardPtr f st2).

(** [getLexemeLength]. *)
Definition getLexemeLength (begPtr fwd : Z) : Z :=
  if fwd >=? begPtr then fwd - begPtr + 1
  else 2 * BUFFER_SZ + fwd - begPtr + 1.

(** The characters [extractLexeme] copies into [lexeme], before the
    terminating NUL. *)
Definition lexeme_slice (beginPtr : Z) (st : LexerState) : list ascii :=
  if forwardPtr st >=? beginPtr then
    map (fun i => buf_get (buffer st) (beginPtr + Z.of_nat i))
        (seq 0 (Z.to_nat (forwardPtr st - beginPtr + 1)))
  else
    map (fun i => buf_get (buffer st)
                    ((beginPtr + Z.of_nat i) mod (2 * BUFFER_SZ)))
        (seq 0 (Z.to_nat (forwardPtr st + 2 * BUFFER_SZ - beginPtr + 1))).

(** [extractLexeme] into the local [char lexeme[BUFFER_SZ]]: [None] when
    the copy and its NUL would not fit in the array. *)
Definition extractLexeme (beginPtr : Z) (st : LexerState)
  : option (list ascii) :=
  let l := lexeme_slice beginPtr st in
  if Z.of_nat (List.length l) <? BUFFER_SZ then Some l else None.

(** The retraction every accepting state with a look-ahead performs:
    the cursor steps back by one, wraps below zero, and [retractFlag] is
    set at the end of a half. *)
Definition retract (st : LexerState) : LexerState :=
  let f := forwardPtr st - 1 in
  let f := if f <? 0 then f + 2 * BUFFER_SZ else f in
  let st' := set_forwardPtr f st in
  if (f =? BUFFER_SZ - 1) || (f =? 2 * BUFFER_SZ - 1)
  then set_retractFlag true st' else st'.

(** The two-character retraction of the states 60 and 66. *)
Definition retract2 (st : LexerState) : LexerState :=
  let f := forwardPtr st - 2 in
  let f := if f <? 0 then f + 2 * BUFFER_SZ else f in
  let st' := set_forwardPtr f st in
  if (f =? BUFFER_SZ - 1) || (f =? BUFFER_SZ - 2)
     || (f =? 2 * BUFFER_SZ - 1) || (f =? 2 * BUFFER_SZ - 2)
  then set_retractFlag true st' else st'.

(** The pattern that ends every accepting state:
    [e = lookupToken(symTable, lexeme);
     if (!e) { e = newSymbolTableEntry(lexeme, tk, val); addToken(symTable, e); }
     tokenNode = newTokenNode(e, *lineNum);]. *)
Definition lookup_or_add (lex : string) (tk : Token) (val : Q)
  (st : LexerState) : TokenNode * LexerState :=
  match lookupToken (symTable st) lex with
  | Some e => (newTokenNode e (lineNumber st), st)
  | None =>
      let e := newSymbolTableEntry lex tk val in
      (newTokenNode e (lineNumber st),
       set_symTable (addToken (symTable st) e) st)
  end.

(* ================================================================== *)
(** * lexer.c: numeric values *)
(* ================================================================== *)

(** [c - '0']. *)
Definition digit_val (c : ascii) : Z := code c - code "0".

(** The [double] nearest to the integer [n], for the values [numVal]
    takes: integers from 0 up to the largest finite [double].  A [double]
    has a significand of 53 bits: an integer below [2 ^ 53] is one, a
    larger one is rounded to a multiple of the power of two [2 ^ e] that
    leaves 53 bits, to the nearest, and to the even one of two that are
    equally near. *)
Definition to_double (n : Z) : Z :=
  if n <? 2 ^ 53 then n
  else
    let e := Z.log2 n - 52 in
    let q := n / 2 ^ e in
    let r := n mod 2 ^ e in
    let half := 2 ^ (e - 1) in
    let q' :=
      if r <? half then q
      else if half <? r then q + 1
      else if Z.even q then q else q + 1 in
    q' * 2 ^ e.

(** [for (i = 0; lexeme[i]; i++) numVal = numVal * 10 + (lexeme[i] - '0')]
    with [double numVal]: the product and the sum are each rounded to a
    [double].  The lexeme has fewer than 256 characters, so the value
    stays far below the largest [double]. *)
Fixpoint num_loop (acc : Z) (l : list ascii) : Z :=
  match l with
  | [] => acc
  | c :: l' =>
      if char_eqb c NUL then acc
      else num_loop (to_double (to_double (acc * 10) + digit_val c)) l'
  end.

Definition num_value (l : list ascii) : Q := inject_Z (num_loop 0 l).

(** [for (i = 0; lexeme[i] != '.'; i++) val = val * 10 + (lexeme[i] - '0')]:
    the value and the rest of the array from the dot on.  The loop leaves
    the array when there is no dot. *)
Fixpoint int_part (acc : Z) (l : list ascii) : option (Z * list ascii) :=
  match l with
  | [] => None
  | c :: l' =>
      if char_eqb c "." then Some (acc, l)
      else int_part (acc * 10 + digit_val c) l'
  end.

(** [lexeme[i + k]] for the tail [l] that starts at index [i]. *)
Definition at_off (l : list ascii) (k : nat) : ascii := nth k l NUL.

(** [val += (lexeme[i+1] - '0') / 10.0 + (lexeme[i+2] - '0') / 100.0].
    The value of a real literal is kept as the exact rational of this
    expression; the [double] the code stores is that rational rounded. *)
Definition mantissa (ip : Z) (from_dot : list ascii) : Q :=
  (inject_Z ip
   + (inject_Z (digit_val (at_off from_dot 1)) / 10
      + inject_Z (digit_val (at_off from_dot 2)) / 100))%Q.

(** States 6 and 60-61: a real literal without exponent. *)
Definition rnum_value (l : list ascii) : Q :=
  match int_part 0 l with
  | Some (ip, from_dot) => mantissa ip from_dot
  | None => 0%Q
  end.

(** State 7.  After [i += 4] the index is on the first character behind
    the [E]:
    [if (isdigit(lexeme[i])) exp = lexeme[i] * 10 + lexeme[i+1];
     else exp = lexeme[i+1] * 10 + lexeme[i+2];
     if (lexeme[i] == '-') exp = -exp;]
    The characters enter the sum with their codes. *)
Definition exponent (from_dot : list ascii) : Z :=
  let e :=
    if isdigit (at_off from_dot 4)
    then code (at_off from_dot 4) * 10 + code (at_off from_dot 5)
    else code (at_off from_dot 5) * 10 + code (at_off from_dot 6) in
  if char_eqb (at_off from_dot 4) "-" then - e else e.

(** [val *= pow(10, exp)]. *)
Definition rnum_exp_value (l : list ascii) : Q :=
  match int_part 0 l with
  | Some (ip, from_dot) =>
      (mantissa ip from_dot * Qpower (inject_Z 10) (exponent from_dot))%Q
  | None => 0%Q
  end.

(* ================================================================== *)
(** * lexer.c: the DFA of [getNextToken] *)
(* ================================================================== *)

(** How a run of the modelled code ends. *)
Inductive outcome (R : Type) : Type :=
  | Ok (r : R)        (* the function returned *)
  | OutOfFuel         (* still looping when the fuel ran out *)
  | Undefined.        (* an array of the C code was overrun *)
Arguments Ok {R} r.
Arguments OutOfFuel {R}.
Arguments Undefined {R}.

(** What one pass through the [switch] does. *)
Inductive step_result : Type :=
  | Goto (state beginPtr : Z) (st : LexerState)   (* [break] *)
  | Return (tokenNode : option TokenNode) (st : LexerState)
  | Overrun                                 (* [lexeme] overrun *)
  | Starved.                                (* inner loop out of fuel *)

Definition no_value (_ : list ascii) : Q := 0%Q.

(** [extractLexeme], then [lookup_or_add] and [return tokenNode]. *)
Definition accept (tk : Token) (val : list ascii -> Q) (beginPtr : Z)
  (st : LexerState) : step_result :=
  match extractLexeme beginPtr st with
  | None => Overrun
  | Some l =>
      let (node, st') := lookup_or_add (cstring l) tk (val l) st in
      Return (Some node) st'
  end.

(** The accepting branch of the states 3 and 79: a keyword of the trie,
    or else a field identifier. *)
Definition accept_word (keywordTrie : TrieNode) (beginPtr : Z)
  (st : LexerState) : step_result :=
  match extractLexeme beginPtr st with
  | None => Overrun
  | Some l =>
      let tk := findKeyword keywordTrie (cstring l) in
      let kind := if Token_eqb tk TK_NOT_FOUND then FIELDID else tk in
      let (node, st') := lookup_or_add (cstring l) kind 0%Q st in
      Return (Some node) st'
  end.

(** [for (; p(ch); ch = fetchNextChar(...));] *)
Fixpoint skip_while (p : ascii -> bool) (fuel : nat) (ch : ascii)
  (st : LexerState) : option (ascii * LexerState) :=
  match fuel with
  | O => None
  | S fuel' =>
      if p ch then
        let (ch', st') := fetchNextChar st in skip_while p fuel' ch' st'
      else Some (ch, st)
  end.

(** [for (; (ch = fetchNextChar(...)) != '\n'; );] *)
Fixpoint skip_line (fuel : nat) (st : LexerState) : option LexerState :=
  match fuel with
  | O => None
  | S fuel' =>
      let (ch, st') := fetchNextChar st in
      if char_eqb ch NL then Some st' else skip_line fuel' st'
  end.

Definition is_b_d (ch : ascii) : bool :=
  (code "b" <=? code ch) && (code ch <=? code "d").
Definition is_2_7 (ch : ascii) : bool :=
  (code "2" <=? code ch) && (code ch <=? code "7").

(** [lexeme[n] = lexeme[n+1] = lexeme[n+2] = '.'; lexeme[n+3] = 0] on a
    lexeme longer than [n]. *)
Definition ellipsis (n : nat) (l : list ascii) : list ascii :=
  firstn n l ++ ["."; "."; "."]%char.

(** The block [if (getLexemeLength(beginPtr, *forwardPtr) > 20) { ... }]
    of the states 4 and 80, once the test has succeeded. *)
Definition id_length_exceeded (fuel : nat) (beginPtr : Z)
  (st : LexerState) : step_result :=
  match extractLexeme beginPtr st with
  | None => Overrun
  | Some l =>
      let (node, st1) :=
        lookup_or_add (cstring (ellipsis 20 l)) ID_LENGTH_EXC 0%Q st in
      let (ch, st2) := fetchNextChar st1 in
      match skip_while is_b_d fuel ch st2 with
      | None => Starved
      | Some (ch', st3) =>
          let st4 := retract st3 in
          if is_2_7 ch' then Goto 4 beginPtr st4
          else Return (Some node) st4
      end
  end.

(** The block [if (getLexemeLength(beginPtr, *forwardPtr) > 30) { ... }]
    of the states 8 and 81; [resume] tells whether the block ends with
    the test [if (isdigit(ch)) { state = 81; break; }] (state 8). *)
Definition fun_length_exceeded (resume : bool) (fuel : nat) (beginPtr : Z)
  (st : LexerState) : step_result :=
  match extractLexeme beginPtr st with
  | None => Overrun
  | Some l =>
      let (node, st1) :=
        lookup_or_add (cstring (ellipsis 30 l)) FUN_LENGTH_EXC 0%Q st in
      let (ch, st2) := fetchNextChar st1 in
      match skip_while isdigit fuel ch st2 with
      | None => Starved
      | Some (ch', st3) =>
          let st4 := retract st3 in
          if resume && isdigit ch' then Goto 81 beginPtr st4
          else Return (Some node) st4
      end
  end.

(** The token [getNextToken] builds when it reads NUL in state 0. *)
Definition eof_token (line : Z) : TokenNode :=
  newTokenNode (newSymbolTableEntry "" DOLLAR 0%Q) line.

(** State 0: white space, dispatch on the first character, end of
    input, unknown character. *)
Definition case_0 (beginPtr : Z) (st0 : LexerState) : step_result :=
  let (ch, st) := fetchNextChar st0 in
  if char_eqb ch NL then
    Goto 0 ((beginPtr + 1) mod (2 * BUFFER_SZ))
      (set_lineNumber (lineNumber st + 1) st)
  else if char_eqb ch " " || char_eqb ch TAB || char_eqb ch CR then
    Goto 0 ((beginPtr + 1) mod (2 * BUFFER_SZ)) st
  else if isdigit ch then Goto 5 beginPtr st
  else if char_eqb ch "%" then Goto 65 beginPtr st
  else if char_eqb ch ">" then Goto 56 beginPtr st
  else if char_eqb ch "<" then Goto 53 beginPtr st
  else if char_eqb ch "=" then Goto 68 beginPtr st
  else if char_eqb ch "_" then Goto 69 beginPtr st
  else if char_eqb ch "/" then Goto 45 beginPtr st
  else if char_eqb ch "@" then Goto 73 beginPtr st
  else if char_eqb ch "*" then Goto 44 beginPtr st
  else if char_eqb ch "#" then Goto 75 beginPtr st
  else if char_eqb ch "[" then Goto 23 beginPtr st
  else if char_eqb ch "]" then Goto 24 beginPtr st
  else if char_eqb ch "," then Goto 29 beginPtr st
  else if char_eqb ch ":" then Goto 31 beginPtr st
  else if char_eqb ch ";" then Goto 30 beginPtr st
  else if char_eqb ch "+" then Goto 42 beginPtr st
  else if char_eqb ch ")" then Goto 35 beginPtr st
  else if char_eqb ch "-" then Goto 43 beginPtr st
  else if char_eqb ch "(" then Goto 34 beginPtr st
  else if char_eqb ch "&" then Goto 76 beginPtr st
  else if char_eqb ch "~" then Goto 52 beginPtr st
  else if char_eqb ch "!" then Goto 78 beginPtr st
  else if char_eqb ch "a" || ((code ch >? code "d") && (code ch <=? code "z"))
  then Goto 3 beginPtr st
  else if is_b_d ch then Goto 79 beginPtr st
  else if char_eqb ch "." then Goto 59 beginPtr st
  else if char_eqb ch NUL then
    Return (Some (newTokenNode (newSymbolTableEntry (cstring [ch]) DOLLAR 0%Q)
                               (lineNumber st))) st
  else
    let (node, st') := lookup_or_add (cstring [ch]) LEXICAL_ERROR 0%Q st in
    Return (Some node) st'.

(** A state that reads one character, moves on [ch == c] and otherwise
    retracts and accepts [tk] (a token or a lexical error): the states 56,
    67, 68, 73, 74, 76, 77, 78. *)
Definition one_or_accept (c : ascii) (next : Z) (tk : Token) (beginPtr : Z)
  (st0 : LexerState) : step_result :=
  let (ch, st) := fetchNextChar st0 in
  if char_eqb ch c then Goto next beginPtr st
  else accept tk no_value beginPtr (retract st).

Definition case_3 (keywordTrie : TrieNode) (beginPtr : Z) (st0 : LexerState)
  : step_result :=
  let (ch, st) := fetchNextChar st0 in
  if negb (islower ch) then accept_word keywordTrie beginPtr (retract st)
  else Goto 3 beginPtr st.

Definition case_4 (fuel : nat) (beginPtr : Z) (st0 : LexerState)
  : step_result :=
  let (ch, st) := fetchNextChar st0 in
  if (code ch <? code "2") || (code ch >? code "7") then
    accept ID no_value beginPtr (retract st)
  else if getLexemeLength beginPtr (forwardPtr st) >? 20 then
    id_length_exceeded fuel beginPtr st
  else Goto 4 beginPtr st.

Definition case_5 (beginPtr : Z) (st0 : LexerState) : step_result :=
  let (ch, st) := fetchNextChar st0 in
  if char_eqb ch "." then Goto 60 beginPtr st
  else if negb (isdigit ch) then accept NUM num_value beginPtr (retract st)
  else Goto 5 beginPtr st.

Definition case_6 (beginPtr : Z) (st0 : LexerState) : step_result :=
  let (ch, st) := fetchNextChar st0 in
  if char_eqb ch "E" then Goto 62 beginPtr st
  else accept RNUM rnum_value beginPtr (retract st).

Definition case_7 (beginPtr : Z) (st : LexerState) : step_result :=
  accept RNUM rnum_exp_value beginPtr st.

Definition case_8 (fuel : nat) (beginPtr : Z) (st0 : LexerState)
  : step_result :=
  let (ch, st) := fetchNextChar st0 in
  if negb (isdigit ch) && negb (isalpha ch) then
    accept FUNID no_value beginPtr (retract st)
  else if getLexemeLength beginPtr (forwardPtr st) >? 30 then
    fun_length_exceeded true fuel beginPtr st
  else Goto (if isdigit ch then 81 else 8) beginPtr st.

Definition case_9 (beginPtr : Z) (st0 : LexerState) : step_result :=
  let (ch, st) := fetchNextChar st0 in
  if negb (islower ch) then accept RUID no_value beginPtr (retract st)
  else Goto 9 beginPtr st.

Definition case_19 (beginPtr : Z) (st0 : LexerState) : step_result :=
  let (ch, st) := fetchNextChar st0 in
  if isalpha ch then Goto 8 beginPtr st
  else if isdigit ch then Goto 81 beginPtr st
  else accept MAIN no_value beginPtr (retract st).

Definition case_53 (beginPtr : Z) (st0 : LexerState) : step_result :=
  let (ch, st) := fetchNextChar st0 in
  if char_eqb ch "-" then Goto 66 beginPtr st
  else if char_eqb ch "=" then Goto 54 beginPtr st
  else accept LT no_value beginPtr (retract st).

Definition case_60 (beginPtr : Z) (st0 : LexerState) : step_result :=
  let (ch, st) := fetchNextChar st0 in
  if isdigit ch then Goto 61 beginPtr st
  else accept NUM num_value beginPtr (retract2 st).

(** A state that moves on a digit and otherwise retracts and reports a
    lexical error: the states 61, 63, 64. *)
Definition digit_or_error (next : Z) (beginPtr : Z) (st0 : LexerState)
  : step_result :=
  let (ch, st) := fetchNextChar st0 in
  if isdigit ch then Goto next beginPtr st
  else accept LEXICAL_ERROR no_value beginPtr (retract st).

Definition case_62 (beginPtr : Z) (st0 : LexerState) : step_result :=
  let (ch, st) := fetchNextChar st0 in
  if isdigit ch then Goto 64 beginPtr st
  else if char_eqb ch "+" || char_eqb ch "-" then Goto 63 beginPtr st
  else accept LEXICAL_ERROR no_value beginPtr (retract st).

(** State 65: the comment token, then the rest of the line. *)
Definition case_65 (fuel : nat) (beginPtr : Z) (st : LexerState)
  : step_result :=
  match extractLexeme beginPtr st with
  | None => Overrun
  | Some l =>
      let (node, st1) := lookup_or_add (cstring l) COMMENT 0%Q st in
      match skip_line fuel st1 with
      | None => Starved
      | Some st2 =>
          Return (Some node) (set_lineNumber (lineNumber st2 + 1) st2)
      end
  end.

Definition case_66 (beginPtr : Z) (st0 : LexerState) : step_result :=
  let (ch, st) := fetchNextChar st0 in
  if char_eqb ch "-" then Goto 67 beginPtr st
  else accept LT no_value beginPtr (retract2 st).

Definition case_69 (beginPtr : Z) (st0 : LexerState) : step_result :=
  let (ch, st) := fetchNextChar st0 in
  if char_eqb ch "m" then Goto 70 beginPtr st
  else if isalpha ch then Goto 8 beginPtr st
  else accept LEXICAL_ERROR no_value beginPtr (retract st).

(** The states 70, 71, 72 that spell [_main]: a digit leads to 81, the
    next letter [c] of the word to [next], another letter to 8. *)
Definition main_prefix (c : ascii) (next : Z) (beginPtr : Z)
  (st0 : LexerState) : step_result :=
  let (ch, st) := fetchNextChar st0 in
  if isdigit ch then Goto 81 beginPtr st
  else if char_eqb ch c then Goto next beginPtr st
  else if isalpha ch then Goto 8 beginPtr st
  else accept FUNID no_value beginPtr (retract st).

Definition case_75 (beginPtr : Z) (st0 : LexerState) : step_result :=
  let (ch, st) := fetchNextChar st0 in
  if islower ch then Goto 9 beginPtr st
  else accept LEXICAL_ERROR no_value beginPtr (retract st).

Definition case_79 (keywordTrie : TrieNode) (beginPtr : Z)
  (st0 : LexerState) : step_result :=
  let (ch, st) := fetchNextChar st0 in
  if islower ch then Goto 3 beginPtr st
  else if is_2_7 ch then Goto 80 beginPtr st
  else accept_word keywordTrie beginPtr (retract st).

Definition case_80 (fuel : nat) (beginPtr : Z) (st0 : LexerState)
  : step_result :=
  let (ch, st) := fetchNextChar st0 in
  if negb (is_2_7 ch) && ((code ch <? code "b") || (code ch >? code "d"))
  then accept ID no_value beginPtr (retract st)
  else if getLexemeLength beginPtr (forwardPtr st) >? 20 then
    id_length_exceeded fuel beginPtr st
  else Goto (if is_2_7 ch then 4 else 80) beginPtr st.

Definition case_81 (fuel : nat) (beginPtr : Z) (st0 : LexerState)
  : step_result :=
  let (ch, st) := fetchNextChar st0 in
  if negb (isdigit ch) then accept FUNID no_value beginPtr (retract st)
  else if getLexemeLength beginPtr (forwardPtr st) >? 30 then
    fun_length_exceeded false fuel beginPtr st
  else Goto 81 beginPtr st.

(** The [switch (state)]. *)
Definition dfa_step (keywordTrie : TrieNode) (fuel : nat) (state : Z)
  (beginPtr : Z) (st : LexerState) : step_result :=
  match state with
  | 0 => case_0 beginPtr st
  | 1 => accept ASSIGNOP no_value beginPtr st
  | 2 => Goto 2 beginPtr st
  | 3 => case_3 keywordTrie beginPtr st
  | 4 => case_4 fuel beginPtr st
  | 5 => case_5 beginPtr st
  | 6 => case_6 beginPtr st
  | 7 => case_7 beginPtr st
  | 8 => case_8 fuel beginPtr st
  | 9 => case_9 beginPtr st
  | 19 => case_19 beginPtr st
  | 23 => accept SQL no_value beginPtr st
  | 24 => accept SQR no_value beginPtr st
  | 29 => accept COMMA no_value beginPtr st
  | 30 => accept SEM no_value beginPtr st
  | 31 => accept COLON no_value beginPtr st
  | 34 => accept OP no_value beginPtr st
  | 35 => accept CL no_value beginPtr st
  | 42 => accept PLUS no_value beginPtr st
  | 43 => accept MINUS no_value beginPtr st
  | 44 => accept MUL no_value beginPtr st
  | 45 => accept DIV no_value beginPtr st
  | 50 => accept AND no_value beginPtr st
  | 51 => accept OR no_value beginPtr st
  | 52 => accept NOT no_value beginPtr st
  | 53 => case_53 beginPtr st
  | 54 => accept LE no_value beginPtr st
  | 55 => accept EQ no_value beginPtr st
  | 56 => one_or_accept "=" 57 GT beginPtr st
  | 57 => accept GE no_value beginPtr st
  | 58 => accept NE no_value beginPtr st
  | 59 => accept DOT no_value beginPtr st
  | 60 => case_60 beginPtr st
  | 61 => digit_or_error 6 beginPtr st
  | 62 => case_62 beginPtr st
  | 63 => digit_or_error 64 beginPtr st
  | 64 => digit_or_error 7 beginPtr st
  | 65 => case_65 fuel beginPtr st
  | 66 => case_66 beginPtr st
  | 67 => one_or_accept "-" 1 LEXICAL_ERROR beginPtr st
  | 68 => one_or_accept "=" 55 LEXICAL_ERROR beginPtr st
  | 69 => case_69 beginPtr st
  | 70 => main_prefix "a" 71 beginPtr st
  | 71 => main_prefix "i" 72 beginPtr st
  | 72 => main_prefix "n" 19 beginPtr st
  | 73 => one_or_accept "@" 74 LEXICAL_ERROR beginPtr st
  | 74 => one_or_accept "@" 51 LEXICAL_ERROR beginPtr st
  | 75 => case_75 beginPtr st
  | 76 => one_or_accept "&" 77 LEXICAL_ERROR beginPtr st
  | 77 => one_or_accept "&" 50 LEXICAL_ERROR beginPtr st
  | 78 => one_or_accept "=" 58 LEXICAL_ERROR beginPtr st
  | 79 => case_79 keywordTrie beginPtr st
  | 80 => case_80 fuel beginPtr st
  | 81 => case_81 fuel beginPtr st
  | _ => Return None st           (* "Invalid state in DFA" *)
  end.

(** [while (true) switch (state) ...]. *)
Fixpoint dfa_loop (keywordTrie : TrieNode) (fuel : nat) (state : Z)
  (beginPtr : Z) (st : LexerState)
  : outcome (option TokenNode * LexerState) :=
  match fuel with
  | O => OutOfFuel
  | S fuel' =>
      match dfa_step keywordTrie fuel' state beginPtr st with
      | Goto state' beginPtr' st' =>
          dfa_loop keywordTrie fuel' state' beginPtr' st'
      | Return tokenNode st' => Ok (tokenNode, st')
      | Overrun => Undefined
      | Starved => OutOfFuel
      end
  end.

Definition getNextToken (keywordTrie : TrieNode) (fuel : nat)
  (st : LexerState) : outcome (option TokenNode * LexerState) :=
  dfa_loop keywordTrie fuel 0
           ((forwardPtr st + 1) mod (2 * BUFFER_SZ)) st.

(** The loop of [getAllTokens]. *)
Fixpoint getAllTokens_loop (keywordTrie : TrieNode) (fuel : nat)
  (st : LexerState) (tokenList : TokenList)
  : outcome (TokenList * LexerState) :=
  match fuel with
  | O => OutOfFuel
  | S fuel' =>
      match getNextToken keywordTrie fuel' st with
      | Ok (None, st') => Ok (tokenList, st')     (* "No token retrieved" *)
      | Ok (Some tkNode, st') =>
          let tokenList' := appendTokenNode tokenList tkNode in
          if Token_eqb (tokenType (entry tkNode)) DOLLAR
          then Ok (tokenList', st')
          else getAllTokens_loop keywordTrie fuel' st' tokenList'
      | OutOfFuel => OutOfFuel
      | Undefined => Undefined
      end
  end.

(** The state [getAllTokens] starts from; [twinBuffer] is an
    uninitialised local array, its bytes [garbage] are arbitrary. *)
Definition initial_state (file : FILE) (garbage : list ascii) : LexerState :=
  {| fp := file; buffer := garbage; forwardPtr := 2 * BUFFER_SZ - 1;
     lineNumber := 1; retractFlag := false; symTable := newSymbolTable |}.

Definition keywords : TrieNode := setupKeywordTrie initTrie.

Definition getAllTokens (fuel : nat) (file : FILE) (garbage : list ascii)
  : outcome (TokenList * LexerState) :=
  getAllTokens_loop keywords fuel (initial_state file garbage)
                    createTokenList.

(* ================================================================== *)
(** * parserDef.h *)
(* ================================================================== *)

Definition MAX_GRAMMAR_RULES : Z := 100.

(** [typedef enum NonTerminal], in declaration order: [NT_NOT_FOUND] is
    52 and [actualOrRedefined], declared after it, is 53.  The arrays
    [AutoFirst], [AutoFollow], [parseTable] and [nonTerminalToString]
    have [NT_NOT_FOUND] rows. *)
Inductive NonTerminal : Type :=
  | program | otherFunctions | mainFunction | stmts | stmt | function
  | input_par | output_par | parameter_list | dataType | remaining_list
  | primitiveDatatype | constructedDatatype | typeDefinitions
  | typeDefinition | declarations | declaration | otherStmts | returnStmt
  | definetypestmt | fieldDefinition | fieldDefinitions | fieldType
  | moreFields | global_or_not | assignmentStmt | iterativeStmt
  | conditionalStmt | elsePart | ioStmt | funCallStmt
  | option_single_constructed | outputParameters | inputParameters
  | highPrecedenceOperators | lowPrecedenceOperators | oneExpansion
  | moreExpansions | expPrime | term | termPrime | factor | more_ids | A
  | idList | relationalOp | optionalReturn | var | logicalOp
  | arithmeticExpression | SingleOrRecId | booleanExpression
  | NT_NOT_FOUND | actualOrRedefined.

Definition all_nonterminals : list NonTerminal :=
  [program; otherFunctions; mainFunction; stmts; stmt; function;
   input_par; output_par; parameter_list; dataType; remaining_list;
   primitiveDatatype; constructedDatatype; typeDefinitions;
   typeDefinition; declarations; declaration; otherStmts; returnStmt;
   definetypestmt; fieldDefinition; fieldDefinitions; fieldType;
   moreFields; global_or_not; assignmentStmt; iterativeStmt;
   conditionalStmt; elsePart; ioStmt; funCallStmt;
   option_single_constructed; outputParameters; inputParameters;
   highPrecedenceOperators; lowPrecedenceOperators; oneExpansion;
   moreExpansions; expPrime; term; termPrime; factor; more_ids; A;
   idList; relationalOp; optionalReturn; var; logicalOp;
   arithmeticExpression; SingleOrRecId; booleanExpression;
   NT_NOT_FOUND; actualOrRedefined].

Definition NonTerminal_tag (n : NonTerminal) : nat :=
  match n with
  | program => 0 | otherFunctions => 1 | mainFunction => 2 | stmts => 3
  | stmt => 4 | function => 5 | input_par => 6 | output_par => 7
  | parameter_list => 8 | dataType => 9 | remaining_list => 10
  | primitiveDatatype => 11 | constructedDatatype => 12
  | typeDefinitions => 13 | typeDefinition => 14 | declarations => 15
  | declaration => 16 | otherStmts => 17 | returnStmt => 18
  | definetypestmt => 19 | fieldDefinition => 20 | fieldDefinitions => 21
  | fieldType => 22 | moreFields => 23 | global_or_not => 24
  | assignmentStmt => 25 | iterativeStmt => 26 | conditionalStmt => 27
  | elsePart => 28 | ioStmt => 29 | funCallStmt => 30
  | option_single_constructed => 31 | outputParameters => 32
  | inputParameters => 33 | highPrecedenceOperators => 34
  | lowPrecedenceOperators => 35 | oneExpansion => 36
  | moreExpansions => 37 | expPrime => 38 | term => 39 | termPrime => 40
  | factor => 41 | more_ids => 42 | A => 43 | idList => 44
  | relationalOp => 45 | optionalReturn => 46 | var => 47
  | logicalOp => 48 | arithmeticExpression => 49 | SingleOrRecId => 50
  | booleanExpression => 51 | NT_NOT_FOUND => 52 | actualOrRedefined => 53
  end%nat.

(** The integer value of an enumerator. *)
Definition NonTerminal_to_Z (n : NonTerminal) : Z :=
  Z.of_nat (NonTerminal_tag n).

Definition NonTerminal_eqb (a b : NonTerminal) : bool :=
  NonTerminal_to_Z a =? NonTerminal_to_Z b.

(** [struct SymbolUnit]: the tag [isNonTerminal] and the union. *)
Inductive SymbolUnit : Type :=
  | NonTerminalSym (nt : NonTerminal)
  | TerminalSym (t : Token).

(** [struct GrammarRule].  The left-hand side is always built with
    [isNonTerminal = true] and read through [lhs->value.nt]; the
    right-hand side is the [SymbolList] from [head] on. *)
Record GrammarRule : Type := mkRule {
  lhs : NonTerminal;
  rhs : list SymbolUnit
}.

(** [struct FirstFollowSet]: the tokens from [head] to [tail]. *)
Definition FirstFollowSet : Type := list Token.

(** [FirstFollowSet** AutoFirst] and [AutoFollow]: one set per row.
    The arrays have a row for each non-terminal in front of
    [NT_NOT_FOUND]; the function has a value for the two others as well,
    which stands for memory outside the array.  The statements about the
    computation of the sets are made for grammars that keep the code
    inside the rows ([rows_in_range]). *)
Definition FirstFollowTable : Type := NonTerminal -> FirstFollowSet.

(** [GrammarRule*** parseTable]; [None] is the NULL cell.  The array has
    a row for each non-terminal in front of [NT_NOT_FOUND] and in each
    row a cell for each token in front of [TK_NOT_FOUND]; the other
    arguments of the function stand for memory outside the array
    ([has_row], [has_column]). *)
Definition ParseTable : Type := NonTerminal -> Token -> option GrammarRule.

(** [struct ParseNode]; [children] holds the indices of the child nodes
    in the node store, [symbol] is set right after [createParseNode]. *)
Record ParseNode : Type := mkParseNode {
  symbol : SymbolUnit;
  ste : option SymbolTableEntry;
  pn_children : list nat;
  pn_lineNumber : Z
}.

(* ================================================================== *)
(** * parser.c: FIRST and FOLLOW *)
(* ================================================================== *)

Definition existsInFirstFollow (lst : FirstFollowSet) (tmpkey : Token)
  : bool :=
  existsb (fun tk => Token_eqb tk tmpkey) lst.

Definition insertFirstFollowNode (lst : FirstFollowSet) (nd : Token)
  : FirstFollowSet := lst ++ [nd].

(** [if (!existsInFirstFollow(lst, tk)) insertFirstFollowNode(lst, tk)]. *)
Definition add_if_absent (lst : FirstFollowSet) (tk : Token)
  : FirstFollowSet :=
  if existsInFirstFollow lst tk then lst else insertFirstFollowNode lst tk.

(** The inner [for] of [getFirstOfRhs]: every token of [src] but [EPS]
    is added to [res]. *)
Definition add_all_but_eps (src : FirstFollowSet) (res : FirstFollowSet)
  : FirstFollowSet :=
  fold_left (fun r tk => if Token_eqb tk EPS then r else add_if_absent r tk)
            src res.

(** The walk of [getFirstOfRhs] from [ritr] on, with [hasEps] true. *)
Fixpoint getFirstOfRhs_from (AutoFirst : FirstFollowTable)
  (ritr : list SymbolUnit) (res : FirstFollowSet) : FirstFollowSet :=
  match ritr with
  | [] => add_if_absent res EPS
  | TerminalSym t :: _ => add_if_absent res t
  | NonTerminalSym n :: ritr' =>
      let res' := add_all_but_eps (AutoFirst n) res in
      if existsInFirstFollow (AutoFirst n) EPS
      then getFirstOfRhs_from AutoFirst ritr' res'
      else res'
  end.

Definition getFirstOfRhs (AutoFirst : FirstFollowTable)
  (grhs : list SymbolUnit) : FirstFollowSet :=
  getFirstOfRhs_from AutoFirst grhs [].

(** [tbl[n] = s]. *)
Definition set_row (tbl : FirstFollowTable) (n : NonTerminal)
  (s : FirstFollowSet) : FirstFollowTable :=
  fun m => if NonTerminal_eqb m n then s else tbl m.

(** The guarded insertion of [computeFirstSets] and [computeFollowSets]
    into row [n], with the flag [modified]. *)
Definition add_to_row (n : NonTerminal) (acc : FirstFollowTable * bool)
  (tk : Token) : FirstFollowTable * bool :=
  if existsInFirstFollow (fst acc n) tk then acc
  else (set_row (fst acc) n (insertFirstFollowNode (fst acc n) tk), true).

(** The inner [for] of [computeFirstSets] over the tokens of [src]. *)
Definition add_row_but_eps (n : NonTerminal) (src : FirstFollowSet)
  (acc : FirstFollowTable * bool) : FirstFollowTable * bool :=
  fold_left (fun a tk => if Token_eqb tk EPS then a else add_to_row n a tk)
            src acc.

(** The [while (rhsItr && hasEps)] walk of one rule in
    [computeFirstSets], and the test behind it. *)
Fixpoint first_walk (currLhs : NonTerminal) (rhsItr : list SymbolUnit)
  (acc : FirstFollowTable * bool) : FirstFollowTable * bool :=
  match rhsItr with
  | [] => add_to_row currLhs acc EPS
  | TerminalSym t :: _ => add_to_row currLhs acc t
  | NonTerminalSym n :: rhsItr' =>
      let src := fst acc n in
      let acc' := add_row_but_eps currLhs src acc in
      if existsInFirstFollow src EPS
      then first_walk currLhs rhsItr' acc'
      else acc'
  end.

(** One execution of the body of [while (modified)]: all the rules. *)
Definition first_pass (Grammar : list GrammarRule)
  (AutoFirst : FirstFollowTable) : FirstFollowTable * bool :=
  fold_left (fun acc r => first_walk (lhs r) (rhs r) acc)
            Grammar (AutoFirst, false).

Fixpoint computeFirstSets_loop (fuel : nat) (Grammar : list GrammarRule)
  (AutoFirst : FirstFollowTable) : option FirstFollowTable :=
  match fuel with
  | O => None
  | S fuel' =>
      let (AutoFirst', modified) := first_pass Grammar AutoFirst in
      if modified then computeFirstSets_loop fuel' Grammar AutoFirst'
      else Some AutoFirst'
  end.

(** The sets [initializeAndComputeFirstAndFollow] allocates. *)
Definition empty_sets : FirstFollowTable := fun _ => [].

Definition computeFirstSets (fuel : nat) (Grammar : list GrammarRule)
  : option FirstFollowTable :=
  computeFirstSets_loop fuel Grammar empty_sets.

(** The body of [while (rhsItr)] in [computeFollowSets], for the rule
    tail that starts at [rhsItr]. *)
Fixpoint follow_walk (AutoFirst : FirstFollowTable) (currLhs : NonTerminal)
  (rhsItr : list SymbolUnit) (acc : FirstFollowTable * bool)
  : FirstFollowTable * bool :=
  match rhsItr with
  | [] => acc
  | TerminalSym _ :: rhsItr' => follow_walk AutoFirst currLhs rhsItr' acc
  | NonTerminalSym b :: rhsItr' =>
      let fOfNxtT := getFirstOfRhs AutoFirst rhsItr' in
      let acc1 := add_row_but_eps b fOfNxtT acc in
      let acc2 :=
        if existsInFirstFollow fOfNxtT EPS
           || match rhsItr' with [] => true | _ => false end
        then fold_left (add_to_row b) (fst acc1 currLhs) acc1
        else acc1 in
      follow_walk AutoFirst currLhs rhsItr' acc2
  end.

Definition follow_pass (AutoFirst : FirstFollowTable)
  (Grammar : list GrammarRule) (AutoFollow : FirstFollowTable)
  : FirstFollowTable * bool :=
  fold_left (fun acc r => follow_walk AutoFirst (lhs r) (rhs r) acc)
            Grammar (AutoFollow, false).

Fixpoint computeFollowSets_loop (fuel : nat) (AutoFirst : FirstFollowTable)
  (Grammar : list GrammarRule) (AutoFollow : FirstFollowTable)
  : option FirstFollowTable :=
  match fuel with
  | O => None
  | S fuel' =>
      let (AutoFollow', modified) :=
        follow_pass AutoFirst Grammar AutoFollow in
      if modified
      then computeFollowSets_loop fuel' AutoFirst Grammar AutoFollow'
      else Some AutoFollow'
  end.

Definition computeFollowSets (fuel : nat) (AutoFirst : FirstFollowTable)
  (Grammar : list GrammarRule) : option FirstFollowTable :=
  computeFollowSets_loop fuel AutoFirst Grammar
    (set_row empty_sets program (insertFirstFollowNode [] DOLLAR)).

(* ================================================================== *)
(** * parser.c: the parse table *)
(* ================================================================== *)

(** What is written to the console. *)
Inductive Message : Type :=
  | MultipleDefinedEntries
  | CouldNotOpenGrammarFile
  | CouldNotOpenInputFile
  | ParsingStarting
  | UnrecognizedPattern (line : Z) (lex : string)
  | TooLongIdentifier (line : Z) (lex : string)
  | TooLongFunctionName (line : Z) (lex : string)
  | TokenMismatch (line : Z) (tk : Token) (lex : string) (expected : Token)
  | InvalidToken (line : Z) (tk : Token) (lex : string) (top : NonTerminal)
  | ParsingSuccessful
  | InvalidDollar (line : Z) (top : NonTerminal)
  | DollarMismatch (line : Z) (expected : Token)
  | InvalidTokenAtDollar (line : Z) (tk : Token) (lex : string)
  | HasSyntacticErrors.

Definition empty_table : ParseTable := fun _ _ => None.

(** [parseTable[n][tk] = rule]. *)
Definition set_cell (pt : ParseTable) (n : NonTerminal) (tk : Token)
  (rule : GrammarRule) : ParseTable :=
  fun m t => if NonTerminal_eqb m n && Token_eqb t tk then Some rule
             else pt m t.

(** The body shared by the two [for] loops of [addRulesToParseTable]:
    the warning when the cell is taken, then the assignment. *)
Definition write_cell (rule : GrammarRule)
  (acc : ParseTable * list Message) (tk : Token)
  : ParseTable * list Message :=
  let (pt, out) := acc in
  (set_cell pt (lhs rule) tk rule,
   match pt (lhs rule) tk with
   | Some _ => out ++ [MultipleDefinedEntries]
   | None => out
   end).

(** The body of [for (gri ...)] for one rule. *)
Definition add_rule (AutoFirst AutoFollow : FirstFollowTable)
  (acc : ParseTable * list Message) (tmpRule : GrammarRule)
  : ParseTable * list Message :=
  let fOfRhs := getFirstOfRhs AutoFirst (rhs tmpRule) in
  let acc1 := fold_left (write_cell tmpRule) fOfRhs acc in
  if existsInFirstFollow fOfRhs EPS
  then fold_left (write_cell tmpRule) (AutoFollow (lhs tmpRule)) acc1
  else acc1.

Definition addRulesToParseTable (AutoFirst AutoFollow : FirstFollowTable)
  (Grammar : list GrammarRule) (acc : ParseTable * list Message)
  : ParseTable * list Message :=
  fold_left (add_rule AutoFirst AutoFollow) Grammar acc.

(** [initializeParseTable] on its first call: every cell NULL, then the
    rules. *)
Definition initializeParseTable (AutoFirst AutoFollow : FirstFollowTable)
  (Grammar : list GrammarRule) (out : list Message)
  : ParseTable * list Message :=
  addRulesToParseTable AutoFirst AutoFollow Grammar (empty_table, out).

(* ================================================================== *)
(** * parser.c: the predictive parser *)
(* ================================================================== *)

(** The variables of [parseTokens]: the parse nodes allocated so far (a
    [ParseNode*] is an index into [nodes], the root is node 0), the
    stack of node pointers with its top first, the rest of the token
    list from [inputPtr] on ([[]] is NULL), [*hasSyntaxError], [cln] and
    the console. *)
Record ParserState : Type := mkParserState {
  nodes : list ParseNode;
  theStack : list nat;
  inputPtr : TokenList;
  hasSyntaxError : bool;
  cln : Z;
  console : list Message
}.

(** [createParseNode] followed by the assignment of [symbol]. *)
Definition createParseNode (su : SymbolUnit) : ParseNode :=
  {| symbol := su; ste := None; pn_children := []; pn_lineNumber := -1 |}.

Definition dummy_node : ParseNode := createParseNode (TerminalSym TK_NOT_FOUND).

(** [*p] for a node pointer. *)
Definition deref (ns : list ParseNode) (p : nat) : ParseNode :=
  nth p ns dummy_node.

(** [*p = f( *p )]. *)
Fixpoint update_node (p : nat) (f : ParseNode -> ParseNode)
  (ns : list ParseNode) {struct ns} : list ParseNode :=
  match ns, p with
  | [], _ => []
  | n :: ns', O => f n :: ns'
  | n :: ns', S p' => n :: update_node p' f ns'
  end.

Definition set_line (line : Z) (n : ParseNode) : ParseNode :=
  {| symbol := symbol n; ste := ste n; pn_children := pn_children n;
     pn_lineNumber := line |}.

Definition set_ste (e : SymbolTableEntry) (n : ParseNode) : ParseNode :=
  {| symbol := symbol n; ste := Some e; pn_children := pn_children n;
     pn_lineNumber := pn_lineNumber n |}.

(** [insertChild]. *)
Definition insertChild (child : nat) (n : ParseNode) : ParseNode :=
  {| symbol := symbol n; ste := ste n;
     pn_children := pn_children n ++ [child];
     pn_lineNumber := pn_lineNumber n |}.

(** [if (shouldPrint) printf(...)]. *)
Definition say (shouldPrint : bool) (out : list Message) (m : Message)
  : list Message :=
  if shouldPrint then out ++ [m] else out.

(** The [while (trItr)] loop of the expansion: one fresh node per symbol
    of the rule, appended to the children of [parent]. *)
Fixpoint create_children (parent : nat) (trItr : list SymbolUnit)
  (ns : list ParseNode) : list ParseNode :=
  match trItr with
  | [] => ns
  | su :: trItr' =>
      let pn := List.length ns in
      create_children parent trItr'
        (update_node parent (insertChild pn) (ns ++ [createParseNode su]))
  end.

(** [for (chi = size - 1; chi >= 0; chi--) pushStack(theStack, children[chi])]. *)
Definition push_children (cs : list nat) (stk : list nat) : list nat :=
  fold_left (fun s c => c :: s) (rev cs) stk.

Definition epsilon_entry : SymbolTableEntry :=
  {| lexeme := "EPSILON"; tokenType := EPS; numericValue := 0%Q |}.

(** The branch of the loop for comment and lexical-error tokens. *)
Definition skip_token (shouldPrint : bool) (tok : TokenNode)
  (rest : TokenList) (ps : ParserState) : ParserState :=
  let tt := tokenType (entry tok) in
  let lex := lexeme (entry tok) in
  let out :=
    if Token_eqb tt LEXICAL_ERROR then
      say shouldPrint (console ps) (UnrecognizedPattern (lineNum tok) lex)
    else if Token_eqb tt ID_LENGTH_EXC then
      say shouldPrint (console ps) (TooLongIdentifier (lineNum tok) lex)
    else if Token_eqb tt FUN_LENGTH_EXC then
      say shouldPrint (console ps) (TooLongFunctionName (lineNum tok) lex)
    else console ps in
  {| nodes := nodes ps; theStack := theStack ps; inputPtr := rest;
     hasSyntaxError :=
       if negb (Token_eqb tt COMMENT) then true else hasSyntaxError ps;
     cln := lineNum tok; console := out |}.

(** One execution of the body of
    [while (!isStackEmpty(theStack) && inputPtr)]. *)
Definition parse_step (shouldPrint : bool) (parseTable : ParseTable)
  (AutoFollow : FirstFollowTable) (ps : ParserState) : ParserState :=
  match theStack ps, inputPtr ps with
  | top :: stk, tok :: rest =>
      let line := lineNum tok in
      let tt := tokenType (entry tok) in
      let lex := lexeme (entry tok) in
      if Token_eqb tt COMMENT
         || (Token_to_Z tt >=? Token_to_Z LEXICAL_ERROR)
      then skip_token shouldPrint tok rest ps
      else
        match symbol (deref (nodes ps) top) with
        | TerminalSym t =>
            if Token_eqb t EPS then
              {| nodes := update_node top
                            (fun n => set_ste epsilon_entry (set_line line n))
                            (nodes ps);
                 theStack := stk; inputPtr := tok :: rest;
                 hasSyntaxError := hasSyntaxError ps; cln := line;
                 console := console ps |}
            else if Token_eqb t tt then
              {| nodes := update_node top
                            (fun n => set_ste (entry tok) (set_line line n))
                            (nodes ps);
                 theStack := stk; inputPtr := rest;
                 hasSyntaxError := hasSyntaxError ps; cln := line;
                 console := console ps |}
            else
              {| nodes := update_node top (set_line line) (nodes ps);
                 theStack := stk; inputPtr := tok :: rest;
                 hasSyntaxError := true; cln := line;
                 console := say shouldPrint (console ps)
                              (TokenMismatch line tt lex t) |}
        | NonTerminalSym n =>
            match parseTable n tt with
            | None =>
                let out := say shouldPrint (console ps)
                             (InvalidToken line tt lex n) in
                if existsInFirstFollow (AutoFollow n) tt then
                  {| nodes := update_node top (set_line line) (nodes ps);
                     theStack := stk; inputPtr := tok :: rest;
                     hasSyntaxError := true; cln := line; console := out |}
                else
                  {| nodes := nodes ps;
                     theStack := match rest with
                                 | [] => stk
                                 | _ :: _ => top :: stk
                                 end;
                     inputPtr := rest;
                     hasSyntaxError := true; cln := line; console := out |}
            | Some tmpRule =>
                let ns1 := update_node top (set_line line) (nodes ps) in
                let ns2 := create_children top (rhs tmpRule) ns1 in
                {| nodes := ns2;
                   theStack := push_children (pn_children (deref ns2 top)) stk;
                   inputPtr := tok :: rest;
                   hasSyntaxError := hasSyntaxError ps; cln := line;
                   console := console ps |}
            end
        end
  | _, _ => ps
  end.

(** [n] executions of the loop body. *)
Fixpoint parse_steps (n : nat) (shouldPrint : bool) (parseTable : ParseTable)
  (AutoFollow : FirstFollowTable) (ps : ParserState) : ParserState :=
  match n with
  | O => ps
  | S n' =>
      parse_steps n' shouldPrint parseTable AutoFollow
        (parse_step shouldPrint parseTable AutoFollow ps)
  end.

(** The main loop, until the stack or the input is empty. *)
Fixpoint parse_loop (fuel : nat) (shouldPrint : bool)
  (parseTable : ParseTable) (AutoFollow : FirstFollowTable)
  (ps : ParserState) : option ParserState :=
  match theStack ps, inputPtr ps with
  | _ :: _, _ :: _ =>
      match fuel with
      | O => None
      | S fuel' =>
          parse_loop fuel' shouldPrint parseTable AutoFollow
            (parse_step shouldPrint parseTable AutoFollow ps)
      end
  | _, _ => Some ps
  end.

(** The first draining loop: one message per node left on the stack. *)
Definition drain_stack (shouldPrint : bool) (ps : ParserState)
  : list Message :=
  fold_left
    (fun out p =>
       match symbol (deref (nodes ps) p) with
       | NonTerminalSym n => say shouldPrint out (InvalidDollar (cln ps) n)
       | TerminalSym t => say shouldPrint out (DollarMismatch (cln ps) t)
       end)
    (theStack ps) (console ps).

(** The second draining loop: the tokens up to the end-of-input token. *)
Fixpoint drain_input (shouldPrint : bool) (input : TokenList)
  (out : list Message) : TokenList * list Message :=
  match input with
  | [] => ([], out)
  | tok :: rest =>
      if Token_eqb (tokenType (entry tok)) DOLLAR then (input, out)
      else drain_input shouldPrint rest
             (say shouldPrint out
                (InvalidTokenAtDollar (lineNum tok) (tokenType (entry tok))
                                      (lexeme (entry tok))))
  end.

(** What follows the main loop. *)
Definition parse_finish (shouldPrint : bool) (ps : ParserState)
  : ParserState :=
  let at_end :=
    match inputPtr ps with
    | [] => true
    | tok :: _ => Token_eqb (tokenType (entry tok)) DOLLAR
    end in
  if negb (hasSyntaxError ps)
     && match theStack ps with [] => true | _ => false end && at_end
  then
    {| nodes := nodes ps; theStack := theStack ps; inputPtr := inputPtr ps;
       hasSyntaxError := hasSyntaxError ps; cln := cln ps;
       console := say shouldPrint (console ps) ParsingSuccessful |}
  else
    let out1 := drain_stack shouldPrint ps in
    let (input', out2) := drain_input shouldPrint (inputPtr ps) out1 in
    {| nodes := nodes ps; theStack := []; inputPtr := input';
       hasSyntaxError := true; cln := cln ps;
       console := say shouldPrint out2 HasSyntacticErrors |}.

(** [parseTokens] on a token list that is not NULL: the tree is the node
    store of the result, rooted at node 0. *)
Definition parseTokens (fuel : nat) (shouldPrint : bool)
  (parseTable : ParseTable) (AutoFollow : FirstFollowTable)
  (tokensFromLexer : TokenList) (hasSyntaxError0 : bool)
  (out : list Message) : option ParserState :=
  let ps0 :=
    {| nodes := [createParseNode (NonTerminalSym program)];
       theStack := [0%nat]; inputPtr := tokensFromLexer;
       hasSyntaxError := hasSyntaxError0; cln := 1;
       console := say shouldPrint out ParsingStarting |} in
  match parse_loop fuel shouldPrint parseTable AutoFollow ps0 with
  | None => None
  | Some ps => Some (parse_finish shouldPrint ps)
  end.

(* ================================================================== *)
(** * parser.c: the grammar file *)
(* ================================================================== *)

(** [tokenToString], as [initTokenStrings] fills it, in index order. *)
Definition tokenToString : list (Token * string) :=
  [(ASSIGNOP, "TK_ASSIGNOP"); (COMMENT, "TK_COMMENT");
   (FIELDID, "TK_FIELDID"); (ID, "TK_ID"); (NUM, "TK_NUM");
   (RNUM, "TK_RNUM"); (FUNID, "TK_FUNID"); (RUID, "TK_RUID");
   (WITH, "TK_WITH"); (PARAMETERS, "TK_PARAMETERS"); (END, "TK_END");
   (WHILE, "TK_WHILE"); (UNION, "TK_UNION"); (ENDUNION, "TK_ENDUNION");
   (DEFINETYPE, "TK_DEFINETYPE"); (AS, "TK_AS"); (TYPE, "TK_TYPE");
   (MAIN, "TK_MAIN"); (GLOBAL, "TK_GLOBAL"); (PARAMETER, "TK_PARAMETER");
   (LIST, "TK_LIST"); (SQL, "TK_SQL"); (SQR, "TK_SQR");
   (INPUT, "TK_INPUT"); (OUTPUT, "TK_OUTPUT"); (INT, "TK_INT");
   (REAL, "TK_REAL"); (COMMA, "TK_COMMA"); (SEM, "TK_SEM");
   (COLON, "TK_COLON"); (DOT, "TK_DOT"); (ENDWHILE, "TK_ENDWHILE");
   (OP, "TK_OP"); (CL, "TK_CL"); (IF, "TK_IF"); (THEN, "TK_THEN");
   (ENDIF, "TK_ENDIF"); (READ, "TK_READ"); (WRITE, "TK_WRITE");
   (RETURN, "TK_RETURN"); (PLUS, "TK_PLUS"); (MINUS, "TK_MINUS");
   (MUL, "TK_MUL"); (DIV, "TK_DIV"); (CALL, "TK_CALL");
   (RECORD, "TK_RECORD"); (ENDRECORD, "TK_ENDRECORD"); (ELSE, "TK_ELSE");
   (AND, "TK_AND"); (OR, "TK_OR"); (NOT, "TK_NOT"); (LT, "TK_LT");
   (LE, "TK_LE"); (EQ, "TK_EQ"); (GT, "TK_GT"); (GE, "TK_GE");
   (NE, "TK_NE"); (EPS, "TK_EPS"); (DOLLAR, "TK_DOLLAR");
   (LEXICAL_ERROR, "LEXICAL_ERROR");
   (ID_LENGTH_EXC, "IDENTIFIER_LENGTH_EXCEEDED");
   (FUN_LENGTH_EXC, "FUNCTION_NAME_LENGTH_EXCEEDED")]%string.

(** [nonTerminalToString], as [initializeNonTerminalToString] fills its
    [NT_NOT_FOUND] slots, in index order. *)
Definition nonTerminalToString : list (NonTerminal * string) :=
  [(program, "<program>"); (otherFunctions, "<otherFunctions>");
   (mainFunction, "<mainFunction>"); (stmts, "<stmts>"); (stmt, "<stmt>");
   (function, "<function>"); (input_par, "<input_par>");
   (output_par, "<output_par>"); (parameter_list, "<parameter_list>");
   (dataType, "<dataType>"); (remaining_list, "<remaining_list>");
   (primitiveDatatype, "<primitiveDatatype>");
   (constructedDatatype, "<constructedDatatype>");
   (typeDefinitions, "<typeDefinitions>");
   (typeDefinition, "<typeDefinition>"); (declarations, "<declarations>");
   (declaration, "<declaration>"); (otherStmts, "<otherStmts>");
   (returnStmt, "<returnStmt>"); (definetypestmt, "<definetypestmt>");
   (fieldDefinition, "<fieldDefinition>");
   (fieldDefinitions, "<fieldDefinitions>"); (fieldType, "<fieldType>");
   (moreFields, "<moreFields>"); (global_or_not, "<global_or_not>");
   (assignmentStmt, "<assignmentStmt>"); (iterativeStmt, "<iterativeStmt>");
   (conditionalStmt, "<conditionalStmt>"); (elsePart, "<elsePart>");
   (ioStmt, "<ioStmt>"); (funCallStmt, "<funCallStmt>");
   (option_single_constructed, "<option_single_constructed>");
   (outputParameters, "<outputParameters>");
   (inputParameters, "<inputParameters>");
   (highPrecedenceOperators, "<highPrecedenceOperators>");
   (lowPrecedenceOperators, "<lowPrecedenceOperators>");
   (oneExpansion, "<oneExpansion>"); (moreExpansions, "<moreExpansions>");
   (expPrime, "<expPrime>"); (term, "<term>"); (termPrime, "<termPrime>");
   (factor, "<factor>"); (more_ids, "<more_ids>"); (A, "<A>");
   (idList, "<idList>"); (relationalOp, "<relationalOp>");
   (optionalReturn, "<optionalReturn>"); (var, "<var>");
   (logicalOp, "<logicalOp>");
   (arithmeticExpression, "<arithmeticExpression>");
   (SingleOrRecId, "<singleOrRecId>");
   (booleanExpression, "<booleanExpression>")]%string.

Fixpoint getTokenFromString_from (tbl : list (Token * string))
  (str : string) : Token :=
  match tbl with
  | [] => TK_NOT_FOUND
  | (t, s) :: tbl' =>
      if String.eqb s str then t else getTokenFromString_from tbl' str
  end.

Definition getTokenFromString (str : string) : Token :=
  getTokenFromString_from tokenToString str.

Fixpoint getNonTerminalFromString_from (tbl : list (NonTerminal * string))
  (str : string) : NonTerminal :=
  match tbl with
  | [] => NT_NOT_FOUND
  | (n, s) :: tbl' =>
      if String.eqb s str then n
      else getNonTerminalFromString_from tbl' str
  end.

Definition getNonTerminalFromString (str : string) : NonTerminal :=
  getNonTerminalFromString_from nonTerminalToString str.

Definition is_delim (c : ascii) : bool :=
  char_eqb c " " || char_eqb c TAB || char_eqb c NL || char_eqb c CR.

(** The successive results of [strtok(buff, " \t\n\r")] on one line;
    [cur] is the token being read, reversed. *)
Fixpoint strtok_all (line : string) (cur : list ascii) : list string :=
  let flush (rest : list string) :=
    match cur with
    | [] => rest
    | _ :: _ => string_of_list_ascii (rev cur) :: rest
    end in
  match line with
  | EmptyString => flush []
  | String c line' =>
      if is_delim c then flush (strtok_all line' [])
      else strtok_all line' (c :: cur)
  end.

(** One symbol of a right-hand side. *)
Definition read_symbol (oneTok : string) : SymbolUnit :=
  match oneTok with
  | String "<" _ => NonTerminalSym (getNonTerminalFromString oneTok)
  | _ => TerminalSym (getTokenFromString ("TK_" ++ oneTok))
  end.

(** The body of [while (fgets(...))] for one line; [None] on a blank
    line, where [strcmp] receives the NULL that [strtok] returned. *)
Definition read_rule (line : string) : option GrammarRule :=
  match strtok_all line [] with
  | [] => None
  | oneTok :: toks =>
      Some {| lhs := getNonTerminalFromString oneTok;
              rhs := map read_symbol toks |}
  end.

(** The global variables of parser.c. *)
Record Globals : Type := mkGlobals {
  g_Grammar : list GrammarRule;          (* [Grammar], [numOfRules] *)
  g_grammarLoaded : bool;
  g_AutoFirst : FirstFollowTable;
  g_AutoFollow : FirstFollowTable;
  g_firstFollowComputed : bool;
  g_parseTable : ParseTable;
  g_parseTreeInitialized : bool
}.

(** The globals when the process starts. *)
Definition initial_globals : Globals :=
  {| g_Grammar := []; g_grammarLoaded := false;
     g_AutoFirst := empty_sets; g_AutoFollow := empty_sets;
     g_firstFollowComputed := false;
     g_parseTable := empty_table; g_parseTreeInitialized := false |}.

(** How a function that may call [exit] ends. *)
Inductive control (R : Type) : Type :=
  | Returned (r : R) (out : list Message)   (* back in the caller *)
  | Exited (code : Z) (out : list Message)  (* [exit(code)] *)
  | NoFuel
  | Undef.
Arguments Returned {R} r out.
Arguments Exited {R} code out.
Arguments NoFuel {R}.
Arguments Undef {R}.

Fixpoint read_rules (lines : list string) (acc : list GrammarRule)
  : option (list GrammarRule) :=
  match lines with
  | [] => Some acc
  | line :: lines' =>
      match read_rule line with
      | None => None
      | Some gRule =>
          if Z.of_nat (List.length acc) <? MAX_GRAMMAR_RULES
          then read_rules lines' (acc ++ [gRule])
          else None                       (* [Grammar] overrun *)
      end
  end.

(** [readGrammar]; [grammar_txt] is what [fopen] finds: the lines of the
    grammar file, or [None] when it cannot be opened. *)
Definition readGrammar (grammar_txt : option (list string)) (g : Globals)
  (out : list Message) : control Globals :=
  if g_grammarLoaded g then Returned g out
  else
    let g1 :=
      {| g_Grammar := g_Grammar g; g_grammarLoaded := true;
         g_AutoFirst := g_AutoFirst g; g_AutoFollow := g_AutoFollow g;
         g_firstFollowComputed := g_firstFollowComputed g;
         g_parseTable := g_parseTable g;
         g_parseTreeInitialized := g_parseTreeInitialized g |} in
    match grammar_txt with
    | None => Returned g1 (out ++ [CouldNotOpenGrammarFile])
    | Some lines =>
        match read_rules lines (g_Grammar g1) with
        | None => Undef
        | Some rules =>
            Returned
              {| g_Grammar := rules; g_grammarLoaded := true;
                 g_AutoFirst := g_AutoFirst g; g_AutoFollow := g_AutoFollow g;
                 g_firstFollowComputed := g_firstFollowComputed g;
                 g_parseTable := g_parseTable g;
                 g_parseTreeInitialized := g_parseTreeInitialized g |}
              out
        end
    end.

Definition initializeAndComputeFirstAndFollow (fuel : nat) (g : Globals)
  (out : list Message) : control Globals :=
  if g_firstFollowComputed g then Returned g out
  else
    match computeFirstSets fuel (g_Grammar g) with
    | None => NoFuel
    | Some first =>
        match computeFollowSets fuel first (g_Grammar g) with
        | None => NoFuel
        | Some follow =>
            Returned
              {| g_Grammar := g_Grammar g;
                 g_grammarLoaded := g_grammarLoaded g;
                 g_AutoFirst := first; g_AutoFollow := follow;
                 g_firstFollowComputed := true;
                 g_parseTable := g_parseTable g;
                 g_parseTreeInitialized := g_parseTreeInitialized g |}
              out
        end
    end.

Definition initializeParseTable_global (g : Globals) (out : list Message)
  : control Globals :=
  if g_parseTreeInitialized g then Returned g out
  else
    let (pt, out') :=
      initializeParseTable (g_AutoFirst g) (g_AutoFollow g) (g_Grammar g)
                           out in
    Returned
      {| g_Grammar := g_Grammar g; g_grammarLoaded := g_grammarLoaded g;
         g_AutoFirst := g_AutoFirst g; g_AutoFollow := g_AutoFollow g;
         g_firstFollowComputed := g_firstFollowComputed g;
         g_parseTable := pt; g_parseTreeInitialized := true |}
      out'.

(** [lexInput]: a missing stream is fatal. *)
Definition lexInput (fuel : nat) (file : option FILE) (garbage : list ascii)
  (out : list Message) : control TokenList :=
  match file with
  | None => Exited (-1) out
  | Some f =>
      match getAllTokens fuel f garbage with
      | Ok (tokens, _) => Returned tokens out
      | OutOfFuel => NoFuel
      | Undefined => Undef
      end
  end.

(** What [parseInputSourceCode] leaves behind when it returns: the
    globals, and the parse with its error flag unless the input file
    could not be opened. *)
Definition ParseRun : Type := Globals * option ParserState.

(** [parseInputSourceCode]; [input] is the content of the source file
    ([None] when it cannot be opened), [grammar_txt] that of the grammar
    file. *)
Definition parseInputSourceCode (fuel : nat) (shouldPrint : bool)
  (input : option (list ascii)) (garbage : list ascii)
  (grammar_txt : option (list string)) (g : Globals)
  : control ParseRun :=
  match input with
  | None => Returned (g, None) [CouldNotOpenInputFile]
  | Some bytes =>
      match lexInput fuel (Some (fopen_contents bytes)) garbage [] with
      | Exited c out => Exited c out
      | NoFuel => NoFuel
      | Undef => Undef
      | Returned tokensFromLexer out0 =>
          match readGrammar grammar_txt g out0 with
          | Exited c out => Exited c out
          | NoFuel => NoFuel
          | Undef => Undef
          | Returned g1 out1 =>
              match initializeAndComputeFirstAndFollow fuel g1 out1 with
              | Exited c out => Exited c out
              | NoFuel => NoFuel
              | Undef => Undef
              | Returned g2 out2 =>
                  match initializeParseTable_global g2 out2 with
                  | Exited c out => Exited c out
                  | NoFuel => NoFuel
                  | Undef => Undef
                  | Returned g3 out3 =>
                      match parseTokens fuel shouldPrint (g_parseTable g3)
                              (g_AutoFollow g3) tokensFromLexer false out3
                      with
                      | None => NoFuel
                      | Some ps => Returned (g3, Some ps) (console ps)
                      end
                  end
              end
          end
      end
  end.

(* ================================================================== *)
(** * Vocabulary for the statements about the lexer *)
(* ================================================================== *)

(** No newline among the characters of [l]. *)
Definition newline_free (l : list ascii) : bool :=
  forallb (fun c => negb (char_eqb c NL)) l.

(** Neither the twin buffer nor the unread part of the file holds a
    newline. *)
Definition no_newline_ahead (st : LexerState) : Prop :=
  newline_free (buffer st) = true /\ newline_free (unread (fp st)) = true.

(** The twin buffer after the first refill, when the whole [file] fits
    into its first half: the bytes of the file, a NUL, and what was
    there before. *)
Definition loaded_buffer (file garbage : list ascii) : list ascii :=
  buf_set (blit 0 file garbage) (Z.of_nat (List.length file)) NUL.

(** The state of the lexer on line 1 of such a file, with the cursor on
    its byte [i] and the symbol table [t]. *)
Definition loaded_state (file garbage : list ascii) (i : nat)
  (t : SymbolTable) : LexerState :=
  {| fp := {| unread := []; eof_flag := true |};
     buffer := loaded_buffer file garbage;
     forwardPtr := Z.of_nat i; lineNumber := 1; retractFlag := false;
     symTable := t |}.

(** A character that can neither continue a variable identifier nor be
    swallowed after an over-long one. *)
Definition ends_identifier (c : ascii) : bool :=
  negb (is_2_7 c) && negb (is_b_d c).

(** The tokens of a run that returned. *)
Definition tokens_of (r : outcome (TokenList * LexerState))
  : option TokenList :=
  match r with
  | Ok (tokens, _) => Some tokens
  | _ => None
  end.

(** The entry and the token the lexer builds for a variable identifier
    spelled [ident] on line 1: the identifier itself up to 20
    characters, its first 20 characters and an ellipsis beyond. *)
Definition identifier_entry (ident : list ascii) : SymbolTableEntry :=
  if (List.length ident <=? 20)%nat
  then newSymbolTableEntry (string_of_list_ascii ident) ID 0%Q
  else newSymbolTableEntry
         (string_of_list_ascii (firstn 20 ident ++ ["."; "."; "."]%char))
         ID_LENGTH_EXC 0%Q.

(** No two entries of the table carry the same lexeme. *)
Definition interned (t : SymbolTable) : Prop := NoDup (map lexeme t).

(** The table [t'] is [t] with entries appended. *)
Definition extends (t t' : SymbolTable) : Prop := exists ext, t' = t ++ ext.

(** The entry of the end-of-input token. *)
Definition eof_entry : SymbolTableEntry := newSymbolTableEntry "" DOLLAR 0%Q.

(** The entry of [node] is the one the table holds for its lexeme,
    unless [node] is the end-of-input token. *)
Definition shares_entry (t : SymbolTable) (node : TokenNode) : Prop :=
  lookupToken t (lexeme (entry node)) = Some (entry node)
  \/ entry node = eof_entry.

(** What a pass through the [switch] keeps true of the symbol table,
    which is [t] before the pass. *)
Definition good_step (t : SymbolTable) (r : step_result) : Prop :=
  match r with
  | Goto _ _ st' => interned (symTable st') /\ extends t (symTable st')
  | Return None st' => interned (symTable st') /\ extends t (symTable st')
  | Return (Some node) st' =>
      interned (symTable st') /\ extends t (symTable st')
      /\ shares_entry (symTable st') node
  | Overrun => True
  | Starved => True
  end.

(* ================================================================== *)
(** * Vocabulary for the statements about the parser *)
(* ================================================================== *)

(** FIRST of a sequence of grammar symbols over the sets [F], as the
    design document words the walk: a terminal contributes itself and
    ends the walk; a non-terminal contributes its set without the
    epsilon marker, and the walk goes on behind it only if its set holds
    the marker; the end of the sequence contributes the marker. *)
Inductive first_of (F : FirstFollowTable) : list SymbolUnit -> Token -> Prop :=
  | first_terminal (t : Token) (rest : list SymbolUnit) :
      first_of F (TerminalSym t :: rest) t
  | first_nonterminal (n : NonTerminal) (rest : list SymbolUnit) (t : Token) :
      In t (F n) -> t <> EPS -> first_of F (NonTerminalSym n :: rest) t
  | first_behind (n : NonTerminal) (rest : list SymbolUnit) (t : Token) :
      In EPS (F n) -> first_of F rest t ->
      first_of F (NonTerminalSym n :: rest) t
  | first_end : first_of F [] EPS.

(** The cells of its row a rule is meant for: the terminals of
    FIRST(rhs) other than the marker and, if FIRST(rhs) holds the marker,
    the terminals of FOLLOW(lhs). *)
Definition targets (F Fo : FirstFollowTable) (r : GrammarRule) (t : Token)
  : Prop :=
  (first_of F (rhs r) t /\ t <> EPS)
  \/ (first_of F (rhs r) EPS /\ In t (Fo (lhs r))).

(** The cells [add_rule] assigns. *)
Definition writes (F Fo : FirstFollowTable) (r : GrammarRule)
  (n : NonTerminal) (t : Token) : bool :=
  NonTerminal_eqb n (lhs r)
  && (existsInFirstFollow (getFirstOfRhs F (rhs r)) t
      || (existsInFirstFollow (getFirstOfRhs F (rhs r)) EPS
          && existsInFirstFollow (Fo (lhs r)) t)).

(** The cells of its row that [add_rule] assigns for a rule, in the
    order of the assignments: the tokens of FIRST(rhs), the marker among
    them, and then, if the marker is there, the tokens of FOLLOW(lhs). *)
Definition assigned (F Fo : FirstFollowTable) (r : GrammarRule)
  : list Token :=
  getFirstOfRhs F (rhs r)
  ++ (if existsInFirstFollow (getFirstOfRhs F (rhs r)) EPS
      then Fo (lhs r) else []).

(** The number of assignments, among those to the cells [cells] of one
    row in this order, that find their cell taken: taken before the
    first of them ([taken]) or assigned by an earlier one. *)
Fixpoint overwrites (taken : Token -> bool) (cells : list Token) : nat :=
  match cells with
  | [] => 0
  | t :: cells' =>
      (if taken t then 1 else 0)
      + overwrites (fun x => taken x || Token_eqb x t) cells'
  end.

Definition is_taken (pt : ParseTable) (n : NonTerminal) (t : Token) : bool :=
  match pt n t with Some _ => true | None => false end.

(** The bounds of the arrays.  [AutoFirst], [AutoFollow] and
    [parseTable] are allocated with [NT_NOT_FOUND] rows, and a row of
    [parseTable] with [TK_NOT_FOUND] cells.  The code indexes them with
    the non-terminals and tokens of the rules without a test, and
    [readGrammar] stores [NT_NOT_FOUND] and [TK_NOT_FOUND] for the names
    it does not know.  In the tables of this file the two values behind
    the last row and the value behind the last column are arguments like
    the others; what is said about the code's tables is said for
    grammars that stay inside the arrays. *)
Definition has_row (n : NonTerminal) : bool :=
  NonTerminal_to_Z n <? NonTerminal_to_Z NT_NOT_FOUND.

Definition has_column (t : Token) : bool :=
  Token_to_Z t <? Token_to_Z TK_NOT_FOUND.

(** Every non-terminal of the rules, on the left or on the right, has a
    row. *)
Definition rows_in_range (G : list GrammarRule) : bool :=
  forallb (fun r =>
             has_row (lhs r)
             && forallb (fun su => match su with
                                   | NonTerminalSym n => has_row n
                                   | TerminalSym _ => true
                                   end) (rhs r)) G.

(** Every terminal of the rules has a column. *)
Definition columns_in_range (G : list GrammarRule) : bool :=
  forallb (fun r =>
             forallb (fun su => match su with
                                | NonTerminalSym _ => true
                                | TerminalSym t => has_column t
                                end) (rhs r)) G.

(** Every token in the sets of the rows has a column. *)
Definition sets_in_range (F : FirstFollowTable) : Prop :=
  forall n t, has_row n = true -> In t (F n) -> has_column t = true.

(** Ordering of tables by inclusion of their sets, the number of tokens a
    table holds, and the three properties of a table that the iteration
    of [computeFirstSets] is about. *)
Definition table_le (F F' : FirstFollowTable) : Prop :=
  forall n t, In t (F n) -> In t (F' n).

Definition table_size (F : FirstFollowTable) : nat :=
  list_sum (map (fun n => List.length (F n)) all_nonterminals).

(** The number of tokens a table of duplicate-free sets can hold. *)
Definition capacity : nat :=
  List.length all_nonterminals * List.length all_tokens.

Definition sets_nodup (F : FirstFollowTable) : Prop :=
  forall n, NoDup (F n).

(** Every token of a set is contributed by the walk of some rule. *)
Definition justified (G : list GrammarRule) (F : FirstFollowTable) : Prop :=
  forall n t, In t (F n) ->
              exists r, In r G /\ lhs r = n /\ first_of F (rhs r) t.

(** Every token the walk of a rule contributes is in the set. *)
Definition closed (G : list GrammarRule) (F : FirstFollowTable) : Prop :=
  forall r t, In r G -> first_of F (rhs r) t -> In t (F (lhs r)).

(** The symbols in front of the place a walk has reached: non-terminals
    whose sets hold the epsilon marker. *)
Definition reaches (F : FirstFollowTable) (prefix : list SymbolUnit) : Prop :=
  Forall (fun X => exists n, X = NonTerminalSym n /\ In EPS (F n)) prefix.

(** An update of the pair (table, [modified]) that never clears the flag
    and leaves the pair alone when the flag stays clear. *)
Definition quiet (op : FirstFollowTable * bool -> FirstFollowTable * bool)
  : Prop :=
  forall acc,
    (snd acc = true -> snd (op acc) = true)
    /\ (snd (op acc) = false -> op acc = acc).

(** Tokens held, plus one while [modified] is clear. *)
Definition potential (acc : FirstFollowTable * bool) : nat :=
  table_size (fst acc) + (if snd acc then 0 else 1).

(** An update that keeps the sets duplicate-free and does not lower the
    potential. *)
Definition growing (op : FirstFollowTable * bool -> FirstFollowTable * bool)
  : Prop :=
  forall acc,
    sets_nodup (fst acc) ->
    sets_nodup (fst (op acc)) /\ (potential acc <= potential (op acc))%nat.

(** A token the main loop matches against the stack: neither a comment
    nor a lexical error. *)
Definition ordinary (tok : TokenNode) : bool :=
  negb (Token_eqb (tokenType (entry tok)) COMMENT)
  && (Token_to_Z (tokenType (entry tok)) <? Token_to_Z LEXICAL_ERROR).

(** A token at which the recovery for the non-terminal [n] stops: it has
    an entry in row [n] or lies in FOLLOW([n]). *)
Definition synchronizes (pt : ParseTable) (follow : FirstFollowTable)
  (n : NonTerminal) (tok : TokenNode) : bool :=
  ordinary tok
  && (match pt n (tokenType (entry tok)) with Some _ => true | None => false end
      || existsInFirstFollow (follow n) (tokenType (entry tok))).

(** What the console receives, when printing is on, for a token that
    does not synchronize. *)
Definition skip_messages (n : NonTerminal) (tok : TokenNode) : list Message :=
  let tt := tokenType (entry tok) in
  let lex := lexeme (entry tok) in
  if ordinary tok then [InvalidToken (lineNum tok) tt lex n]
  else if Token_eqb tt LEXICAL_ERROR
       then [UnrecognizedPattern (lineNum tok) lex]
  else if Token_eqb tt ID_LENGTH_EXC
       then [TooLongIdentifier (lineNum tok) lex]
  else if Token_eqb tt FUN_LENGTH_EXC
       then [TooLongFunctionName (lineNum tok) lex]
  else [].

(** Two parser states used as examples: the stack holds one node, a
    terminal [END] or the start symbol, and the input is
    [_main end] followed by the end-of-input token. *)
Definition main_token : TokenNode :=
  newTokenNode (newSymbolTableEntry "_main" MAIN 0%Q) 1.
Definition end_token : TokenNode :=
  newTokenNode (newSymbolTableEntry "end" END 0%Q) 1.

Definition expecting_END : ParserState :=
  {| nodes := [createParseNode (TerminalSym END)]; theStack := [0%nat];
     inputPtr := [main_token; end_token; eof_token 1];
     hasSyntaxError := false; cln := 1; console := [] |}.

Definition expecting_program : ParserState :=
  {| nodes := [createParseNode (NonTerminalSym program)];
     theStack := [0%nat];
     inputPtr := [main_token; end_token; eof_token 1];
     hasSyntaxError := false; cln := 1; console := [] |}.

(** FOLLOW as [computeFollowSets] leaves it for the empty grammar. *)
Definition follow_of_start : FirstFollowTable :=
  set_row empty_sets program [DOLLAR].

(* ================================================================== *)
(** * Vocabulary for the statements about the helper functions *)
(* ================================================================== *)

(** A word the trie can hold: every index [c - 'a'] lies inside
    [children[ALPHABET_COUNT]]. *)
Definition lowercase (w : string) : bool :=
  forallb islower (list_ascii_of_string w).

(** The calls of [setupKeywordTrie], in order. *)
Definition keyword_table : list (string * Token) :=
  [("with", WITH); ("parameters", PARAMETERS); ("end", END);
   ("while", WHILE); ("union", UNION); ("endunion", ENDUNION);
   ("definetype", DEFINETYPE); ("as", AS); ("type", TYPE);
   ("global", GLOBAL); ("parameter", PARAMETER); ("list", LIST);
   ("input", INPUT); ("output", OUTPUT); ("int", INT); ("real", REAL);
   ("endwhile", ENDWHILE); ("if", IF); ("then", THEN); ("endif", ENDIF);
   ("read", READ); ("write", WRITE); ("return", RETURN); ("call", CALL);
   ("record", RECORD); ("endrecord", ENDRECORD); ("else", ELSE)]%string.

(** Both cursors inside [twinBuffer]. *)
Definition in_buffer (i : Z) : Prop := 0 <= i < 2 * BUFFER_SZ.

(** Where a token of FOLLOW([B]) comes from, over the FIRST sets [F] and
    the FOLLOW sets [Fo]: the end-of-input token of the start symbol; or
    an occurrence of [B] in a rule, followed by [post], that contributes
    a token of FIRST([post]) other than the epsilon marker or, when
    FIRST([post]) holds the marker, a token of FOLLOW of the left-hand
    side. *)
Definition follow_source (G : list GrammarRule) (F Fo : FirstFollowTable)
  (B : NonTerminal) (t : Token) : Prop :=
  (B = program /\ t = DOLLAR)
  \/ exists r pre post,
       In r G /\ rhs r = pre ++ NonTerminalSym B :: post
       /\ ((first_of F post t /\ t <> EPS)
           \/ (first_of F post EPS /\ In t (Fo (lhs r)))).

(** The FOLLOW sets [computeFollowSets] starts from. *)
Definition initial_follow : FirstFollowTable :=
  set_row empty_sets program (insertFirstFollowNode [] DOLLAR).

(** No FOLLOW set holds the epsilon marker and every token has a
    source. *)
Definition sourced (G : list GrammarRule) (F Fo : FirstFollowTable) : Prop :=
  forall B t, In t (Fo B) -> t <> EPS /\ follow_source G F Fo B t.

(** A node the parser is done with: a terminal node holds an entry, the
    epsilon entry for the marker and an entry of its own kind
    otherwise. *)
Definition leaf_done (n : ParseNode) : Prop :=
  match symbol n with
  | TerminalSym t =>
      exists e, ste n = Some e
                /\ if Token_eqb t EPS then e = epsilon_entry
                   else tokenType e = t
  | NonTerminalSym _ => True
  end.

(** A token the lexer flags: a lexical error or an over-long name. *)
Definition error_token (tok : TokenNode) : bool :=
  Token_to_Z (tokenType (entry tok)) >=? Token_to_Z LEXICAL_ERROR.

(** What the main loop of [parseTokens] keeps true on the token list
    [tokens]: the pointers on the stack and in the tree are valid and,
    as long as no error is flagged, every node off the stack is done and
    the tokens consumed so far hold no flagged token. *)
Definition parse_invariant (tokens : TokenList) (ps : ParserState) : Prop :=
  (forall p, In p (theStack ps) -> (p < List.length (nodes ps))%nat)
  /\ (forall p c, In c (pn_children (deref (nodes ps) p)) ->
                  (c < List.length (nodes ps))%nat)
  /\ (hasSyntaxError ps = false ->
      (forall p, (p < List.length (nodes ps))%nat ->
                 leaf_done (deref (nodes ps) p) \/ In p (theStack ps))
      /\ exists consumed,
           tokens = consumed ++ inputPtr ps
           /\ forallb (fun tok => negb (error_token tok)) consumed = true).

(** A table with the single rule [program -> MAIN END], for examples. *)
Definition main_end_rule : GrammarRule :=
  {| lhs := program; rhs := [TerminalSym MAIN; TerminalSym END] |}.

Definition main_end_table : ParseTable :=
  set_cell empty_table program MAIN main_end_rule.

(** The lexer inside a file that fits into the first half of the twin
    buffer with room to spare: the file is loaded, closed, and the cursor
    is on its byte [i]. *)
Definition at_cursor (file garbage : list ascii) (i : nat) (st : LexerState)
  : Prop :=
  fp st = {| unread := []; eof_flag := true |}
  /\ buffer st = loaded_buffer file garbage
  /\ forwardPtr st = Z.of_nat i
  /\ retractFlag st = false.

(** The lexer about to read byte [k] of such a file: either nothing has
    been read yet, or the cursor is on the byte before. *)
Definition ready (file garbage : list ascii) (k : nat) (st : LexerState)
  : Prop :=
  (k = 0%nat
   /\ fp st = fopen_contents file /\ buffer st = garbage
   /\ forwardPtr st = 2 * BUFFER_SZ - 1 /\ retractFlag st = false)
  \/ (exists i, k = S i /\ at_cursor file garbage i st).

(** The bytes [b], ..., [i] of the file. *)
Definition file_slice (file : list ascii) (b i : nat) : list ascii :=
  firstn (S i - b) (skipn b file).

(** Every comment of the file ends: behind each [%] there is a
    newline. *)
Fixpoint comments_closed (file : list ascii) : bool :=
  match file with
  | [] => true
  | c :: rest =>
      (negb (char_eqb c "%") || existsb (fun d => char_eqb d NL) rest)
      && comments_closed rest
  end.

(** The same, by positions. *)
Definition every_comment_ends (file : list ascii) : Prop :=
  forall i, nth i file NUL = "%"%char ->
            exists j, (i < j < List.length file)%nat /\ nth j file NUL = NL.

(** What holds when the DFA is in [state] with the lexeme starting at
    byte [b] and the cursor on byte [i]: the lexeme is not empty; in the
    two states that retract by two it has two characters; in the comment
    state a newline lies ahead.  State 0, the unused state 2 and the
    numbers that are no states are left out. *)
Definition state_inv (file : list ascii) (state : Z) (b i : nat) : Prop :=
  match state with
  | 60 | 66 => (S b <= i)%nat
  | 65 =>
      (b <= i)%nat
      /\ exists j, (i < j < List.length file)%nat /\ nth j file NUL = NL
  | 1 | 3 | 4 | 5 | 6 | 7 | 8 | 9 | 19 | 23 | 24 | 29 | 30 | 31 | 34 | 35
  | 42 | 43 | 44 | 45 | 50 | 51 | 52 | 53 | 54 | 55 | 56 | 57 | 58 | 59
  | 61 | 62 | 63 | 64 | 67 | 68 | 69 | 70 | 71 | 72 | 73 | 74 | 75 | 76
  | 77 | 78 | 79 | 80 | 81 => (b <= i)%nat
  | _ => False
  end.

(** A pass through a state other than 0, entered with the cursor on byte
    [i]: it moves on with the cursor further right, or returns a token
    with the cursor on a byte of the lexeme's extent. *)
Definition step_ok (file garbage : list ascii) (b i : nat) (r : step_result)
  : Prop :=
  match r with
  | Goto state' beginPtr' st' =>
      beginPtr' = Z.of_nat b
      /\ exists j, (i < j < List.length file)%nat
                   /\ at_cursor file garbage j st'
                   /\ state_inv file state' b j
  | Return (Some _) st' =>
      exists j, (b <= j < List.length file)%nat /\ at_cursor file garbage j st'
  | _ => False
  end.

(** A pass through state 0 that reads byte [k]. *)
Definition start_ok (file garbage : list ascii) (k : nat) (r : step_result)
  : Prop :=
  match r with
  | Goto state' beginPtr' st' =>
      (k < List.length file)%nat /\ at_cursor file garbage k st'
      /\ ((state' = 0 /\ beginPtr' = Z.of_nat (S k))
          \/ (beginPtr' = Z.of_nat k /\ state_inv file state' k k))
  | Return (Some node) st' =>
      tokenType (entry node) = DOLLAR
      \/ ((k < List.length file)%nat /\ at_cursor file garbage k st')
  | _ => False
  end.

(** What a pass through the [switch] does to the line counter, which is
    [l0] before the pass: it never goes back, and a token returned
    carries a line between the two. *)
Definition step_lines (l0 : Z) (r : step_result) : Prop :=
  match r with
  | Goto _ _ st' => l0 <= lineNumber st'
  | Return (Some node) st' => l0 <= lineNum node <= lineNumber st'
  | Return None st' => l0 <= lineNumber st'
  | Overrun => True
  | Starved => True
  end.

(** The characters state 0 skips. *)
Definition is_blank (ch : ascii) : bool :=
  char_eqb ch NL || char_eqb ch " " || char_eqb ch TAB || char_eqb ch CR.

(** The number of newlines among the characters [l]. *)
Fixpoint newlines (l : list ascii) : Z :=
  match l with
  | [] => 0
  | c :: l' => (if char_eqb c NL then 1 else 0) + newlines l'
  end.

(** The token kind the states 3 and 79 give a word: its keyword, or
    else the field identifier. *)
Definition word_kind (w : string) : Token :=
  let tk := findKeyword keywords w in
  if Token_eqb tk TK_NOT_FOUND then FIELDID else tk.

(** The token node and the symbol table the entry pattern of the
    accepting states leaves for the lexeme [lex] on line [line]. *)
Definition entered (t : SymbolTable) (lex : string) (tk : Token) (val : Q)
  : SymbolTableEntry :=
  match lookupToken t lex with
  | Some e => e
  | None => newSymbolTableEntry lex tk val
  end.

Definition table_after (t : SymbolTable) (lex : string) (tk : Token)
  (val : Q) : SymbolTable :=
  match lookupToken t lex with
  | Some _ => t
  | None => addToken t (newSymbolTableEntry lex tk val)
  end.

(** The result of an accepting branch taken with the cursor on byte [i]
    of the file for the lexeme [lex], with the symbol table [t] and on
    line [line]. *)
Definition accepted (file garbage : list ascii) (i : nat) (lex : string)
  (tk : Token) (val : Q) (t : SymbolTable) (line : Z) (r : step_result)
  : Prop :=
  exists node st',
    r = Return (Some node) st'
    /\ entry node = entered t lex tk val
    /\ lineNum node = line
    /\ symTable st' = table_after t lex tk val
    /\ lineNumber st' = line
    /\ at_cursor file garbage i st'.

(** The state in which the DFA is after it has read the letter [c] in
    the state [s], one of the states 69 to 72, 19 and 8 that read the
    letters of a function name. *)
Definition letter_step (s : Z) (c : ascii) : Z :=
  match s with
  | 69 => if char_eqb c "m" then 70 else 8
  | 70 => if char_eqb c "a" then 71 else 8
  | 71 => if char_eqb c "i" then 72 else 8
  | 72 => if char_eqb c "n" then 19 else 8
  | _ => 8
  end.

(** The token kind of a function name within the length limit. *)
Definition name_kind (w : string) : Token :=
  if String.eqb w "_main" then MAIN else FUNID.

(** The lexemes the DFA accepts without looking at the character behind
    them, with their tokens. *)
Definition operator_table : list (string * Token) :=
  [("[", SQL); ("]", SQR); (",", COMMA); (";", SEM); (":", COLON);
   ("(", OP); (")", CL); ("+", PLUS); ("-", MINUS); ("*", MUL);
   ("/", DIV); ("~", NOT); (".", DOT); ("<---", ASSIGNOP); ("<=", LE);
   ("==", EQ); (">=", GE); ("!=", NE); ("&&&", AND); ("@@@", OR)]%string.

(** [inorderTraverse]: the calls of [printTreeNode] it makes, in order,
    each with the node and its parent ([None] is NULL, the parent given
    for the root). *)
Fixpoint inorderTraverse (fuel : nat) (ns : list ParseNode) (curr : nat)
  (par : option nat) : option (list (nat * option nat)) :=
  match fuel with
  | O => None
  | S fuel' =>
      match pn_children (deref ns curr) with
      | [] => Some [(curr, par)]
      | c0 :: cs =>
          match inorderTraverse fuel' ns c0 (Some curr) with
          | None => None
          | Some first =>
              fold_left
                (fun acc c =>
                   match acc, inorderTraverse fuel' ns c (Some curr) with
                   | Some rows, Some more => Some (rows ++ more)
                   | _, _ => None
                   end)
                cs (Some (first ++ [(curr, par)]))
          end
      end
  end.

(** The leaves below the node [p], from left to right. *)
Fixpoint frontier (fuel : nat) (ns : list ParseNode) (p : nat) : list nat :=
  match fuel with
  | O => []
  | S fuel' =>
      match pn_children (deref ns p) with
      | [] => [p]
      | cs => flat_map (frontier fuel' ns) cs
      end
  end.

(** The symbol-table entry in the row [printTreeNode] prints for a
    terminal node other than the epsilon marker. *)
Definition printed_entry (ns : list ParseNode) (p : nat)
  : list SymbolTableEntry :=
  match symbol (deref ns p) with
  | TerminalSym t =>
      if Token_eqb t EPS then []
      else match ste (deref ns p) with
           | Some e => [e]
           | None => []
           end
  | NonTerminalSym _ => []
  end.

Definition no_comment (tok : TokenNode) : bool :=
  negb (Token_eqb (tokenType (entry tok)) COMMENT).

(** Children lie behind their parent in the node store. *)
Definition well_shaped (ns : list ParseNode) : Prop :=
  forall p c, In c (pn_children (deref ns p)) ->
              (p < c < List.length ns)%nat.

(** What an expansion does to the frontier: the node expanded gives way
    to its children. *)
Definition expanded (top first k : nat) (q : nat) : list nat :=
  if (q =? top)%nat
  then match k with O => [top] | S _ => seq first k end
  else [q].

(** What the main loop of [parseTokens] keeps true of the tree as long as
    no error is flagged: the leaves of the tree, from left to right, are
    the nodes that are done followed by the stack, and the terminal
    nodes that are done hold the entries of the tokens consumed, in
    order. *)
Definition tree_invariant (tokens : TokenList) (ps : ParserState) : Prop :=
  hasSyntaxError ps = false ->
  well_shaped (nodes ps)
  /\ (forall p, pn_children (deref (nodes ps) p) <> [] ->
                exists n, symbol (deref (nodes ps) p) = NonTerminalSym n)
  /\ exists done consumed,
       frontier (S (List.length (nodes ps))) (nodes ps) 0
       = done ++ theStack ps
       /\ NoDup (done ++ theStack ps)
       /\ (forall p, In p (done ++ theStack ps) ->
                     (p < List.length (nodes ps))%nat)
       /\ (forall p, In p (theStack ps) ->
                     pn_children (deref (nodes ps) p) = [])
       /\ tokens = consumed ++ inputPtr ps
       /\ flat_map (printed_entry (nodes ps)) done
          = map entry (filter no_comment consumed).

(** A node expanded by a rule of the parse table: it carries a
    non-terminal, and its children carry, in order, the symbols of a
    rule the table holds in the row of that non-terminal. *)
Definition derived (pt : ParseTable) (ns : list ParseNode) (p : nat)
  : Prop :=
  pn_children (deref ns p) = []
  \/ exists n tk r,
       symbol (deref ns p) = NonTerminalSym n
       /\ pt n tk = Some r
       /\ map (fun c => symbol (deref ns c)) (pn_children (deref ns p))
          = rhs r.

(** What the main loop of [parseTokens] keeps true of the tree, with or
    without errors: the nodes on the stack are distinct leaves, every
    node is a leaf or expanded by a rule of the table, and the root
    carries the start symbol. *)
Definition derivation_invariant (pt : ParseTable) (ps : ParserState)
  : Prop :=
  NoDup (theStack ps)
  /\ (forall p, In p (theStack ps) ->
                (p < List.length (nodes ps))%nat
                /\ pn_children (deref (nodes ps) p) = [])
  /\ (forall p c, In c (pn_children (deref (nodes ps) p)) ->
                  (c < List.length (nodes ps))%nat)
  /\ (forall p, derived pt (nodes ps) p)
  /\ symbol (deref (nodes ps) 0) = NonTerminalSym program.

(** FIRST of a sequence of grammar symbols by the rules of the grammar
    alone, without reference to any table: a terminal in front gives
    itself; a non-terminal in front gives what the right-hand side of
    one of its rules gives, other than the epsilon marker; when the
    right-hand side of one of its rules gives the marker, the sequence
    behind the non-terminal is looked at; the empty sequence gives the
    marker. *)
Inductive grammar_first (G : list GrammarRule)
  : list SymbolUnit -> Token -> Prop :=
  | gf_terminal (t : Token) (rest : list SymbolUnit) :
      grammar_first G (TerminalSym t :: rest) t
  | gf_nonterminal (r : GrammarRule) (rest : list SymbolUnit) (t : Token) :
      In r G -> grammar_first G (rhs r) t -> t <> EPS ->
      grammar_first G (NonTerminalSym (lhs r) :: rest) t
  | gf_behind (r : GrammarRule) (rest : list SymbolUnit) (t : Token) :
      In r G -> grammar_first G (rhs r) EPS -> grammar_first G rest t ->
      grammar_first G (NonTerminalSym (lhs r) :: rest) t
  | gf_end : grammar_first G [] EPS.

(** FIRST of a non-terminal by the rules of the grammar. *)
Definition first_of_grammar (G : list GrammarRule) (n : NonTerminal)
  (t : Token) : Prop :=
  exists r, In r G /\ lhs r = n /\ grammar_first G (rhs r) t.

(** FOLLOW of a non-terminal by the rules of the grammar: the
    end-of-input token behind the start symbol; what the sequence behind
    an occurrence of the non-terminal in a rule gives, other than the
    epsilon marker; and, when that sequence gives the marker, FOLLOW of
    the left-hand side of that rule. *)
Inductive grammar_follow (G : list GrammarRule)
  : NonTerminal -> Token -> Prop :=
  | gfo_start : grammar_follow G program DOLLAR
  | gfo_first (r : GrammarRule) (pre post : list SymbolUnit)
      (B : NonTerminal) (t : Token) :
      In r G -> rhs r = pre ++ NonTerminalSym B :: post ->
      grammar_first G post t -> t <> EPS -> grammar_follow G B t
  | gfo_behind (r : GrammarRule) (pre post : list SymbolUnit)
      (B : NonTerminal) (t : Token) :
      In r G -> rhs r = pre ++ NonTerminalSym B :: post ->
      grammar_first G post EPS -> grammar_follow G (lhs r) t ->
      grammar_follow G B t.

(** Every token of the table satisfies [P]. *)
Definition inside (P : NonTerminal -> Token -> Prop) (F : FirstFollowTable)
  : Prop :=
  forall n t, In t (F n) -> P n t.

(* ================================================================== *)
(** * lexer.c: removeComments *)
(* ================================================================== *)

(** [sizeof(lineBuf)]. *)
Definition LINE_BUF : nat := 4096.

Definition PERCENT : ascii := "%"%char.

(** The bytes [fgets] stores before the NUL it appends, and what is left
    of the stream: at most [room] bytes (the size handed to [fgets] less
    one), up to and including the first newline.  [fgets] returns NULL
    when it stores nothing, which with room for a byte happens at the
    end of the stream only. *)
Fixpoint fgets (room : nat) (stream : list ascii)
  : list ascii * list ascii :=
  match room, stream with
  | S room', c :: stream' =>
      if char_eqb c NL then ([c], stream')
      else let (l, rest) := fgets room' stream' in (c :: l, rest)
  | _, _ => ([], stream)
  end.

(** [strchr(buf, c)] for [c] other than NUL, as an index into [buf]: the
    first [c] before the NUL that ends the string. *)
Fixpoint strchr (buf : list ascii) (c : ascii) : option nat :=
  match buf with
  | [] => None
  | x :: buf' =>
      if char_eqb x NUL then None
      else if char_eqb x c then Some O
      else option_map S (strchr buf' c)
  end.

(** What [printf("%s", buf)] writes: the bytes before the first NUL. *)
Fixpoint c_string (buf : list ascii) : list ascii :=
  match buf with
  | [] => []
  | x :: buf' => if char_eqb x NUL then [] else x :: c_string buf'
  end.

(** [buf[i] = c], for [i] inside the buffer. *)
Definition store (buf : list ascii) (i : nat) (c : ascii) : list ascii :=
  firstn i buf ++ c :: skipn (S i) buf.

(** The body of the [while] of [removeComments] up to the [printf], on
    the buffer as [fgets] left it. *)
Definition cut_comment (lineBuf : list ascii) : list ascii :=
  match strchr lineBuf PERCENT with
  | Some commentPtr => store (store lineBuf commentPtr NL) (S commentPtr) NUL
  | None => lineBuf
  end.

(** The [while] of [removeComments] on the unread part of the input
    file, with what has been written to the console so far.  Of
    [lineBuf] the bytes that [fgets] stores and its closing NUL are kept:
    neither [strchr] nor [printf] looks behind that NUL, and the two
    stores fall on or before it. *)
Fixpoint removeComments_loop (fuel : nat) (inFile : list ascii)
  (out : list ascii) : option (list ascii) :=
  match fuel with
  | O => None
  | S fuel' =>
      match fgets (LINE_BUF - 1) inFile with
      | ([], _) => Some out
      | (line, inFile') =>
          removeComments_loop fuel' inFile'
            (out ++ c_string (cut_comment (line ++ [NUL])))
      end
  end.

(** [removeComments(sourceFile, cleanFile)]: what it writes to the
    console, for the content of the file [sourceFile] names, [None] when
    it cannot be opened.  The function makes no use of [cleanFile]. *)
Definition removeComments (fuel : nat) (sourceFile : string)
  (content : option (list ascii)) : option (list ascii) :=
  match content with
  | None =>
      Some (list_ascii_of_string
              (String.append "Error: Cannot open file "
                 (String.append sourceFile (String NL EmptyString))))
  | Some inFile => removeComments_loop fuel inFile []
  end.

(** The characters of [l] in front of its first percent sign. *)
Fixpoint before_percent (l : list ascii) : list ascii :=
  match l with
  | [] => []
  | x :: l' => if char_eqb x PERCENT then [] else x :: before_percent l'
  end.

Definition has_percent (l : list ascii) : bool :=
  existsb (fun x => char_eqb x PERCENT) l.

(** A line (without its newline) that [fgets] reads in one piece and
    that holds no NUL. *)
Definition plain_line (l : list ascii) : bool :=
  forallb (fun x => negb (char_eqb x NUL) && negb (char_eqb x NL)) l
  && (List.length l <? LINE_BUF - 1)%nat.

(** A line without its comment. *)
Definition without_comment (l : list ascii) : list ascii :=
  before_percent l ++ [NL].

(** What one turn of the loop of [removeComments] writes for the bytes
    [line] that [fgets] stored, read off in one pass: the bytes in front
    of the first NUL or percent sign, and a newline in place of the
    percent sign. *)
Fixpoint written (line : list ascii) : list ascii :=
  match line with
  | [] => []
  | x :: line' =>
      if char_eqb x NUL then []
      else if char_eqb x PERCENT then [NL]
      else x :: written line'
  end.

(** The token kind of the operator that is the single character [op],
    one of the two that the states 53 and 56 accept after a look at the
    next character. *)
Definition relational_kind (op : ascii) : Token :=
  if char_eqb op "<" then LT else GT.

(** The characters [c1] and [c2] behind the operator [op] (a less-than
    or a greater-than sign) do not continue it: no equals sign comes
    next and, behind a less-than sign, no two minus signs. *)
Definition ends_relational (op c1 c2 : ascii) : bool :=
  negb (char_eqb c1 "=")
  && negb (char_eqb op "<" && char_eqb c1 "-" && char_eqb c2 "-").

(** A character for which state 0 has no transition: no white space, no
    digit, no lowercase letter, none of the characters that start an
    operator, a comment or a name, and not NUL. *)
Definition unknown_character (c : ascii) : bool :=
  negb (is_blank c || isdigit c || islower c || char_eqb c NUL
        || existsb (char_eqb c)
             (list_ascii_of_string "%><=_/@*#[],:;+)-(&~!.")).

(* ================================================================== *)
(** * Elementary facts *)
(* ================================================================== *)

Section Enumerations.

Lemma Token_nth (t : Token) :
  nth (Z.to_nat (Token_to_Z t)) all_tokens TK_NOT_FOUND = t.
Proof. destruct t; reflexivity. Qed.

Lemma Token_to_Z_inj (a b : Token) : Token_to_Z a = Token_to_Z b -> a = b.
Proof.
  intro H. rewrite <- (Token_nth a), <- (Token_nth b), H. reflexivity.
Qed.

Lemma Token_eqb_eq (a b : Token) : Token_eqb a b = true <-> a = b.
Proof.
  unfold Token_eqb. rewrite Z.eqb_eq. split.
  - apply Token_to_Z_inj.
  - intros ->. reflexivity.
Qed.

Lemma Token_eqb_refl (a : Token) : Token_eqb a a = true.
Proof. apply Token_eqb_eq. reflexivity. Qed.

Lemma Token_eqb_neq (a b : Token) : Token_eqb a b = false <-> a <> b.
Proof.
  rewrite <- Token_eqb_eq. destruct (Token_eqb a b); split; congruence.
Qed.

Lemma Token_eq_dec (a b : Token) : {a = b} + {a <> b}.
Proof.
  destruct (Token_eqb a b) eqn:E.
  - left. apply Token_eqb_eq. exact E.
  - right. apply Token_eqb_neq. exact E.
Qed.

Lemma Token_to_Z_range (t : Token) : 0 <= Token_to_Z t <= 62.
Proof. destruct t; simpl; lia. Qed.

Lemma all_tokens_complete (t : Token) : In t all_tokens.
Proof.
  rewrite <- (Token_nth t). apply nth_In.
  pose proof (Token_to_Z_range t). change (List.length all_tokens) with 63%nat.
  lia.
Qed.

Lemma NonTerminal_nth (n : NonTerminal) :
  nth (NonTerminal_tag n) all_nonterminals NT_NOT_FOUND = n.
Proof. destruct n; reflexivity. Qed.

Lemma NonTerminal_eqb_eq (a b : NonTerminal) :
  NonTerminal_eqb a b = true <-> a = b.
Proof.
  unfold NonTerminal_eqb, NonTerminal_to_Z. rewrite Z.eqb_eq. split.
  - intro H. apply Nat2Z.inj in H.
    rewrite <- (NonTerminal_nth a), <- (NonTerminal_nth b), H. reflexivity.
  - intros ->. reflexivity.
Qed.

Lemma NonTerminal_eqb_refl (a : NonTerminal) : NonTerminal_eqb a a = true.
Proof. apply NonTerminal_eqb_eq. reflexivity. Qed.

Lemma NonTerminal_eqb_neq (a b : NonTerminal) :
  NonTerminal_eqb a b = false <-> a <> b.
Proof.
  rewrite <- NonTerminal_eqb_eq.
  destruct (NonTerminal_eqb a b); split; congruence.
Qed.

Lemma all_nonterminals_complete (n : NonTerminal) : In n all_nonterminals.
Proof.
  rewrite <- (NonTerminal_nth n). apply nth_In.
  change (List.length all_nonterminals) with 54%nat.
  destruct n; simpl; lia.
Qed.

Lemma code_inj (a b : ascii) : code a = code b -> a = b.
Proof.
  unfold code. intro H. apply N2Z.inj in H.
  rewrite <- (ascii_N_embedding a), <- (ascii_N_embedding b), H.
  reflexivity.
Qed.

Lemma char_eqb_eq (a b : ascii) : char_eqb a b = true <-> a = b.
Proof.
  unfold char_eqb. rewrite Z.eqb_eq. split.
  - apply code_inj.
  - intros ->. reflexivity.
Qed.

Lemma char_eqb_neq (a b : ascii) : char_eqb a b = false <-> a <> b.
Proof.
  rewrite <- char_eqb_eq. destruct (char_eqb a b); split; congruence.
Qed.

Lemma existsInFirstFollow_In (lst : FirstFollowSet) (tk : Token) :
  existsInFirstFollow lst tk = true <-> In tk lst.
Proof.
  unfold existsInFirstFollow. rewrite existsb_exists. split.
  - intros [x [Hx E]]. apply Token_eqb_eq in E. subst. exact Hx.
  - intro H. exists tk. split; [exact H | apply Token_eqb_refl].
Qed.

Lemma existsInFirstFollow_not_In (lst : FirstFollowSet) (tk : Token) :
  existsInFirstFollow lst tk = false <-> ~ In tk lst.
Proof.
  rewrite <- existsInFirstFollow_In.
  destruct (existsInFirstFollow lst tk); split; congruence.
Qed.

End Enumerations.

(* ================================================================== *)
(** * The end of the input *)
(* ================================================================== *)

Section EndOfInput.

(** C10. Lexing the empty input, whatever the uninitialised twin buffer
    holds, returns exactly one token: the end-of-input token, with the
    empty lexeme and line number 1; its entry is built by
    [newSymbolTableEntry] and the symbol table stays empty. *)
Theorem empty_input_single_eof_token :
  forall (garbage : list ascii) (fuel : nat),
  exists st,
    getAllTokens (S (S fuel)) (fopen_contents []) garbage
      = Ok ([eof_token 1], st)
    /\ entry (eof_token 1) = newSymbolTableEntry "" DOLLAR 0%Q
    /\ lexeme (entry (eof_token 1)) = ""%string
    /\ lineNum (eof_token 1) = 1
    /\ symTable st = [].
Proof.
  intros garbage fuel.
  destruct garbage as [|g0 garbage]; eexists;
    (split; [reflexivity | repeat split]).
Qed.

End EndOfInput.

(* ================================================================== *)
(** * Numeric values of literals *)
(* ================================================================== *)

Section NumericValues.

Lemma isdigit_code (c : ascii) :
  isdigit c = true <-> 48 <= code c <= 57.
Proof.
  unfold isdigit. change (code "0") with 48. change (code "9") with 57.
  rewrite andb_true_iff, !Z.leb_le. reflexivity.
Qed.

(** The exponent state 7 computes from two digit characters is 528 more
    than the number they spell: each character enters with its code. *)
Lemma exponent_unsigned (a b d1 d2 : ascii) :
  isdigit d1 = true ->
  exponent ["."; a; b; "E"; d1; d2]%char
    = 528 + (digit_val d1 * 10 + digit_val d2).
Proof.
  intro H. unfold exponent, at_off. simpl nth. rewrite H.
  apply isdigit_code in H.
  assert (E : char_eqb d1 "-" = false).
  { unfold char_eqb. apply Z.eqb_neq. change (code "-") with 45. lia. }
  rewrite E. unfold digit_val. change (code "0") with 48. lia.
Qed.

Lemma exponent_negative (a b d1 d2 : ascii) :
  exponent ["."; a; b; "E"; "-"; d1; d2]%char
    = - (528 + (digit_val d1 * 10 + digit_val d2)).
Proof.
  unfold exponent, at_off. simpl nth.
  change (isdigit "-") with false. change (char_eqb "-" "-") with true.
  cbv iota. unfold digit_val. change (code "0") with 48. lia.
Qed.

(** An integer literal is stored with its decimal value. *)
Lemma num_value_123 :
  num_value (list_ascii_of_string "123") = inject_Z 123.
Proof. reflexivity. Qed.

(** C3, on the literal [1.23E05]: the lexer returns one real-literal
    token and the end-of-input token; the value stored for the literal is
    1.23 times ten to the power 533, not 1.23 times ten to the power 5. *)
Theorem rnum_exponent_read_from_character_codes :
  exists e st,
    getAllTokens 12 (fopen_contents (list_ascii_of_string "1.23E05"))
                 (repeat NUL 512)
      = Ok ([newTokenNode e 1; eof_token 1], st)
    /\ lexeme e = "1.23E05"%string
    /\ tokenType e = RNUM
    /\ (numericValue e == (123 # 100) * Qpower 10 533)%Q
    /\ ~ (numericValue e == (123 # 100) * Qpower 10 5)%Q.
Proof.
  eexists. eexists. split; [vm_compute; reflexivity |].
  split; [reflexivity |]. split; [reflexivity |]. split.
  - vm_compute. reflexivity.
  - intro H. vm_compute in H. discriminate H.
Qed.

End NumericValues.

(* ================================================================== *)
(** * The grammar file that cannot be opened *)
(* ================================================================== *)

Section GrammarFile.

Lemma readGrammar_unopenable (out : list Message) :
  readGrammar None initial_globals out
    = Returned
        {| g_Grammar := []; g_grammarLoaded := true;
           g_AutoFirst := empty_sets; g_AutoFollow := empty_sets;
           g_firstFollowComputed := false;
           g_parseTable := empty_table; g_parseTreeInitialized := false |}
        (out ++ [CouldNotOpenGrammarFile]).
Proof. reflexivity. Qed.

(** C8, on the source text [_main end] and a grammar file that cannot
    be opened: [readGrammar] prints its message and returns with no rule
    loaded, nothing calls [exit], and [parseInputSourceCode] goes on to
    parse the tokens against the empty table, reporting every token as
    invalid. *)
Theorem unopenable_grammar_is_not_fatal :
  exists g ps,
    parseInputSourceCode 20 true
        (Some (list_ascii_of_string "_main end")) (repeat NUL 512)
        None initial_globals
      = Returned (g, Some ps)
          [CouldNotOpenGrammarFile; ParsingStarting;
           InvalidToken 1 MAIN "_main" program;
           InvalidToken 1 END "end" program;
           InvalidToken 1 DOLLAR "" program;
           HasSyntacticErrors]
    /\ g_Grammar g = []
    /\ g_grammarLoaded g = true
    /\ (forall n t, g_parseTable g n t = None)
    /\ hasSyntaxError ps = true.
Proof.
  eexists. eexists. split; [vm_compute; reflexivity |].
  repeat split.
Qed.

End GrammarFile.

(* ================================================================== *)
(** * Error recovery of the predictive parser *)
(* ================================================================== *)

Section Recovery.

Variable shouldPrint : bool.
Variable pt : ParseTable.
Variable follow : FirstFollowTable.

Lemma ordinary_spec (tok : TokenNode) :
  ordinary tok = true ->
  Token_eqb (tokenType (entry tok)) COMMENT
  || (Token_to_Z (tokenType (entry tok)) >=? Token_to_Z LEXICAL_ERROR)
  = false.
Proof.
  unfold ordinary. rewrite andb_true_iff, negb_true_iff, Z.ltb_lt.
  intros [-> H]. simpl. rewrite Z.geb_leb. apply Z.leb_gt. exact H.
Qed.

Lemma not_ordinary_spec (tok : TokenNode) :
  ordinary tok = false ->
  Token_eqb (tokenType (entry tok)) COMMENT
  || (Token_to_Z (tokenType (entry tok)) >=? Token_to_Z LEXICAL_ERROR)
  = true.
Proof.
  unfold ordinary. rewrite andb_false_iff, negb_false_iff, Z.ltb_ge.
  intros [-> | H]; [reflexivity |].
  apply orb_true_iff. right. rewrite Z.geb_leb. apply Z.leb_le. exact H.
Qed.

(** The step on a terminal that is not the one in the input. *)
Lemma parse_step_mismatch (ps : ParserState) (top : nat) (stk : list nat)
  (tok : TokenNode) (rest : TokenList) (t : Token) :
  theStack ps = top :: stk ->
  inputPtr ps = tok :: rest ->
  symbol (deref (nodes ps) top) = TerminalSym t ->
  ordinary tok = true ->
  t <> EPS ->
  t <> tokenType (entry tok) ->
  parse_step shouldPrint pt follow ps
  = {| nodes := update_node top (set_line (lineNum tok)) (nodes ps);
       theStack := stk; inputPtr := tok :: rest;
       hasSyntaxError := true; cln := lineNum tok;
       console := say shouldPrint (console ps)
                    (TokenMismatch (lineNum tok) (tokenType (entry tok))
                                   (lexeme (entry tok)) t) |}.
Proof.
  intros Hs Hi Hsym Hord Heps Hne.
  unfold parse_step. rewrite Hs, Hi, (ordinary_spec _ Hord), Hsym.
  apply Token_eqb_neq in Heps. apply Token_eqb_neq in Hne.
  rewrite Heps, Hne. reflexivity.
Qed.

(** The step on a token that does not synchronize, while more input
    follows: the token is dropped, stack and tree stay. *)
Lemma parse_step_discard (ps : ParserState) (top : nat) (stk : list nat)
  (n : NonTerminal) (tok next : TokenNode) (rest : TokenList) :
  theStack ps = top :: stk ->
  symbol (deref (nodes ps) top) = NonTerminalSym n ->
  inputPtr ps = tok :: next :: rest ->
  synchronizes pt follow n tok = false ->
  parse_step shouldPrint pt follow ps
  = {| nodes := nodes ps; theStack := top :: stk;
       inputPtr := next :: rest;
       hasSyntaxError :=
         if negb (Token_eqb (tokenType (entry tok)) COMMENT) then true
         else hasSyntaxError ps;
       cln := lineNum tok;
       console := if shouldPrint
                  then console ps ++ skip_messages n tok
                  else console ps |}.
Proof.
  intros Hs Hsym Hi Hsync.
  unfold parse_step. rewrite Hs, Hi.
  unfold synchronizes in Hsync. unfold skip_messages.
  destruct (ordinary tok) eqn:Hord.
  - rewrite (ordinary_spec _ Hord), Hsym. simpl in Hsync.
    apply orb_false_iff in Hsync. destruct Hsync as [Hcell Hfol].
    destruct (pt n (tokenType (entry tok))); [discriminate |].
    rewrite Hfol.
    assert (Hc : Token_eqb (tokenType (entry tok)) COMMENT = false).
    { unfold ordinary in Hord. apply andb_true_iff in Hord.
      destruct Hord as [H _]. apply negb_true_iff in H. exact H. }
    rewrite Hc. unfold say. simpl. destruct shouldPrint; reflexivity.
  - rewrite (not_ordinary_spec _ Hord). unfold skip_token, say.
    rewrite <- Hs.
    destruct (Token_eqb (tokenType (entry tok)) LEXICAL_ERROR);
      [destruct shouldPrint; reflexivity |].
    destruct (Token_eqb (tokenType (entry tok)) ID_LENGTH_EXC);
      [destruct shouldPrint; reflexivity |].
    destruct (Token_eqb (tokenType (entry tok)) FUN_LENGTH_EXC);
      destruct shouldPrint; try reflexivity.
    rewrite app_nil_r. reflexivity.
Qed.

(** The run of discards in front of the first synchronizing token. *)
Lemma parse_steps_discard (skipped : TokenList) :
  forall (ps : ParserState) (top : nat) (stk : list nat) (n : NonTerminal)
         (tok : TokenNode) (rest : TokenList),
  theStack ps = top :: stk ->
  symbol (deref (nodes ps) top) = NonTerminalSym n ->
  inputPtr ps = skipped ++ tok :: rest ->
  forallb (fun t => negb (synchronizes pt follow n t)) skipped = true ->
  let ps1 := parse_steps (List.length skipped) shouldPrint pt follow ps in
  theStack ps1 = top :: stk
  /\ inputPtr ps1 = tok :: rest
  /\ nodes ps1 = nodes ps
  /\ console ps1
     = (if shouldPrint
        then console ps ++ flat_map (skip_messages n) skipped
        else console ps).
Proof.
  induction skipped as [|t skipped IH];
    intros ps top stk n tok rest Hs Hsym Hi Hall; simpl in *.
  - repeat split; try assumption.
    destruct shouldPrint; [rewrite app_nil_r |]; reflexivity.
  - apply andb_true_iff in Hall. destruct Hall as [Ht Hall].
    apply negb_true_iff in Ht.
    assert (Hstep := Ht).
    destruct (skipped ++ tok :: rest) as [|next more] eqn:Hrest.
    { destruct skipped; discriminate. }
    eapply parse_step_discard in Hstep; eauto.
    rewrite Hstep. clear Hstep.
    match goal with
    | |- context [parse_steps _ _ _ _ ?p] => set (p1 := p)
    end.
    destruct (IH p1 top stk n tok rest eq_refl Hsym (eq_sym Hrest) Hall)
      as (H1 & H2 & H3 & H4).
    rewrite H1, H2, H3, H4. simpl.
    repeat split. destruct shouldPrint; [rewrite <- app_assoc |]; reflexivity.
Qed.

(** The error flag after the run of discards: set as soon as one of the
    discarded tokens is no comment. *)
Lemma parse_steps_discard_flag (skipped : TokenList) :
  forall (ps : ParserState) (top : nat) (stk : list nat) (n : NonTerminal)
         (tok : TokenNode) (rest : TokenList),
  theStack ps = top :: stk ->
  symbol (deref (nodes ps) top) = NonTerminalSym n ->
  inputPtr ps = skipped ++ tok :: rest ->
  forallb (fun t => negb (synchronizes pt follow n t)) skipped = true ->
  hasSyntaxError (parse_steps (List.length skipped) shouldPrint pt follow ps)
  = hasSyntaxError ps
    || existsb (fun t => negb (Token_eqb (tokenType (entry t)) COMMENT))
               skipped.
Proof.
  induction skipped as [|t skipped IH];
    intros ps top stk n tok rest Hs Hsym Hi Hall; simpl in *.
  - rewrite orb_false_r. reflexivity.
  - apply andb_true_iff in Hall. destruct Hall as [Ht Hall].
    apply negb_true_iff in Ht.
    assert (Hstep := Ht).
    destruct (skipped ++ tok :: rest) as [|next more] eqn:Hrest.
    { destruct skipped; discriminate. }
    eapply parse_step_discard in Hstep; eauto.
    rewrite Hstep. clear Hstep.
    match goal with
    | |- context [parse_steps _ _ _ _ ?p] => set (p1 := p)
    end.
    rewrite (IH p1 top stk n tok rest eq_refl Hsym (eq_sym Hrest) Hall).
    unfold p1. cbn [hasSyntaxError].
    destruct (negb (Token_eqb (tokenType (entry t)) COMMENT));
      [rewrite orb_true_r |]; reflexivity.
Qed.

(** The step on a token of FOLLOW(n) with an empty cell. *)
Lemma parse_step_pop (ps : ParserState) (top : nat) (stk : list nat)
  (n : NonTerminal) (tok : TokenNode) (rest : TokenList) :
  theStack ps = top :: stk ->
  symbol (deref (nodes ps) top) = NonTerminalSym n ->
  inputPtr ps = tok :: rest ->
  ordinary tok = true ->
  pt n (tokenType (entry tok)) = None ->
  existsInFirstFollow (follow n) (tokenType (entry tok)) = true ->
  parse_step shouldPrint pt follow ps
  = {| nodes := update_node top (set_line (lineNum tok)) (nodes ps);
       theStack := stk; inputPtr := tok :: rest;
       hasSyntaxError := true; cln := lineNum tok;
       console := say shouldPrint (console ps)
                    (InvalidToken (lineNum tok) (tokenType (entry tok))
                                  (lexeme (entry tok)) n) |}.
Proof.
  intros Hs Hsym Hi Hord Hcell Hfol.
  unfold parse_step.
  rewrite Hs, Hi, (ordinary_spec _ Hord), Hsym, Hcell, Hfol. reflexivity.
Qed.

(** When the last token of the input is discarded, the non-terminal is
    popped with it. *)
Lemma parse_step_input_exhausted (ps : ParserState) (top : nat)
  (stk : list nat) (n : NonTerminal) (tok : TokenNode) :
  theStack ps = top :: stk ->
  symbol (deref (nodes ps) top) = NonTerminalSym n ->
  inputPtr ps = [tok] ->
  ordinary tok = true ->
  synchronizes pt follow n tok = false ->
  theStack (parse_step shouldPrint pt follow ps) = stk
  /\ inputPtr (parse_step shouldPrint pt follow ps) = [].
Proof.
  intros Hs Hsym Hi Hord Hsync.
  unfold parse_step. rewrite Hs, Hi, (ordinary_spec _ Hord), Hsym.
  unfold synchronizes in Hsync. rewrite Hord in Hsync. simpl in Hsync.
  apply orb_false_iff in Hsync. destruct Hsync as [Hcell Hfol].
  destruct (pt n (tokenType (entry tok))); [discriminate |].
  rewrite Hfol. split; reflexivity.
Qed.

End Recovery.

(** C5, as stated, fails when printing is off: the stack top is the
    terminal [END], the current token is [_main], and the step leaves
    the console empty. *)
Lemma terminal_mismatch_silent_when_not_printing :
  symbol (deref (nodes expecting_END) 0) = TerminalSym END
  /\ inputPtr expecting_END = [main_token; end_token; eof_token 1]
  /\ tokenType (entry main_token) <> END
  /\ console (parse_step false empty_table follow_of_start expecting_END)
     = [].
Proof. repeat split. discriminate. Qed.

(** C5 (amended). When the stack top is a terminal other than the
    epsilon marker whose kind differs from the kind of the current token
    (a token that is neither a comment nor a lexical error), the parser
    sets the error flag, emits, if printing is enabled, one
    expected-vs-actual diagnostic carrying the line number and lexeme of
    the token, pops the stack and does not advance the input: the same
    token faces the next stack top. *)
Theorem terminal_mismatch_recovery :
  forall (shouldPrint : bool) (pt : ParseTable) (follow : FirstFollowTable)
         (ps : ParserState) (top : nat) (stk : list nat)
         (tok : TokenNode) (rest : TokenList) (t : Token),
    theStack ps = top :: stk ->
    inputPtr ps = tok :: rest ->
    symbol (deref (nodes ps) top) = TerminalSym t ->
    ordinary tok = true ->
    t <> EPS ->
    t <> tokenType (entry tok) ->
    console (parse_step shouldPrint pt follow ps)
      = (if shouldPrint
         then console ps ++ [TokenMismatch (lineNum tok)
                               (tokenType (entry tok)) (lexeme (entry tok)) t]
         else console ps)
    /\ theStack (parse_step shouldPrint pt follow ps) = stk
    /\ inputPtr (parse_step shouldPrint pt follow ps) = tok :: rest
    /\ hasSyntaxError (parse_step shouldPrint pt follow ps) = true.
Proof.
  intros shouldPrint pt follow ps top stk tok rest t Hs Hi Hsym Hord He Hne.
  rewrite (parse_step_mismatch shouldPrint pt follow ps top stk tok rest t)
    by assumption.
  simpl. repeat split.
Qed.

Lemma terminal_mismatch_recovery_witness :
  console (parse_step true empty_table follow_of_start expecting_END)
    = [TokenMismatch 1 MAIN "_main" END]
  /\ theStack (parse_step true empty_table follow_of_start expecting_END) = []
  /\ inputPtr (parse_step true empty_table follow_of_start expecting_END)
     = [main_token; end_token; eof_token 1]
  /\ hasSyntaxError (parse_step true empty_table follow_of_start expecting_END)
     = true.
Proof.
  apply (terminal_mismatch_recovery true empty_table follow_of_start
           expecting_END 0%nat [] main_token [end_token; eof_token 1] END).
  - reflexivity.
  - reflexivity.
  - reflexivity.
  - reflexivity.
  - discriminate.
  - discriminate.
Defined.

(** C4, as stated, fails when printing is off: the stack top is the
    start symbol, its row of the table is empty, the current token
    [_main] is not in FOLLOW; the token is dropped and the console stays
    empty. *)
Lemma nonterminal_recovery_silent_when_not_printing :
  symbol (deref (nodes expecting_program) 0) = NonTerminalSym program
  /\ empty_table program (tokenType (entry main_token)) = None
  /\ inputPtr (parse_step false empty_table follow_of_start expecting_program)
     = [end_token; eof_token 1]
  /\ console (parse_step false empty_table follow_of_start expecting_program)
     = [].
Proof. repeat split. Qed.

(** C4 (amended). Let the stack top be a non-terminal N and let the
    input start with tokens that do not synchronize (comments, lexical
    errors, and tokens with an empty cell in row N outside FOLLOW(N)),
    followed by a token that has an entry in row N or is in FOLLOW(N).
    The parser discards the former one by one, leaving stack and tree
    alone, sets the error flag for each of them that is no comment, and
    reports each, if printing is enabled; it then faces the
    synchronizing token with N still on top.  If the cell of that token
    is empty, so that the token is in FOLLOW(N), the parser sets the error
    flag, reports it, if printing is enabled, and pops N without
    consuming the token. *)
Theorem nonterminal_recovery :
  forall (shouldPrint : bool) (pt : ParseTable) (follow : FirstFollowTable)
         (ps : ParserState) (top : nat) (stk : list nat) (n : NonTerminal)
         (skipped : TokenList) (tok : TokenNode) (rest : TokenList),
    theStack ps = top :: stk ->
    symbol (deref (nodes ps) top) = NonTerminalSym n ->
    inputPtr ps = skipped ++ tok :: rest ->
    forallb (fun t => negb (synchronizes pt follow n t)) skipped = true ->
    synchronizes pt follow n tok = true ->
    (theStack (parse_steps (List.length skipped) shouldPrint pt follow ps)
       = top :: stk
     /\ inputPtr (parse_steps (List.length skipped) shouldPrint pt follow ps)
        = tok :: rest
     /\ nodes (parse_steps (List.length skipped) shouldPrint pt follow ps)
        = nodes ps
     /\ hasSyntaxError
          (parse_steps (List.length skipped) shouldPrint pt follow ps)
        = hasSyntaxError ps
          || existsb (fun t => negb (Token_eqb (tokenType (entry t)) COMMENT))
                     skipped
     /\ console (parse_steps (List.length skipped) shouldPrint pt follow ps)
        = (if shouldPrint
           then console ps ++ flat_map (skip_messages n) skipped
           else console ps))
    /\ (forall t, In t skipped -> ordinary t = true ->
          pt n (tokenType (entry t)) = None
          /\ hasSyntaxError
               (parse_steps (List.length skipped) shouldPrint pt follow ps)
             = true)
    /\ (pt n (tokenType (entry tok)) = None ->
        theStack (parse_steps (S (List.length skipped)) shouldPrint pt follow ps)
          = stk
        /\ inputPtr (parse_steps (S (List.length skipped)) shouldPrint pt
                                 follow ps)
           = tok :: rest
        /\ hasSyntaxError (parse_steps (S (List.length skipped)) shouldPrint
                                       pt follow ps)
           = true
        /\ console (parse_steps (S (List.length skipped)) shouldPrint pt
                                follow ps)
           = (if shouldPrint
              then console ps ++ flat_map (skip_messages n) skipped
                   ++ [InvalidToken (lineNum tok) (tokenType (entry tok))
                                    (lexeme (entry tok)) n]
              else console ps)).
Proof.
  intros shouldPrint pt follow ps top stk n skipped tok rest
         Hs Hsym Hi Hall Hsync.
  destruct (parse_steps_discard shouldPrint pt follow skipped ps top stk n
              tok rest Hs Hsym Hi Hall) as (H1 & H2 & H3 & H4).
  pose proof (parse_steps_discard_flag shouldPrint pt follow skipped ps top
                stk n tok rest Hs Hsym Hi Hall) as Hflag.
  split; [repeat split; assumption |].
  split.
  { intros t Hin Hord. rewrite forallb_forall in Hall.
    specialize (Hall t Hin). apply negb_true_iff in Hall.
    unfold synchronizes in Hall. rewrite Hord in Hall. cbn [andb] in Hall.
    apply orb_false_iff in Hall. destruct Hall as [Hcell _].
    split; [destruct (pt n (tokenType (entry t)));
              [discriminate | reflexivity] |].
    rewrite Hflag. apply orb_true_iff. right.
    apply existsb_exists. exists t. split; [exact Hin |].
    unfold ordinary in Hord. apply andb_true_iff in Hord. apply Hord. }
  intro Hcell.
  assert (Hsteps : forall k p,
             parse_steps (S k) shouldPrint pt follow p
             = parse_step shouldPrint pt follow
                 (parse_steps k shouldPrint pt follow p)).
  { induction k as [|k IHk]; intro p; [reflexivity |].
    change (parse_steps (S (S k)) shouldPrint pt follow p)
      with (parse_steps (S k) shouldPrint pt follow
              (parse_step shouldPrint pt follow p)).
    rewrite IHk. reflexivity. }
  rewrite Hsteps.
  unfold synchronizes in Hsync. apply andb_true_iff in Hsync.
  destruct Hsync as [Hord Hor]. rewrite Hcell in Hor. simpl in Hor.
  rewrite (parse_step_pop shouldPrint pt follow _ top stk n tok rest);
    try assumption.
  - simpl. repeat split. rewrite H4. unfold say.
    destruct shouldPrint; [rewrite <- app_assoc |]; reflexivity.
  - rewrite H3. exact Hsym.
Qed.

Lemma nonterminal_recovery_witness :
  (theStack (parse_steps 2 true empty_table follow_of_start expecting_program)
     = [0%nat]
   /\ inputPtr (parse_steps 2 true empty_table follow_of_start
                            expecting_program)
      = [eof_token 1]
   /\ nodes (parse_steps 2 true empty_table follow_of_start expecting_program)
      = nodes expecting_program
   /\ hasSyntaxError (parse_steps 2 true empty_table follow_of_start
                                  expecting_program)
      = true
   /\ console (parse_steps 2 true empty_table follow_of_start
                           expecting_program)
      = [InvalidToken 1 MAIN "_main" program;
         InvalidToken 1 END "end" program])
  /\ (forall t, In t [main_token; end_token] -> ordinary t = true ->
        empty_table program (tokenType (entry t)) = None
        /\ hasSyntaxError (parse_steps 2 true empty_table follow_of_start
                                       expecting_program)
           = true)
  /\ (empty_table program DOLLAR = None ->
      theStack (parse_steps 3 true empty_table follow_of_start
                            expecting_program) = []
      /\ inputPtr (parse_steps 3 true empty_table follow_of_start
                               expecting_program) = [eof_token 1]
      /\ hasSyntaxError (parse_steps 3 true empty_table follow_of_start
                                     expecting_program) = true
      /\ console (parse_steps 3 true empty_table follow_of_start
                              expecting_program)
         = [InvalidToken 1 MAIN "_main" program;
            InvalidToken 1 END "end" program;
            InvalidToken 1 DOLLAR "" program]).
Proof.
  apply (nonterminal_recovery true empty_table follow_of_start
           expecting_program 0%nat [] program [main_token; end_token]
           (eof_token 1) []).
  - reflexivity.
  - reflexivity.
  - reflexivity.
  - reflexivity.
  - reflexivity.
Defined.

(* ================================================================== *)
(** * The twin buffer *)
(* ================================================================== *)

Section TwinBuffer.

Lemma nth_poke_other (i j : nat) (c d : ascii) (b : list ascii) :
  i <> j -> nth i (poke j c b) d = nth i b d.
Proof.
  revert i j. induction b as [|x b IH]; intros i j H; [reflexivity |].
  destruct j as [|j]; destruct i as [|i]; simpl; try reflexivity.
  - congruence.
  - apply IH. congruence.
Qed.

Lemma nth_poke_same (i : nat) (c d : ascii) (b : list ascii) :
  (i < List.length b)%nat -> nth i (poke i c b) d = c.
Proof.
  revert i. induction b as [|x b IH]; intros i H; simpl in H; [lia |].
  destruct i as [|i]; simpl; [reflexivity |].
  apply IH. lia.
Qed.

Lemma length_poke (i : nat) (c : ascii) (b : list ascii) :
  List.length (poke i c b) = List.length b.
Proof.
  revert i. induction b as [|x b IH]; intros [|i]; simpl; auto.
Qed.

Lemma length_blit (data : list ascii) :
  forall (off : nat) (b : list ascii),
  List.length (blit off data b) = List.length b.
Proof.
  induction data as [|c data IH]; intros off b; simpl; [reflexivity |].
  rewrite IH. apply length_poke.
Qed.

Lemma nth_blit_below (data : list ascii) :
  forall (off i : nat) (d : ascii) (b : list ascii),
  (i < off)%nat -> nth i (blit off data b) d = nth i b d.
Proof.
  induction data as [|c data IH]; intros off i d b H; simpl; [reflexivity |].
  rewrite IH by lia. apply nth_poke_other. lia.
Qed.

(** Inside the array the stored bytes are read back. *)
Lemma nth_blit_inside (data : list ascii) :
  forall (off i : nat) (d : ascii) (b : list ascii),
  (off + List.length data <= List.length b)%nat ->
  (i < List.length data)%nat ->
  nth (off + i) (blit off data b) d = nth i data d.
Proof.
  induction data as [|c data IH]; intros off i d b Hfit Hi; simpl in *;
    [lia |].
  destruct i as [|i].
  - rewrite Nat.add_0_r, nth_blit_below by lia.
    apply nth_poke_same. lia.
  - replace (off + S i)%nat with (S off + i)%nat by lia.
    apply IH; [rewrite length_poke |]; lia.
Qed.

Lemma nth_blit_above (data : list ascii) :
  forall (off i : nat) (d : ascii) (b : list ascii),
  (off + List.length data <= i)%nat ->
  nth i (blit off data b) d = nth i b d.
Proof.
  induction data as [|c data IH]; intros off i d b H; simpl in *;
    [reflexivity |].
  rewrite IH by lia. apply nth_poke_other. lia.
Qed.

(** A refill touches the stream and the buffer only. *)
Lemma refill_frame (off : Z) (st : LexerState) :
  forwardPtr (refill off st) = forwardPtr st
  /\ lineNumber (refill off st) = lineNumber st
  /\ retractFlag (refill off st) = retractFlag st
  /\ symTable (refill off st) = symTable st.
Proof.
  unfold refill. destruct (feof (fp st)); [repeat split |].
  unfold fread.
  match goal with |- context [if ?c then _ else _] => destruct c end;
    repeat split.
Qed.

Lemma refill_at_boundary_frame (st : LexerState) :
  forwardPtr (refill_at_boundary st) = forwardPtr st
  /\ lineNumber (refill_at_boundary st) = lineNumber st
  /\ retractFlag (refill_at_boundary st) = retractFlag st
  /\ symTable (refill_at_boundary st) = symTable st.
Proof.
  unfold refill_at_boundary.
  destruct ((forwardPtr st =? BUFFER_SZ - 1) && negb (retractFlag st));
    [apply refill_frame |].
  destruct ((forwardPtr st =? 2 * BUFFER_SZ - 1) && negb (retractFlag st));
    [apply refill_frame | repeat split].
Qed.

(** [fetchNextChar] moves the cursor one place on, clears the flag and
    returns the byte under the cursor. *)
Lemma fetchNextChar_frame (st : LexerState) :
  forwardPtr (snd (fetchNextChar st))
    = (forwardPtr st + 1) mod (2 * BUFFER_SZ)
  /\ lineNumber (snd (fetchNextChar st)) = lineNumber st
  /\ retractFlag (snd (fetchNextChar st)) = false
  /\ symTable (snd (fetchNextChar st)) = symTable st
  /\ buffer (snd (fetchNextChar st)) = buffer (refill_at_boundary st)
  /\ fp (snd (fetchNextChar st)) = fp (refill_at_boundary st)
  /\ fst (fetchNextChar st)
     = buf_get (buffer (refill_at_boundary st))
               ((forwardPtr st + 1) mod (2 * BUFFER_SZ)).
Proof.
  destruct (refill_at_boundary_frame st) as (Hf & Hl & Hr & Ht).
  unfold fetchNextChar. cbv zeta. cbn [fst snd].
  destruct (retractFlag (refill_at_boundary st)) eqn:E;
    cbn [set_forwardPtr set_retractFlag forwardPtr lineNumber retractFlag
         symTable buffer fp];
    rewrite ?Hf, ?Hl, ?Ht; repeat split; congruence.
Qed.

(** Away from the ends of the two halves nothing is read from the
    file. *)
Lemma refill_at_boundary_inside (st : LexerState) :
  forwardPtr st <> BUFFER_SZ - 1 ->
  forwardPtr st <> 2 * BUFFER_SZ - 1 ->
  refill_at_boundary st = st.
Proof.
  intros H1 H2. unfold refill_at_boundary.
  apply Z.eqb_neq in H1. apply Z.eqb_neq in H2.
  rewrite H1, H2. reflexivity.
Qed.

(** The first refill: a file shorter than one half lands at the start of
    the buffer, followed by NUL. *)
Lemma refill_0_short (st : LexerState) (bytes : list ascii) :
  fp st = fopen_contents bytes ->
  List.length (buffer st) = 512%nat ->
  (List.length bytes < 256)%nat ->
  buffer (refill 0 st)
    = buf_set (blit 0 bytes (buffer st)) (Z.of_nat (List.length bytes)) NUL
  /\ fp (refill 0 st) = {| unread := []; eof_flag := true |}.
Proof.
  intros Hfp Hlen Hshort. unfold refill. rewrite Hfp.
  unfold fopen_contents, feof, fread. cbn [unread eof_flag].
  change (Z.to_nat BUFFER_SZ) with 256%nat.
  rewrite firstn_all2 by lia. rewrite skipn_all2 by lia.
  assert (E : (Z.of_nat (List.length bytes) <? BUFFER_SZ) = true).
  { apply Z.ltb_lt. unfold BUFFER_SZ. lia. }
  rewrite E. cbn [set_stream buffer fp].
  assert (E2 : (List.length bytes <? 256)%nat = true).
  { apply Nat.ltb_lt. exact Hshort. }
  rewrite E2. split; reflexivity.
Qed.

End TwinBuffer.

(* ================================================================== *)
(** * A comment that no newline ends *)
(* ================================================================== *)

Section CommentAtEndOfInput.

Lemma newline_free_poke (i : nat) (c : ascii) (b : list ascii) :
  newline_free b = true -> char_eqb c NL = false ->
  newline_free (poke i c b) = true.
Proof.
  revert i. induction b as [|x b IH]; intros i Hb Hc; [reflexivity |].
  simpl in Hb. apply andb_true_iff in Hb. destruct Hb as [Hx Hb].
  destruct i as [|i]; simpl.
  - rewrite Hc, Hb. reflexivity.
  - rewrite Hx, IH by assumption. reflexivity.
Qed.

Lemma newline_free_blit (data : list ascii) :
  forall (off : nat) (b : list ascii),
  newline_free data = true -> newline_free b = true ->
  newline_free (blit off data b) = true.
Proof.
  induction data as [|c data IH]; intros off b Hd Hb; [exact Hb |].
  simpl in Hd. apply andb_true_iff in Hd. destruct Hd as [Hc Hd].
  simpl. apply IH; [exact Hd |].
  apply newline_free_poke; [exact Hb |].
  apply negb_true_iff. exact Hc.
Qed.

Lemma newline_free_firstn (n : nat) (l : list ascii) :
  newline_free l = true -> newline_free (firstn n l) = true.
Proof.
  revert n. induction l as [|x l IH]; intros [|n] H; try reflexivity.
  simpl in *. apply andb_true_iff in H. destruct H as [Hx Hl].
  rewrite Hx, IH by assumption. reflexivity.
Qed.

Lemma newline_free_skipn (n : nat) (l : list ascii) :
  newline_free l = true -> newline_free (skipn n l) = true.
Proof.
  revert n. induction l as [|x l IH]; intros [|n] H; try reflexivity.
  - exact H.
  - simpl in *. apply andb_true_iff in H. destruct H as [Hx Hl].
    apply IH. exact Hl.
Qed.

Lemma newline_free_nth (i : nat) (l : list ascii) :
  newline_free l = true -> char_eqb (nth i l NUL) NL = false.
Proof.
  revert i. induction l as [|x l IH]; intros i H.
  - destruct i; reflexivity.
  - simpl in H. apply andb_true_iff in H. destruct H as [Hx Hl].
    destruct i as [|i]; simpl.
    + apply negb_true_iff. exact Hx.
    + apply IH. exact Hl.
Qed.

Lemma refill_no_newline (off : Z) (st : LexerState) :
  no_newline_ahead st -> no_newline_ahead (refill off st).
Proof.
  intros [Hb Hf]. unfold refill, no_newline_ahead.
  destruct (feof (fp st)).
  - cbn [set_stream buffer fp]. split; [| exact Hf].
    apply newline_free_poke; [exact Hb | reflexivity].
  - unfold fread.
    match goal with |- context [if ?c then _ else _] => destruct c end;
      cbn [set_stream buffer fp unread];
      (split; [| apply newline_free_skipn; exact Hf]).
    + apply newline_free_poke; [| reflexivity].
      apply newline_free_blit; [apply newline_free_firstn |]; assumption.
    + apply newline_free_blit; [apply newline_free_firstn |]; assumption.
Qed.

Lemma refill_at_boundary_no_newline (st : LexerState) :
  no_newline_ahead st -> no_newline_ahead (refill_at_boundary st).
Proof.
  intro H. unfold refill_at_boundary.
  destruct ((forwardPtr st =? BUFFER_SZ - 1) && negb (retractFlag st));
    [apply refill_no_newline; exact H |].
  destruct ((forwardPtr st =? 2 * BUFFER_SZ - 1) && negb (retractFlag st));
    [apply refill_no_newline; exact H | exact H].
Qed.

Lemma fetchNextChar_no_newline (st : LexerState) :
  no_newline_ahead st ->
  char_eqb (fst (fetchNextChar st)) NL = false
  /\ no_newline_ahead (snd (fetchNextChar st)).
Proof.
  intro H. apply refill_at_boundary_no_newline in H.
  unfold fetchNextChar. cbv zeta. cbn [fst snd].
  destruct (retractFlag (refill_at_boundary st)); split;
    try (apply newline_free_nth; exact (proj1 H)); exact H.
Qed.

(** The loop of state 65 never ends on such a stream. *)
Lemma skip_line_starves (fuel : nat) :
  forall st : LexerState, no_newline_ahead st -> skip_line fuel st = None.
Proof.
  induction fuel as [|fuel IH]; intros st H; [reflexivity |].
  cbn [skip_line]. destruct (fetchNextChar_no_newline st H) as [Hc Hst].
  destruct (fetchNextChar st) as [ch st']. cbn [fst snd] in Hc, Hst.
  rewrite Hc. apply IH. exact Hst.
Qed.

(** The first character [getNextToken] sees is the first byte of the
    file. *)
Lemma first_fetch (c : ascii) (rest garbage : list ascii) :
  List.length garbage = 512%nat ->
  let r := fetchNextChar (initial_state (fopen_contents (c :: rest)) garbage) in
  fst r = c
  /\ forwardPtr (snd r) = 0
  /\ symTable (snd r) = []
  /\ (newline_free garbage = true -> newline_free (c :: rest) = true ->
      no_newline_ahead (snd r)).
Proof.
  intro Hlen. cbv zeta.
  set (st0 := initial_state (fopen_contents (c :: rest)) garbage).
  destruct (fetchNextChar_frame st0) as (Hf & _ & _ & Ht & _ & _ & Hc).
  split; [| split; [exact Hf | split; [exact Ht |]]].
  - rewrite Hc.
    change (refill_at_boundary st0) with (refill 0 st0).
    change ((forwardPtr st0 + 1) mod (2 * BUFFER_SZ)) with 0.
    unfold refill, st0, initial_state, fopen_contents, feof, fread.
    cbn [fp unread eof_flag buffer].
    change (Z.to_nat BUFFER_SZ) with 256%nat.
    change (firstn 256 (c :: rest)) with (c :: firstn 255 rest).
    match goal with |- context [if ?b then _ else _] => destruct b end;
      cbn [set_stream buffer]; unfold buf_get, buf_set;
      change (Z.to_nat 0) with 0%nat.
    + rewrite nth_poke_other.
      * cbn [blit]. rewrite nth_blit_below, nth_poke_same by lia.
        reflexivity.
      * cbn [List.length]. lia.
    + cbn [blit]. rewrite nth_blit_below, nth_poke_same by lia.
      reflexivity.
  - intros Hg Hr. apply (fetchNextChar_no_newline st0). split; assumption.
Qed.

Lemma case_0_percent (beginPtr : Z) (st : LexerState) :
  fst (fetchNextChar st) = "%"%char ->
  case_0 beginPtr st = Goto 65 beginPtr (snd (fetchNextChar st)).
Proof.
  unfold case_0. destruct (fetchNextChar st) as [ch st1]. cbn [fst snd].
  intros ->. reflexivity.
Qed.

Lemma case_65_starves (fuel : nat) (st : LexerState) :
  forwardPtr st = 0 ->
  no_newline_ahead st ->
  case_65 fuel 0 st = Starved.
Proof.
  intros Hf Hinv. unfold case_65, extractLexeme, lexeme_slice. rewrite Hf.
  change (0 >=? 0) with true. cbv iota.
  change (Z.to_nat (0 - 0 + 1)) with 1%nat. cbn [seq map List.length].
  change (Z.of_nat 1 <? BUFFER_SZ) with true. cbv iota.
  unfold lookup_or_add.
  destruct (lookupToken (symTable st) _);
    rewrite skip_line_starves; try reflexivity; exact Hinv.
Qed.

End CommentAtEndOfInput.

(** C9, on every file that starts with a comment and holds no newline,
    read into a twin buffer whose uninitialised bytes hold none either:
    whatever the fuel, [getAllTokens] is still looping when it runs out.
    State 65 reads on until it sees a newline and does not stop at the
    NUL that marks the end of the input. *)
Theorem comment_without_newline_never_returns :
  forall (rest garbage : list ascii) (fuel : nat),
    List.length garbage = 512%nat ->
    newline_free garbage = true ->
    newline_free rest = true ->
    getAllTokens fuel (fopen_contents ("%"%char :: rest)) garbage
      = OutOfFuel.
Proof.
  intros rest garbage fuel Hlen Hg Hr.
  destruct (first_fetch "%" rest garbage Hlen) as (Hc & Hf & Ht & Hinv).
  specialize (Hinv Hg Hr).
  unfold getAllTokens.
  set (st0 := initial_state (fopen_contents ("%"%char :: rest)) garbage) in *.
  destruct fuel as [|fuel]; [reflexivity |].
  cbn [getAllTokens_loop]. unfold getNextToken.
  destruct fuel as [|fuel]; [reflexivity |].
  cbn [dfa_loop].
  change (dfa_step keywords fuel 0 ((forwardPtr st0 + 1) mod (2 * BUFFER_SZ))
                   st0)
    with (case_0 0 st0).
  rewrite (case_0_percent 0 st0 Hc).
  destruct fuel as [|fuel]; [reflexivity |].
  cbn [dfa_loop].
  change (dfa_step keywords fuel 65 0 (snd (fetchNextChar st0)))
    with (case_65 fuel 0 (snd (fetchNextChar st0))).
  rewrite (case_65_starves fuel _ Hf Hinv). reflexivity.
Qed.

Lemma comment_without_newline_never_returns_witness :
  getAllTokens 1000 (fopen_contents ["%"%char]) (repeat NUL 512) = OutOfFuel.
Proof.
  apply (comment_without_newline_never_returns [] (repeat NUL 512) 1000).
  - reflexivity.
  - reflexivity.
  - reflexivity.
Defined.

(* ================================================================== *)
(** * Interning in the symbol table *)
(* ================================================================== *)

Section Interning.

Lemma lookupToken_Some (t : SymbolTable) (lex : string) (e : SymbolTableEntry) :
  lookupToken t lex = Some e -> In e t /\ lexeme e = lex.
Proof.
  induction t as [|x t IH]; simpl; [discriminate |].
  destruct (String.eqb lex (lexeme x)) eqn:E.
  - intro H. injection H as <-. apply String.eqb_eq in E. auto.
  - intro H. destruct (IH H). auto.
Qed.

Lemma lookupToken_None (t : SymbolTable) (lex : string) :
  lookupToken t lex = None <-> ~ In lex (map lexeme t).
Proof.
  induction t as [|x t IH]; simpl; [tauto |].
  destruct (String.eqb lex (lexeme x)) eqn:E.
  - apply String.eqb_eq in E. split; [discriminate | intro H; exfalso; auto].
  - apply String.eqb_neq in E. rewrite IH. split.
    + intros H [H1 | H1]; [congruence | auto].
    + intros H H1. apply H. right. exact H1.
Qed.

Lemma lookupToken_app_Some (t ext : SymbolTable) (lex : string)
  (e : SymbolTableEntry) :
  lookupToken t lex = Some e -> lookupToken (t ++ ext) lex = Some e.
Proof.
  induction t as [|x t IH]; simpl; [discriminate |].
  destruct (String.eqb lex (lexeme x)); auto.
Qed.

Lemma lookupToken_app_fresh (t : SymbolTable) (e : SymbolTableEntry) :
  lookupToken t (lexeme e) = None ->
  lookupToken (t ++ [e]) (lexeme e) = Some e.
Proof.
  induction t as [|x t IH]; simpl.
  - rewrite String.eqb_refl. reflexivity.
  - destruct (String.eqb (lexeme e) (lexeme x)); [discriminate | exact IH].
Qed.

Lemma interned_add (t : SymbolTable) (e : SymbolTableEntry) :
  interned t -> lookupToken t (lexeme e) = None -> interned (t ++ [e]).
Proof.
  unfold interned. intros H Hn. apply lookupToken_None in Hn.
  rewrite map_app. simpl.
  apply NoDup_app; [exact H | repeat constructor; intros [] |].
  intros x Hx [<- | []]. exact (Hn Hx).
Qed.

Lemma extends_refl (t : SymbolTable) : extends t t.
Proof. exists []. rewrite app_nil_r. reflexivity. Qed.

Lemma extends_trans (t1 t2 t3 : SymbolTable) :
  extends t1 t2 -> extends t2 t3 -> extends t1 t3.
Proof.
  intros [a ->] [b ->]. exists (a ++ b). rewrite app_assoc. reflexivity.
Qed.

Lemma shares_entry_extends (t t' : SymbolTable) (node : TokenNode) :
  extends t t' -> shares_entry t node -> shares_entry t' node.
Proof.
  intros [ext ->] [H | H]; [left | right; exact H].
  apply lookupToken_app_Some. exact H.
Qed.

(** The entry is looked up first: it is reused when found, and only
    otherwise built and appended. *)
Lemma lookup_or_add_spec (lex : string) (tk : Token) (val : Q)
  (st : LexerState) :
  let r := lookup_or_add lex tk val st in
  lexeme (entry (fst r)) = lex
  /\ ((lookupToken (symTable st) lex = Some (entry (fst r))
       /\ snd r = st)
      \/ (lookupToken (symTable st) lex = None
          /\ entry (fst r) = newSymbolTableEntry lex tk val
          /\ symTable (snd r) = symTable st ++ [entry (fst r)])).
Proof.
  unfold lookup_or_add. cbv zeta.
  destruct (lookupToken (symTable st) lex) as [e |] eqn:E; cbn [fst snd].
  - split; [| left; split; reflexivity].
    apply lookupToken_Some in E. exact (proj2 E).
  - split; [reflexivity | right; repeat split].
Qed.

Lemma lookup_or_add_frame (lex : string) (tk : Token) (val : Q)
  (st : LexerState) :
  let st' := snd (lookup_or_add lex tk val st) in
  fp st' = fp st /\ buffer st' = buffer st
  /\ forwardPtr st' = forwardPtr st /\ lineNumber st' = lineNumber st
  /\ retractFlag st' = retractFlag st.
Proof.
  unfold lookup_or_add. cbv zeta.
  destruct (lookupToken (symTable st) lex); repeat split.
Qed.

Lemma lookup_or_add_good (lex : string) (tk : Token) (val : Q)
  (st : LexerState) (t : SymbolTable) :
  interned (symTable st) -> extends t (symTable st) ->
  let r := lookup_or_add lex tk val st in
  interned (symTable (snd r)) /\ extends t (symTable (snd r))
  /\ shares_entry (symTable (snd r)) (fst r).
Proof.
  intros Hi He. cbv zeta.
  destruct (lookup_or_add_spec lex tk val st) as [Hl [[Hf Hs] | (Hn & _ & Hs)]].
  - rewrite Hs. repeat split; try assumption.
    left. rewrite Hl. exact Hf.
  - rewrite Hs. rewrite <- Hl in Hn. repeat split.
    + apply interned_add; assumption.
    + eapply extends_trans; [exact He |]. eexists. reflexivity.
    + left. apply lookupToken_app_fresh. exact Hn.
Qed.

Lemma retract_symTable (st : LexerState) :
  symTable (retract st) = symTable st.
Proof.
  unfold retract. cbv zeta.
  match goal with |- context [if ?c then _ else _] => destruct c end;
    reflexivity.
Qed.

Lemma retract2_symTable (st : LexerState) :
  symTable (retract2 st) = symTable st.
Proof.
  unfold retract2. cbv zeta.
  match goal with |- context [if ?c then _ else _] => destruct c end;
    reflexivity.
Qed.

Lemma fetchNextChar_symTable (st : LexerState) :
  symTable (snd (fetchNextChar st)) = symTable st.
Proof. apply fetchNextChar_frame. Qed.

Lemma skip_while_symTable (p : ascii -> bool) (fuel : nat) :
  forall (ch ch' : ascii) (st st' : LexerState),
  skip_while p fuel ch st = Some (ch', st') -> symTable st' = symTable st.
Proof.
  induction fuel as [|fuel IH]; intros ch ch' st st'; cbn [skip_while];
    [discriminate |].
  destruct (p ch).
  - pose proof (fetchNextChar_symTable st) as E.
    destruct (fetchNextChar st) as [c1 st1]. cbn [snd] in E.
    intro H. rewrite (IH _ _ _ _ H). exact E.
  - intro H. injection H as _ <-. reflexivity.
Qed.

Lemma skip_line_symTable (fuel : nat) :
  forall st st' : LexerState,
  skip_line fuel st = Some st' -> symTable st' = symTable st.
Proof.
  induction fuel as [|fuel IH]; intros st st'; cbn [skip_line];
    [discriminate |].
  pose proof (fetchNextChar_symTable st) as E.
  destruct (fetchNextChar st) as [c1 st1]. cbn [snd] in E.
  destruct (char_eqb c1 NL).
  - intro H. injection H as <-. exact E.
  - intro H. rewrite (IH _ _ H). exact E.
Qed.

Section Steps.

Variable t : SymbolTable.
Variable keywordTrie : TrieNode.

Lemma good_goto (state beginPtr : Z) (st : LexerState) :
  interned (symTable st) -> extends t (symTable st) ->
  good_step t (Goto state beginPtr st).
Proof. intros; split; assumption. Qed.

Lemma accept_good (tk : Token) (val : list ascii -> Q) (beginPtr : Z)
  (st : LexerState) :
  interned (symTable st) -> extends t (symTable st) ->
  good_step t (accept tk val beginPtr st).
Proof.
  intros Hi He. unfold accept.
  destruct (extractLexeme beginPtr st) as [l |]; [| exact I].
  pose proof (lookup_or_add_good (cstring l) tk (val l) st t Hi He) as H.
  destruct (lookup_or_add (cstring l) tk (val l) st) as [node st'].
  exact H.
Qed.

Lemma accept_word_good (beginPtr : Z) (st : LexerState) :
  interned (symTable st) -> extends t (symTable st) ->
  good_step t (accept_word keywordTrie beginPtr st).
Proof.
  intros Hi He. unfold accept_word.
  destruct (extractLexeme beginPtr st) as [l |]; [| exact I].
  cbv zeta.
  match goal with
  | |- context [lookup_or_add ?a ?b ?c ?d] =>
      pose proof (lookup_or_add_good a b c d t Hi He) as H;
      destruct (lookup_or_add a b c d) as [node st']
  end.
  exact H.
Qed.

Lemma id_length_exceeded_good (fuel : nat) (beginPtr : Z) (st : LexerState) :
  interned (symTable st) -> extends t (symTable st) ->
  good_step t (id_length_exceeded fuel beginPtr st).
Proof.
  intros Hi He. unfold id_length_exceeded.
  destruct (extractLexeme beginPtr st) as [l |]; [| exact I].
  match goal with
  | |- context [lookup_or_add ?a ?b ?c ?d] =>
      pose proof (lookup_or_add_good a b c d t Hi He) as H;
      destruct (lookup_or_add a b c d) as [node st1]
  end.
  cbn [fst snd] in H.
  pose proof (fetchNextChar_symTable st1) as E2.
  destruct (fetchNextChar st1) as [ch st2]. cbn [snd] in E2.
  destruct (skip_while is_b_d fuel ch st2) as [[ch' st3] |] eqn:E3;
    [| exact I].
  apply skip_while_symTable in E3. cbv zeta.
  assert (E : symTable (retract st3) = symTable st1).
  { rewrite retract_symTable, E3, E2. reflexivity. }
  destruct (is_2_7 ch'); cbn [good_step]; rewrite E; tauto.
Qed.

Lemma fun_length_exceeded_good (resume : bool) (fuel : nat) (beginPtr : Z)
  (st : LexerState) :
  interned (symTable st) -> extends t (symTable st) ->
  good_step t (fun_length_exceeded resume fuel beginPtr st).
Proof.
  intros Hi He. unfold fun_length_exceeded.
  destruct (extractLexeme beginPtr st) as [l |]; [| exact I].
  match goal with
  | |- context [lookup_or_add ?a ?b ?c ?d] =>
      pose proof (lookup_or_add_good a b c d t Hi He) as H;
      destruct (lookup_or_add a b c d) as [node st1]
  end.
  cbn [fst snd] in H.
  pose proof (fetchNextChar_symTable st1) as E2.
  destruct (fetchNextChar st1) as [ch st2]. cbn [snd] in E2.
  destruct (skip_while isdigit fuel ch st2) as [[ch' st3] |] eqn:E3;
    [| exact I].
  apply skip_while_symTable in E3. cbv zeta.
  assert (E : symTable (retract st3) = symTable st1).
  { rewrite retract_symTable, E3, E2. reflexivity. }
  destruct (resume && isdigit ch'); cbn [good_step]; rewrite E; tauto.
Qed.

Lemma case_65_good (fuel : nat) (beginPtr : Z) (st : LexerState) :
  interned (symTable st) -> extends t (symTable st) ->
  good_step t (case_65 fuel beginPtr st).
Proof.
  intros Hi He. unfold case_65.
  destruct (extractLexeme beginPtr st) as [l |]; [| exact I].
  match goal with
  | |- context [lookup_or_add ?a ?b ?c ?d] =>
      pose proof (lookup_or_add_good a b c d t Hi He) as H;
      destruct (lookup_or_add a b c d) as [node st1]
  end.
  cbn [fst snd] in H.
  destruct (skip_line fuel st1) as [st2 |] eqn:E2; [| exact I].
  apply skip_line_symTable in E2.
  cbn [good_step set_lineNumber symTable]. rewrite E2. exact H.
Qed.

Lemma case_0_good (beginPtr : Z) (st : LexerState) :
  interned (symTable st) -> extends t (symTable st) ->
  good_step t (case_0 beginPtr st).
Proof.
  intros Hi He. unfold case_0.
  pose proof (fetchNextChar_symTable st) as E.
  destruct (fetchNextChar st) as [ch st1]. cbn [snd] in E.
  rewrite <- E in Hi, He.
  repeat match goal with
         | |- good_step _ (if ?c then _ else _) => destruct c eqn:?
         end;
    try (apply good_goto; assumption).
  - cbn [good_step]. repeat split; try assumption.
    right.
    match goal with
    | H : char_eqb ch NUL = true |- _ => cbn [cstring]; rewrite H
    end.
    reflexivity.
  - match goal with
    | |- context [lookup_or_add ?a ?b ?c ?d] =>
        pose proof (lookup_or_add_good a b c d t Hi He) as H;
        destruct (lookup_or_add a b c d) as [node st']
    end.
    exact H.
Qed.

(** The states that read one character and then move on, accept or
    enter a length-exceeded block. *)
Ltac one_character st :=
  let E := fresh "E" in
  let ch := fresh "ch" in
  let st1 := fresh "st" in
  intros Hi He;
  pose proof (fetchNextChar_symTable st) as E;
  destruct (fetchNextChar st) as [ch st1]; cbn [snd] in E;
  rewrite <- E in Hi, He;
  repeat match goal with
         | |- good_step _ (if ?c then _ else _) => destruct c
         end;
  first [ apply good_goto; assumption
        | apply accept_good;
          rewrite ?retract_symTable, ?retract2_symTable; assumption
        | apply accept_word_good; rewrite ?retract_symTable; assumption
        | apply id_length_exceeded_good; assumption
        | apply fun_length_exceeded_good; assumption ].

Lemma one_or_accept_good (c : ascii) (next : Z) (tk : Token) (beginPtr : Z)
  (st : LexerState) :
  interned (symTable st) -> extends t (symTable st) ->
  good_step t (one_or_accept c next tk beginPtr st).
Proof. unfold one_or_accept. one_character st. Qed.

Lemma digit_or_error_good (next beginPtr : Z) (st : LexerState) :
  interned (symTable st) -> extends t (symTable st) ->
  good_step t (digit_or_error next beginPtr st).
Proof. unfold digit_or_error. one_character st. Qed.

Lemma main_prefix_good (c : ascii) (next beginPtr : Z) (st : LexerState) :
  interned (symTable st) -> extends t (symTable st) ->
  good_step t (main_prefix c next beginPtr st).
Proof. unfold main_prefix. one_character st. Qed.

Lemma case_3_good (beginPtr : Z) (st : LexerState) :
  interned (symTable st) -> extends t (symTable st) ->
  good_step t (case_3 keywordTrie beginPtr st).
Proof. unfold case_3. one_character st. Qed.

Lemma case_4_good (fuel : nat) (beginPtr : Z) (st : LexerState) :
  interned (symTable st) -> extends t (symTable st) ->
  good_step t (case_4 fuel beginPtr st).
Proof. unfold case_4. one_character st. Qed.

Lemma case_5_good (beginPtr : Z) (st : LexerState) :
  interned (symTable st) -> extends t (symTable st) ->
  good_step t (case_5 beginPtr st).
Proof. unfold case_5. one_character st. Qed.

Lemma case_6_good (beginPtr : Z) (st : LexerState) :
  interned (symTable st) -> extends t (symTable st) ->
  good_step t (case_6 beginPtr st).
Proof. unfold case_6. one_character st. Qed.

Lemma case_8_good (fuel : nat) (beginPtr : Z) (st : LexerState) :
  interned (symTable st) -> extends t (symTable st) ->
  good_step t (case_8 fuel beginPtr st).
Proof. unfold case_8. one_character st. Qed.

Lemma case_9_good (beginPtr : Z) (st : LexerState) :
  interned (symTable st) -> extends t (symTable st) ->
  good_step t (case_9 beginPtr st).
Proof. unfold case_9. one_character st. Qed.

Lemma case_19_good (beginPtr : Z) (st : LexerState) :
  interned (symTable st) -> extends t (symTable st) ->
  good_step t (case_19 beginPtr st).
Proof. unfold case_19. one_character st. Qed.

Lemma case_53_good (beginPtr : Z) (st : LexerState) :
  interned (symTable st) -> extends t (symTable st) ->
  good_step t (case_53 beginPtr st).
Proof. unfold case_53. one_character st. Qed.

Lemma case_60_good (beginPtr : Z) (st : LexerState) :
  interned (symTable st) -> extends t (symTable st) ->
  good_step t (case_60 beginPtr st).
Proof. unfold case_60. one_character st. Qed.

Lemma case_62_good (beginPtr : Z) (st : LexerState) :
  interned (symTable st) -> extends t (symTable st) ->
  good_step t (case_62 beginPtr st).
Proof. unfold case_62. one_character st. Qed.

Lemma case_66_good (beginPtr : Z) (st : LexerState) :
  interned (symTable st) -> extends t (symTable st) ->
  good_step t (case_66 beginPtr st).
Proof. unfold case_66. one_character st. Qed.

Lemma case_69_good (beginPtr : Z) (st : LexerState) :
  interned (symTable st) -> extends t (symTable st) ->
  good_step t (case_69 beginPtr st).
Proof. unfold case_69. one_character st. Qed.

Lemma case_75_good (beginPtr : Z) (st : LexerState) :
  interned (symTable st) -> extends t (symTable st) ->
  good_step t (case_75 beginPtr st).
Proof. unfold case_75. one_character st. Qed.

Lemma case_79_good (beginPtr : Z) (st : LexerState) :
  interned (symTable st) -> extends t (symTable st) ->
  good_step t (case_79 keywordTrie beginPtr st).
Proof. unfold case_79. one_character st. Qed.

Lemma case_80_good (fuel : nat) (beginPtr : Z) (st : LexerState) :
  interned (symTable st) -> extends t (symTable st) ->
  good_step t (case_80 fuel beginPtr st).
Proof. unfold case_80. one_character st. Qed.

Lemma case_81_good (fuel : nat) (beginPtr : Z) (st : LexerState) :
  interned (symTable st) -> extends t (symTable st) ->
  good_step t (case_81 fuel beginPtr st).
Proof. unfold case_81. one_character st. Qed.

(** Every state of the DFA. *)
Lemma dfa_step_good (fuel : nat) (state beginPtr : Z) (st : LexerState) :
  interned (symTable st) -> extends t (symTable st) ->
  good_step t (dfa_step keywordTrie fuel state beginPtr st).
Proof.
  intros Hi He. unfold dfa_step, case_7.
  repeat match goal with
         | |- good_step _ (match ?x with _ => _ end) => is_var x; destruct x
         end;
    first [ split; assumption
          | apply accept_good; assumption
          | apply case_0_good; assumption
          | apply case_3_good; assumption
          | apply case_4_good; assumption
          | apply case_5_good; assumption
          | apply case_6_good; assumption
          | apply case_8_good; assumption
          | apply case_9_good; assumption
          | apply case_19_good; assumption
          | apply case_53_good; assumption
          | apply one_or_accept_good; assumption
          | apply case_60_good; assumption
          | apply digit_or_error_good; assumption
          | apply case_62_good; assumption
          | apply case_65_good; assumption
          | apply case_66_good; assumption
          | apply case_69_good; assumption
          | apply main_prefix_good; assumption
          | apply case_75_good; assumption
          | apply case_79_good; assumption
          | apply case_80_good; assumption
          | apply case_81_good; assumption ].
Qed.

End Steps.

(** One call of [getNextToken]. *)
Lemma dfa_loop_good (keywordTrie : TrieNode) (fuel : nat) :
  forall (state beginPtr : Z) (st st' : LexerState)
         (tokenNode : option TokenNode),
  interned (symTable st) ->
  dfa_loop keywordTrie fuel state beginPtr st = Ok (tokenNode, st') ->
  interned (symTable st') /\ extends (symTable st) (symTable st')
  /\ match tokenNode with
     | Some node => shares_entry (symTable st') node
     | None => True
     end.
Proof.
  induction fuel as [|fuel IH]; intros state beginPtr st st' tokenNode Hi;
    cbn [dfa_loop]; [discriminate |].
  pose proof (dfa_step_good (symTable st) keywordTrie fuel state beginPtr st
                Hi (extends_refl _)) as H.
  destruct (dfa_step keywordTrie fuel state beginPtr st)
    as [s1 b1 st1 | [node |] st1 | |]; cbn [good_step] in H;
    try discriminate.
  - intro Hrun. destruct H as [Hi1 He1].
    destruct (IH _ _ _ _ _ Hi1 Hrun) as (H1 & H2 & H3).
    repeat split; try assumption. eapply extends_trans; eassumption.
  - intro Hrun. injection Hrun as <- <-. exact H.
  - intro Hrun. injection Hrun as <- <-. destruct H. repeat split; assumption.
Qed.

Lemma getAllTokens_loop_good (keywordTrie : TrieNode) (fuel : nat) :
  forall (st st' : LexerState) (tokenList tokens : TokenList),
  interned (symTable st) ->
  Forall (shares_entry (symTable st)) tokenList ->
  getAllTokens_loop keywordTrie fuel st tokenList = Ok (tokens, st') ->
  interned (symTable st') /\ Forall (shares_entry (symTable st')) tokens.
Proof.
  induction fuel as [|fuel IH]; intros st st' tokenList tokens Hi Hall;
    cbn [getAllTokens_loop]; [discriminate |].
  unfold getNextToken.
  destruct (dfa_loop keywordTrie fuel 0 _ st) as [[[node |] st1] | |] eqn:E;
    try discriminate.
  - destruct (dfa_loop_good _ _ _ _ _ _ _ Hi E) as (Hi1 & He1 & Hs1).
    assert (Hall1 : Forall (shares_entry (symTable st1))
                           (appendTokenNode tokenList node)).
    { unfold appendTokenNode. apply Forall_app. split.
      - eapply Forall_impl; [| exact Hall].
        intros a Ha. eapply shares_entry_extends; eassumption.
      - constructor; [exact Hs1 | constructor]. }
    destruct (Token_eqb (tokenType (entry node)) DOLLAR).
    + intro H. injection H as <- <-. split; assumption.
    + intro H. exact (IH _ _ _ _ Hi1 Hall1 H).
  - destruct (dfa_loop_good _ _ _ _ _ _ _ Hi E) as (Hi1 & He1 & _).
    intro H. injection H as <- <-. split; [exact Hi1 |].
    eapply Forall_impl; [| exact Hall].
    intros a Ha. eapply shares_entry_extends; eassumption.
Qed.

End Interning.

(** C7. After any run of the lexer that returns, no two entries of the
    symbol table have the same lexeme, and every token of the list other
    than the end-of-input token carries the very entry the table holds
    for its lexeme, so that tokens with the same text share one entry.
    The entry of the end-of-input token is the fresh one with the empty
    lexeme, which is never inserted. *)
Theorem symbol_table_interning :
  forall (fuel : nat) (file : FILE) (garbage : list ascii)
         (tokens : TokenList) (st : LexerState),
    getAllTokens fuel file garbage = Ok (tokens, st) ->
    NoDup (map lexeme (symTable st))
    /\ (forall tk, In tk tokens ->
        lookupToken (symTable st) (lexeme (entry tk)) = Some (entry tk)
        \/ entry tk = newSymbolTableEntry "" DOLLAR 0%Q)
    /\ (forall tk1 tk2, In tk1 tokens -> In tk2 tokens ->
        tokenType (entry tk1) <> DOLLAR -> tokenType (entry tk2) <> DOLLAR ->
        lexeme (entry tk1) = lexeme (entry tk2) -> entry tk1 = entry tk2).
Proof.
  intros fuel file garbage tokens st Hrun.
  unfold getAllTokens in Hrun.
  apply getAllTokens_loop_good in Hrun;
    [| constructor | constructor].
  destruct Hrun as [Hi Hall]. rewrite Forall_forall in Hall.
  split; [exact Hi |]. split; [exact Hall |].
  intros tk1 tk2 H1 H2 Hd1 Hd2 Hlex.
  destruct (Hall tk1 H1) as [L1 | L1]; [| rewrite L1 in Hd1; exfalso; auto].
  destruct (Hall tk2 H2) as [L2 | L2]; [| rewrite L2 in Hd2; exfalso; auto].
  rewrite Hlex in L1. congruence.
Qed.

Lemma symbol_table_interning_witness :
  NoDup (map lexeme
           [newSymbolTableEntry "abc" FIELDID 0%Q;
            newSymbolTableEntry ";" SEM 0%Q])
  /\ (forall tk,
        In tk [newTokenNode (newSymbolTableEntry "abc" FIELDID 0%Q) 1;
               newTokenNode (newSymbolTableEntry ";" SEM 0%Q) 1;
               newTokenNode (newSymbolTableEntry "abc" FIELDID 0%Q) 1;
               eof_token 1] ->
        lookupToken [newSymbolTableEntry "abc" FIELDID 0%Q;
                     newSymbolTableEntry ";" SEM 0%Q]
                    (lexeme (entry tk)) = Some (entry tk)
        \/ entry tk = newSymbolTableEntry "" DOLLAR 0%Q)
  /\ (forall tk1 tk2,
        In tk1 [newTokenNode (newSymbolTableEntry "abc" FIELDID 0%Q) 1;
                newTokenNode (newSymbolTableEntry ";" SEM 0%Q) 1;
                newTokenNode (newSymbolTableEntry "abc" FIELDID 0%Q) 1;
                eof_token 1] ->
        In tk2 [newTokenNode (newSymbolTableEntry "abc" FIELDID 0%Q) 1;
                newTokenNode (newSymbolTableEntry ";" SEM 0%Q) 1;
                newTokenNode (newSymbolTableEntry "abc" FIELDID 0%Q) 1;
                eof_token 1] ->
        tokenType (entry tk1) <> DOLLAR -> tokenType (entry tk2) <> DOLLAR ->
        lexeme (entry tk1) = lexeme (entry tk2) -> entry tk1 = entry tk2).
Proof.
  refine (symbol_table_interning 20
            (fopen_contents (list_ascii_of_string "abc;abc"))
            (repeat NUL 512) _
            {| fp := {| unread := []; eof_flag := true |};
               buffer := list_ascii_of_string "abc;abc" ++ repeat NUL 505;
               forwardPtr := 7; lineNumber := 1; retractFlag := false;
               symTable := [newSymbolTableEntry "abc" FIELDID 0%Q;
                            newSymbolTableEntry ";" SEM 0%Q] |} _).
  vm_compute. reflexivity.
Defined.

(* ================================================================== *)
(** * FIRST of a right-hand side and the parse table *)
(* ================================================================== *)

Section ParseTableConstruction.

Variables F Fo : FirstFollowTable.

Lemma In_add_if_absent (res : FirstFollowSet) (x t : Token) :
  In t (add_if_absent res x) <-> In t res \/ t = x.
Proof.
  unfold add_if_absent, insertFirstFollowNode.
  destruct (existsInFirstFollow res x) eqn:E.
  - apply existsInFirstFollow_In in E. split; [auto |].
    intros [H | ->]; assumption.
  - rewrite in_app_iff. simpl. split; intros [H | H]; auto.
    destruct H as [-> | []]. auto.
Qed.

Lemma In_add_all_but_eps (src : FirstFollowSet) :
  forall (res : FirstFollowSet) (t : Token),
  In t (add_all_but_eps src res) <-> In t res \/ (In t src /\ t <> EPS).
Proof.
  unfold add_all_but_eps.
  induction src as [|x src IH]; intros res t; simpl; [tauto |].
  rewrite IH. destruct (Token_eqb x EPS) eqn:E.
  - apply Token_eqb_eq in E. subst x. split.
    + intros [H | [H1 H2]]; auto.
    + intros [H | [[H1 | H1] H2]]; auto. congruence.
  - apply Token_eqb_neq in E. rewrite In_add_if_absent. split.
    + intros [[H | ->] | [H1 H2]]; auto.
    + intros [H | [[<- | H1] H2]]; auto.
Qed.

Lemma In_getFirstOfRhs_from (ritr : list SymbolUnit) :
  forall (res : FirstFollowSet) (t : Token),
  In t (getFirstOfRhs_from F ritr res) <-> In t res \/ first_of F ritr t.
Proof.
  induction ritr as [|[n | x] ritr IH]; intros res t; simpl.
  - rewrite In_add_if_absent. split.
    + intros [H | ->]; [auto | right; constructor].
    + intros [H | H]; [auto | inversion H; auto].
  - destruct (existsInFirstFollow (F n) EPS) eqn:E.
    + apply existsInFirstFollow_In in E.
      rewrite IH, In_add_all_but_eps. split.
      * intros [[H | [H1 H2]] | H]; auto.
        -- right. apply first_nonterminal; assumption.
        -- right. apply first_behind; assumption.
      * intros [H | H]; auto. inversion H; subst; auto.
    + apply existsInFirstFollow_not_In in E.
      rewrite In_add_all_but_eps. split.
      * intros [H | [H1 H2]]; auto.
        right. apply first_nonterminal; assumption.
      * intros [H | H]; auto. inversion H; subst; auto. contradiction.
  - rewrite In_add_if_absent. split.
    + intros [H | ->]; [auto | right; constructor].
    + intros [H | H]; [auto | inversion H; auto].
Qed.

(** [getFirstOfRhs] computes FIRST of the sequence. *)
Lemma In_getFirstOfRhs (grhs : list SymbolUnit) (t : Token) :
  In t (getFirstOfRhs F grhs) <-> first_of F grhs t.
Proof.
  unfold getFirstOfRhs. rewrite In_getFirstOfRhs_from. simpl. tauto.
Qed.

Lemma targets_writes (r : GrammarRule) (t : Token) :
  targets F Fo r t -> writes F Fo r (lhs r) t = true.
Proof.
  unfold targets, writes. rewrite NonTerminal_eqb_refl. simpl.
  intros [[H _] | [H1 H2]].
  - apply In_getFirstOfRhs, existsInFirstFollow_In in H. rewrite H.
    reflexivity.
  - apply In_getFirstOfRhs, existsInFirstFollow_In in H1.
    apply existsInFirstFollow_In in H2. rewrite H1, H2.
    apply orb_true_r.
Qed.

Lemma writes_targets (r : GrammarRule) (n : NonTerminal) (t : Token) :
  t <> EPS ->
  writes F Fo r n t = true <-> lhs r = n /\ targets F Fo r t.
Proof.
  intro Ht. unfold writes, targets.
  rewrite andb_true_iff, orb_true_iff, andb_true_iff, NonTerminal_eqb_eq.
  rewrite !existsInFirstFollow_In, !In_getFirstOfRhs.
  split.
  - intros [-> [H | [H1 H2]]]; auto.
  - intros [<- [[H _] | [H1 H2]]]; auto.
Qed.

Lemma set_cell_eq (pt : ParseTable) (n m : NonTerminal) (tk t : Token)
  (rule : GrammarRule) :
  set_cell pt n tk rule m t
  = if NonTerminal_eqb m n && Token_eqb t tk then Some rule else pt m t.
Proof. reflexivity. Qed.

(** The cells after one of the two [for] loops. *)
Lemma write_cells_table (rule : GrammarRule) (l : list Token) :
  forall (acc : ParseTable * list Message) (m : NonTerminal) (t : Token),
  fst (fold_left (write_cell rule) l acc) m t
  = if NonTerminal_eqb m (lhs rule) && existsInFirstFollow l t
    then Some rule else fst acc m t.
Proof.
  induction l as [|x l IH]; intros [pt out] m t; simpl.
  - rewrite andb_false_r. reflexivity.
  - rewrite IH. simpl. rewrite set_cell_eq.
    destruct (NonTerminal_eqb m (lhs rule)); simpl; [| reflexivity].
    rewrite (orb_comm (Token_eqb x t)).
    destruct (existsInFirstFollow l t); simpl; [reflexivity |].
    destruct (Token_eqb t x) eqn:E.
    + apply Token_eqb_eq in E. subst. rewrite Token_eqb_refl. reflexivity.
    + apply Token_eqb_neq in E.
      assert (E' : Token_eqb x t = false) by (apply Token_eqb_neq; congruence).
      rewrite E'. reflexivity.
Qed.

(** The console after one of the two [for] loops: warnings only, at
    least one if a cell of the list was taken. *)
Lemma write_cells_console (rule : GrammarRule) (l : list Token) :
  forall (acc : ParseTable * list Message),
  exists k,
    snd (fold_left (write_cell rule) l acc)
      = snd acc ++ repeat MultipleDefinedEntries k
    /\ ((exists t, In t l /\ fst acc (lhs rule) t <> None) -> (1 <= k)%nat).
Proof.
  induction l as [|x l IH]; intros [pt out]; simpl.
  - exists 0%nat. simpl. rewrite app_nil_r. split; [reflexivity |].
    intros [t [[] _]].
  - destruct (IH (write_cell rule (pt, out) x)) as [k [Hk Hocc]].
    unfold write_cell in Hk, Hocc at 1. simpl in Hk, Hocc.
    unfold write_cell at 1. simpl.
    destruct (pt (lhs rule) x) eqn:Ex.
    + exists (S k). rewrite Hk, <- app_assoc. simpl.
      split; [reflexivity | intros _; lia].
    + exists k. split; [exact Hk |].
      intros [t [[<- | Hin] Hne]]; [congruence |].
      apply Hocc. exists t. split; [exact Hin |].
      rewrite set_cell_eq, NonTerminal_eqb_refl. simpl.
      destruct (Token_eqb t x) eqn:E; [discriminate | exact Hne].
Qed.

(** The cells after one rule. *)
Lemma add_rule_table (acc : ParseTable * list Message) (r : GrammarRule)
  (m : NonTerminal) (t : Token) :
  fst (add_rule F Fo acc r) m t
  = if writes F Fo r m t then Some r else fst acc m t.
Proof.
  unfold add_rule, writes. cbv zeta.
  destruct (existsInFirstFollow (getFirstOfRhs F (rhs r)) EPS).
  - rewrite !write_cells_table.
    destruct (NonTerminal_eqb m (lhs r)); simpl; [| reflexivity].
    destruct (existsInFirstFollow (Fo (lhs r)) t);
      destruct (existsInFirstFollow (getFirstOfRhs F (rhs r)) t);
      reflexivity.
  - rewrite write_cells_table. simpl. rewrite orb_false_r. reflexivity.
Qed.

(** The console after one rule. *)
Lemma add_rule_console (acc : ParseTable * list Message) (r : GrammarRule) :
  exists k,
    snd (add_rule F Fo acc r) = snd acc ++ repeat MultipleDefinedEntries k
    /\ ((exists t, targets F Fo r t /\ fst acc (lhs r) t <> None) ->
        (1 <= k)%nat).
Proof.
  unfold add_rule. cbv zeta.
  destruct (write_cells_console r (getFirstOfRhs F (rhs r)) acc)
    as [k1 [Hk1 Ho1]].
  destruct (existsInFirstFollow (getFirstOfRhs F (rhs r)) EPS) eqn:E.
  - destruct (write_cells_console r (Fo (lhs r))
                (fold_left (write_cell r) (getFirstOfRhs F (rhs r)) acc))
      as [k2 [Hk2 Ho2]].
    exists (k1 + k2)%nat. rewrite Hk2, Hk1, <- app_assoc, repeat_app.
    split; [reflexivity |].
    intros [t [[[H1 H2] | [H1 H2]] Hocc]].
    + assert (1 <= k1)%nat; [| lia].
      apply Ho1. exists t. split; [apply In_getFirstOfRhs |]; assumption.
    + destruct (existsInFirstFollow (getFirstOfRhs F (rhs r)) t) eqn:E1.
      * assert (1 <= k1)%nat; [| lia].
        apply Ho1. exists t. split; [| exact Hocc].
        apply existsInFirstFollow_In. exact E1.
      * assert (1 <= k2)%nat; [| lia].
        apply Ho2. exists t. split; [exact H2 |].
        rewrite write_cells_table, NonTerminal_eqb_refl, E1. exact Hocc.
  - exists k1. split; [exact Hk1 |].
    intros [t [[[H1 H2] | [H1 H2]] Hocc]].
    + apply Ho1. exists t. split; [apply In_getFirstOfRhs |]; assumption.
    + apply In_getFirstOfRhs, existsInFirstFollow_In in H1. congruence.
Qed.

(** ** The number of warnings *)

Lemma overwrites_ext (taken taken' : Token -> bool) (l : list Token) :
  (forall t, taken t = taken' t) ->
  overwrites taken l = overwrites taken' l.
Proof.
  revert taken taken'.
  induction l as [|x l IH]; intros taken taken' H; cbn [overwrites];
    [reflexivity |].
  rewrite (H x). f_equal. apply IH. intro t. rewrite (H t). reflexivity.
Qed.

Lemma overwrites_app (l1 l2 : list Token) :
  forall taken : Token -> bool,
  overwrites taken (l1 ++ l2)
  = (overwrites taken l1
     + overwrites (fun x => taken x || existsInFirstFollow l1 x) l2)%nat.
Proof.
  induction l1 as [|x l1 IH]; intro taken; cbn [app overwrites].
  - cbn [Nat.add]. apply overwrites_ext. intro t.
    unfold existsInFirstFollow. cbn [existsb]. rewrite orb_false_r.
    reflexivity.
  - rewrite IH, Nat.add_assoc. f_equal. apply overwrites_ext. intro t.
    unfold existsInFirstFollow. cbn [existsb].
    rewrite <- orb_assoc. f_equal. f_equal.
    unfold Token_eqb. apply Z.eqb_sym.
Qed.

Lemma is_taken_written (rule : GrammarRule) (l : list Token)
  (acc : ParseTable * list Message) (t : Token) :
  is_taken (fst (fold_left (write_cell rule) l acc)) (lhs rule) t
  = is_taken (fst acc) (lhs rule) t || existsInFirstFollow l t.
Proof.
  unfold is_taken. rewrite write_cells_table, NonTerminal_eqb_refl.
  cbn [andb]. destruct (existsInFirstFollow l t); [apply eq_sym, orb_true_r |].
  rewrite orb_false_r. reflexivity.
Qed.

(** The console after one of the two [for] loops: one warning for each
    assignment to a cell that is taken. *)
Lemma write_cells_count (rule : GrammarRule) (l : list Token) :
  forall acc : ParseTable * list Message,
  snd (fold_left (write_cell rule) l acc)
  = snd acc
    ++ repeat MultipleDefinedEntries
         (overwrites (is_taken (fst acc) (lhs rule)) l).
Proof.
  induction l as [|x l IH]; intros [pt out]; cbn [fold_left overwrites].
  - cbn [repeat fst snd]. rewrite app_nil_r. reflexivity.
  - rewrite IH. unfold write_cell. cbn [fst snd].
    rewrite (overwrites_ext
               (is_taken (set_cell pt (lhs rule) x rule) (lhs rule))
               (fun t => is_taken pt (lhs rule) t || Token_eqb t x)).
    + assert (Hx : is_taken pt (lhs rule) x
                   = match pt (lhs rule) x with
                     | Some _ => true
                     | None => false
                     end) by reflexivity.
      rewrite Hx.
      destruct (pt (lhs rule) x); cbn [repeat Nat.add app];
        [rewrite <- app_assoc |]; reflexivity.
    + intro t. unfold is_taken. rewrite set_cell_eq, NonTerminal_eqb_refl.
      cbn [andb]. destruct (Token_eqb t x); [apply eq_sym, orb_true_r |].
      rewrite orb_false_r. reflexivity.
Qed.

(** The console after one rule. *)
Lemma add_rule_count (acc : ParseTable * list Message) (r : GrammarRule) :
  snd (add_rule F Fo acc r)
  = snd acc
    ++ repeat MultipleDefinedEntries
         (overwrites (is_taken (fst acc) (lhs r)) (assigned F Fo r)).
Proof.
  unfold add_rule, assigned. cbv zeta.
  destruct (existsInFirstFollow (getFirstOfRhs F (rhs r)) EPS).
  - rewrite !write_cells_count, overwrites_app, repeat_app, <- app_assoc.
    f_equal. f_equal. f_equal. apply overwrites_ext. intro t.
    apply is_taken_written.
  - rewrite app_nil_r. apply write_cells_count.
Qed.

(** The warnings of [add_rule_console] are these. *)
Lemma add_rule_warns (acc : ParseTable * list Message) (r : GrammarRule) :
  (exists t, targets F Fo r t /\ fst acc (lhs r) t <> None) ->
  (1 <= overwrites (is_taken (fst acc) (lhs r)) (assigned F Fo r))%nat.
Proof.
  intro H. destruct (add_rule_console acc r) as (k & Hk & Hone).
  specialize (Hone H). rewrite add_rule_count in Hk.
  apply app_inv_head in Hk.
  apply (f_equal (@List.length Message)) in Hk.
  rewrite !repeat_length in Hk. lia.
Qed.

(** ** The cells stay inside the array *)

Lemma first_of_in_range (l : list SymbolUnit) (t : Token) :
  sets_in_range F ->
  forallb (fun su => match su with
                     | NonTerminalSym n => has_row n
                     | TerminalSym _ => true
                     end) l = true ->
  forallb (fun su => match su with
                     | NonTerminalSym _ => true
                     | TerminalSym x => has_column x
                     end) l = true ->
  first_of F l t -> has_column t = true.
Proof.
  intros HF Hrows Hcols H.
  induction H as [t rest | n rest t Hin Hne | n rest t Hin _ IH |];
    cbn [forallb] in Hrows, Hcols;
    try (apply andb_true_iff in Hrows; destruct Hrows as [Hr Hrows]);
    try (apply andb_true_iff in Hcols; destruct Hcols as [Hc Hcols]).
  - exact Hc.
  - exact (HF n t Hr Hin).
  - exact (IH Hrows Hcols).
  - reflexivity.
Qed.

Lemma assigned_in_range (G : list GrammarRule) (r : GrammarRule) (t : Token) :
  rows_in_range G = true -> columns_in_range G = true ->
  sets_in_range F -> sets_in_range Fo ->
  In r G -> In t (assigned F Fo r) ->
  has_row (lhs r) = true /\ has_column t = true.
Proof.
  intros Hrows Hcols HF HFo Hr Ht.
  unfold rows_in_range in Hrows. unfold columns_in_range in Hcols.
  rewrite forallb_forall in Hrows, Hcols.
  specialize (Hrows r Hr). specialize (Hcols r Hr).
  apply andb_true_iff in Hrows. destruct Hrows as [Hl Hrows].
  split; [exact Hl |].
  unfold assigned in Ht. apply in_app_iff in Ht. destruct Ht as [Ht | Ht].
  - apply In_getFirstOfRhs in Ht.
    exact (first_of_in_range (rhs r) t HF Hrows Hcols Ht).
  - destruct (existsInFirstFollow (getFirstOfRhs F (rhs r)) EPS);
      [exact (HFo (lhs r) t Hl Ht) | destruct Ht].
Qed.

Lemma addRules_snoc (G : list GrammarRule) (r : GrammarRule)
  (acc : ParseTable * list Message) :
  addRulesToParseTable F Fo (G ++ [r]) acc
  = add_rule F Fo (addRulesToParseTable F Fo G acc) r.
Proof. unfold addRulesToParseTable. apply fold_left_app. Qed.

(** The last rule that writes a cell is the one the table holds. *)
Lemma last_writer (G : list GrammarRule) :
  forall (n : NonTerminal) (t : Token),
  match fst (addRulesToParseTable F Fo G (empty_table, [])) n t with
  | Some r =>
      exists G1 G2, G = G1 ++ r :: G2 /\ writes F Fo r n t = true
                    /\ forall r', In r' G2 -> writes F Fo r' n t = false
  | None => forall r, In r G -> writes F Fo r n t = false
  end.
Proof.
  induction G as [|r G IH] using rev_ind; intros n t.
  - simpl. intros r [].
  - rewrite addRules_snoc, add_rule_table.
    destruct (writes F Fo r n t) eqn:E.
    + exists G, []. repeat split; [exact E | intros r' []].
    + specialize (IH n t).
      destruct (fst (addRulesToParseTable F Fo G (empty_table, [])) n t)
        as [r0 |].
      * destruct IH as (G1 & G2 & -> & Hw & Hlast).
        exists G1, (G2 ++ [r]). rewrite <- app_assoc. simpl.
        repeat split; [exact Hw |].
        intros r' Hin. apply in_app_iff in Hin.
        destruct Hin as [Hin | [<- | []]]; auto.
      * intros r' Hin. apply in_app_iff in Hin.
        destruct Hin as [Hin | [<- | []]]; auto.
Qed.

End ParseTableConstruction.

(** C1. [addRulesToParseTable] takes the rules in file order.  For a
    grammar and sets that stay inside the arrays, each rule N -> alpha is
    written into the cell [N][t] for every terminal t of FIRST(alpha)
    other than the epsilon marker and, if the marker is in FIRST(alpha),
    for every terminal t of FOLLOW(N), and every cell it is written to
    lies inside the array.  What it prints while doing so are warnings
    only: one for each assignment that finds its cell taken, so at least
    one if one of these cells was taken before the rule.  At the end
    every cell of a terminal holds the last rule in file order that is
    meant for it, and is empty if there is none. *)
Theorem parse_table_last_writer_wins :
  forall (F Fo : FirstFollowTable) (G : list GrammarRule),
    rows_in_range G = true -> columns_in_range G = true ->
    sets_in_range F -> sets_in_range Fo ->
    (forall G1 r G2, G = G1 ++ r :: G2 ->
       (forall t, In t (assigned F Fo r) ->
          has_row (lhs r) = true /\ has_column t = true)
       /\ (forall t, targets F Fo r t ->
             fst (add_rule F Fo (addRulesToParseTable F Fo G1 (empty_table, []))
                           r) (lhs r) t = Some r)
       /\ snd (add_rule F Fo
                 (addRulesToParseTable F Fo G1 (empty_table, [])) r)
          = snd (addRulesToParseTable F Fo G1 (empty_table, []))
            ++ repeat MultipleDefinedEntries
                 (overwrites
                    (is_taken
                       (fst (addRulesToParseTable F Fo G1 (empty_table, [])))
                       (lhs r))
                    (assigned F Fo r))
       /\ ((exists t, targets F Fo r t
               /\ fst (addRulesToParseTable F Fo G1 (empty_table, []))
                      (lhs r) t <> None) ->
           (1 <= overwrites
                   (is_taken
                      (fst (addRulesToParseTable F Fo G1 (empty_table, [])))
                      (lhs r))
                   (assigned F Fo r))%nat))
    /\ (forall n t, has_row n = true -> has_column t = true -> t <> EPS ->
          match fst (initializeParseTable F Fo G []) n t with
          | Some r =>
              exists G1 G2, G = G1 ++ r :: G2
                /\ lhs r = n /\ targets F Fo r t
                /\ forall r', In r' G2 -> ~ (lhs r' = n /\ targets F Fo r' t)
          | None => forall r, In r G -> ~ (lhs r = n /\ targets F Fo r t)
          end).
Proof.
  intros F Fo G Hrows Hcols HF HFo. split.
  - intros G1 r G2 HG. split; [| split; [| split]].
    + intros t Ht.
      apply (assigned_in_range F Fo G r t Hrows Hcols HF HFo); [| exact Ht].
      rewrite HG. apply in_app_iff. right. left. reflexivity.
    + intros t Ht. rewrite add_rule_table, (targets_writes F Fo r t Ht).
      reflexivity.
    + apply add_rule_count.
    + apply add_rule_warns.
  - intros n t _ _ Ht. unfold initializeParseTable.
    pose proof (last_writer F Fo G n t) as H.
    destruct (fst (addRulesToParseTable F Fo G (empty_table, [])) n t)
      as [r |].
    + destruct H as (G1 & G2 & -> & Hw & Hlast).
      apply (writes_targets F Fo r n t Ht) in Hw. destruct Hw as [Hl Htg].
      exists G1, G2. repeat split; try assumption.
      intros r' Hin Hc. apply (writes_targets F Fo r' n t Ht) in Hc.
      rewrite (Hlast r' Hin) in Hc. discriminate.
    + intros r Hin Hc. apply (writes_targets F Fo r n t Ht) in Hc.
      rewrite (H r Hin) in Hc. discriminate.
Qed.

Lemma parse_table_last_writer_wins_witness :
  fst (initializeParseTable empty_sets follow_of_start
         [{| lhs := program; rhs := [TerminalSym MAIN; TerminalSym END] |};
          {| lhs := program; rhs := [TerminalSym MAIN] |}] [])
      program MAIN
  = Some {| lhs := program; rhs := [TerminalSym MAIN] |}
  /\ snd (initializeParseTable empty_sets follow_of_start
            [{| lhs := program; rhs := [TerminalSym MAIN; TerminalSym END] |};
             {| lhs := program; rhs := [TerminalSym MAIN] |}] [])
     = [MultipleDefinedEntries].
Proof.
  assert (HF : sets_in_range empty_sets) by (intros n t _ []).
  assert (HFo : sets_in_range follow_of_start).
  { intros n t _. unfold follow_of_start, set_row.
    destruct (NonTerminal_eqb n program); [| intros []].
    intros [<- | []]. reflexivity. }
  destruct (parse_table_last_writer_wins empty_sets follow_of_start
              [{| lhs := program;
                  rhs := [TerminalSym MAIN; TerminalSym END] |};
               {| lhs := program; rhs := [TerminalSym MAIN] |}]
              eq_refl eq_refl HF HFo) as [Hrule _].
  destruct (Hrule [{| lhs := program;
                      rhs := [TerminalSym MAIN; TerminalSym END] |}]
                  {| lhs := program; rhs := [TerminalSym MAIN] |} []
                  eq_refl) as (_ & Hcell & Hout & _).
  split.
  - apply (Hcell MAIN). left. split; [apply first_terminal | discriminate].
  - exact Hout.
Defined.

(* ================================================================== *)
(** * The iteration of [computeFirstSets] *)
(* ================================================================== *)

Section FirstSets.

Lemma set_row_same (F : FirstFollowTable) (n : NonTerminal)
  (s : FirstFollowSet) : set_row F n s n = s.
Proof. unfold set_row. rewrite NonTerminal_eqb_refl. reflexivity. Qed.

Lemma set_row_other (F : FirstFollowTable) (n m : NonTerminal)
  (s : FirstFollowSet) : m <> n -> set_row F n s m = F m.
Proof.
  intro H. unfold set_row. apply NonTerminal_eqb_neq in H. rewrite H.
  reflexivity.
Qed.

(** ** The flag [modified] *)

Lemma quiet_id : quiet (fun acc => acc).
Proof. intro acc. split; auto. Qed.

Lemma quiet_compose (f g : FirstFollowTable * bool -> FirstFollowTable * bool) :
  quiet f -> quiet g -> quiet (fun acc => g (f acc)).
Proof.
  intros Hf Hg acc. destruct (Hf acc) as [Hf1 Hf2].
  destruct (Hg (f acc)) as [Hg1 Hg2]. split.
  - auto.
  - intro H. assert (E : snd (f acc) = false).
    { destruct (snd (f acc)) eqn:E; [| reflexivity].
      rewrite Hg1 in H by reflexivity. discriminate. }
    rewrite (Hg2 H). auto.
Qed.

Lemma quiet_fold {X : Type}
  (f : FirstFollowTable * bool -> X -> FirstFollowTable * bool)
  (l : list X) :
  (forall x, In x l -> quiet (fun acc => f acc x)) ->
  quiet (fun acc => fold_left f l acc).
Proof.
  induction l as [|x l IH]; intro H; simpl; [apply quiet_id |].
  apply (quiet_compose (fun acc => f acc x) (fun acc => fold_left f l acc)).
  - apply H. left. reflexivity.
  - apply IH. intros y Hy. apply H. right. exact Hy.
Qed.

(** When the fold leaves the flag clear, every single step did. *)
Lemma quiet_fold_each {X : Type}
  (f : FirstFollowTable * bool -> X -> FirstFollowTable * bool)
  (l : list X) :
  (forall x, In x l -> quiet (fun acc => f acc x)) ->
  forall acc, snd (fold_left f l acc) = false ->
              forall x, In x l -> f acc x = acc.
Proof.
  induction l as [|y l IH]; intros Hq acc Hfinal x Hx; [destruct Hx |].
  simpl in Hfinal.
  assert (Hy : f acc y = acc).
  { destruct (Hq y (or_introl eq_refl) acc) as [_ Hstay]. apply Hstay.
    destruct (snd (f acc y)) eqn:E; [| reflexivity].
    assert (Hrest : quiet (fun a => fold_left f l a)).
    { apply quiet_fold. intros z Hz. apply Hq. right. exact Hz. }
    destruct (Hrest (f acc y)) as [Hup _].
    rewrite Hup in Hfinal by exact E. discriminate. }
  destruct Hx as [<- | Hx]; [exact Hy |].
  rewrite Hy in Hfinal.
  apply (IH (fun z Hz => Hq z (or_intror Hz)) acc Hfinal x Hx).
Qed.

Lemma quiet_add_to_row (n : NonTerminal) (tk : Token) :
  quiet (fun acc => add_to_row n acc tk).
Proof.
  intro acc. unfold add_to_row.
  destruct (existsInFirstFollow (fst acc n) tk); simpl; split; auto.
  discriminate.
Qed.

Lemma quiet_add_row_but_eps (n : NonTerminal) (src : FirstFollowSet) :
  quiet (add_row_but_eps n src).
Proof.
  unfold add_row_but_eps. apply quiet_fold. intros tk _.
  destruct (Token_eqb tk EPS); [apply quiet_id | apply quiet_add_to_row].
Qed.

Lemma quiet_first_walk (currLhs : NonTerminal) (rhsItr : list SymbolUnit) :
  quiet (first_walk currLhs rhsItr).
Proof.
  induction rhsItr as [|[n | t] rhsItr IH]; simpl.
  - apply quiet_add_to_row.
  - intro acc.
    destruct (existsInFirstFollow (fst acc n) EPS).
    + apply (quiet_compose (add_row_but_eps currLhs (fst acc n))
                           (first_walk currLhs rhsItr));
        [apply quiet_add_row_but_eps | exact IH].
    + apply quiet_add_row_but_eps.
  - apply quiet_add_to_row.
Qed.

(** ** Sizes *)

Lemma all_nonterminals_NoDup : NoDup all_nonterminals.
Proof.
  apply (NoDup_map_inv NonTerminal_tag).
  change (map NonTerminal_tag all_nonterminals) with (seq 0 54).
  apply seq_NoDup.
Qed.

Lemma all_tokens_NoDup : NoDup all_tokens.
Proof.
  apply (NoDup_map_inv (fun t => Z.to_nat (Token_to_Z t))).
  change (map (fun t => Z.to_nat (Token_to_Z t)) all_tokens) with (seq 0 63).
  apply seq_NoDup.
Qed.

Lemma sum_set_row (F : FirstFollowTable) (n : NonTerminal)
  (s : FirstFollowSet) (l : list NonTerminal) :
  NoDup l ->
  (list_sum (map (fun m => List.length (set_row F n s m)) l)
   + (if existsb (NonTerminal_eqb n) l then List.length (F n) else 0)
   = list_sum (map (fun m => List.length (F m)) l)
     + (if existsb (NonTerminal_eqb n) l then List.length s else 0))%nat.
Proof.
  induction l as [|m l IH]; intro Hnd; simpl; [reflexivity |].
  inversion Hnd as [|? ? Hnotin Hnd']; subst.
  specialize (IH Hnd').
  destruct (NonTerminal_eqb n m) eqn:E.
  - apply NonTerminal_eqb_eq in E. subst m. rewrite set_row_same. simpl.
    assert (Hex : existsb (NonTerminal_eqb n) l = false).
    { destruct (existsb (NonTerminal_eqb n) l) eqn:Ex; [| reflexivity].
      apply existsb_exists in Ex. destruct Ex as [x [Hx Ex]].
      apply NonTerminal_eqb_eq in Ex. subst x. contradiction. }
    rewrite Hex in IH. lia.
  - apply NonTerminal_eqb_neq in E. rewrite set_row_other by congruence.
    simpl. lia.
Qed.

Lemma table_size_insert (F : FirstFollowTable) (n : NonTerminal) (tk : Token) :
  table_size (set_row F n (insertFirstFollowNode (F n) tk))
  = S (table_size F).
Proof.
  unfold table_size.
  pose proof (sum_set_row F n (insertFirstFollowNode (F n) tk)
                all_nonterminals all_nonterminals_NoDup) as H.
  assert (Hex : existsb (NonTerminal_eqb n) all_nonterminals = true).
  { apply existsb_exists. exists n.
    split; [apply all_nonterminals_complete | apply NonTerminal_eqb_refl]. }
  rewrite Hex in H. unfold insertFirstFollowNode in *.
  rewrite length_app in H. change (List.length [tk]) with 1%nat in H. lia.
Qed.

Lemma list_sum_bound {X : Type} (f : X -> nat) (b : nat) (l : list X) :
  (forall x, In x l -> (f x <= b)%nat) ->
  (list_sum (map f l) <= List.length l * b)%nat.
Proof.
  induction l as [|x l IH]; intro H; simpl; [lia |].
  assert (f x <= b)%nat by (apply H; left; reflexivity).
  assert (list_sum (map f l) <= List.length l * b)%nat.
  { apply IH. intros y Hy. apply H. right. exact Hy. }
  lia.
Qed.

(** A table of duplicate-free sets holds at most 54 * 63 tokens. *)
Lemma table_size_bound (F : FirstFollowTable) :
  sets_nodup F -> (table_size F <= capacity)%nat.
Proof.
  intro H. unfold table_size, capacity.
  apply list_sum_bound. intros n _.
  apply NoDup_incl_length; [apply H |].
  intros t _. apply all_tokens_complete.
Qed.

Lemma growing_id : growing (fun acc => acc).
Proof. intros acc H. split; [exact H | lia]. Qed.

Lemma growing_compose
  (f g : FirstFollowTable * bool -> FirstFollowTable * bool) :
  growing f -> growing g -> growing (fun acc => g (f acc)).
Proof.
  intros Hf Hg acc H. destruct (Hf acc H) as [H1 H2].
  destruct (Hg (f acc) H1) as [H3 H4]. split; [exact H3 | lia].
Qed.

Lemma growing_fold {X : Type}
  (f : FirstFollowTable * bool -> X -> FirstFollowTable * bool)
  (l : list X) :
  (forall x, growing (fun acc => f acc x)) ->
  growing (fun acc => fold_left f l acc).
Proof.
  intro H. induction l as [|x l IH]; simpl; [apply growing_id |].
  apply (growing_compose (fun acc => f acc x) (fun acc => fold_left f l acc));
    [apply H | exact IH].
Qed.

Lemma growing_add_to_row (n : NonTerminal) (tk : Token) :
  growing (fun acc => add_to_row n acc tk).
Proof.
  intros [F m] Hnd. unfold add_to_row. simpl in *.
  destruct (existsInFirstFollow (F n) tk) eqn:E; simpl.
  - split; [exact Hnd | lia].
  - split.
    + intro k. unfold set_row. destruct (NonTerminal_eqb k n); [| apply Hnd].
      unfold insertFirstFollowNode.
      apply existsInFirstFollow_not_In in E.
      apply NoDup_app; [apply Hnd | repeat constructor; intros [] |].
      intros x Hx [<- | []]. exact (E Hx).
    + unfold potential. simpl. rewrite table_size_insert.
      destruct m; lia.
Qed.

Lemma growing_add_row_but_eps (n : NonTerminal) (src : FirstFollowSet) :
  growing (add_row_but_eps n src).
Proof.
  unfold add_row_but_eps. apply growing_fold. intro tk.
  destruct (Token_eqb tk EPS); [apply growing_id | apply growing_add_to_row].
Qed.

Lemma growing_first_walk (currLhs : NonTerminal) (rhsItr : list SymbolUnit) :
  growing (first_walk currLhs rhsItr).
Proof.
  induction rhsItr as [|[n | t] rhsItr IH]; simpl.
  - apply growing_add_to_row.
  - intros acc H.
    destruct (existsInFirstFollow (fst acc n) EPS).
    + apply (growing_compose (add_row_but_eps currLhs (fst acc n))
                             (first_walk currLhs rhsItr));
        [apply growing_add_row_but_eps | exact IH | exact H].
    + apply growing_add_row_but_eps. exact H.
  - apply growing_add_to_row.
Qed.

(** A pass that sets [modified] has added a token. *)
Lemma first_pass_progress (G : list GrammarRule) (F : FirstFollowTable) :
  sets_nodup F ->
  sets_nodup (fst (first_pass G F))
  /\ (snd (first_pass G F) = true ->
      (table_size F < table_size (fst (first_pass G F)))%nat).
Proof.
  intro H. unfold first_pass.
  destruct (growing_fold (fun acc r => first_walk (lhs r) (rhs r) acc) G
              (fun r => growing_first_walk (lhs r) (rhs r)) (F, false) H)
    as [H1 H2].
  split; [exact H1 |].
  intro Hm. unfold potential in H2. rewrite Hm in H2. simpl in H2. lia.
Qed.

(** A pass that leaves [modified] clear has changed nothing. *)
Lemma first_pass_quiet (G : list GrammarRule) (F : FirstFollowTable) :
  snd (first_pass G F) = false -> first_pass G F = (F, false).
Proof.
  unfold first_pass.
  apply (quiet_fold (fun acc r => first_walk (lhs r) (rhs r) acc) G).
  intros r _. apply quiet_first_walk.
Qed.

(** ** Every token is contributed by some rule *)

Lemma table_le_refl (F : FirstFollowTable) : table_le F F.
Proof. intros n t H. exact H. Qed.

Lemma table_le_trans (F1 F2 F3 : FirstFollowTable) :
  table_le F1 F2 -> table_le F2 F3 -> table_le F1 F3.
Proof. intros H1 H2 n t H. apply H2, H1, H. Qed.

Lemma first_of_mono (F F' : FirstFollowTable) (l : list SymbolUnit)
  (t : Token) :
  table_le F F' -> first_of F l t -> first_of F' l t.
Proof.
  intros Hle H. induction H.
  - apply first_terminal.
  - apply first_nonterminal; [apply Hle |]; assumption.
  - apply first_behind; [apply Hle |]; assumption.
  - apply first_end.
Qed.

Lemma reaches_mono (F F' : FirstFollowTable) (prefix : list SymbolUnit) :
  table_le F F' -> reaches F prefix -> reaches F' prefix.
Proof.
  intros Hle H. unfold reaches in *. eapply Forall_impl; [| exact H].
  intros X [n [-> Hn]]. exists n. split; [reflexivity | apply Hle, Hn].
Qed.

Lemma first_of_behind_prefix (F : FirstFollowTable)
  (prefix rest : list SymbolUnit) (t : Token) :
  reaches F prefix -> first_of F rest t -> first_of F (prefix ++ rest) t.
Proof.
  intros Hp H. induction Hp as [|X prefix [n [-> Hn]] _ IH]; simpl;
    [exact H |].
  apply first_behind; assumption.
Qed.

Section Soundness.

Variable G : list GrammarRule.

(** The guarded insertion of a token that the walk of the rule [r]
    contributes. *)
Lemma add_to_row_justified (r : GrammarRule) (acc : FirstFollowTable * bool)
  (tk : Token) :
  In r G -> justified G (fst acc) -> first_of (fst acc) (rhs r) tk ->
  justified G (fst (add_to_row (lhs r) acc tk))
  /\ table_le (fst acc) (fst (add_to_row (lhs r) acc tk)).
Proof.
  intros Hr Hj Hf. unfold add_to_row.
  destruct (existsInFirstFollow (fst acc (lhs r)) tk);
    [split; [exact Hj | apply table_le_refl] |].
  simpl.
  assert (Hle : table_le (fst acc)
                  (set_row (fst acc) (lhs r)
                     (insertFirstFollowNode (fst acc (lhs r)) tk))).
  { intros n t Ht. unfold set_row, insertFirstFollowNode.
    destruct (NonTerminal_eqb n (lhs r)) eqn:E; [| exact Ht].
    apply NonTerminal_eqb_eq in E. subst n. apply in_app_iff. left. exact Ht. }
  split; [| exact Hle].
  intros n t Ht. unfold set_row, insertFirstFollowNode in Ht.
  destruct (NonTerminal_eqb n (lhs r)) eqn:E.
  - apply NonTerminal_eqb_eq in E. subst n. apply in_app_iff in Ht.
    destruct Ht as [Ht | [<- | []]].
    + destruct (Hj _ _ Ht) as (r0 & H1 & H2 & H3).
      exists r0. repeat split; try assumption.
      eapply first_of_mono; eassumption.
    + exists r. repeat split; try assumption.
      eapply first_of_mono; eassumption.
  - destruct (Hj _ _ Ht) as (r0 & H1 & H2 & H3).
    exists r0. repeat split; try assumption.
    eapply first_of_mono; eassumption.
Qed.

Lemma add_row_but_eps_justified (r : GrammarRule) (src : FirstFollowSet) :
  forall acc : FirstFollowTable * bool,
  In r G -> justified G (fst acc) ->
  (forall tk, In tk src -> tk <> EPS -> first_of (fst acc) (rhs r) tk) ->
  justified G (fst (add_row_but_eps (lhs r) src acc))
  /\ table_le (fst acc) (fst (add_row_but_eps (lhs r) src acc)).
Proof.
  unfold add_row_but_eps.
  induction src as [|x src IH]; intros acc Hr Hj Hsrc; simpl;
    [split; [exact Hj | apply table_le_refl] |].
  destruct (Token_eqb x EPS) eqn:E.
  - apply IH; try assumption. intros tk Htk. apply Hsrc. right. exact Htk.
  - apply Token_eqb_neq in E.
    destruct (add_to_row_justified r acc x Hr Hj
                (Hsrc x (or_introl eq_refl) E)) as [Hj1 Hle1].
    destruct (IH (add_to_row (lhs r) acc x) Hr Hj1) as [Hj2 Hle2].
    + intros tk Htk Hne. eapply first_of_mono; [exact Hle1 |].
      apply Hsrc; [right |]; assumption.
    + split; [exact Hj2 | eapply table_le_trans; eassumption].
Qed.

Lemma first_walk_justified (r : GrammarRule) (rhsItr : list SymbolUnit) :
  forall (prefix : list SymbolUnit) (acc : FirstFollowTable * bool),
  In r G -> rhs r = prefix ++ rhsItr ->
  justified G (fst acc) -> reaches (fst acc) prefix ->
  justified G (fst (first_walk (lhs r) rhsItr acc))
  /\ table_le (fst acc) (fst (first_walk (lhs r) rhsItr acc)).
Proof.
  induction rhsItr as [|[n | t] rhsItr IH]; intros prefix acc Hr Hrhs Hj Hp;
    simpl.
  - apply add_to_row_justified; try assumption.
    rewrite Hrhs. apply first_of_behind_prefix; [exact Hp | apply first_end].
  - destruct (add_row_but_eps_justified r (fst acc n) acc Hr Hj)
      as [Hj1 Hle1].
    { intros tk Htk Hne. rewrite Hrhs.
      apply first_of_behind_prefix; [exact Hp |].
      apply first_nonterminal; assumption. }
    destruct (existsInFirstFollow (fst acc n) EPS) eqn:E;
      [| split; assumption].
    apply existsInFirstFollow_In in E.
    destruct (IH (prefix ++ [NonTerminalSym n])
                 (add_row_but_eps (lhs r) (fst acc n) acc) Hr)
      as [Hj2 Hle2]; try assumption.
    + rewrite <- app_assoc. exact Hrhs.
    + apply Forall_app. split; [eapply reaches_mono; eassumption |].
      constructor; [| constructor].
      exists n. split; [reflexivity | apply Hle1, E].
    + split; [exact Hj2 | eapply table_le_trans; eassumption].
  - apply add_to_row_justified; try assumption.
    rewrite Hrhs. apply first_of_behind_prefix; [exact Hp |].
    apply first_terminal.
Qed.

Lemma first_pass_justified (F : FirstFollowTable) :
  justified G F ->
  justified G (fst (first_pass G F)) /\ table_le F (fst (first_pass G F)).
Proof.
  unfold first_pass.
  assert (H : forall (l : list GrammarRule) (acc : FirstFollowTable * bool),
             incl l G -> justified G (fst acc) ->
             justified G
               (fst (fold_left (fun a r => first_walk (lhs r) (rhs r) a) l acc))
             /\ table_le (fst acc)
                  (fst (fold_left (fun a r => first_walk (lhs r) (rhs r) a)
                                  l acc))).
  { induction l as [|r l IH]; intros acc Hin Hj; simpl;
      [split; [exact Hj | apply table_le_refl] |].
    destruct (first_walk_justified r (rhs r) [] acc) as [Hj1 Hle1];
      try assumption; try reflexivity.
    - apply Hin. left. reflexivity.
    - constructor.
    - destruct (IH (first_walk (lhs r) (rhs r) acc)) as [Hj2 Hle2];
        try assumption.
      + intros x Hx. apply Hin. right. exact Hx.
      + split; [exact Hj2 | eapply table_le_trans; eassumption]. }
  intro Hj. apply (H G (F, false)); [apply incl_refl | exact Hj].
Qed.

(** ** A pass that changes nothing *)

Lemma add_to_row_fixed (n : NonTerminal) (F : FirstFollowTable) (tk : Token) :
  add_to_row n (F, false) tk = (F, false) -> In tk (F n).
Proof.
  unfold add_to_row. simpl.
  destruct (existsInFirstFollow (F n) tk) eqn:E; [| discriminate].
  intros _. apply existsInFirstFollow_In. exact E.
Qed.

Lemma add_row_but_eps_fixed (n : NonTerminal) (src : FirstFollowSet)
  (F : FirstFollowTable) :
  add_row_but_eps n src (F, false) = (F, false) ->
  forall tk, In tk src -> tk <> EPS -> In tk (F n).
Proof.
  unfold add_row_but_eps. intros Hfix tk Htk Hne.
  assert (Hq : forall x, In x src ->
                 quiet (fun a => if Token_eqb x EPS then a
                                 else add_to_row n a x)).
  { intros x _. destruct (Token_eqb x EPS);
      [apply quiet_id | apply quiet_add_to_row]. }
  assert (Hfinal : snd (fold_left
                          (fun a x => if Token_eqb x EPS then a
                                      else add_to_row n a x) src (F, false))
                   = false) by (rewrite Hfix; reflexivity).
  pose proof (quiet_fold_each _ src Hq (F, false) Hfinal tk Htk) as H.
  simpl in H. apply Token_eqb_neq in Hne. rewrite Hne in H.
  apply add_to_row_fixed. exact H.
Qed.

Lemma first_walk_fixed (currLhs : NonTerminal) (F : FirstFollowTable)
  (rhsItr : list SymbolUnit) (t : Token) :
  first_of F rhsItr t ->
  first_walk currLhs rhsItr (F, false) = (F, false) ->
  In t (F currLhs).
Proof.
  intro H. induction H as [t rest | n rest t Ht Hne | n rest t Heps H IH |];
    simpl.
  - apply add_to_row_fixed.
  - intro Hfix.
    assert (Hsrc : add_row_but_eps currLhs (F n) (F, false) = (F, false)).
    { destruct (existsInFirstFollow (F n) EPS); [| exact Hfix].
      destruct (quiet_add_row_but_eps currLhs (F n) (F, false)) as [_ Hstay].
      apply Hstay.
      destruct (snd (add_row_but_eps currLhs (F n) (F, false))) eqn:E;
        [| reflexivity].
      destruct (quiet_first_walk currLhs rest
                  (add_row_but_eps currLhs (F n) (F, false))) as [Hup _].
      rewrite Hfix in Hup. specialize (Hup E). discriminate. }
    eapply add_row_but_eps_fixed; eassumption.
  - intro Hfix. apply existsInFirstFollow_In in Heps. rewrite Heps in Hfix.
    assert (Hsrc : add_row_but_eps currLhs (F n) (F, false) = (F, false)).
    { destruct (quiet_add_row_but_eps currLhs (F n) (F, false)) as [_ Hstay].
      apply Hstay.
      destruct (snd (add_row_but_eps currLhs (F n) (F, false))) eqn:E;
        [| reflexivity].
      destruct (quiet_first_walk currLhs rest
                  (add_row_but_eps currLhs (F n) (F, false))) as [Hup _].
      rewrite Hfix in Hup. specialize (Hup E). discriminate. }
    rewrite Hsrc in Hfix. apply IH. exact Hfix.
  - apply add_to_row_fixed.
Qed.

Lemma first_pass_fixed_closed (F : FirstFollowTable) :
  first_pass G F = (F, false) -> closed G F.
Proof.
  intros Hfix r t Hr Hf.
  apply (first_walk_fixed (lhs r) F (rhs r) t Hf).
  unfold first_pass in Hfix.
  apply (quiet_fold_each (fun acc r => first_walk (lhs r) (rhs r) acc) G
           (fun x _ => quiet_first_walk (lhs x) (rhs x)) (F, false));
    [rewrite Hfix; reflexivity | exact Hr].
Qed.

(** ** The loop *)

Lemma computeFirstSets_loop_more_fuel (fuel : nat) :
  forall (F F' : FirstFollowTable),
  computeFirstSets_loop fuel G F = Some F' ->
  computeFirstSets_loop (S fuel) G F = Some F'.
Proof.
  induction fuel as [|fuel IH]; intros F F' H; [discriminate |].
  cbn [computeFirstSets_loop] in *.
  destruct (first_pass G F) as [F1 m]. destruct m; [| exact H].
  apply IH in H. exact H.
Qed.

Lemma computeFirstSets_loop_fuel_le (fuel fuel' : nat)
  (F F' : FirstFollowTable) :
  (fuel <= fuel')%nat ->
  computeFirstSets_loop fuel G F = Some F' ->
  computeFirstSets_loop fuel' G F = Some F'.
Proof.
  intros Hle H. induction Hle; [exact H |].
  apply computeFirstSets_loop_more_fuel. assumption.
Qed.

(** The loop ends, at a table that one more pass leaves alone. *)
Lemma computeFirstSets_loop_ends (fuel : nat) :
  forall F : FirstFollowTable,
  sets_nodup F -> justified G F ->
  (capacity - table_size F < fuel)%nat ->
  exists F', computeFirstSets_loop fuel G F = Some F'
             /\ first_pass G F' = (F', false)
             /\ justified G F'.
Proof.
  induction fuel as [|fuel IH]; intros F Hnd Hj Hfuel; [lia |].
  cbn [computeFirstSets_loop].
  destruct (first_pass_progress G F Hnd) as [Hnd1 Hprog].
  destruct (first_pass_justified F Hj) as [Hj1 _].
  pose proof (first_pass_quiet G F) as Hq.
  destruct (first_pass G F) as [F1 m] eqn:E. cbn [fst snd] in *.
  destruct m.
  - apply IH; try assumption.
    specialize (Hprog eq_refl).
    pose proof (table_size_bound F1 Hnd1). lia.
  - specialize (Hq eq_refl). injection Hq as ->.
    exists F. repeat split; assumption.
Qed.

End Soundness.

End FirstSets.

(** C2. On a grammar whose non-terminals all have a row in the arrays,
    [computeFirstSets], started on empty sets, ends, and the sets it
    leaves are a fixed point of the walk of the design document: a token
    is in FIRST(N) exactly when the walk of some rule of N contributes it
    (a terminal contributes itself and ends the walk, a non-terminal
    contributes its set without the epsilon marker and lets the walk go
    on only if its set holds the marker, the end of the rule contributes
    the marker), and one more pass over the rules changes nothing and
    leaves [modified] clear.  Nothing is stored outside the rows of the
    array. *)
Theorem first_sets_fixed_point :
  forall G : list GrammarRule,
  rows_in_range G = true ->
  exists F : FirstFollowTable,
    (exists fuel, forall fuel', (fuel <= fuel')%nat ->
                                computeFirstSets fuel' G = Some F)
    /\ (forall n t,
         In t (F n)
         <-> exists r, In r G /\ lhs r = n /\ first_of F (rhs r) t)
    /\ first_pass G F = (F, false)
    /\ (forall n, has_row n = false -> F n = []).
Proof.
  intros G Hrows.
  destruct (computeFirstSets_loop_ends G (S capacity) empty_sets)
    as (F & Hrun & Hfix & Hj).
  - intro n. constructor.
  - intros n t [].
  - lia.
  - exists F. split; [| split; [| split]].
    + exists (S capacity). intros fuel' Hle. unfold computeFirstSets.
      eapply computeFirstSets_loop_fuel_le; eassumption.
    + intros n t. split; [apply Hj |].
      intros (r & Hr & <- & Hf).
      exact (first_pass_fixed_closed G F Hfix r t Hr Hf).
    + exact Hfix.
    + intros n Hn. destruct (F n) as [|t l] eqn:E; [reflexivity |].
      destruct (Hj n t) as (r & Hr & Hl & _); [rewrite E; left; reflexivity |].
      unfold rows_in_range in Hrows. rewrite forallb_forall in Hrows.
      specialize (Hrows r Hr). apply andb_true_iff in Hrows.
      rewrite Hl, Hn in Hrows. destruct Hrows as [Hrows _]. discriminate.
Qed.

Lemma first_sets_fixed_point_witness :
  exists F : FirstFollowTable,
    computeFirstSets 3
      [{| lhs := program; rhs := [NonTerminalSym mainFunction] |};
       {| lhs := mainFunction; rhs := [TerminalSym MAIN; TerminalSym END] |}]
    = Some F
    /\ F program = [MAIN] /\ F mainFunction = [MAIN].
Proof.
  destruct (first_sets_fixed_point
              [{| lhs := program; rhs := [NonTerminalSym mainFunction] |};
               {| lhs := mainFunction;
                  rhs := [TerminalSym MAIN; TerminalSym END] |}] eq_refl)
    as (F & (fuel & Hrun) & _).
  exists F.
  assert (E : computeFirstSets (fuel + 3)
                [{| lhs := program; rhs := [NonTerminalSym mainFunction] |};
                 {| lhs := mainFunction;
                    rhs := [TerminalSym MAIN; TerminalSym END] |}]
              = Some F) by (apply Hrun; lia).
  assert (E3 : computeFirstSets (fuel + 3)
                 [{| lhs := program; rhs := [NonTerminalSym mainFunction] |};
                  {| lhs := mainFunction;
                     rhs := [TerminalSym MAIN; TerminalSym END] |}]
               = computeFirstSets 3
                   [{| lhs := program;
                       rhs := [NonTerminalSym mainFunction] |};
                    {| lhs := mainFunction;
                       rhs := [TerminalSym MAIN; TerminalSym END] |}]).
  { unfold computeFirstSets.
    apply (computeFirstSets_loop_fuel_le _ 3 (fuel + 3)); [lia |].
    vm_compute. reflexivity. }
  rewrite E3 in E. split; [exact E |].
  vm_compute in E. injection E as <-. split; reflexivity.
Defined.

(* ================================================================== *)
(** * The length limit of variable identifiers *)
(* ================================================================== *)

Section CharacterClasses.

Lemma code_range (c : ascii) : 0 <= code c < 256.
Proof.
  unfold code. pose proof (N_ascii_bounded c) as H. lia.
Qed.

Lemma is_2_7_code (c : ascii) : is_2_7 c = true <-> 50 <= code c <= 55.
Proof.
  unfold is_2_7. change (code "2") with 50. change (code "7") with 55.
  rewrite andb_true_iff, !Z.leb_le. reflexivity.
Qed.

Lemma is_b_d_code (c : ascii) : is_b_d c = true <-> 98 <= code c <= 100.
Proof.
  unfold is_b_d. change (code "b") with 98. change (code "d") with 100.
  rewrite andb_true_iff, !Z.leb_le. reflexivity.
Qed.

Lemma is_b_d_cases (c : ascii) :
  is_b_d c = true -> c = "b"%char \/ c = "c"%char \/ c = "d"%char.
Proof.
  intro H. apply is_b_d_code in H.
  assert (E : code c = 98 \/ code c = 99 \/ code c = 100) by lia.
  destruct E as [E | [E | E]];
    [left | right; left | right; right]; apply code_inj; exact E.
Qed.

Lemma is_2_7_not_lower (c : ascii) : is_2_7 c = true -> islower c = false.
Proof.
  intro H. apply is_2_7_code in H. unfold islower.
  change (code "a") with 97. apply andb_false_iff. left.
  apply Z.leb_gt. lia.
Qed.

Lemma is_2_7_not_b_d (c : ascii) : is_2_7 c = true -> is_b_d c = false.
Proof.
  intro H. apply is_2_7_code in H. unfold is_b_d.
  change (code "b") with 98. apply andb_false_iff. left.
  apply Z.leb_gt. lia.
Qed.

Lemma is_2_7_inside (c : ascii) :
  is_2_7 c = true -> (code c <? code "2") || (code c >? code "7") = false.
Proof.
  intro H. apply is_2_7_code in H.
  change (code "2") with 50. change (code "7") with 55.
  apply orb_false_iff. split; [apply Z.ltb_ge | rewrite Z.gtb_ltb; apply Z.ltb_ge];
    lia.
Qed.

Lemma not_2_7_outside (c : ascii) :
  is_2_7 c = false -> (code c <? code "2") || (code c >? code "7") = true.
Proof.
  unfold is_2_7. change (code "2") with 50. change (code "7") with 55.
  intro H. apply andb_false_iff in H. apply orb_true_iff.
  rewrite Z.gtb_ltb, !Z.ltb_lt. rewrite !Z.leb_gt in H. lia.
Qed.

Lemma not_b_d_outside (c : ascii) :
  is_b_d c = false -> (code c <? code "b") || (code c >? code "d") = true.
Proof.
  unfold is_b_d. change (code "b") with 98. change (code "d") with 100.
  intro H. apply andb_false_iff in H. apply orb_true_iff.
  rewrite Z.gtb_ltb, !Z.ltb_lt. rewrite !Z.leb_gt in H. lia.
Qed.

Lemma is_2_7_not_NUL (c : ascii) : is_2_7 c = true -> char_eqb c NUL = false.
Proof.
  intro H. apply is_2_7_code in H. unfold char_eqb.
  change (code NUL) with 0. apply Z.eqb_neq. lia.
Qed.

Lemma is_b_d_not_NUL (c : ascii) : is_b_d c = true -> char_eqb c NUL = false.
Proof.
  intro H. apply is_b_d_code in H. unfold char_eqb.
  change (code NUL) with 0. apply Z.eqb_neq. lia.
Qed.

(** Without a NUL inside, the C string is the whole array. *)
Lemma cstring_no_NUL (l : list ascii) :
  forallb (fun c => negb (char_eqb c NUL)) l = true ->
  cstring l = string_of_list_ascii l.
Proof.
  induction l as [|c l IH]; simpl; [reflexivity |].
  intro H. apply andb_true_iff in H. destruct H as [Hc Hl].
  apply negb_true_iff in Hc. rewrite Hc, IH by exact Hl. reflexivity.
Qed.

End CharacterClasses.

Section LoadedFile.

Variables file garbage : list ascii.
Hypothesis file_fits : (List.length file < 256)%nat.
Hypothesis buffer_size : List.length garbage = 512%nat.

#[local] Abbreviation loaded := (loaded_state file garbage).

(** The first [fetchNextChar] loads the file. *)
Lemma first_fetch_loads :
  fetchNextChar (initial_state (fopen_contents file) garbage)
  = (buf_get (loaded_buffer file garbage) 0, loaded 0%nat []).
Proof.
  unfold fetchNextChar.
  change (refill_at_boundary (initial_state (fopen_contents file) garbage))
    with (refill 0 (initial_state (fopen_contents file) garbage)).
  unfold refill, initial_state, fopen_contents, feof, fread.
  cbn [fp eof_flag unread buffer].
  change (Z.to_nat BUFFER_SZ) with 256%nat.
  rewrite firstn_all2 by lia. rewrite skipn_all2 by lia.
  assert (E : (Z.of_nat (List.length file) <? BUFFER_SZ) = true).
  { apply Z.ltb_lt. unfold BUFFER_SZ. lia. }
  rewrite E.
  assert (E2 : (List.length file <? 256)%nat = true).
  { apply Nat.ltb_lt. exact file_fits. }
  rewrite E2. reflexivity.
Qed.

(** The loaded buffer holds the file, then NUL. *)
Lemma loaded_get (i : nat) :
  (i <= List.length file)%nat ->
  buf_get (loaded_buffer file garbage) (Z.of_nat i) = nth i file NUL.
Proof.
  intro Hi. unfold buf_get, loaded_buffer, buf_set. rewrite !Nat2Z.id.
  destruct (Nat.eq_dec i (List.length file)) as [-> | Hne].
  - rewrite nth_poke_same by (rewrite length_blit; lia).
    rewrite nth_overflow by lia. reflexivity.
  - rewrite nth_poke_other by exact Hne.
    apply (nth_blit_inside file 0 i NUL garbage); lia.
Qed.

Lemma fetch_loaded (i : nat) (t : SymbolTable) :
  (i < 255)%nat ->
  fetchNextChar (loaded i t)
  = (buf_get (loaded_buffer file garbage) (Z.of_nat (S i)), loaded (S i) t).
Proof.
  intro Hi. unfold fetchNextChar.
  rewrite refill_at_boundary_inside
    by (unfold loaded_state, BUFFER_SZ; cbn [forwardPtr]; lia).
  unfold loaded_state. cbn [retractFlag forwardPtr buffer].
  assert (E : (Z.of_nat i + 1) mod (2 * BUFFER_SZ) = Z.of_nat (S i)).
  { rewrite Z.mod_small by (unfold BUFFER_SZ; lia). lia. }
  rewrite E. reflexivity.
Qed.

Lemma retract_loaded (i : nat) (t : SymbolTable) :
  (i < 255)%nat -> retract (loaded (S i) t) = loaded i t.
Proof.
  intro Hi. unfold retract, loaded_state. cbn [forwardPtr].
  replace (Z.of_nat (S i) - 1) with (Z.of_nat i) by lia.
  assert (E1 : (Z.of_nat i <? 0) = false) by (apply Z.ltb_ge; lia).
  rewrite E1.
  assert (E2 : (Z.of_nat i =? BUFFER_SZ - 1) = false)
    by (apply Z.eqb_neq; unfold BUFFER_SZ; lia).
  assert (E3 : (Z.of_nat i =? 2 * BUFFER_SZ - 1) = false)
    by (apply Z.eqb_neq; unfold BUFFER_SZ; lia).
  rewrite E2, E3. reflexivity.
Qed.

(** The lexeme between the start of the file and the cursor. *)
Lemma extract_loaded (i : nat) (t : SymbolTable) :
  (i < List.length file)%nat ->
  extractLexeme 0 (loaded i t) = Some (firstn (S i) file).
Proof.
  intro Hi. unfold extractLexeme, lexeme_slice, loaded_state.
  cbn [forwardPtr buffer].
  assert (E1 : (Z.of_nat i >=? 0) = true)
    by (rewrite Z.geb_leb; apply Z.leb_le; lia).
  rewrite E1.
  replace (Z.to_nat (Z.of_nat i - 0 + 1)) with (S i) by lia.
  assert (E : map (fun k => buf_get (loaded_buffer file garbage)
                              (0 + Z.of_nat k)) (seq 0 (S i))
              = firstn (S i) file).
  { apply (nth_ext _ _ NUL NUL).
    - rewrite length_map, length_seq, length_firstn. lia.
    - intros k Hk. rewrite length_map, length_seq in Hk.
      rewrite (nth_indep _ NUL
                 (buf_get (loaded_buffer file garbage) (0 + Z.of_nat 0)))
        by (rewrite length_map, length_seq; exact Hk).
      rewrite (map_nth (fun k => buf_get (loaded_buffer file garbage)
                                   (0 + Z.of_nat k))).
      rewrite seq_nth by exact Hk. simpl Nat.add.
      rewrite Z.add_0_l, loaded_get by lia.
      rewrite nth_firstn.
      assert (E2 : (k <? S i)%nat = true) by (apply Nat.ltb_lt; exact Hk).
      rewrite E2. reflexivity. }
  rewrite E.
  assert (E3 : (Z.of_nat (List.length (firstn (S i) file)) <? BUFFER_SZ) = true).
  { apply Z.ltb_lt. rewrite length_firstn. unfold BUFFER_SZ. lia. }
  rewrite E3. reflexivity.
Qed.

(** ** Single passes through the states 0, 79, 80 and 4 *)

Variable keywordTrie : TrieNode.

Lemma case_0_to_79 :
  is_b_d (nth 0 file NUL) = true ->
  case_0 0 (initial_state (fopen_contents file) garbage)
  = Goto 79 0 (loaded 0%nat []).
Proof.
  intro H. unfold case_0. rewrite first_fetch_loads.
  assert (E0 : buf_get (loaded_buffer file garbage) 0 = nth 0 file NUL)
    by (apply (loaded_get 0); lia).
  rewrite E0.
  destruct (is_b_d_cases _ H) as [E | [E | E]]; rewrite E; reflexivity.
Qed.

Lemma case_79_to_80 (t : SymbolTable) :
  (1 <= List.length file)%nat ->
  is_2_7 (nth 1 file NUL) = true ->
  case_79 keywordTrie 0 (loaded 0%nat t) = Goto 80 0 (loaded 1%nat t).
Proof.
  intros Hlen H. unfold case_79.
  rewrite fetch_loaded, loaded_get by lia.
  rewrite (is_2_7_not_lower _ H), H. reflexivity.
Qed.

Lemma case_80_to_4 (fuel : nat) (t : SymbolTable) :
  (2 <= List.length file)%nat ->
  is_2_7 (nth 2 file NUL) = true ->
  case_80 fuel 0 (loaded 1%nat t) = Goto 4 0 (loaded 2%nat t).
Proof.
  intros Hlen H. unfold case_80.
  rewrite fetch_loaded, loaded_get by lia.
  rewrite H. reflexivity.
Qed.

Lemma case_80_accept (fuel : nat) (t : SymbolTable) :
  (2 <= List.length file)%nat ->
  ends_identifier (nth 2 file NUL) = true ->
  case_80 fuel 0 (loaded 1%nat t) = accept ID no_value 0 (loaded 1%nat t).
Proof.
  intros Hlen H. unfold ends_identifier in H.
  apply andb_true_iff in H. destruct H as [H1 H2].
  apply negb_true_iff in H1. apply negb_true_iff in H2.
  unfold case_80. rewrite fetch_loaded, loaded_get by lia.
  rewrite H1, (not_b_d_outside _ H2). cbn [negb andb].
  rewrite retract_loaded by lia. reflexivity.
Qed.

Lemma lexeme_length_loaded (i : nat) (t : SymbolTable) :
  getLexemeLength 0 (forwardPtr (loaded i t)) = Z.of_nat (S i).
Proof.
  unfold getLexemeLength, loaded_state. cbn [forwardPtr].
  assert (E : (Z.of_nat i >=? 0) = true)
    by (rewrite Z.geb_leb; apply Z.leb_le; lia).
  rewrite E. lia.
Qed.

Lemma case_4_advance (fuel i : nat) (t : SymbolTable) :
  (S i <= List.length file)%nat ->
  (S (S i) <= 20)%nat ->
  is_2_7 (nth (S i) file NUL) = true ->
  case_4 fuel 0 (loaded i t) = Goto 4 0 (loaded (S i) t).
Proof.
  intros Hlen Hshort H. unfold case_4.
  rewrite fetch_loaded, loaded_get by lia.
  rewrite (is_2_7_inside _ H), lexeme_length_loaded.
  assert (E : (Z.of_nat (S (S i)) >? 20) = false)
    by (rewrite Z.gtb_ltb; apply Z.ltb_ge; lia).
  rewrite E. reflexivity.
Qed.

Lemma case_4_accept (fuel i : nat) (t : SymbolTable) :
  (S i <= List.length file)%nat ->
  is_2_7 (nth (S i) file NUL) = false ->
  case_4 fuel 0 (loaded i t) = accept ID no_value 0 (loaded i t).
Proof.
  intros Hlen H. unfold case_4.
  rewrite fetch_loaded, loaded_get by lia.
  rewrite (not_2_7_outside _ H), retract_loaded by lia. reflexivity.
Qed.

Lemma case_4_exceeded (fuel i : nat) (t : SymbolTable) :
  (S i <= List.length file)%nat ->
  (20 <= S i)%nat ->
  is_2_7 (nth (S i) file NUL) = true ->
  case_4 fuel 0 (loaded i t) = id_length_exceeded fuel 0 (loaded (S i) t).
Proof.
  intros Hlen Hlong H. unfold case_4.
  rewrite fetch_loaded, loaded_get by lia.
  rewrite (is_2_7_inside _ H), lexeme_length_loaded.
  assert (E : (Z.of_nat (S (S i)) >? 20) = true)
    by (rewrite Z.gtb_ltb; apply Z.ltb_lt; lia).
  rewrite E. reflexivity.
Qed.

(** The first sighting of an identifier of at most 20 characters. *)
Lemma accept_loaded (i : nat) :
  (i < List.length file)%nat ->
  accept ID no_value 0 (loaded i [])
  = Return
      (Some (newTokenNode
               (newSymbolTableEntry (cstring (firstn (S i) file)) ID 0%Q) 1))
      (loaded i [newSymbolTableEntry (cstring (firstn (S i) file)) ID 0%Q]).
Proof.
  intro Hi. unfold accept. rewrite extract_loaded by exact Hi. reflexivity.
Qed.

(** The block for an over-long identifier, entered with the cursor on
    character [j] of the identifier, [j >= 20]. *)
Lemma exceeded_loaded (fuel j : nat) (t : SymbolTable) :
  let e := newSymbolTableEntry
             (cstring (firstn 20 file ++ ["."; "."; "."]%char))
             ID_LENGTH_EXC 0%Q in
  (20 <= j)%nat ->
  (S j <= List.length file)%nat ->
  t = [] \/ t = [e] ->
  is_b_d (nth (S j) file NUL) = false ->
  id_length_exceeded (S fuel) 0 (loaded j t)
  = if is_2_7 (nth (S j) file NUL)
    then Goto 4 0 (loaded j [e])
    else Return (Some (newTokenNode e 1)) (loaded j [e]).
Proof.
  intros e Hj Hlen Ht Hbd. unfold id_length_exceeded.
  rewrite extract_loaded by lia.
  assert (El : ellipsis 20 (firstn (S j) file)
               = firstn 20 file ++ ["."; "."; "."]%char).
  { unfold ellipsis. rewrite firstn_firstn.
    replace (Nat.min 20 (S j)) with 20%nat by lia. reflexivity. }
  rewrite El.
  assert (Eadd : lookup_or_add
                   (cstring (firstn 20 file ++ ["."; "."; "."]%char))
                   ID_LENGTH_EXC 0%Q (loaded j t)
                 = (newTokenNode e 1, loaded j [e])).
  { unfold lookup_or_add, loaded_state. cbn [symTable].
    destruct Ht as [-> | ->]; [reflexivity |].
    cbn [lookupToken e lexeme newSymbolTableEntry].
    rewrite String.eqb_refl. reflexivity. }
  rewrite Eadd, fetch_loaded, loaded_get by lia.
  cbn [skip_while]. rewrite Hbd, retract_loaded by lia. reflexivity.
Qed.

(** ** Runs of the loop *)

Lemma dfa_loop_state_4 (fuel : nat) (st : LexerState) :
  dfa_loop keywordTrie (S fuel) 4 0 st
  = match case_4 fuel 0 st with
    | Goto state' beginPtr' st' =>
        dfa_loop keywordTrie fuel state' beginPtr' st'
    | Return tokenNode st' => Ok (tokenNode, st')
    | Overrun => Undefined
    | Starved => OutOfFuel
    end.
Proof. reflexivity. Qed.

(** [m] characters of the class [2-7] read in state 4, within the
    limit. *)
Lemma run_advance (m : nat) :
  forall (i : nat) (t : SymbolTable) (fuel : nat),
  (i + m <= List.length file)%nat ->
  (S (i + m) <= 20)%nat ->
  (forall q, (q < m)%nat -> is_2_7 (nth (S i + q) file NUL) = true) ->
  dfa_loop keywordTrie (m + fuel) 4 0 (loaded i t)
  = dfa_loop keywordTrie fuel 4 0 (loaded (i + m) t).
Proof.
  induction m as [|m IH]; intros i t fuel Hlen Hshort Hdig.
  - rewrite Nat.add_0_r. reflexivity.
  - change (S m + fuel)%nat with (S (m + fuel)).
    rewrite dfa_loop_state_4, case_4_advance; try lia.
    + rewrite IH; try lia.
      * replace (S i + m)%nat with (i + S m)%nat by lia. reflexivity.
      * intros q Hq. replace (S (S i) + q)%nat with (S i + S q)%nat by lia.
        apply Hdig. lia.
    + replace (S i) with (S i + 0)%nat by lia. apply Hdig. lia.
Qed.

(** The rest of an over-long identifier: [S m] more characters of the
    class [2-7], then a character that ends it. *)
Lemma run_exceeded (m : nat) :
  let e := newSymbolTableEntry
             (cstring (firstn 20 file ++ ["."; "."; "."]%char))
             ID_LENGTH_EXC 0%Q in
  forall (j : nat) (t : SymbolTable) (fuel : nat),
  (19 <= j)%nat ->
  (S (S j) + m <= List.length file)%nat ->
  t = [] \/ t = [e] ->
  (forall q, (q <= m)%nat -> is_2_7 (nth (S j + q) file NUL) = true) ->
  ends_identifier (nth (S (S j) + m) file NUL) = true ->
  dfa_loop keywordTrie (S m + S fuel) 4 0 (loaded j t)
  = Ok (Some (newTokenNode e 1), loaded (S j + m) [e]).
Proof.
  intro e. induction m as [|m IH]; intros j t fuel Hj Hlen Ht Hdig Hend.
  - change (1 + S fuel)%nat with (S (S fuel)).
    rewrite dfa_loop_state_4, case_4_exceeded; try lia.
    + unfold ends_identifier in Hend. apply andb_true_iff in Hend.
      destruct Hend as [H1 H2].
      apply negb_true_iff in H1. apply negb_true_iff in H2.
      rewrite Nat.add_0_r in *.
      rewrite exceeded_loaded; try lia; try assumption.
      fold e. rewrite H1. reflexivity.
    + replace (S j) with (S j + 0)%nat by lia. apply Hdig. lia.
  - change (S (S m) + S fuel)%nat with (S (S m + S fuel)).
    rewrite dfa_loop_state_4, case_4_exceeded; try lia.
    + assert (Hnext : is_2_7 (nth (S (S j)) file NUL) = true).
      { replace (S (S j)) with (S j + 1)%nat by lia. apply Hdig. lia. }
      change (S m + S fuel)%nat with (S (m + S fuel)).
      rewrite exceeded_loaded; try lia; try assumption.
      * fold e. rewrite Hnext.
        change (S (m + S fuel)) with (S m + S fuel)%nat.
        rewrite IH; try lia.
        -- replace (S (S j) + m)%nat with (S j + S m)%nat by lia.
           reflexivity.
        -- right. reflexivity.
        -- intros q Hq.
           replace (S (S j) + q)%nat with (S j + S q)%nat by lia.
           apply Hdig. lia.
        -- replace (S (S (S j)) + m)%nat with (S (S j) + S m)%nat by lia.
           exact Hend.
      * apply is_2_7_not_b_d. exact Hnext.
    + replace (S j) with (S j + 0)%nat by lia. apply Hdig. lia.
Qed.

End LoadedFile.

(** ** An identifier [c0 :: digits] at the start of the file *)

Section IdentifierAtStart.

Variable c0 : ascii.
Variables digits rest garbage : list ascii.

Hypothesis first_character : is_b_d c0 = true.
Hypothesis some_digit : digits <> [].
Hypothesis all_digits : forallb is_2_7 digits = true.
Hypothesis then_ends : ends_identifier (hd NUL rest) = true.
Hypothesis file_fits : (List.length (c0 :: digits ++ rest) < 256)%nat.
Hypothesis buffer_size : List.length garbage = 512%nat.

#[local] Abbreviation file := (c0 :: digits ++ rest).
#[local] Abbreviation k := (List.length digits).

Lemma file_length : List.length file = (S k + List.length rest)%nat.
Proof. cbn [List.length]. rewrite length_app. lia. Qed.

Lemma some_digit_length : (1 <= k)%nat.
Proof. destruct digits; [congruence | cbn [List.length]; lia]. Qed.

Lemma file_digit (q : nat) :
  (q < k)%nat -> is_2_7 (nth (S q) file NUL) = true.
Proof.
  intro Hq. cbn [nth]. rewrite app_nth1 by exact Hq.
  apply (proj1 (forallb_forall is_2_7 digits) all_digits).
  apply nth_In. exact Hq.
Qed.

Lemma file_end : nth (S k) file NUL = hd NUL rest.
Proof.
  cbn [nth]. rewrite app_nth2 by lia. rewrite Nat.sub_diag.
  destruct rest; reflexivity.
Qed.

Lemma file_end_not_digit : is_2_7 (nth (S k) file NUL) = false.
Proof.
  rewrite file_end. pose proof then_ends as H. unfold ends_identifier in H.
  apply andb_true_iff in H. destruct H as [H _].
  apply negb_true_iff in H. exact H.
Qed.

Lemma file_prefix : firstn (S k) file = c0 :: digits.
Proof.
  rewrite firstn_cons, firstn_app, Nat.sub_diag, firstn_all, firstn_O.
  rewrite app_nil_r. reflexivity.
Qed.

Lemma file_prefix_20 :
  (20 <= k)%nat -> firstn 20 file = firstn 20 (c0 :: digits).
Proof.
  intro Hk. change 20%nat with (S 19).
  rewrite !firstn_cons, firstn_app.
  replace (19 - k)%nat with 0%nat by lia.
  rewrite firstn_O, app_nil_r. reflexivity.
Qed.

Lemma identifier_no_NUL :
  forallb (fun c => negb (char_eqb c NUL)) (c0 :: digits) = true.
Proof.
  cbn [forallb]. rewrite (is_b_d_not_NUL _ first_character). cbn [negb andb].
  apply forallb_forall. intros c Hc.
  rewrite (is_2_7_not_NUL c); [reflexivity |].
  apply (proj1 (forallb_forall is_2_7 digits) all_digits). exact Hc.
Qed.

Lemma short_entry :
  (S k <= 20)%nat ->
  newSymbolTableEntry (cstring (firstn (S k) file)) ID 0%Q
  = identifier_entry (c0 :: digits).
Proof.
  intro Hk. rewrite file_prefix, (cstring_no_NUL _ identifier_no_NUL).
  unfold identifier_entry.
  assert (E : (List.length (c0 :: digits) <=? 20)%nat = true)
    by (apply Nat.leb_le; cbn [List.length]; lia).
  rewrite E. reflexivity.
Qed.

Lemma long_entry :
  (20 <= k)%nat ->
  newSymbolTableEntry
    (cstring (firstn 20 file ++ ["."; "."; "."]%char)) ID_LENGTH_EXC 0%Q
  = identifier_entry (c0 :: digits).
Proof.
  intro Hk. rewrite (file_prefix_20 Hk). unfold identifier_entry.
  assert (E : (List.length (c0 :: digits) <=? 20)%nat = false)
    by (apply Nat.leb_gt; cbn [List.length]; lia).
  rewrite E. f_equal. apply cstring_no_NUL.
  rewrite forallb_app. apply andb_true_iff. split; [| reflexivity].
  apply forallb_forall. intros c Hc.
  apply (proj1 (forallb_forall _ (c0 :: digits)) identifier_no_NUL).
  rewrite <- (firstn_skipn 20 (c0 :: digits)).
  apply in_or_app. left. exact Hc.
Qed.

Lemma getNextToken_initial (keywordTrie : TrieNode) (fuel : nat) (f : FILE) :
  getNextToken keywordTrie fuel (initial_state f garbage)
  = dfa_loop keywordTrie fuel 0 0 (initial_state f garbage).
Proof. reflexivity. Qed.

(** The states 0 and 79 on the first two characters. *)
Lemma identifier_head (keywordTrie : TrieNode) (fuel : nat) :
  getNextToken keywordTrie (S (S fuel))
    (initial_state (fopen_contents file) garbage)
  = dfa_loop keywordTrie fuel 80 0 (loaded_state file garbage 1 []).
Proof.
  rewrite getNextToken_initial. cbn [dfa_loop].
  change (dfa_step keywordTrie (S fuel) 0 0
            (initial_state (fopen_contents file) garbage))
    with (case_0 0 (initial_state (fopen_contents file) garbage)).
  rewrite (case_0_to_79 file garbage file_fits buffer_size)
    by exact first_character.
  change (dfa_step keywordTrie fuel 79 0 (loaded_state file garbage 0 []))
    with (case_79 keywordTrie 0 (loaded_state file garbage 0 [])).
  pose proof some_digit_length as Hk. pose proof file_length as Hlen.
  rewrite (case_79_to_80 file garbage file_fits buffer_size) by
    (try lia; apply (file_digit 0); lia).
  reflexivity.
Qed.

Lemma dfa_loop_state_80 (keywordTrie : TrieNode) (fuel : nat)
  (st : LexerState) :
  dfa_loop keywordTrie (S fuel) 80 0 st
  = match case_80 fuel 0 st with
    | Goto state' beginPtr' st' =>
        dfa_loop keywordTrie fuel state' beginPtr' st'
    | Return tokenNode st' => Ok (tokenNode, st')
    | Overrun => Undefined
    | Starved => OutOfFuel
    end.
Proof. reflexivity. Qed.

(** Two characters. *)
Lemma identifier_of_two (keywordTrie : TrieNode) :
  k = 1%nat ->
  getNextToken keywordTrie 3 (initial_state (fopen_contents file) garbage)
  = Ok (Some (newTokenNode (identifier_entry (c0 :: digits)) 1),
        loaded_state file garbage k [identifier_entry (c0 :: digits)]).
Proof.
  intro Hk. pose proof file_length as Hlen.
  rewrite identifier_head, dfa_loop_state_80.
  pose proof file_end as Hend. rewrite Hk in Hend.
  rewrite (case_80_accept file garbage file_fits buffer_size)
    by (try lia; rewrite Hend; exact then_ends).
  rewrite (accept_loaded file garbage file_fits buffer_size) by lia.
  assert (E : newSymbolTableEntry (cstring (firstn 2 file)) ID 0%Q
              = identifier_entry (c0 :: digits))
    by (rewrite <- short_entry by lia; rewrite Hk; reflexivity).
  rewrite E, Hk. reflexivity.
Qed.

(** Three to twenty characters. *)
Lemma identifier_within_limit (keywordTrie : TrieNode) :
  (2 <= k)%nat -> (S k <= 20)%nat ->
  getNextToken keywordTrie (3 + (k - 2 + 1))
    (initial_state (fopen_contents file) garbage)
  = Ok (Some (newTokenNode (identifier_entry (c0 :: digits)) 1),
        loaded_state file garbage k [identifier_entry (c0 :: digits)]).
Proof.
  intros Hk2 Hk20. pose proof file_length as Hlen.
  change (3 + (k - 2 + 1))%nat with (S (S (S (k - 2 + 1)))).
  rewrite identifier_head, dfa_loop_state_80.
  rewrite (case_80_to_4 file garbage file_fits buffer_size)
    by (try lia; apply (file_digit 1); lia).
  rewrite (run_advance file garbage file_fits buffer_size); try lia.
  - replace (2 + (k - 2))%nat with k by lia.
    change 1%nat with (S 0). rewrite dfa_loop_state_4.
    rewrite (case_4_accept file garbage file_fits buffer_size)
      by (try lia; exact file_end_not_digit).
    rewrite (accept_loaded file garbage file_fits buffer_size) by lia.
    rewrite short_entry by lia. reflexivity.
  - intros q Hq. apply file_digit. lia.
Qed.

(** Twenty-one characters or more. *)
Lemma identifier_beyond_limit (keywordTrie : TrieNode) :
  (20 <= k)%nat ->
  getNextToken keywordTrie (3 + (17 + (S (k - 20) + 1)))
    (initial_state (fopen_contents file) garbage)
  = Ok (Some (newTokenNode (identifier_entry (c0 :: digits)) 1),
        loaded_state file garbage k [identifier_entry (c0 :: digits)]).
Proof.
  intro Hk. pose proof file_length as Hlen.
  change (3 + (17 + (S (k - 20) + 1)))%nat
    with (S (S (S (17 + (S (k - 20) + 1))))).
  rewrite identifier_head, dfa_loop_state_80.
  rewrite (case_80_to_4 file garbage file_fits buffer_size)
    by (try lia; apply (file_digit 1); lia).
  rewrite (run_advance file garbage file_fits buffer_size); try lia.
  - change (2 + 17)%nat with 19%nat.
    rewrite (run_exceeded file garbage file_fits buffer_size); try lia.
    + rewrite (long_entry Hk).
      replace (20 + (k - 20))%nat with k by lia. reflexivity.
    + left. reflexivity.
    + intros q Hq. apply file_digit. lia.
    + replace (21 + (k - 20))%nat with (S k) by lia.
      rewrite file_end. exact then_ends.
  - intros q Hq. apply file_digit. lia.
Qed.

(** What the lexer reads next. *)
Lemma identifier_leaves_rest (t : SymbolTable) :
  fst (fetchNextChar (loaded_state file garbage k t)) = hd NUL rest.
Proof.
  pose proof file_length as Hlen.
  rewrite (fetch_loaded file garbage file_fits buffer_size) by lia.
  cbn [fst]. rewrite (loaded_get file garbage file_fits buffer_size) by lia.
  apply file_end.
Qed.

End IdentifierAtStart.

(** ** The length limit of variable identifiers *)


(** An identifier at the start of a file of fewer than 256 bytes, on
    line 1 and with an empty symbol table: the token, the state in which
    the lexer is left, and the character it reads next. *)
Lemma identifier_at_start :
  forall (c0 : ascii) (digits rest garbage : list ascii),
    is_b_d c0 = true ->
    digits <> [] ->
    forallb is_2_7 digits = true ->
    ends_identifier (hd NUL rest) = true ->
    (List.length (c0 :: digits ++ rest) < 256)%nat ->
    List.length garbage = 512%nat ->
    exists (fuel : nat) (st : LexerState),
      getNextToken keywords fuel
        (initial_state (fopen_contents (c0 :: digits ++ rest)) garbage)
      = Ok (Some (newTokenNode (identifier_entry (c0 :: digits)) 1), st)
      /\ st = loaded_state (c0 :: digits ++ rest) garbage
                (List.length digits) [identifier_entry (c0 :: digits)]
      /\ fst (fetchNextChar st) = hd NUL rest.
Proof.
  intros c0 digits rest garbage Hc0 Hne Hdig Hend Hfit Hbuf.
  assert (Hk : (1 <= List.length digits)%nat)
    by (destruct digits; [congruence | cbn [List.length]; lia]).
  assert (Hcases : List.length digits = 1%nat
                   \/ (2 <= List.length digits
                       /\ S (List.length digits) <= 20)%nat
                   \/ (20 <= List.length digits)%nat) by lia.
  destruct Hcases as [H1 | [[H2 H20] | H20]].
  - exists 3%nat. eexists. split; [| split; [reflexivity |]].
    + apply identifier_of_two; assumption.
    + apply identifier_leaves_rest; assumption.
  - exists (3 + (List.length digits - 2 + 1))%nat. eexists.
    split; [| split; [reflexivity |]].
    + apply identifier_within_limit; assumption.
    + apply identifier_leaves_rest; assumption.
  - exists (3 + (17 + (S (List.length digits - 20) + 1)))%nat. eexists.
    split; [| split; [reflexivity |]].
    + apply identifier_beyond_limit; assumption.
    + apply identifier_leaves_rest; assumption.
Qed.

(** The boundary on complete runs of the lexer: 20 characters give an
    identifier, 21 the error token, and in both the token that follows
    is the next identifier of the input. *)
Example identifier_of_twenty_characters :
  tokens_of
    (getAllTokens 40
       (fopen_contents (list_ascii_of_string "b2222222222222222222 c3"))
       (repeat NUL 512))
  = Some
      [newTokenNode (newSymbolTableEntry "b2222222222222222222" ID 0%Q) 1;
       newTokenNode (newSymbolTableEntry "c3" ID 0%Q) 1;
       eof_token 1].
Proof. vm_compute. reflexivity. Qed.

Example identifier_of_twenty_one_characters :
  tokens_of
    (getAllTokens 40
       (fopen_contents (list_ascii_of_string "b22222222222222222222 c3"))
       (repeat NUL 512))
  = Some
      [newTokenNode
         (newSymbolTableEntry "b2222222222222222222..." ID_LENGTH_EXC 0%Q) 1;
       newTokenNode (newSymbolTableEntry "c3" ID 0%Q) 1;
       eof_token 1].
Proof. vm_compute. reflexivity. Qed.

(* ================================================================== *)
(** * The keyword trie *)
(* ================================================================== *)

Section KeywordTrie.

Lemma findKeyword_fresh (w : string) : findKeyword newTrieNode w = TK_NOT_FOUND.
Proof. destruct w; reflexivity. Qed.

Lemma index_inj (c c' : ascii) :
  (code c' - code "a" =? code c - code "a") = true -> c' = c.
Proof. intro H. apply Z.eqb_eq in H. apply code_inj. lia. Qed.

Lemma findKeyword_addKeyword (w : string) :
  forall (t : TrieNode) (w' : string) (tk : Token),
    findKeyword (addKeyword t w tk) w'
    = if String.eqb w' w then tk else findKeyword t w'.
Proof.
  induction w as [|c w IH]; intros t w' tk; destruct t as [e k ch].
  - destruct w' as [|c' w']; reflexivity.
  - destruct w' as [|c' w']; [reflexivity |].
    cbn [addKeyword findKeyword children isEnd trieToken String.eqb].
    destruct (code c' - code "a" =? code c - code "a") eqn:E.
    + apply index_inj in E. subst c'. rewrite Ascii.eqb_refl, IH.
      destruct (String.eqb w' w); [reflexivity |].
      destruct (ch (code c - code "a")); [reflexivity |].
      apply findKeyword_fresh.
    + destruct (Ascii.eqb c' c) eqn:Ec; [| reflexivity].
      apply Ascii.eqb_eq in Ec. subst c'. rewrite Z.eqb_refl in E.
      discriminate.
Qed.

Lemma setupKeywordTrie_table (t : TrieNode) :
  setupKeywordTrie t
  = fold_left (fun t kw => addKeyword t (fst kw) (snd kw)) keyword_table t.
Proof. reflexivity. Qed.

Lemma findKeyword_fold_snoc (l : list (string * Token))
  (kw : string * Token) (t : TrieNode) (w : string) :
  findKeyword
    (fold_left (fun t kw => addKeyword t (fst kw) (snd kw)) (l ++ [kw]) t) w
  = if String.eqb w (fst kw) then snd kw
    else findKeyword
           (fold_left (fun t kw => addKeyword t (fst kw) (snd kw)) l t) w.
Proof. rewrite fold_left_app. apply findKeyword_addKeyword. Qed.

Lemma findKeyword_fold_absent (l : list (string * Token)) (w : string) :
  (forall tk, ~ In (w, tk) l) ->
  findKeyword
    (fold_left (fun t kw => addKeyword t (fst kw) (snd kw)) l initTrie) w
  = TK_NOT_FOUND.
Proof.
  induction l as [|[k tk] l IH] using rev_ind; intro Habs.
  - apply findKeyword_fresh.
  - rewrite findKeyword_fold_snoc. cbn [fst snd].
    destruct (String.eqb w k) eqn:E.
    + apply String.eqb_eq in E. subst k. exfalso.
      apply (Habs tk). apply in_or_app. right. left. reflexivity.
    + apply IH. intros tk' Hin. apply (Habs tk').
      apply in_or_app. left. exact Hin.
Qed.

End KeywordTrie.

(** X1. The trie is a map from words to tokens: after [addKeyword] the
    word added is found with its token, and every other word is found
    as before. *)
Theorem trie_insert_then_lookup :
  forall (t : TrieNode) (w w' : string) (tk : Token),
    lowercase w = true -> lowercase w' = true ->
    findKeyword (addKeyword t w tk) w = tk
    /\ (w' <> w -> findKeyword (addKeyword t w tk) w' = findKeyword t w').
Proof.
  intros t w w' tk _ _. split.
  - rewrite findKeyword_addKeyword, String.eqb_refl. reflexivity.
  - intro Hne. rewrite findKeyword_addKeyword.
    destruct (String.eqb w' w) eqn:E; [| reflexivity].
    apply String.eqb_eq in E. contradiction.
Qed.

Lemma trie_insert_then_lookup_witness :
  findKeyword (addKeyword keywords "record" RECORD) "record" = RECORD
  /\ ("rec"%string <> "record"%string ->
      findKeyword (addKeyword keywords "record" RECORD) "rec"
      = findKeyword keywords "rec").
Proof.
  apply (trie_insert_then_lookup keywords "record" "rec" RECORD);
    reflexivity.
Defined.

(** X2. The trie [getAllTokens] sets up knows the 27 keywords of
    [setupKeywordTrie] with their tokens, and no other word. *)
Theorem keywords_are_the_table :
  forall (w : string),
    lowercase w = true ->
    (forall tk, In (w, tk) keyword_table -> findKeyword keywords w = tk)
    /\ ((forall tk, ~ In (w, tk) keyword_table) ->
        findKeyword keywords w = TK_NOT_FOUND).
Proof.
  intros w _. split.
  - intros tk Hin. unfold keyword_table in Hin.
    repeat (destruct Hin as [Hin | Hin];
            [injection Hin as <- <-; vm_compute; reflexivity |]).
    destruct Hin.
  - intro Habs. unfold keywords. rewrite setupKeywordTrie_table.
    apply findKeyword_fold_absent. exact Habs.
Qed.

Lemma keywords_are_the_table_witness :
  (forall tk, In ("while"%string, tk) keyword_table ->
              findKeyword keywords "while" = tk)
  /\ ((forall tk, ~ In ("while"%string, tk) keyword_table) ->
      findKeyword keywords "while" = TK_NOT_FOUND).
Proof. apply (keywords_are_the_table "while"). reflexivity. Defined.

(* ================================================================== *)
(** * The symbol table *)
(* ================================================================== *)

Section SymbolTableLookups.

Lemma lookupToken_addToken (t : SymbolTable) (e : SymbolTableEntry)
  (lex : string) :
  lookupToken (addToken t e) lex
  = match lookupToken t lex with
    | Some e' => Some e'
    | None => if String.eqb lex (lexeme e) then Some e else None
    end.
Proof.
  unfold addToken. induction t as [|x t IH]; cbn [app lookupToken].
  - reflexivity.
  - destruct (String.eqb lex (lexeme x)); [reflexivity | exact IH].
Qed.

End SymbolTableLookups.

(** X3. The entry pattern of the accepting states is idempotent, and
    the first entry made for a lexeme stays: a second request for the
    same lexeme, whatever token kind and value it carries, returns the
    token node of the first and leaves the state as it is.  The entries
    of other lexemes are found as before. *)
Theorem first_entry_of_a_lexeme_stays :
  forall (lex lex' : string) (tk tk' : Token) (val val' : Q)
         (st : LexerState),
    lookup_or_add lex tk' val' (snd (lookup_or_add lex tk val st))
    = lookup_or_add lex tk val st
    /\ lookupToken (symTable (snd (lookup_or_add lex tk val st))) lex
       = Some (entry (fst (lookup_or_add lex tk val st)))
    /\ (lex' <> lex ->
        lookupToken (symTable (snd (lookup_or_add lex tk val st))) lex'
        = lookupToken (symTable st) lex').
Proof.
  intros lex lex' tk tk' val val' st. unfold lookup_or_add.
  destruct (lookupToken (symTable st) lex) as [e |] eqn:E; cbn [fst snd].
  - rewrite E. cbn [entry newTokenNode]. repeat split; reflexivity.
  - cbn [symTable set_symTable lineNumber entry newTokenNode].
    rewrite !lookupToken_addToken, E.
    cbn [lexeme newSymbolTableEntry]. rewrite String.eqb_refl.
    repeat split.
    intro Hne. destruct (lookupToken (symTable st) lex'); [reflexivity |].
    destruct (String.eqb lex' lex) eqn:E'; [| reflexivity].
    apply String.eqb_eq in E'. contradiction.
Qed.

(* ================================================================== *)
(** * The twin buffer *)
(* ================================================================== *)

Section Retraction.

Lemma slice_length (beginPtr : Z) (st : LexerState) :
  in_buffer beginPtr -> in_buffer (forwardPtr st) ->
  Z.of_nat (List.length (lexeme_slice beginPtr st))
  = getLexemeLength beginPtr (forwardPtr st).
Proof.
  unfold in_buffer, lexeme_slice, getLexemeLength, BUFFER_SZ.
  intros Hb Hf.
  destruct (forwardPtr st >=? beginPtr) eqn:E;
    rewrite length_map, length_seq, Z2Nat.id; lia.
Qed.

End Retraction.

(** X4. Retracting by one character and reading again returns the same
    character and the same state: the flag set by the retraction at the
    end of a half keeps [fetchNextChar] from reading the file a second
    time. *)
Theorem fetch_retract_fetch :
  forall (st : LexerState),
    in_buffer (forwardPtr st) ->
    fetchNextChar (retract (snd (fetchNextChar st))) = fetchNextChar st.
Proof.
  intros st Hin. unfold in_buffer, BUFFER_SZ in Hin.
  destruct (fetchNextChar_frame st) as (Hf & Hl & Hr & Ht & Hb & Hp & Hc).
  destruct (fetchNextChar st) as [c st1]. cbn [fst snd] in *.
  destruct st1 as [p1 b1 f1 l1 r1 t1].
  cbn [forwardPtr lineNumber retractFlag symTable buffer fp] in *.
  subst r1. subst f1. unfold BUFFER_SZ in *.
  assert (Hback :
            (let f := (forwardPtr st + 1) mod (2 * 256) - 1 in
             if f <? 0 then f + 2 * 256 else f) = forwardPtr st).
  { cbv zeta. destruct (Z.eq_dec (forwardPtr st) 511) as [E | E].
    - rewrite E. reflexivity.
    - rewrite Z.mod_small by lia.
      destruct (forwardPtr st + 1 - 1 <? 0) eqn:E1.
      + apply Z.ltb_lt in E1. lia.
      + lia. }
  unfold retract. cbv zeta in *.
  cbn [forwardPtr set_forwardPtr]. unfold BUFFER_SZ. rewrite Hback.
  unfold fetchNextChar, refill_at_boundary.
  destruct ((forwardPtr st =? 256 - 1) || (forwardPtr st =? 2 * 256 - 1))
    eqn:Eend;
    cbn [forwardPtr set_forwardPtr set_retractFlag retractFlag negb andb
         buffer fp lineNumber symTable];
    unfold BUFFER_SZ.
  - rewrite !andb_false_r.
    cbn [forwardPtr set_forwardPtr set_retractFlag retractFlag negb andb
         buffer fp lineNumber symTable].
    rewrite Hc, Hb. reflexivity.
  - apply orb_false_iff in Eend. destruct Eend as [E1 E2].
    rewrite E1, E2.
    cbn [forwardPtr set_forwardPtr set_retractFlag retractFlag negb andb
         buffer fp lineNumber symTable].
    rewrite Hc, Hb. reflexivity.
Qed.

Lemma fetch_retract_fetch_witness :
  fetchNextChar
    (retract
       (snd (fetchNextChar
               (initial_state
                  (fopen_contents (list_ascii_of_string "end"))
                  (repeat NUL 512)))))
  = fetchNextChar
      (initial_state (fopen_contents (list_ascii_of_string "end"))
                     (repeat NUL 512)).
Proof.
  apply (fetch_retract_fetch
           (initial_state (fopen_contents (list_ascii_of_string "end"))
                          (repeat NUL 512))).
  unfold in_buffer. cbn. lia.
Defined.

(** X5. The size of a lexeme.  With both cursors inside the twin buffer
    a lexeme has between 1 and 512 characters, [getLexemeLength] is the
    number of characters [extractLexeme] copies, and the copy overruns
    the array [lexeme[BUFFER_SZ]] exactly when that number reaches
    256. *)
Theorem lexeme_length_and_overrun :
  forall (beginPtr : Z) (st : LexerState),
    in_buffer beginPtr -> in_buffer (forwardPtr st) ->
    1 <= getLexemeLength beginPtr (forwardPtr st) <= 2 * BUFFER_SZ
    /\ (forall l, extractLexeme beginPtr st = Some l ->
                  Z.of_nat (List.length l)
                  = getLexemeLength beginPtr (forwardPtr st))
    /\ (extractLexeme beginPtr st = None
        <-> BUFFER_SZ <= getLexemeLength beginPtr (forwardPtr st)).
Proof.
  intros beginPtr st Hb Hf.
  pose proof (slice_length beginPtr st Hb Hf) as Hlen.
  split; [| split].
  - unfold in_buffer, getLexemeLength, BUFFER_SZ in *.
    destruct (forwardPtr st >=? beginPtr) eqn:E; [| lia].
    rewrite Z.geb_leb in E. apply Z.leb_le in E. lia.
  - intros l. unfold extractLexeme. cbv zeta.
    destruct (Z.of_nat (List.length (lexeme_slice beginPtr st)) <? BUFFER_SZ);
      [| discriminate].
    intro H. injection H as <-. exact Hlen.
  - unfold extractLexeme. cbv zeta. rewrite Hlen.
    destruct (getLexemeLength beginPtr (forwardPtr st) <? BUFFER_SZ) eqn:E.
    + apply Z.ltb_lt in E. split; [discriminate | lia].
    + apply Z.ltb_ge in E. split; [intros _; exact E | reflexivity].
Qed.

Lemma lexeme_length_and_overrun_witness :
  1 <= getLexemeLength 510
         (forwardPtr (set_forwardPtr 1 (initial_state (fopen_contents [])
                                                      (repeat NUL 512))))
    <= 2 * BUFFER_SZ
  /\ (forall l,
        extractLexeme 510
          (set_forwardPtr 1 (initial_state (fopen_contents [])
                                           (repeat NUL 512))) = Some l ->
        Z.of_nat (List.length l)
        = getLexemeLength 510
            (forwardPtr (set_forwardPtr 1 (initial_state (fopen_contents [])
                                                         (repeat NUL 512)))))
  /\ (extractLexeme 510
        (set_forwardPtr 1 (initial_state (fopen_contents [])
                                         (repeat NUL 512))) = None
      <-> BUFFER_SZ
          <= getLexemeLength 510
               (forwardPtr (set_forwardPtr 1 (initial_state (fopen_contents [])
                                                            (repeat NUL 512))))).
Proof.
  apply (lexeme_length_and_overrun 510
           (set_forwardPtr 1 (initial_state (fopen_contents [])
                                            (repeat NUL 512))));
    unfold in_buffer; cbn; lia.
Defined.

(* ================================================================== *)
(** * The iteration of [computeFollowSets] *)
(* ================================================================== *)

Section FollowSets.

Variable F : FirstFollowTable.
Variable G : list GrammarRule.

(** The second inner loop of [computeFollowSets], over the list [l]. *)
Lemma quiet_add_list (b : NonTerminal) (l : FirstFollowSet) :
  quiet (fun acc => fold_left (add_to_row b) l acc).
Proof. apply quiet_fold. intros tk _. apply quiet_add_to_row. Qed.

Lemma growing_add_list (b : NonTerminal) (l : FirstFollowSet) :
  growing (fun acc => fold_left (add_to_row b) l acc).
Proof. apply growing_fold. intro tk. apply growing_add_to_row. Qed.

Lemma quiet_follow_walk (currLhs : NonTerminal) (rhsItr : list SymbolUnit) :
  quiet (follow_walk F currLhs rhsItr).
Proof.
  induction rhsItr as [|[b | t] rhsItr IH]; cbn [follow_walk].
  - apply quiet_id.
  - intro acc. cbv zeta.
    set (src := getFirstOfRhs F rhsItr).
    set (acc1 := add_row_but_eps b src acc).
    destruct (existsInFirstFollow src EPS
              || match rhsItr with [] => true | _ :: _ => false end).
    + apply (quiet_compose
               (fun a => fold_left (add_to_row b) (fst acc1 currLhs)
                           (add_row_but_eps b src a))
               (follow_walk F currLhs rhsItr)); [| exact IH].
      apply (quiet_compose (add_row_but_eps b src)
               (fun a => fold_left (add_to_row b) (fst acc1 currLhs) a));
        [apply quiet_add_row_but_eps | apply quiet_add_list].
    + apply (quiet_compose (add_row_but_eps b src)
                           (follow_walk F currLhs rhsItr));
        [apply quiet_add_row_but_eps | exact IH].
  - exact IH.
Qed.

Lemma growing_follow_walk (currLhs : NonTerminal) (rhsItr : list SymbolUnit) :
  growing (follow_walk F currLhs rhsItr).
Proof.
  induction rhsItr as [|[b | t] rhsItr IH]; cbn [follow_walk].
  - apply growing_id.
  - intros acc H. cbv zeta.
    set (src := getFirstOfRhs F rhsItr).
    set (acc1 := add_row_but_eps b src acc).
    destruct (existsInFirstFollow src EPS
              || match rhsItr with [] => true | _ :: _ => false end).
    + apply (growing_compose
               (fun a => fold_left (add_to_row b) (fst acc1 currLhs)
                           (add_row_but_eps b src a))
               (follow_walk F currLhs rhsItr)); [| exact IH | exact H].
      apply (growing_compose (add_row_but_eps b src)
               (fun a => fold_left (add_to_row b) (fst acc1 currLhs) a));
        [apply growing_add_row_but_eps | apply growing_add_list].
    + apply (growing_compose (add_row_but_eps b src)
                             (follow_walk F currLhs rhsItr));
        [apply growing_add_row_but_eps | exact IH | exact H].
  - exact IH.
Qed.

Lemma follow_pass_progress (Fo : FirstFollowTable) :
  sets_nodup Fo ->
  sets_nodup (fst (follow_pass F G Fo))
  /\ (snd (follow_pass F G Fo) = true ->
      (table_size Fo < table_size (fst (follow_pass F G Fo)))%nat).
Proof.
  intro H. unfold follow_pass.
  destruct (growing_fold (fun acc r => follow_walk F (lhs r) (rhs r) acc) G
              (fun r => growing_follow_walk (lhs r) (rhs r)) (Fo, false) H)
    as [H1 H2].
  split; [exact H1 |].
  intro Hm. unfold potential in H2. rewrite Hm in H2. simpl in H2. lia.
Qed.

Lemma follow_pass_quiet (Fo : FirstFollowTable) :
  snd (follow_pass F G Fo) = false -> follow_pass F G Fo = (Fo, false).
Proof.
  unfold follow_pass.
  apply (quiet_fold (fun acc r => follow_walk F (lhs r) (rhs r) acc) G).
  intros r _. apply quiet_follow_walk.
Qed.

(** ** A pass that changes nothing *)

(** Two updates in a row that leave a pair with a clear flag alone have
    each left it alone. *)
Lemma quiet_both (f g : FirstFollowTable * bool -> FirstFollowTable * bool)
  (Fo : FirstFollowTable) :
  quiet f -> quiet g -> g (f (Fo, false)) = (Fo, false) ->
  f (Fo, false) = (Fo, false) /\ g (Fo, false) = (Fo, false).
Proof.
  intros Hf Hg Hfix.
  destruct (Hf (Fo, false)) as [_ Hf2].
  destruct (Hg (f (Fo, false))) as [Hg1 _].
  assert (E : f (Fo, false) = (Fo, false)).
  { apply Hf2. destruct (snd (f (Fo, false))) eqn:E; [| reflexivity].
    rewrite Hfix in Hg1. specialize (Hg1 eq_refl). discriminate. }
  split; [exact E |]. rewrite E in Hfix. exact Hfix.
Qed.

Lemma add_list_fixed (b : NonTerminal) (l : FirstFollowSet)
  (Fo : FirstFollowTable) :
  fold_left (add_to_row b) l (Fo, false) = (Fo, false) ->
  forall tk, In tk l -> In tk (Fo b).
Proof.
  intros Hfix tk Htk. apply add_to_row_fixed.
  apply (quiet_fold_each (add_to_row b) l
           (fun x _ => quiet_add_to_row b x) (Fo, false));
    [rewrite Hfix; reflexivity | exact Htk].
Qed.

Lemma nullable_tail (post : list SymbolUnit) :
  first_of F post EPS ->
  existsInFirstFollow (getFirstOfRhs F post) EPS
  || match post with [] => true | _ :: _ => false end = true.
Proof.
  intro H. apply orb_true_iff. left.
  apply existsInFirstFollow_In, In_getFirstOfRhs. exact H.
Qed.

Lemma tail_nullable (post : list SymbolUnit) :
  existsInFirstFollow (getFirstOfRhs F post) EPS
  || match post with [] => true | _ :: _ => false end = true ->
  first_of F post EPS.
Proof.
  intro H. apply orb_true_iff in H. destruct H as [H | H].
  - apply In_getFirstOfRhs, existsInFirstFollow_In. exact H.
  - destruct post; [apply first_end | discriminate].
Qed.

Lemma follow_walk_fixed (currLhs : NonTerminal) (Fo : FirstFollowTable)
  (rhsItr : list SymbolUnit) :
  follow_walk F currLhs rhsItr (Fo, false) = (Fo, false) ->
  forall pre B post, rhsItr = pre ++ NonTerminalSym B :: post ->
    (forall t, first_of F post t -> t <> EPS -> In t (Fo B))
    /\ (first_of F post EPS -> forall t, In t (Fo currLhs) -> In t (Fo B)).
Proof.
  induction rhsItr as [|[b | x] rhsItr IH]; intros Hfix pre B post Hsplit.
  - destruct pre; discriminate.
  - cbn [follow_walk] in Hfix. cbv zeta in Hfix.
    set (src := getFirstOfRhs F rhsItr) in *.
    set (f1 := add_row_but_eps b src).
    set (f2 := fun a : FirstFollowTable * bool =>
                 if existsInFirstFollow src EPS
                    || match rhsItr with [] => true | _ :: _ => false end
                 then fold_left (add_to_row b) (fst a currLhs) a else a).
    change (follow_walk F currLhs rhsItr (f2 (f1 (Fo, false))) = (Fo, false))
      in Hfix.
    assert (Hq2 : quiet f2).
    { intro a. unfold f2.
      destruct (existsInFirstFollow src EPS
                || match rhsItr with [] => true | _ :: _ => false end);
        [apply (quiet_add_list b (fst a currLhs)) | apply quiet_id]. }
    destruct (quiet_both (fun a => f2 (f1 a)) (follow_walk F currLhs rhsItr) Fo)
      as [H12 Hrest]; try assumption.
    { apply (quiet_compose f1 f2);
        [apply quiet_add_row_but_eps | exact Hq2]. }
    { apply quiet_follow_walk. }
    destruct (quiet_both f1 f2 Fo) as [H1 H2]; try assumption.
    { apply quiet_add_row_but_eps. }
    destruct pre as [|y pre]; cbn [app] in Hsplit.
    + injection Hsplit as -> ->. split.
      * intros t Ht Hne.
        apply (add_row_but_eps_fixed B src Fo H1 t); [| exact Hne].
        apply In_getFirstOfRhs. exact Ht.
      * intros Heps t Ht. unfold f2, src in H2.
        rewrite (nullable_tail post Heps) in H2.
        cbn [fst] in H2. exact (add_list_fixed B _ Fo H2 t Ht).
    + injection Hsplit as _ ->. apply (IH Hrest pre B post eq_refl).
  - cbn [follow_walk] in Hfix.
    destruct pre as [|y pre]; cbn [app] in Hsplit; [discriminate |].
    injection Hsplit as _ ->. apply (IH Hfix pre B post eq_refl).
Qed.

Lemma follow_pass_fixed_closed (Fo : FirstFollowTable) :
  follow_pass F G Fo = (Fo, false) ->
  forall r pre B post,
    In r G -> rhs r = pre ++ NonTerminalSym B :: post ->
    (forall t, first_of F post t -> t <> EPS -> In t (Fo B))
    /\ (first_of F post EPS -> forall t, In t (Fo (lhs r)) -> In t (Fo B)).
Proof.
  intros Hfix r pre B post Hr Hsplit.
  refine (follow_walk_fixed (lhs r) Fo (rhs r) _ pre B post Hsplit).
  unfold follow_pass in Hfix.
  apply (quiet_fold_each (fun acc r => follow_walk F (lhs r) (rhs r) acc) G
           (fun x _ => quiet_follow_walk (lhs x) (rhs x)) (Fo, false));
    [rewrite Hfix; reflexivity | exact Hr].
Qed.

(** ** Every token has a source *)

Lemma follow_source_mono (Fo Fo' : FirstFollowTable) (B : NonTerminal)
  (t : Token) :
  table_le Fo Fo' -> follow_source G F Fo B t -> follow_source G F Fo' B t.
Proof.
  intros Hle [H | (r & pre & post & Hr & Hs & [H | [H1 H2]])];
    [left; exact H | right; exists r, pre, post ..].
  - repeat split; try assumption. left. exact H.
  - repeat split; try assumption. right. split; [exact H1 | apply Hle, H2].
Qed.

Lemma add_to_row_sourced (b : NonTerminal) (acc : FirstFollowTable * bool)
  (tk : Token) :
  sourced G F (fst acc) -> tk <> EPS -> follow_source G F (fst acc) b tk ->
  sourced G F (fst (add_to_row b acc tk))
  /\ table_le (fst acc) (fst (add_to_row b acc tk)).
Proof.
  intros Hs Hne Hsrc. unfold add_to_row.
  destruct (existsInFirstFollow (fst acc b) tk);
    [split; [exact Hs | apply table_le_refl] |].
  cbn [fst].
  assert (Hle : table_le (fst acc)
                  (set_row (fst acc) b (insertFirstFollowNode (fst acc b) tk))).
  { intros n t Ht. unfold set_row, insertFirstFollowNode.
    destruct (NonTerminal_eqb n b) eqn:E; [| exact Ht].
    apply NonTerminal_eqb_eq in E. subst n. apply in_app_iff. left. exact Ht. }
  split; [| exact Hle].
  intros n t Ht. unfold set_row, insertFirstFollowNode in Ht.
  destruct (NonTerminal_eqb n b) eqn:E.
  - apply NonTerminal_eqb_eq in E. subst n. apply in_app_iff in Ht.
    destruct Ht as [Ht | [<- | []]].
    + destruct (Hs _ _ Ht) as [H1 H2].
      split; [exact H1 | eapply follow_source_mono; eassumption].
    + split; [exact Hne | eapply follow_source_mono; eassumption].
  - destruct (Hs _ _ Ht) as [H1 H2].
    split; [exact H1 | eapply follow_source_mono; eassumption].
Qed.

(** A loop of guarded insertions into row [b] of tokens that have a
    source there. *)
Lemma add_tokens_sourced (b : NonTerminal)
  (step : FirstFollowTable * bool -> Token -> FirstFollowTable * bool)
  (l : list Token) :
  (forall a tk, In tk l ->
     step a tk = a \/ (tk <> EPS /\ step a tk = add_to_row b a tk)) ->
  forall acc : FirstFollowTable * bool,
  sourced G F (fst acc) ->
  (forall tk, In tk l -> tk <> EPS -> follow_source G F (fst acc) b tk) ->
  sourced G F (fst (fold_left step l acc))
  /\ table_le (fst acc) (fst (fold_left step l acc)).
Proof.
  induction l as [|x l IH]; intros Hstep acc Hs Hsrc; cbn [fold_left];
    [split; [exact Hs | apply table_le_refl] |].
  assert (Hstep' : forall a tk, In tk l ->
            step a tk = a \/ (tk <> EPS /\ step a tk = add_to_row b a tk)).
  { intros a tk Htk. apply Hstep. right. exact Htk. }
  destruct (Hstep acc x (or_introl eq_refl)) as [E | [Hne E]]; rewrite E.
  - apply (IH Hstep'); [exact Hs |].
    intros tk Htk. apply Hsrc. right. exact Htk.
  - destruct (add_to_row_sourced b acc x Hs Hne) as [Hs1 Hle1].
    { apply Hsrc; [left; reflexivity | exact Hne]. }
    destruct (IH Hstep' (add_to_row b acc x) Hs1) as [Hs2 Hle2].
    + intros tk Htk Hne'. eapply follow_source_mono; [exact Hle1 |].
      apply Hsrc; [right |]; assumption.
    + split; [exact Hs2 | eapply table_le_trans; eassumption].
Qed.

Lemma follow_walk_sourced (r : GrammarRule) (rhsItr : list SymbolUnit) :
  forall (pre : list SymbolUnit) (acc : FirstFollowTable * bool),
  In r G -> rhs r = pre ++ rhsItr -> sourced G F (fst acc) ->
  sourced G F (fst (follow_walk F (lhs r) rhsItr acc))
  /\ table_le (fst acc) (fst (follow_walk F (lhs r) rhsItr acc)).
Proof.
  induction rhsItr as [|[b | x] rhsItr IH]; intros pre acc Hr Hrhs Hs;
    cbn [follow_walk].
  - split; [exact Hs | apply table_le_refl].
  - cbv zeta.
    set (src := getFirstOfRhs F rhsItr).
    destruct (add_tokens_sourced b
                (fun a tk => if Token_eqb tk EPS then a else add_to_row b a tk)
                src) with (acc := acc) as [Hs1 Hle1].
    { intros a tk _. destruct (Token_eqb tk EPS) eqn:E; [left; reflexivity |].
      right. split; [apply Token_eqb_neq; exact E | reflexivity]. }
    { exact Hs. }
    { intros tk Htk Hne. right. exists r, pre, rhsItr.
      repeat split; try assumption. left.
      split; [apply In_getFirstOfRhs; exact Htk | exact Hne]. }
    fold (add_row_but_eps b src acc) in Hs1, Hle1.
    set (acc1 := add_row_but_eps b src acc) in *.
    assert (Hnext :
              forall acc2 : FirstFollowTable * bool,
                sourced G F (fst acc2) -> table_le (fst acc) (fst acc2) ->
                sourced G F (fst (follow_walk F (lhs r) rhsItr acc2))
                /\ table_le (fst acc)
                     (fst (follow_walk F (lhs r) rhsItr acc2))).
    { intros acc2 Hs2 Hle2.
      destruct (IH (pre ++ [NonTerminalSym b]) acc2 Hr) as [Hs3 Hle3];
        [rewrite <- app_assoc; exact Hrhs | exact Hs2 |].
      split; [exact Hs3 | eapply table_le_trans; eassumption]. }
    destruct (existsInFirstFollow src EPS
              || match rhsItr with [] => true | _ :: _ => false end) eqn:Ec;
      [| apply Hnext; assumption].
    destruct (add_tokens_sourced b (add_to_row b) (fst acc1 (lhs r)))
      with (acc := acc1) as [Hs2 Hle2].
    { intros a tk Htk. right. split; [| reflexivity].
      exact (proj1 (Hs1 _ _ Htk)). }
    { exact Hs1. }
    { intros tk Htk Hne. right. exists r, pre, rhsItr.
      repeat split; try assumption. right.
      split; [apply tail_nullable; exact Ec | exact Htk]. }
    apply Hnext; [exact Hs2 | eapply table_le_trans; eassumption].
  - destruct (IH (pre ++ [TerminalSym x]) acc Hr) as [Hs1 Hle1];
      [rewrite <- app_assoc; exact Hrhs | exact Hs |].
    split; assumption.
Qed.

Lemma follow_pass_sourced (Fo : FirstFollowTable) :
  sourced G F Fo ->
  sourced G F (fst (follow_pass F G Fo))
  /\ table_le Fo (fst (follow_pass F G Fo)).
Proof.
  unfold follow_pass.
  assert (H : forall (l : list GrammarRule) (acc : FirstFollowTable * bool),
             incl l G -> sourced G F (fst acc) ->
             sourced G F
               (fst (fold_left (fun a r => follow_walk F (lhs r) (rhs r) a)
                               l acc))
             /\ table_le (fst acc)
                  (fst (fold_left (fun a r => follow_walk F (lhs r) (rhs r) a)
                                  l acc))).
  { induction l as [|r l IH]; intros acc Hin Hs; cbn [fold_left];
      [split; [exact Hs | apply table_le_refl] |].
    destruct (follow_walk_sourced r (rhs r) [] acc) as [Hs1 Hle1];
      try assumption; try reflexivity.
    - apply Hin. left. reflexivity.
    - destruct (IH (follow_walk F (lhs r) (rhs r) acc)) as [Hs2 Hle2];
        try assumption.
      + intros x Hx. apply Hin. right. exact Hx.
      + split; [exact Hs2 | eapply table_le_trans; eassumption]. }
  intro Hs. apply (H G (Fo, false)); [apply incl_refl | exact Hs].
Qed.

(** ** The loop *)

Lemma computeFollowSets_loop_more_fuel (fuel : nat) :
  forall (Fo Fo' : FirstFollowTable),
  computeFollowSets_loop fuel F G Fo = Some Fo' ->
  computeFollowSets_loop (S fuel) F G Fo = Some Fo'.
Proof.
  induction fuel as [|fuel IH]; intros Fo Fo' H; [discriminate |].
  cbn [computeFollowSets_loop] in *.
  destruct (follow_pass F G Fo) as [F1 m]. destruct m; [| exact H].
  apply IH in H. exact H.
Qed.

Lemma computeFollowSets_loop_fuel_le (fuel fuel' : nat)
  (Fo Fo' : FirstFollowTable) :
  (fuel <= fuel')%nat ->
  computeFollowSets_loop fuel F G Fo = Some Fo' ->
  computeFollowSets_loop fuel' F G Fo = Some Fo'.
Proof.
  intros Hle H. induction Hle; [exact H |].
  apply computeFollowSets_loop_more_fuel. assumption.
Qed.

Lemma computeFollowSets_loop_ends (fuel : nat) :
  forall Fo : FirstFollowTable,
  sets_nodup Fo -> sourced G F Fo ->
  (capacity - table_size Fo < fuel)%nat ->
  exists Fo', computeFollowSets_loop fuel F G Fo = Some Fo'
              /\ follow_pass F G Fo' = (Fo', false)
              /\ sets_nodup Fo' /\ sourced G F Fo' /\ table_le Fo Fo'.
Proof.
  induction fuel as [|fuel IH]; intros Fo Hnd Hs Hfuel; [lia |].
  cbn [computeFollowSets_loop].
  destruct (follow_pass_progress Fo Hnd) as [Hnd1 Hprog].
  destruct (follow_pass_sourced Fo Hs) as [Hs1 Hle1].
  pose proof (follow_pass_quiet Fo) as Hq.
  destruct (follow_pass F G Fo) as [F1 m] eqn:E. cbn [fst snd] in *.
  destruct m.
  - destruct (IH F1) as (Fo' & H1 & H2 & H3 & H4 & H5); try assumption.
    + specialize (Hprog eq_refl).
      pose proof (table_size_bound F1 Hnd1). lia.
    + exists Fo'.
      split; [exact H1 | split; [exact H2 | split; [exact H3 |]]].
      split; [exact H4 | eapply table_le_trans; eassumption].
  - specialize (Hq eq_refl). injection Hq as ->.
    exists Fo.
    split; [reflexivity | split; [exact E | split; [exact Hnd |]]].
    split; [exact Hs | apply table_le_refl].
Qed.

Lemma initial_follow_sourced : sourced G F initial_follow.
Proof.
  intros B t. unfold initial_follow, set_row, insertFirstFollowNode, empty_sets.
  destruct (NonTerminal_eqb B program) eqn:E; [| intros []].
  apply NonTerminal_eqb_eq in E. intros [<- | []].
  split; [discriminate | left; split; [exact E | reflexivity]].
Qed.

Lemma initial_follow_nodup : sets_nodup initial_follow.
Proof.
  intro n. unfold initial_follow, set_row, insertFirstFollowNode, empty_sets.
  destruct (NonTerminal_eqb n program); repeat constructor. intros [].
Qed.

Lemma initial_follow_size : table_size initial_follow = 1%nat.
Proof.
  unfold initial_follow. rewrite table_size_insert. reflexivity.
Qed.

End FollowSets.

(** X6. On a grammar whose non-terminals all have a row in the arrays,
    and for every table of FIRST sets, [computeFollowSets] ends, and the
    sets it leaves are a fixed point: they hold no token twice and never
    the epsilon marker, and a token is in FOLLOW(B) exactly when it is
    the end-of-input token of the start symbol, or some rule
    A -> pre B post contributes it: a token of FIRST(post) other than the
    marker, or a token of FOLLOW(A) when FIRST(post) holds the marker (as
    it does at the end of the rule).  One more pass over the rules
    changes nothing, and nothing is stored outside the rows of the
    array. *)
Theorem follow_sets_fixed_point :
  forall (F : FirstFollowTable) (G : list GrammarRule),
  rows_in_range G = true ->
  exists Fo : FirstFollowTable,
    (exists fuel, forall fuel', (fuel <= fuel')%nat ->
                                computeFollowSets fuel' F G = Some Fo)
    /\ (forall B t, In t (Fo B) <-> follow_source G F Fo B t)
    /\ (forall B, NoDup (Fo B) /\ ~ In EPS (Fo B))
    /\ follow_pass F G Fo = (Fo, false)
    /\ (forall B, has_row B = false -> Fo B = []).
Proof.
  intros F G Hrows.
  destruct (computeFollowSets_loop_ends F G (S capacity) initial_follow)
    as (Fo & Hrun & Hfix & Hnd & Hs & Hle).
  - apply initial_follow_nodup.
  - apply initial_follow_sourced.
  - rewrite initial_follow_size. lia.
  - exists Fo. split; [| split; [| split; [| split]]].
    + exists (S capacity). intros fuel' Hfuel. unfold computeFollowSets.
      eapply computeFollowSets_loop_fuel_le; eassumption.
    + intros B t. split; [apply Hs |].
      intros [[-> ->] | (r & pre & post & Hr & Hsplit & [[H1 H2] | [H1 H2]])].
      * apply Hle. unfold initial_follow.
        rewrite set_row_same. left. reflexivity.
      * exact (proj1 (follow_pass_fixed_closed F G Fo Hfix r pre B post
                        Hr Hsplit) t H1 H2).
      * exact (proj2 (follow_pass_fixed_closed F G Fo Hfix r pre B post
                        Hr Hsplit) H1 t H2).
    + intro B. split; [apply Hnd |].
      intro H. exact (proj1 (Hs B EPS H) eq_refl).
    + exact Hfix.
    + intros B HB. destruct (Fo B) as [|t l] eqn:E; [reflexivity |].
      destruct (Hs B t) as [_ [[-> _] | (r & pre & post & Hr & Hsplit & _)]];
        [rewrite E; left; reflexivity | discriminate HB |].
      unfold rows_in_range in Hrows. rewrite forallb_forall in Hrows.
      specialize (Hrows r Hr). apply andb_true_iff in Hrows.
      destruct Hrows as [_ Hrows]. rewrite forallb_forall in Hrows.
      specialize (Hrows (NonTerminalSym B)). cbv beta iota in Hrows.
      rewrite Hrows in HB; [discriminate |].
      rewrite Hsplit. apply in_app_iff. right. left. reflexivity.
Qed.

Lemma follow_sets_fixed_point_witness :
  exists Fo : FirstFollowTable,
    computeFollowSets 3 (set_row empty_sets mainFunction [MAIN])
      [{| lhs := program; rhs := [NonTerminalSym mainFunction] |};
       {| lhs := mainFunction; rhs := [TerminalSym MAIN; TerminalSym END] |}]
    = Some Fo
    /\ Fo program = [DOLLAR] /\ Fo mainFunction = [DOLLAR].
Proof.
  destruct (follow_sets_fixed_point
              (set_row empty_sets mainFunction [MAIN])
              [{| lhs := program; rhs := [NonTerminalSym mainFunction] |};
               {| lhs := mainFunction;
                  rhs := [TerminalSym MAIN; TerminalSym END] |}] eq_refl)
    as (Fo & (fuel & Hrun) & _).
  exists Fo.
  assert (E : computeFollowSets (fuel + 3)
                (set_row empty_sets mainFunction [MAIN])
                [{| lhs := program; rhs := [NonTerminalSym mainFunction] |};
                 {| lhs := mainFunction;
                    rhs := [TerminalSym MAIN; TerminalSym END] |}]
              = Some Fo) by (apply Hrun; lia).
  assert (E3 : computeFollowSets (fuel + 3)
                 (set_row empty_sets mainFunction [MAIN])
                 [{| lhs := program; rhs := [NonTerminalSym mainFunction] |};
                  {| lhs := mainFunction;
                     rhs := [TerminalSym MAIN; TerminalSym END] |}]
               = computeFollowSets 3
                   (set_row empty_sets mainFunction [MAIN])
                   [{| lhs := program;
                       rhs := [NonTerminalSym mainFunction] |};
                    {| lhs := mainFunction;
                       rhs := [TerminalSym MAIN; TerminalSym END] |}]).
  { unfold computeFollowSets.
    apply (computeFollowSets_loop_fuel_le _ _ 3 (fuel + 3)); [lia |].
    vm_compute. reflexivity. }
  rewrite E3 in E. split; [exact E |].
  vm_compute in E. injection E as <-. split; reflexivity.
Defined.

(* ================================================================== *)
(** * The parse tree *)
(* ================================================================== *)

Section NodeStore.

Lemma length_update_node (p : nat) (f : ParseNode -> ParseNode)
  (ns : list ParseNode) :
  List.length (update_node p f ns) = List.length ns.
Proof.
  revert p. induction ns as [|n ns IH]; intros [|p]; cbn; auto.
Qed.

Lemma deref_update_node_same (p : nat) (f : ParseNode -> ParseNode)
  (ns : list ParseNode) :
  (p < List.length ns)%nat -> deref (update_node p f ns) p = f (deref ns p).
Proof.
  unfold deref. revert p.
  induction ns as [|n ns IH]; intros p H; cbn in H; [lia |].
  destruct p as [|p]; cbn; [reflexivity | apply IH; lia].
Qed.

Lemma deref_update_node_other (p q : nat) (f : ParseNode -> ParseNode)
  (ns : list ParseNode) :
  q <> p -> deref (update_node p f ns) q = deref ns q.
Proof.
  unfold deref. revert p q.
  induction ns as [|n ns IH]; intros p q H; [reflexivity |].
  destruct p as [|p]; destruct q as [|q]; cbn; try reflexivity.
  - congruence.
  - apply IH. congruence.
Qed.

Lemma deref_beyond (ns : list ParseNode) (p : nat) :
  (List.length ns <= p)%nat -> deref ns p = dummy_node.
Proof. intro H. unfold deref. apply nth_overflow. exact H. Qed.

Lemma deref_app_old (ns ext : list ParseNode) (p : nat) :
  (p < List.length ns)%nat -> deref (ns ++ ext) p = deref ns p.
Proof. intro H. unfold deref. apply app_nth1. exact H. Qed.

Lemma deref_app_new (ns : list ParseNode) (n : ParseNode) :
  deref (ns ++ [n]) (List.length ns) = n.
Proof.
  unfold deref. rewrite app_nth2 by lia. rewrite Nat.sub_diag. reflexivity.
Qed.

Lemma push_children_app (cs stk : list nat) : push_children cs stk = cs ++ stk.
Proof.
  unfold push_children.
  assert (H : forall (l s : list nat),
             fold_left (fun s c => c :: s) l s = rev l ++ s).
  { induction l as [|x l IH]; intro s; cbn; [reflexivity |].
    rewrite IH, <- app_assoc. reflexivity. }
  rewrite H, rev_involutive. reflexivity.
Qed.

(** The expansion loop: [trItr] new nodes behind the old ones, the old
    nodes as they were, but for the children of the parent. *)
Lemma create_children_spec (parent : nat) (trItr : list SymbolUnit) :
  forall ns : list ParseNode,
  (parent < List.length ns)%nat ->
  let ns' := create_children parent trItr ns in
  List.length ns' = (List.length ns + List.length trItr)%nat
  /\ (forall q, (q < List.length ns)%nat -> q <> parent ->
                deref ns' q = deref ns q)
  /\ symbol (deref ns' parent) = symbol (deref ns parent)
  /\ ste (deref ns' parent) = ste (deref ns parent)
  /\ pn_children (deref ns' parent)
     = pn_children (deref ns parent)
       ++ seq (List.length ns) (List.length trItr)
  /\ (forall i, (i < List.length trItr)%nat ->
                deref ns' (List.length ns + i)
                = createParseNode (nth i trItr (TerminalSym TK_NOT_FOUND))).
Proof.
  induction trItr as [|su trItr IH]; intros ns Hp; cbv zeta;
    cbn [create_children List.length seq].
  - rewrite Nat.add_0_r, app_nil_r. repeat split; try reflexivity.
    intros i Hi. lia.
  - set (ns1 := update_node parent (insertChild (List.length ns))
                            (ns ++ [createParseNode su])).
    assert (Hlen1 : List.length ns1 = S (List.length ns)).
    { unfold ns1. rewrite length_update_node, length_app. cbn. lia. }
    assert (Hpar1 : deref ns1 parent
                    = insertChild (List.length ns) (deref ns parent)).
    { unfold ns1. rewrite deref_update_node_same
        by (rewrite length_app; cbn; lia).
      rewrite deref_app_old by exact Hp. reflexivity. }
    assert (Hold1 : forall q, (q < List.length ns)%nat -> q <> parent ->
                              deref ns1 q = deref ns q).
    { intros q Hq Hne. unfold ns1.
      rewrite deref_update_node_other by exact Hne.
      apply deref_app_old. exact Hq. }
    assert (Hnew1 : deref ns1 (List.length ns) = createParseNode su).
    { unfold ns1. rewrite deref_update_node_other by lia.
      apply deref_app_new. }
    destruct (IH ns1) as (H1 & H2 & H3 & H4 & H5 & H6); [lia |].
    rewrite Hlen1 in *.
    split; [lia |].
    split; [intros q Hq Hne; rewrite H2 by lia; apply Hold1; assumption |].
    split; [rewrite H3, Hpar1; reflexivity |].
    split; [rewrite H4, Hpar1; reflexivity |].
    split.
    + rewrite H5, Hpar1. cbn [insertChild pn_children].
      rewrite <- app_assoc. reflexivity.
    + intros [|i] Hi.
      * rewrite Nat.add_0_r, H2 by lia. exact Hnew1.
      * replace (List.length ns + S i)%nat with (S (List.length ns) + i)%nat
          by lia.
        apply H6. cbn in Hi. lia.
Qed.

End NodeStore.

Section ParseInvariant.

Variable shouldPrint : bool.
Variable pt : ParseTable.
Variable follow : FirstFollowTable.
Variable tokens : TokenList.

Lemma leaf_done_set_line (line : Z) (n : ParseNode) :
  leaf_done n -> leaf_done (set_line line n).
Proof. intro H. exact H. Qed.

Lemma consumed_one (tok : TokenNode) (rest : TokenList) :
  error_token tok = false ->
  (exists consumed,
      tokens = consumed ++ tok :: rest
      /\ forallb (fun tok => negb (error_token tok)) consumed = true) ->
  exists consumed,
    tokens = consumed ++ rest
    /\ forallb (fun tok => negb (error_token tok)) consumed = true.
Proof.
  intros Hok (consumed & Hsplit & Hclean).
  exists (consumed ++ [tok]). split.
  - rewrite <- app_assoc. exact Hsplit.
  - rewrite forallb_app, Hclean. cbn. rewrite Hok. reflexivity.
Qed.

(** Popping the node [top], which is done after the update [f]. *)
Lemma pop_done (ns : list ParseNode) (top : nat) (stk : list nat)
  (f : ParseNode -> ParseNode) :
  (top < List.length ns)%nat ->
  leaf_done (f (deref ns top)) ->
  (forall p, (p < List.length ns)%nat ->
             leaf_done (deref ns p) \/ In p (top :: stk)) ->
  forall p, (p < List.length (update_node top f ns))%nat ->
            leaf_done (deref (update_node top f ns) p) \/ In p stk.
Proof.
  intros Htop Hdone Hall p Hp. rewrite length_update_node in Hp.
  destruct (Nat.eq_dec p top) as [-> | Hne].
  - left. rewrite deref_update_node_same by exact Htop. exact Hdone.
  - rewrite deref_update_node_other by exact Hne.
    destruct (Hall p Hp) as [H | [H | H]]; auto. congruence.
Qed.

Lemma children_update_node (ns : list ParseNode) (top : nat)
  (f : ParseNode -> ParseNode) :
  (forall n, pn_children (f n) = pn_children n) ->
  (forall p c, In c (pn_children (deref ns p)) -> (c < List.length ns)%nat) ->
  forall p c, In c (pn_children (deref (update_node top f ns) p)) ->
              (c < List.length (update_node top f ns))%nat.
Proof.
  intros Hf Hall p c Hc. rewrite length_update_node.
  destruct (Nat.eq_dec p top) as [-> | Hne].
  - destruct (Nat.lt_ge_cases top (List.length ns)) as [Hlt | Hge].
    + rewrite deref_update_node_same, Hf in Hc by exact Hlt.
      exact (Hall _ _ Hc).
    + rewrite deref_beyond in Hc by (rewrite length_update_node; exact Hge).
      destruct Hc.
  - rewrite deref_update_node_other in Hc by exact Hne.
    exact (Hall _ _ Hc).
Qed.

Lemma parse_step_invariant (ps : ParserState) :
  parse_invariant tokens ps ->
  parse_invariant tokens (parse_step shouldPrint pt follow ps).
Proof.
  intros (Hstk & Hch & Hok). unfold parse_step.
  destruct (theStack ps) as [|top stk] eqn:Es;
    [unfold parse_invariant; rewrite Es; auto |].
  destruct (inputPtr ps) as [|tok rest] eqn:Ei;
    [unfold parse_invariant; rewrite Es, Ei; auto |].
  assert (Htop : (top < List.length (nodes ps))%nat)
    by (apply Hstk; left; reflexivity).
  assert (Hstk' : forall p, In p stk -> (p < List.length (nodes ps))%nat)
    by (intros p Hp; apply Hstk; right; exact Hp).
  destruct (Token_eqb (tokenType (entry tok)) COMMENT
            || (Token_to_Z (tokenType (entry tok))
                >=? Token_to_Z LEXICAL_ERROR)) eqn:Eskip.
  { (* comments and flagged tokens *)
    unfold skip_token, parse_invariant.
    cbn [nodes theStack inputPtr hasSyntaxError]. rewrite Es.
    split; [exact Hstk | split; [exact Hch |]].
    destruct (Token_eqb (tokenType (entry tok)) COMMENT) eqn:Ec;
      cbn [negb]; [| discriminate].
    intro Hflag. destruct (Hok Hflag) as [Hleaves Hcons].
    split; [exact Hleaves |].
    apply (consumed_one tok rest); [| exact Hcons].
    unfold error_token. apply Token_eqb_eq in Ec. rewrite Ec. reflexivity. }
  apply orb_false_iff in Eskip. destruct Eskip as [_ Eerr].
  destruct (symbol (deref (nodes ps) top)) as [n | t] eqn:Esym.
  - (* a non-terminal *)
    destruct (pt n (tokenType (entry tok))) as [tmpRule |] eqn:Ecell.
    + (* expansion *)
      set (ns1 := update_node top (set_line (lineNum tok)) (nodes ps)).
      assert (Hlen1 : List.length ns1 = List.length (nodes ps))
        by apply length_update_node.
      destruct (create_children_spec top (rhs tmpRule) ns1)
        as (H1 & H2 & H3 & H4 & H5 & H6); [lia |].
      set (ns2 := create_children top (rhs tmpRule) ns1) in *.
      assert (Hch1 : forall p c, In c (pn_children (deref ns1 p)) ->
                                 (c < List.length ns1)%nat).
      { apply children_update_node; [reflexivity | exact Hch]. }
      unfold parse_invariant.
      cbn [nodes theStack inputPtr hasSyntaxError].
      rewrite push_children_app, H5.
      split; [| split].
      * intros p Hp. rewrite H1.
        apply in_app_iff in Hp. destruct Hp as [Hp | Hp].
        -- apply in_app_iff in Hp. destruct Hp as [Hp | Hp].
           ++ apply Hch1 in Hp. lia.
           ++ apply in_seq in Hp. lia.
        -- apply Hstk' in Hp. lia.
      * intros p c Hc. rewrite H1.
        destruct (Nat.lt_ge_cases p (List.length ns1)) as [Hlt | Hge].
        -- destruct (Nat.eq_dec p top) as [-> | Hne].
           ++ rewrite H5 in Hc. apply in_app_iff in Hc.
              destruct Hc as [Hc | Hc].
              ** apply Hch1 in Hc. lia.
              ** apply in_seq in Hc. lia.
           ++ rewrite H2 in Hc by assumption. apply Hch1 in Hc. lia.
        -- destruct (Nat.lt_ge_cases p (List.length ns2)) as [Hlt2 | Hge2].
           ++ replace p with (List.length ns1 + (p - List.length ns1))%nat
                in Hc by lia.
              rewrite H6 in Hc by lia. destruct Hc.
           ++ rewrite deref_beyond in Hc by exact Hge2. destruct Hc.
      * intro Hflag. destruct (Hok Hflag) as [Hleaves Hcons].
        split; [| exact Hcons].
        intros p Hp. rewrite H1 in Hp.
        destruct (Nat.lt_ge_cases p (List.length ns1)) as [Hlt | Hge].
        -- destruct (Nat.eq_dec p top) as [-> | Hne].
           ++ left. unfold leaf_done. rewrite H3. unfold ns1.
              rewrite deref_update_node_same by exact Htop.
              cbn [set_line symbol]. rewrite Esym. exact I.
           ++ rewrite H2 by assumption. unfold ns1.
              rewrite deref_update_node_other by exact Hne.
              destruct (Hleaves p) as [H | [H | H]]; [lia | auto | congruence |].
              right. apply in_app_iff. right. exact H.
        -- right. apply in_app_iff. left. apply in_app_iff. right.
           apply in_seq. lia.
    + (* an empty cell *)
      destruct (existsInFirstFollow (follow n) (tokenType (entry tok))).
      * unfold parse_invariant.
        cbn [nodes theStack inputPtr hasSyntaxError].
        rewrite length_update_node.
        split; [exact Hstk' | split; [| discriminate]].
        intros p c Hc. rewrite <- (length_update_node top
                                     (set_line (lineNum tok)) (nodes ps)).
        revert p c Hc. apply children_update_node; [reflexivity | exact Hch].
      * unfold parse_invariant.
        cbn [nodes theStack inputPtr hasSyntaxError].
        split; [| split; [exact Hch | discriminate]].
        destruct rest; [exact Hstk' | exact Hstk].
  - (* a terminal *)
    destruct (Token_eqb t EPS) eqn:Eeps.
    + unfold parse_invariant.
      cbn [nodes theStack inputPtr hasSyntaxError].
      split; [rewrite length_update_node; exact Hstk' | split].
      * apply children_update_node; [reflexivity | exact Hch].
      * intro Hflag. destruct (Hok Hflag) as [Hleaves Hcons].
        split; [| exact Hcons].
        apply pop_done; [exact Htop | | exact Hleaves].
        unfold leaf_done. cbn [set_ste set_line symbol ste].
        rewrite Esym, Eeps. exists epsilon_entry. split; reflexivity.
    + destruct (Token_eqb t (tokenType (entry tok))) eqn:Ematch.
      * unfold parse_invariant.
        cbn [nodes theStack inputPtr hasSyntaxError].
        split; [rewrite length_update_node; exact Hstk' | split].
        -- apply children_update_node; [reflexivity | exact Hch].
        -- intro Hflag. destruct (Hok Hflag) as [Hleaves Hcons].
           split.
           ++ apply pop_done; [exact Htop | | exact Hleaves].
              unfold leaf_done. cbn [set_ste set_line symbol ste].
              rewrite Esym, Eeps. exists (entry tok).
              split; [reflexivity |].
              apply Token_eqb_eq in Ematch. congruence.
           ++ apply (consumed_one tok rest); [exact Eerr | exact Hcons].
      * unfold parse_invariant.
        cbn [nodes theStack inputPtr hasSyntaxError].
        split; [rewrite length_update_node; exact Hstk' | split].
        -- apply children_update_node; [reflexivity | exact Hch].
        -- discriminate.
Qed.

Lemma parse_loop_invariant (fuel : nat) :
  forall ps ps' : ParserState,
  parse_invariant tokens ps ->
  parse_loop fuel shouldPrint pt follow ps = Some ps' ->
  parse_invariant tokens ps'
  /\ (theStack ps' = [] \/ inputPtr ps' = []).
Proof.
  induction fuel as [|fuel IH]; intros ps ps' Hinv Hrun;
    cbn [parse_loop] in Hrun;
    destruct (theStack ps) as [|top stk] eqn:Es;
    try (injection Hrun as <-; split; [exact Hinv | left; exact Es]);
    destruct (inputPtr ps) as [|tok rest] eqn:Ei;
    try (injection Hrun as <-; split; [exact Hinv | right; exact Ei]).
  - discriminate.
  - apply (IH _ _ (parse_step_invariant ps Hinv) Hrun).
Qed.

End ParseInvariant.

Section Expansion.

Lemma map_seq_nth {X : Type} (f : nat -> X) (d : X) (l : list X) :
  forall start : nat,
  (forall i, (i < List.length l)%nat -> f (start + i)%nat = nth i l d) ->
  map f (seq start (List.length l)) = l.
Proof.
  induction l as [|x l IH]; intros start H; cbn [List.length seq map];
    [reflexivity |].
  f_equal.
  - rewrite <- (Nat.add_0_r start). apply (H 0%nat). cbn. lia.
  - apply IH. intros i Hi.
    replace (S start + i)%nat with (start + S i)%nat by lia.
    apply (H (S i)). cbn. lia.
Qed.

End Expansion.

(** X7. A parse that ends without the error flag has emptied the stack
    and finished every node: each terminal node of the tree holds a
    symbol-table entry (the epsilon entry for the marker, an entry of
    the node's own token kind otherwise), so that [printTreeNode] finds
    the [ste] it reads.  The tokens consumed hold no lexical error and no
    over-long name, and the input is at its end or at the end-of-input
    token. *)
Theorem parse_without_error :
  forall (fuel : nat) (shouldPrint : bool) (pt : ParseTable)
         (follow : FirstFollowTable) (tokens : TokenList)
         (out : list Message) (ps : ParserState),
    parseTokens fuel shouldPrint pt follow tokens false out = Some ps ->
    hasSyntaxError ps = false ->
    theStack ps = []
    /\ (forall p, (p < List.length (nodes ps))%nat ->
                  leaf_done (deref (nodes ps) p))
    /\ (exists consumed,
          tokens = consumed ++ inputPtr ps
          /\ forallb (fun tok => negb (error_token tok)) consumed = true)
    /\ match inputPtr ps with
       | [] => True
       | tok :: _ => tokenType (entry tok) = DOLLAR
       end.
Proof.
  intros fuel shouldPrint pt follow tokens out ps Hrun Hflag.
  unfold parseTokens in Hrun.
  match type of Hrun with
  | match parse_loop _ _ _ _ ?p with _ => _ end = _ => set (ps0 := p) in Hrun
  end.
  assert (Hinv0 : parse_invariant tokens ps0).
  { unfold parse_invariant, ps0.
    cbn [nodes theStack inputPtr hasSyntaxError List.length].
    split; [intros p [<- | []]; lia | split].
    - intros p c Hc. destruct p as [|[|p]]; destruct Hc.
    - intros _. split.
      + intros p Hp. right. left. lia.
      + exists []. split; reflexivity. }
  destruct (parse_loop fuel shouldPrint pt follow ps0) as [ps1 |] eqn:Eloop;
    [| discriminate].
  injection Hrun as <-.
  destruct (parse_loop_invariant shouldPrint pt follow tokens fuel ps0 ps1
              Hinv0 Eloop) as [(_ & _ & Hok) _].
  unfold parse_finish in *.
  destruct (negb (hasSyntaxError ps1)
            && match theStack ps1 with [] => true | _ :: _ => false end
            && match inputPtr ps1 with
               | [] => true
               | tok :: _ => Token_eqb (tokenType (entry tok)) DOLLAR
               end) eqn:Econd.
  - cbn [nodes theStack inputPtr hasSyntaxError] in *.
    apply andb_true_iff in Econd. destruct Econd as [Econd Hend].
    apply andb_true_iff in Econd. destruct Econd as [_ Hempty].
    destruct (Hok Hflag) as [Hleaves Hcons].
    destruct (theStack ps1) as [|top stk]; [| discriminate].
    split; [reflexivity | split; [| split; [exact Hcons |]]].
    + intros p Hp. destruct (Hleaves p Hp) as [H | []]. exact H.
    + destruct (inputPtr ps1) as [|tok rest]; [exact I |].
      apply Token_eqb_eq. exact Hend.
  - destruct (drain_input shouldPrint (inputPtr ps1)
                (drain_stack shouldPrint ps1)) as [input' out2].
    cbn [hasSyntaxError] in Hflag. discriminate.
Qed.

Lemma parse_without_error_witness :
  exists ps : ParserState,
    parseTokens 10 true main_end_table empty_sets
                [main_token; end_token; eof_token 1] false [] = Some ps
    /\ hasSyntaxError ps = false
    /\ theStack ps = []
    /\ (forall p, (p < List.length (nodes ps))%nat ->
                  leaf_done (deref (nodes ps) p))
    /\ (exists consumed,
          [main_token; end_token; eof_token 1] = consumed ++ inputPtr ps
          /\ forallb (fun tok => negb (error_token tok)) consumed = true)
    /\ match inputPtr ps with
       | [] => True
       | tok :: _ => tokenType (entry tok) = DOLLAR
       end.
Proof.
  eexists. split; [vm_compute; reflexivity |].
  split; [reflexivity |].
  eapply (parse_without_error 10 true main_end_table empty_sets
            [main_token; end_token; eof_token 1] []);
    [vm_compute; reflexivity | reflexivity].
Defined.

(** X8. Expanding a non-terminal: when the cell of the stack top and the
    current token holds a rule, the step appends one fresh node per
    symbol of its right-hand side to the tree, makes them the children
    of the node expanded, in order, and replaces that node on the stack
    by them with the leftmost child on top.  The token stays in the
    input and nothing is reported. *)
Theorem expansion_pushes_children_in_order :
  forall (shouldPrint : bool) (pt : ParseTable) (follow : FirstFollowTable)
         (ps : ParserState) (top : nat) (stk : list nat) (tok : TokenNode)
         (rest : TokenList) (n : NonTerminal) (r : GrammarRule),
    theStack ps = top :: stk ->
    inputPtr ps = tok :: rest ->
    ordinary tok = true ->
    (top < List.length (nodes ps))%nat ->
    symbol (deref (nodes ps) top) = NonTerminalSym n ->
    pn_children (deref (nodes ps) top) = [] ->
    pt n (tokenType (entry tok)) = Some r ->
    let ps' := parse_step shouldPrint pt follow ps in
    let fresh := seq (List.length (nodes ps)) (List.length (rhs r)) in
    theStack ps' = fresh ++ stk
    /\ pn_children (deref (nodes ps') top) = fresh
    /\ map (fun p => symbol (deref (nodes ps') p)) fresh = rhs r
    /\ List.length (nodes ps')
       = (List.length (nodes ps) + List.length (rhs r))%nat
    /\ inputPtr ps' = tok :: rest
    /\ hasSyntaxError ps' = hasSyntaxError ps
    /\ console ps' = console ps.
Proof.
  intros shouldPrint pt follow ps top stk tok rest n r
         Hs Hi Hord Htop Hsym Hleaf Hcell.
  cbv zeta. unfold parse_step.
  rewrite Hs, Hi, (ordinary_spec tok Hord), Hsym, Hcell.
  cbn [nodes theStack inputPtr hasSyntaxError console].
  set (ns1 := update_node top (set_line (lineNum tok)) (nodes ps)).
  assert (Hlen1 : List.length ns1 = List.length (nodes ps))
    by apply length_update_node.
  destruct (create_children_spec top (rhs r) ns1)
    as (H1 & H2 & H3 & H4 & H5 & H6); [lia |].
  assert (Hleaf1 : pn_children (deref ns1 top) = []).
  { unfold ns1. rewrite deref_update_node_same by exact Htop. exact Hleaf. }
  rewrite Hleaf1, Hlen1 in H5. cbn [app] in H5.
  rewrite push_children_app, H5, H1, Hlen1.
  repeat split.
  apply (map_seq_nth _ (TerminalSym TK_NOT_FOUND)).
  intros i Hi'. rewrite <- Hlen1, H6 by exact Hi'. reflexivity.
Qed.

Lemma expansion_pushes_children_in_order_witness :
  let ps' := parse_step true main_end_table empty_sets expecting_program in
  let fresh := seq (List.length (nodes expecting_program))
                   (List.length (rhs main_end_rule)) in
  theStack ps' = fresh ++ []
  /\ pn_children (deref (nodes ps') 0) = fresh
  /\ map (fun p => symbol (deref (nodes ps') p)) fresh = rhs main_end_rule
  /\ List.length (nodes ps')
     = (List.length (nodes expecting_program)
        + List.length (rhs main_end_rule))%nat
  /\ inputPtr ps' = [main_token; end_token; eof_token 1]
  /\ hasSyntaxError ps' = hasSyntaxError expecting_program
  /\ console ps' = console expecting_program.
Proof.
  apply (expansion_pushes_children_in_order true main_end_table empty_sets
           expecting_program 0 [] main_token [end_token; eof_token 1]
           program main_end_rule);
    try reflexivity.
  cbn. lia.
Defined.

(* ================================================================== *)
(** * Names of grammar symbols and the grammar file *)
(* ================================================================== *)

Section SymbolNames.

Lemma getTokenFromString_from_spec (tbl : list (Token * string))
  (str : string) :
  (getTokenFromString_from tbl str = TK_NOT_FOUND
   /\ forall t, ~ In (t, str) tbl)
  \/ In (getTokenFromString_from tbl str, str) tbl.
Proof.
  induction tbl as [|[t s] tbl IH]; cbn [getTokenFromString_from].
  - left. split; [reflexivity | intros t []].
  - destruct (String.eqb s str) eqn:E.
    + apply String.eqb_eq in E. subst s. right. left. reflexivity.
    + apply String.eqb_neq in E. destruct IH as [[H1 H2] | H].
      * left. split; [exact H1 |].
        intros t' [H | H]; [congruence | exact (H2 t' H)].
      * right. right. exact H.
Qed.

Lemma getNonTerminalFromString_from_spec (tbl : list (NonTerminal * string))
  (str : string) :
  (getNonTerminalFromString_from tbl str = NT_NOT_FOUND
   /\ forall n, ~ In (n, str) tbl)
  \/ In (getNonTerminalFromString_from tbl str, str) tbl.
Proof.
  induction tbl as [|[n s] tbl IH]; cbn [getNonTerminalFromString_from].
  - left. split; [reflexivity | intros n []].
  - destruct (String.eqb s str) eqn:E.
    + apply String.eqb_eq in E. subst s. right. left. reflexivity.
    + apply String.eqb_neq in E. destruct IH as [[H1 H2] | H].
      * left. split; [exact H1 |].
        intros n' [H | H]; [congruence | exact (H2 n' H)].
      * right. right. exact H.
Qed.

End SymbolNames.

(** X9. Names and enumerators.  Every name of [tokenToString] is read
    back by [getTokenFromString] as its token and every name of
    [nonTerminalToString] by [getNonTerminalFromString] as its
    non-terminal; any other string gives [TK_NOT_FOUND], respectively
    [NT_NOT_FOUND].  No string at all is read as [actualOrRedefined],
    the non-terminal whose enumerator lies behind [NT_NOT_FOUND]. *)
Theorem symbol_names_read_back :
  (forall t s, In (t, s) tokenToString -> getTokenFromString s = t)
  /\ (forall n s, In (n, s) nonTerminalToString ->
                  getNonTerminalFromString s = n)
  /\ (forall s, (forall t, ~ In (t, s) tokenToString) ->
                getTokenFromString s = TK_NOT_FOUND)
  /\ (forall s, (forall n, ~ In (n, s) nonTerminalToString) ->
                getNonTerminalFromString s = NT_NOT_FOUND)
  /\ (forall s, getNonTerminalFromString s <> actualOrRedefined).
Proof.
  split; [| split; [| split; [| split]]].
  - intros t s H. unfold tokenToString in H.
    repeat (destruct H as [H | H];
            [injection H as <- <-; vm_compute; reflexivity |]).
    destruct H.
  - intros n s H. unfold nonTerminalToString in H.
    repeat (destruct H as [H | H];
            [injection H as <- <-; vm_compute; reflexivity |]).
    destruct H.
  - intros s Habs. unfold getTokenFromString.
    destruct (getTokenFromString_from_spec tokenToString s) as [[H _] | H];
      [exact H | destruct (Habs _ H)].
  - intros s Habs. unfold getNonTerminalFromString.
    destruct (getNonTerminalFromString_from_spec nonTerminalToString s)
      as [[H _] | H]; [exact H | destruct (Habs _ H)].
  - intros s Heq. unfold getNonTerminalFromString in Heq.
    destruct (getNonTerminalFromString_from_spec nonTerminalToString s)
      as [[H _] | H]; [congruence |].
    unfold getNonTerminalFromString in H. rewrite Heq in H.
    unfold nonTerminalToString in H.
    repeat (destruct H as [H | H]; [discriminate |]).
    destruct H.
Qed.

Section GrammarArray.

Lemma read_rules_overrun (lines : list string) :
  forall acc : list GrammarRule,
  (List.length acc <= 100)%nat ->
  (100 < List.length acc + List.length lines)%nat ->
  read_rules lines acc = None.
Proof.
  induction lines as [|line lines IH]; intros acc Hacc H; cbn [read_rules].
  - cbn in H. lia.
  - destruct (read_rule line) as [gRule |]; [| reflexivity].
    destruct (Z.of_nat (List.length acc) <? MAX_GRAMMAR_RULES) eqn:E;
      [| reflexivity].
    apply Z.ltb_lt in E. unfold MAX_GRAMMAR_RULES in E.
    apply IH; rewrite length_app; cbn in *; lia.
Qed.

End GrammarArray.

(** X10. [readGrammar] does not check [numOfRules] against the size of
    [Grammar]: on a grammar file that brings the number of rules above
    100 the function leaves the array (or, at a blank line, passes NULL
    to [strcmp]) before it can return. *)
Theorem grammar_array_overrun :
  forall (lines : list string) (g : Globals) (out : list Message),
    g_grammarLoaded g = false ->
    (List.length (g_Grammar g) <= 100)%nat ->
    (100 < List.length (g_Grammar g) + List.length lines)%nat ->
    readGrammar (Some lines) g out = Undef.
Proof.
  intros lines g out Hload Hlen Hover. unfold readGrammar. rewrite Hload.
  cbn [g_Grammar]. rewrite read_rules_overrun by assumption. reflexivity.
Qed.

Lemma grammar_array_overrun_witness :
  readGrammar (Some (repeat "<program> MAIN END"%string 101))
              initial_globals [] = Undef.
Proof.
  apply (grammar_array_overrun (repeat "<program> MAIN END"%string 101)
           initial_globals []).
  - reflexivity.
  - cbn. lia.
  - rewrite repeat_length. cbn. lia.
Defined.

(* ================================================================== *)
(** * Line numbers *)
(* ================================================================== *)

Section LineNumbers.

Variable keywordTrie : TrieNode.

Lemma fetchNextChar_lineNumber (st : LexerState) :
  lineNumber (snd (fetchNextChar st)) = lineNumber st.
Proof. apply fetchNextChar_frame. Qed.

Lemma retract_lineNumber (st : LexerState) :
  lineNumber (retract st) = lineNumber st.
Proof.
  unfold retract. cbv zeta.
  match goal with |- context [if ?c then _ else _] => destruct c end;
    reflexivity.
Qed.

Lemma retract2_lineNumber (st : LexerState) :
  lineNumber (retract2 st) = lineNumber st.
Proof.
  unfold retract2. cbv zeta.
  match goal with |- context [if ?c then _ else _] => destruct c end;
    reflexivity.
Qed.

Lemma lookup_or_add_lines (lex : string) (tk : Token) (val : Q)
  (st : LexerState) :
  lineNum (fst (lookup_or_add lex tk val st)) = lineNumber st
  /\ lineNumber (snd (lookup_or_add lex tk val st)) = lineNumber st.
Proof.
  unfold lookup_or_add.
  destruct (lookupToken (symTable st) lex); split; reflexivity.
Qed.

Lemma skip_while_lineNumber (p : ascii -> bool) (fuel : nat) :
  forall (ch ch' : ascii) (st st' : LexerState),
  skip_while p fuel ch st = Some (ch', st') -> lineNumber st' = lineNumber st.
Proof.
  induction fuel as [|fuel IH]; intros ch ch' st st'; cbn [skip_while];
    [discriminate |].
  destruct (p ch).
  - pose proof (fetchNextChar_lineNumber st) as E.
    destruct (fetchNextChar st) as [c1 st1]. cbn [snd] in E.
    intro H. rewrite (IH _ _ _ _ H). exact E.
  - intro H. injection H as _ <-. reflexivity.
Qed.

Lemma skip_line_lineNumber (fuel : nat) :
  forall st st' : LexerState,
  skip_line fuel st = Some st' -> lineNumber st' = lineNumber st.
Proof.
  induction fuel as [|fuel IH]; intros st st'; cbn [skip_line];
    [discriminate |].
  pose proof (fetchNextChar_lineNumber st) as E.
  destruct (fetchNextChar st) as [c1 st1]. cbn [snd] in E.
  destruct (char_eqb c1 NL).
  - intro H. injection H as <-. exact E.
  - intro H. rewrite (IH _ _ H). exact E.
Qed.

Lemma lines_goto (l0 state beginPtr : Z) (st : LexerState) :
  l0 <= lineNumber st -> step_lines l0 (Goto state beginPtr st).
Proof. intro H. exact H. Qed.

Lemma accept_lines (l0 : Z) (tk : Token) (val : list ascii -> Q)
  (beginPtr : Z) (st : LexerState) :
  l0 <= lineNumber st -> step_lines l0 (accept tk val beginPtr st).
Proof.
  intro H. unfold accept.
  destruct (extractLexeme beginPtr st) as [l |]; [| exact I].
  destruct (lookup_or_add_lines (cstring l) tk (val l) st) as [H1 H2].
  destruct (lookup_or_add (cstring l) tk (val l) st) as [node st'].
  cbn [fst snd step_lines] in *. lia.
Qed.

Lemma accept_word_lines (l0 beginPtr : Z) (st : LexerState) :
  l0 <= lineNumber st ->
  step_lines l0 (accept_word keywordTrie beginPtr st).
Proof.
  intro H. unfold accept_word.
  destruct (extractLexeme beginPtr st) as [l |]; [| exact I].
  cbv zeta.
  match goal with
  | |- context [lookup_or_add ?a ?b ?c ?d] =>
      destruct (lookup_or_add_lines a b c d) as [H1 H2];
      destruct (lookup_or_add a b c d) as [node st']
  end.
  cbn [fst snd step_lines] in *. lia.
Qed.

Lemma id_length_exceeded_lines (l0 : Z) (fuel : nat) (beginPtr : Z)
  (st : LexerState) :
  l0 <= lineNumber st ->
  step_lines l0 (id_length_exceeded fuel beginPtr st).
Proof.
  intro H. unfold id_length_exceeded.
  destruct (extractLexeme beginPtr st) as [l |]; [| exact I].
  match goal with
  | |- context [lookup_or_add ?a ?b ?c ?d] =>
      destruct (lookup_or_add_lines a b c d) as [H1 H2];
      destruct (lookup_or_add a b c d) as [node st1]
  end.
  cbn [fst snd] in H1, H2.
  pose proof (fetchNextChar_lineNumber st1) as E2.
  destruct (fetchNextChar st1) as [ch st2]. cbn [snd] in E2.
  destruct (skip_while is_b_d fuel ch st2) as [[ch' st3] |] eqn:E3;
    [| exact I].
  apply skip_while_lineNumber in E3. cbv zeta.
  assert (E : lineNumber (retract st3) = lineNumber st)
    by (rewrite retract_lineNumber; congruence).
  destruct (is_2_7 ch'); cbn [step_lines]; rewrite E; lia.
Qed.

Lemma fun_length_exceeded_lines (l0 : Z) (resume : bool) (fuel : nat)
  (beginPtr : Z) (st : LexerState) :
  l0 <= lineNumber st ->
  step_lines l0 (fun_length_exceeded resume fuel beginPtr st).
Proof.
  intro H. unfold fun_length_exceeded.
  destruct (extractLexeme beginPtr st) as [l |]; [| exact I].
  match goal with
  | |- context [lookup_or_add ?a ?b ?c ?d] =>
      destruct (lookup_or_add_lines a b c d) as [H1 H2];
      destruct (lookup_or_add a b c d) as [node st1]
  end.
  cbn [fst snd] in H1, H2.
  pose proof (fetchNextChar_lineNumber st1) as E2.
  destruct (fetchNextChar st1) as [ch st2]. cbn [snd] in E2.
  destruct (skip_while isdigit fuel ch st2) as [[ch' st3] |] eqn:E3;
    [| exact I].
  apply skip_while_lineNumber in E3. cbv zeta.
  assert (E : lineNumber (retract st3) = lineNumber st)
    by (rewrite retract_lineNumber; congruence).
  destruct (resume && isdigit ch'); cbn [step_lines]; rewrite E; lia.
Qed.

Lemma case_65_lines (l0 : Z) (fuel : nat) (beginPtr : Z) (st : LexerState) :
  l0 <= lineNumber st -> step_lines l0 (case_65 fuel beginPtr st).
Proof.
  intro H. unfold case_65.
  destruct (extractLexeme beginPtr st) as [l |]; [| exact I].
  match goal with
  | |- context [lookup_or_add ?a ?b ?c ?d] =>
      destruct (lookup_or_add_lines a b c d) as [H1 H2];
      destruct (lookup_or_add a b c d) as [node st1]
  end.
  cbn [fst snd] in H1, H2.
  destruct (skip_line fuel st1) as [st2 |] eqn:E2; [| exact I].
  apply skip_line_lineNumber in E2.
  cbn [step_lines set_lineNumber lineNumber]. lia.
Qed.

Lemma case_0_lines (l0 beginPtr : Z) (st : LexerState) :
  l0 <= lineNumber st -> step_lines l0 (case_0 beginPtr st).
Proof.
  intro H. unfold case_0.
  pose proof (fetchNextChar_lineNumber st) as E.
  destruct (fetchNextChar st) as [ch st1]. cbn [snd] in E.
  rewrite <- E in H.
  repeat match goal with
         | |- step_lines _ (if ?c then _ else _) => destruct c
         end;
    try (apply lines_goto; cbn [set_lineNumber lineNumber]; lia).
  - cbn [step_lines lineNum newTokenNode]. lia.
  - match goal with
    | |- context [lookup_or_add ?a ?b ?c ?d] =>
        destruct (lookup_or_add_lines a b c d) as [H1 H2];
        destruct (lookup_or_add a b c d) as [node st']
    end.
    cbn [fst snd step_lines] in *. lia.
Qed.

Ltac one_character_lines st :=
  let E := fresh "E" in
  let ch := fresh "ch" in
  let st1 := fresh "st" in
  let H := fresh "H" in
  intro H;
  pose proof (fetchNextChar_lineNumber st) as E;
  destruct (fetchNextChar st) as [ch st1]; cbn [snd] in E;
  rewrite <- E in H;
  repeat match goal with
         | |- step_lines _ (if ?c then _ else _) => destruct c
         end;
  first [ apply lines_goto; assumption
        | apply accept_lines;
          rewrite ?retract_lineNumber, ?retract2_lineNumber; assumption
        | apply accept_word_lines; rewrite ?retract_lineNumber; assumption
        | apply id_length_exceeded_lines; assumption
        | apply fun_length_exceeded_lines; assumption ].

Lemma dfa_step_lines (fuel : nat) (state beginPtr : Z) (st : LexerState) :
  step_lines (lineNumber st) (dfa_step keywordTrie fuel state beginPtr st).
Proof.
  assert (H : lineNumber st <= lineNumber st) by lia. revert H.
  generalize (lineNumber st) at 1 3 as l0. intros l0.
  unfold dfa_step, case_7.
  repeat match goal with
         | |- _ -> step_lines _ (match ?x with _ => _ end) =>
             is_var x; destruct x
         end;
    try (intro H;
         first [ exact H
               | apply accept_lines; assumption
               | apply case_0_lines; assumption
               | apply case_65_lines; assumption ]);
    unfold one_or_accept, digit_or_error, main_prefix, case_3, case_4,
      case_5, case_6, case_8, case_9, case_19, case_53, case_60, case_62,
      case_66, case_69, case_75, case_79, case_80, case_81;
    one_character_lines st.
Qed.

Lemma dfa_loop_lines (fuel : nat) :
  forall (state beginPtr : Z) (st st' : LexerState)
         (tokenNode : option TokenNode),
  dfa_loop keywordTrie fuel state beginPtr st = Ok (tokenNode, st') ->
  lineNumber st <= lineNumber st'
  /\ match tokenNode with
     | Some node => lineNumber st <= lineNum node <= lineNumber st'
     | None => True
     end.
Proof.
  induction fuel as [|fuel IH]; intros state beginPtr st st' tokenNode;
    cbn [dfa_loop]; [discriminate |].
  pose proof (dfa_step_lines fuel state beginPtr st) as H.
  destruct (dfa_step keywordTrie fuel state beginPtr st)
    as [s1 b1 st1 | [node |] st1 | |]; cbn [step_lines] in H;
    try discriminate.
  - intro Hrun. destruct (IH _ _ _ _ _ Hrun) as [H1 H2].
    split; [lia |]. destruct tokenNode; [lia | exact I].
  - intro Hrun. injection Hrun as <- <-. split; lia.
  - intro Hrun. injection Hrun as <- <-. split; [lia | exact I].
Qed.

Lemma getAllTokens_loop_lines (fuel : nat) :
  forall (st st' : LexerState) (tokenList tokens : TokenList),
  (forall tok, In tok tokenList -> lineNum tok <= lineNumber st) ->
  getAllTokens_loop keywordTrie fuel st tokenList = Ok (tokens, st') ->
  exists more,
    tokens = tokenList ++ more
    /\ (forall tok, In tok more -> lineNumber st <= lineNum tok)
    /\ (forall pre a mid b post,
          more = pre ++ a :: mid ++ b :: post -> lineNum a <= lineNum b).
Proof.
  induction fuel as [|fuel IH]; intros st st' tokenList tokens Hall;
    cbn [getAllTokens_loop]; [discriminate |].
  unfold getNextToken.
  destruct (dfa_loop keywordTrie fuel 0 _ st) as [[[node |] st1] | |] eqn:E;
    try discriminate.
  - destruct (dfa_loop_lines _ _ _ _ _ _ E) as [Hl Hn].
    destruct (Token_eqb (tokenType (entry node)) DOLLAR).
    + intro H. injection H as <- <-. exists [node].
      split; [reflexivity | split].
      * intros tok [<- | []]. lia.
      * intros pre a mid b post Hsplit.
        destruct pre as [|x [|y pre]]; try discriminate Hsplit.
        injection Hsplit as _ Hnil. destruct mid; discriminate.
    + intro H.
      destruct (IH st1 st' (appendTokenNode tokenList node) tokens)
        as (more & Hmore & Hlow & Hord); [| exact H |].
      { intros tok Hin. unfold appendTokenNode in Hin.
        apply in_app_iff in Hin. destruct Hin as [Hin | [<- | []]].
        - specialize (Hall tok Hin). lia.
        - lia. }
      exists (node :: more). split; [| split].
      * rewrite Hmore. unfold appendTokenNode. rewrite <- app_assoc.
        reflexivity.
      * intros tok [<- | Hin]; [lia |]. specialize (Hlow tok Hin). lia.
      * intros pre a mid b post Hsplit.
        destruct pre as [|x pre]; cbn [app] in Hsplit.
        -- injection Hsplit as <- Hrest.
           assert (Hb : In b more).
           { rewrite Hrest. apply in_or_app. right. left. reflexivity. }
           specialize (Hlow b Hb). lia.
        -- injection Hsplit as _ Hrest. exact (Hord _ _ _ _ _ Hrest).
  - intro H. injection H as <- <-. exists [].
    split; [rewrite app_nil_r; reflexivity | split].
    + intros tok [].
    + intros pre a mid b post Hsplit. destruct pre; discriminate.
Qed.

End LineNumbers.


(* ================================================================== *)
(** * Facts on the states that read names *)
(* ================================================================== *)

Section NameStates.

Lemma newlines_app (l l' : list ascii) :
  newlines (l ++ l') = newlines l + newlines l'.
Proof.
  induction l as [|c l IH]; cbn [app newlines]; [reflexivity |].
  rewrite IH. lia.
Qed.

(** What the entry pattern returns, in terms of the table before. *)
Lemma lookup_or_add_entered (lex : string) (tk : Token) (val : Q)
  (st : LexerState) :
  entry (fst (lookup_or_add lex tk val st))
  = entered (symTable st) lex tk val
  /\ lineNum (fst (lookup_or_add lex tk val st)) = lineNumber st
  /\ symTable (snd (lookup_or_add lex tk val st))
     = table_after (symTable st) lex tk val
  /\ lineNumber (snd (lookup_or_add lex tk val st)) = lineNumber st.
Proof.
  unfold lookup_or_add, entered, table_after.
  destruct (lookupToken (symTable st) lex); repeat split.
Qed.

Lemma getLexemeLength_at (b j : nat) :
  (b <= j)%nat ->
  getLexemeLength (Z.of_nat b) (Z.of_nat j) = Z.of_nat (j - b) + 1.
Proof.
  intro H. unfold getLexemeLength.
  destruct (Z.of_nat j >=? Z.of_nat b) eqn:E; [lia |].
  rewrite Z.geb_leb in E. apply Z.leb_gt in E. lia.
Qed.

Lemma letter_states (l : list ascii) :
  forall s : Z,
  s = 70 \/ s = 71 \/ s = 72 \/ s = 19 \/ s = 8 ->
  fold_left letter_step l s = 70 \/ fold_left letter_step l s = 71
  \/ fold_left letter_step l s = 72 \/ fold_left letter_step l s = 19
  \/ fold_left letter_step l s = 8.
Proof.
  induction l as [|c l IH]; intros s Hs; [exact Hs |].
  cbn [fold_left]. apply IH.
  destruct Hs as [-> | [-> | [-> | [-> | ->]]]]; cbn [letter_step];
    try match goal with
        | |- context [char_eqb ?x ?y] => destruct (char_eqb x y)
        end; tauto.
Qed.

Lemma first_letter_state (c : ascii) :
  letter_step 69 c = 70 \/ letter_step 69 c = 71 \/ letter_step 69 c = 72
  \/ letter_step 69 c = 19 \/ letter_step 69 c = 8.
Proof. cbn [letter_step]. destruct (char_eqb c "m"); tauto. Qed.

Lemma letter_step_8 (l : list ascii) : fold_left letter_step l 8 = 8.
Proof. induction l as [|c l IH]; [reflexivity | exact IH]. Qed.

(** After five letters the name is not [_main]. *)
Lemma long_name_state (l : list ascii) :
  (5 <= List.length l)%nat -> fold_left letter_step l 69 = 8.
Proof.
  intro H.
  destruct l as [|c1 [|c2 [|c3 [|c4 [|c5 l]]]]]; cbn [List.length] in H;
    try lia.
  cbn [fold_left letter_step].
  destruct (char_eqb c1 "m"); cbn [letter_step];
    [destruct (char_eqb c2 "a"); cbn [letter_step];
     [destruct (char_eqb c3 "i"); cbn [letter_step];
      [destruct (char_eqb c4 "n"); cbn [letter_step] | ] | ] | ];
    apply letter_step_8.
Qed.

(** The last character of a run has the property of the run. *)
Lemma last_satisfies (p : ascii -> bool) (l : list ascii) :
  forallb p l = true -> (0 < List.length l)%nat ->
  p (nth (List.length l - 1) l NUL) = true.
Proof.
  intros H Hl. rewrite forallb_forall in H. apply H. apply nth_In. lia.
Qed.

Lemma length_list_ascii_of_string (s : string) :
  List.length (list_ascii_of_string s) = String.length s.
Proof.
  induction s as [|c s IH]; [reflexivity |].
  cbn [list_ascii_of_string List.length String.length]. rewrite IH.
  reflexivity.
Qed.

End NameStates.

(* ================================================================== *)
(** * The lexer inside a small file *)
(* ================================================================== *)

Section SmallFile.

Variables file garbage : list ascii.
Hypothesis file_fits : (List.length file < 255)%nat.
Hypothesis buffer_size : List.length garbage = 512%nat.

Lemma file_fits_half : (List.length file < 256)%nat.
Proof. lia. Qed.

Lemma at_cursor_set_forwardPtr (i j : nat) (st : LexerState) :
  at_cursor file garbage i st ->
  at_cursor file garbage j (set_forwardPtr (Z.of_nat j) st).
Proof. intros (H1 & H2 & H3 & H4). repeat split; assumption. Qed.

Lemma at_cursor_set_lineNumber (i : nat) (n : Z) (st : LexerState) :
  at_cursor file garbage i st ->
  at_cursor file garbage i (set_lineNumber n st).
Proof. intros (H1 & H2 & H3 & H4). repeat split; assumption. Qed.

Lemma at_cursor_lookup_or_add (i : nat) (lex : string) (tk : Token) (val : Q)
  (st : LexerState) :
  at_cursor file garbage i st ->
  at_cursor file garbage i (snd (lookup_or_add lex tk val st)).
Proof.
  intros (H1 & H2 & H3 & H4).
  destruct (lookup_or_add_frame lex tk val st) as (E1 & E2 & E3 & _ & E5).
  cbv zeta in *. unfold at_cursor. rewrite E1, E2, E3, E5.
  repeat split; assumption.
Qed.

Lemma fetch_at_cursor (i : nat) (st : LexerState) :
  at_cursor file garbage i st -> (S i <= List.length file)%nat ->
  fetchNextChar st = (nth (S i) file NUL, set_forwardPtr (Z.of_nat (S i)) st).
Proof.
  intros (H1 & H2 & H3 & H4) Hi. unfold fetchNextChar.
  rewrite refill_at_boundary_inside
    by (rewrite H3; unfold BUFFER_SZ; lia).
  rewrite H4, H3, H2.
  assert (E : (Z.of_nat i + 1) mod (2 * BUFFER_SZ) = Z.of_nat (S i)).
  { rewrite Z.mod_small by (unfold BUFFER_SZ; lia). lia. }
  rewrite E, (loaded_get file garbage file_fits_half buffer_size) by exact Hi.
  reflexivity.
Qed.

Lemma fetch_ready (k : nat) (st : LexerState) :
  ready file garbage k st -> (k <= List.length file)%nat ->
  exists st',
    fetchNextChar st = (nth k file NUL, st')
    /\ at_cursor file garbage k st'
    /\ lineNumber st' = lineNumber st /\ symTable st' = symTable st.
Proof.
  intros [(-> & H1 & H2 & H3 & H4) | (i & -> & Hat)] Hk.
  - destruct st as [p b f l r t].
    cbn [fp buffer forwardPtr retractFlag] in *. subst p b f r.
    pose proof (first_fetch_loads file garbage file_fits_half buffer_size)
      as E.
    unfold initial_state, newSymbolTable in E.
    exists {| fp := {| unread := []; eof_flag := true |};
              buffer := loaded_buffer file garbage;
              forwardPtr := 0; lineNumber := l; retractFlag := false;
              symTable := t |}.
    split; [| repeat split].
    unfold fetchNextChar in *.
    change (refill_at_boundary
              {| fp := fopen_contents file; buffer := garbage;
                 forwardPtr := 2 * BUFFER_SZ - 1; lineNumber := l;
                 retractFlag := false; symTable := t |})
      with (refill 0 {| fp := fopen_contents file; buffer := garbage;
                        forwardPtr := 2 * BUFFER_SZ - 1; lineNumber := l;
                        retractFlag := false; symTable := t |}).
    change (refill_at_boundary
              {| fp := fopen_contents file; buffer := garbage;
                 forwardPtr := 2 * BUFFER_SZ - 1; lineNumber := 1;
                 retractFlag := false; symTable := [] |})
      with (refill 0 {| fp := fopen_contents file; buffer := garbage;
                        forwardPtr := 2 * BUFFER_SZ - 1; lineNumber := 1;
                        retractFlag := false; symTable := [] |}) in E.
    unfold refill, fopen_contents, feof, fread in *.
    cbn [fp eof_flag unread buffer] in *.
    change (Z.to_nat BUFFER_SZ) with 256%nat in *.
    rewrite firstn_all2 in * by lia. rewrite skipn_all2 in * by lia.
    assert (E1 : (Z.of_nat (List.length file) <? BUFFER_SZ) = true).
    { apply Z.ltb_lt. unfold BUFFER_SZ. lia. }
    rewrite E1 in *.
    assert (E2 : (List.length file <? 256)%nat = true).
    { apply Nat.ltb_lt. lia. }
    rewrite E2 in *.
    cbn [set_stream retractFlag forwardPtr buffer set_forwardPtr fp
         lineNumber symTable orb] in *.
    change ((2 * BUFFER_SZ - 1 + 1) mod (2 * BUFFER_SZ)) with 0 in *.
    f_equal.
    change 0 with (Z.of_nat 0).
    apply (loaded_get file garbage file_fits_half buffer_size). lia.
  - exists (set_forwardPtr (Z.of_nat (S i)) st).
    split; [apply fetch_at_cursor; assumption |].
    split; [eapply at_cursor_set_forwardPtr; exact Hat |].
    split; reflexivity.
Qed.

Lemma ready_begin (k : nat) (st : LexerState) :
  ready file garbage k st -> (k <= List.length file)%nat ->
  (forwardPtr st + 1) mod (2 * BUFFER_SZ) = Z.of_nat k.
Proof.
  intros [(-> & _ & _ & H & _) | (i & -> & (_ & _ & H & _))] Hk; rewrite H.
  - reflexivity.
  - rewrite Z.mod_small by (unfold BUFFER_SZ; lia). lia.
Qed.

Lemma retract_at_cursor (i : nat) (st : LexerState) :
  at_cursor file garbage (S i) st -> (i < 255)%nat ->
  retract st = set_forwardPtr (Z.of_nat i) st.
Proof.
  intros (H1 & H2 & H3 & H4) Hi. unfold retract. rewrite H3.
  replace (Z.of_nat (S i) - 1) with (Z.of_nat i) by lia.
  assert (E1 : (Z.of_nat i <? 0) = false) by (apply Z.ltb_ge; lia).
  assert (E2 : (Z.of_nat i =? BUFFER_SZ - 1) = false)
    by (apply Z.eqb_neq; unfold BUFFER_SZ; lia).
  assert (E3 : (Z.of_nat i =? 2 * BUFFER_SZ - 1) = false)
    by (apply Z.eqb_neq; unfold BUFFER_SZ; lia).
  cbv zeta. rewrite E1, E2, E3. reflexivity.
Qed.

Lemma retract2_at_cursor (i : nat) (st : LexerState) :
  at_cursor file garbage (S (S i)) st -> (i < 254)%nat ->
  retract2 st = set_forwardPtr (Z.of_nat i) st.
Proof.
  intros (H1 & H2 & H3 & H4) Hi. unfold retract2. rewrite H3.
  replace (Z.of_nat (S (S i)) - 2) with (Z.of_nat i) by lia.
  assert (E1 : (Z.of_nat i <? 0) = false) by (apply Z.ltb_ge; lia).
  assert (E2 : (Z.of_nat i =? BUFFER_SZ - 1) = false)
    by (apply Z.eqb_neq; unfold BUFFER_SZ; lia).
  assert (E3 : (Z.of_nat i =? 2 * BUFFER_SZ - 1) = false)
    by (apply Z.eqb_neq; unfold BUFFER_SZ; lia).
  assert (E4 : (Z.of_nat i =? BUFFER_SZ - 2) = false)
    by (apply Z.eqb_neq; unfold BUFFER_SZ; lia).
  assert (E5 : (Z.of_nat i =? 2 * BUFFER_SZ - 2) = false)
    by (apply Z.eqb_neq; unfold BUFFER_SZ; lia).
  cbv zeta. rewrite E1, E2, E3, E4, E5. reflexivity.
Qed.

Lemma nth_file_slice (b i k : nat) :
  (k < S i - b)%nat -> nth k (file_slice file b i) NUL = nth (b + k) file NUL.
Proof.
  intro Hk. unfold file_slice. rewrite nth_firstn.
  assert (E : (k <? S i - b)%nat = true) by (apply Nat.ltb_lt; exact Hk).
  rewrite E, nth_skipn. reflexivity.
Qed.

Lemma length_file_slice (b i : nat) :
  (b <= i)%nat -> (i < List.length file)%nat ->
  List.length (file_slice file b i) = (S i - b)%nat.
Proof.
  intros Hb Hi. unfold file_slice. rewrite length_firstn, length_skipn. lia.
Qed.

(** The lexeme between [beginPtr] and the cursor. *)
Lemma extract_at_cursor (b i : nat) (st : LexerState) :
  at_cursor file garbage i st -> (b <= i)%nat ->
  (i < List.length file)%nat ->
  extractLexeme (Z.of_nat b) st = Some (file_slice file b i).
Proof.
  intros (H1 & H2 & H3 & H4) Hb Hi.
  unfold extractLexeme, lexeme_slice. rewrite H3, H2.
  assert (E1 : (Z.of_nat i >=? Z.of_nat b) = true)
    by (rewrite Z.geb_leb; apply Z.leb_le; lia).
  rewrite E1.
  replace (Z.to_nat (Z.of_nat i - Z.of_nat b + 1)) with (S i - b)%nat by lia.
  assert (E : map (fun k => buf_get (loaded_buffer file garbage)
                              (Z.of_nat b + Z.of_nat k)) (seq 0 (S i - b))
              = file_slice file b i).
  { apply (nth_ext _ _ NUL NUL).
    - rewrite length_map, length_seq, length_file_slice by assumption.
      reflexivity.
    - intros k Hk. rewrite length_map, length_seq in Hk.
      rewrite (nth_indep _ NUL
                 (buf_get (loaded_buffer file garbage)
                          (Z.of_nat b + Z.of_nat 0)))
        by (rewrite length_map, length_seq; exact Hk).
      rewrite (map_nth (fun k => buf_get (loaded_buffer file garbage)
                                   (Z.of_nat b + Z.of_nat k))).
      rewrite seq_nth by exact Hk. cbn [Nat.add].
      rewrite <- Nat2Z.inj_add.
      rewrite (loaded_get file garbage file_fits_half buffer_size) by lia.
      rewrite nth_file_slice by exact Hk. reflexivity. }
  rewrite E.
  assert (E3 : (Z.of_nat (List.length (file_slice file b i)) <? BUFFER_SZ)
               = true).
  { apply Z.ltb_lt. rewrite length_file_slice by assumption.
    unfold BUFFER_SZ. lia. }
  rewrite E3. reflexivity.
Qed.


(** ** Progress of the DFA *)

Variable keywordTrie : TrieNode.

Lemma inside_file (k : nat) (ch : ascii) :
  ch = nth k file NUL -> ch <> NUL -> (k < List.length file)%nat.
Proof.
  intros E Hne. destruct (Nat.lt_ge_cases k (List.length file)) as [H | H];
    [exact H |].
  rewrite nth_overflow in E by exact H. congruence.
Qed.

(** ** The accepting branches *)

Lemma accept_ok (tk : Token) (val : list ascii -> Q) (b i i0 : nat)
  (st : LexerState) :
  at_cursor file garbage i st -> (b <= i)%nat ->
  (i < List.length file)%nat ->
  step_ok file garbage b i0 (accept tk val (Z.of_nat b) st).
Proof.
  intros Hat Hb Hi. unfold accept.
  rewrite (extract_at_cursor b i st)
    by assumption.
  pose proof (at_cursor_lookup_or_add i
                (cstring (file_slice file b i)) tk
                (val (file_slice file b i)) st Hat) as H.
  destruct (lookup_or_add (cstring (file_slice file b i)) tk
              (val (file_slice file b i)) st) as [node st'].
  exists i. split; [lia | exact H].
Qed.

Lemma accept_word_ok (b i i0 : nat) (st : LexerState) :
  at_cursor file garbage i st -> (b <= i)%nat ->
  (i < List.length file)%nat ->
  step_ok file garbage b i0 (accept_word keywordTrie (Z.of_nat b) st).
Proof.
  intros Hat Hb Hi. unfold accept_word.
  rewrite (extract_at_cursor b i st)
    by assumption.
  cbv zeta.
  match goal with
  | |- context [lookup_or_add ?a ?k ?v st] =>
      pose proof (at_cursor_lookup_or_add i a k v st Hat) as H;
      destruct (lookup_or_add a k v st) as [node st']
  end.
  exists i. split; [lia | exact H].
Qed.

Lemma retract_ok (i : nat) (st : LexerState) :
  at_cursor file garbage i st -> (i < List.length file)%nat ->
  at_cursor file garbage i
    (retract (set_forwardPtr (Z.of_nat (S i)) st)).
Proof.
  intros Hat Hi.
  rewrite (retract_at_cursor i)
    by (try lia; eapply at_cursor_set_forwardPtr; exact Hat).
  eapply at_cursor_set_forwardPtr.
  eapply at_cursor_set_forwardPtr. exact Hat.
Qed.

Lemma retract2_ok (i : nat) (st : LexerState) :
  at_cursor file garbage (S i) st -> (S i < List.length file)%nat ->
  at_cursor file garbage i
    (retract2 (set_forwardPtr (Z.of_nat (S (S i))) st)).
Proof.
  intros Hat Hi.
  rewrite (retract2_at_cursor i)
    by (try lia; eapply at_cursor_set_forwardPtr; exact Hat).
  eapply at_cursor_set_forwardPtr.
  eapply at_cursor_set_forwardPtr. exact Hat.
Qed.

(** ** The inner loops *)

Lemma skip_while_at_cursor (p : ascii -> bool) :
  p NUL = false ->
  forall (fuel q0 : nat) (st : LexerState),
  at_cursor file garbage q0 st ->
  (q0 <= List.length file)%nat ->
  (List.length file - q0 < fuel)%nat ->
  exists q st',
    (q0 <= q <= List.length file)%nat
    /\ skip_while p fuel (nth q0 file NUL) st = Some (nth q file NUL, st')
    /\ at_cursor file garbage q st'
    /\ p (nth q file NUL) = false.
Proof.
  intro Hnul. induction fuel as [|fuel IH]; intros q0 st Hat Hq Hfuel; [lia |].
  cbn [skip_while]. destruct (p (nth q0 file NUL)) eqn:E.
  - assert (Hin : (q0 < List.length file)%nat).
    { apply (inside_file q0 (nth q0 file NUL) eq_refl).
      intro Heq. rewrite Heq in E. congruence. }
    rewrite (fetch_at_cursor q0 st Hat)
      by lia.
    destruct (IH (S q0) (set_forwardPtr (Z.of_nat (S q0)) st))
      as (q & st' & Hq' & Hrun & Hat' & Hp); try lia.
    { eapply at_cursor_set_forwardPtr. exact Hat. }
    exists q, st'.
    split; [lia | split; [exact Hrun | split; assumption]].
  - exists q0, st.
    split; [lia | split; [reflexivity | split; assumption]].
Qed.

Lemma skip_line_at_cursor (d : nat) :
  forall (fuel i j : nat) (st : LexerState),
  at_cursor file garbage i st ->
  (i < j < List.length file)%nat -> nth j file NUL = NL ->
  (j - i <= S d)%nat -> (d < fuel)%nat ->
  exists j' st',
    (i < j' < List.length file)%nat
    /\ skip_line fuel st = Some st'
    /\ at_cursor file garbage j' st'.
Proof.
  induction d as [|d IH]; intros fuel i j st Hat Hj Hnl Hd Hfuel;
    (destruct fuel as [|fuel]; [lia |]); cbn [skip_line];
    rewrite (fetch_at_cursor i st Hat)
      by lia.
  - assert (Ej : j = S i) by lia. subst j. rewrite Hnl.
    assert (E : char_eqb NL NL = true) by reflexivity. rewrite E.
    exists (S i), (set_forwardPtr (Z.of_nat (S i)) st).
    split; [lia | split; [reflexivity |]].
    eapply at_cursor_set_forwardPtr. exact Hat.
  - destruct (char_eqb (nth (S i) file NUL) NL) eqn:E.
    + exists (S i), (set_forwardPtr (Z.of_nat (S i)) st).
      split; [lia | split; [reflexivity |]].
      eapply at_cursor_set_forwardPtr. exact Hat.
    + assert (Hne : S i <> j).
      { intro Heq. rewrite <- Heq in Hnl. rewrite Hnl in E. discriminate. }
      destruct (IH fuel (S i) j (set_forwardPtr (Z.of_nat (S i)) st))
        as (j' & st' & Hj' & Hrun & Hat'); try assumption; try lia.
      { eapply at_cursor_set_forwardPtr. exact Hat. }
      exists j', st'. split; [lia | split; assumption].
Qed.

(** ** The blocks for names that are too long *)

Lemma id_length_exceeded_ok (fuel b i i0 : nat) (st : LexerState) :
  at_cursor file garbage i st -> (b <= i)%nat -> (i0 < i)%nat ->
  (i < List.length file)%nat -> (List.length file < fuel)%nat ->
  step_ok file garbage b i0 (id_length_exceeded fuel (Z.of_nat b) st).
Proof.
  intros Hat Hb Hi0 Hi Hfuel. unfold id_length_exceeded.
  rewrite (extract_at_cursor b i st)
    by assumption.
  match goal with
  | |- context [lookup_or_add ?a ?k ?v st] =>
      pose proof (at_cursor_lookup_or_add i a k v st Hat) as H;
      destruct (lookup_or_add a k v st) as [node st1]
  end.
  cbn [snd] in H.
  rewrite (fetch_at_cursor i st1 H) by lia.
  destruct (skip_while_at_cursor is_b_d eq_refl fuel (S i)
              (set_forwardPtr (Z.of_nat (S i)) st1))
    as (q & st3 & Hq & Hrun & Hat3 & Hp); try lia.
  { eapply at_cursor_set_forwardPtr. exact H. }
  rewrite Hrun. destruct q as [|q]; [lia |].
  assert (Hat4 : at_cursor file garbage q (retract st3)).
  { rewrite (retract_at_cursor q) by (try lia; exact Hat3).
    eapply at_cursor_set_forwardPtr. exact Hat3. }
  cbv zeta. destruct (is_2_7 (nth (S q) file NUL)) eqn:E.
  - assert (Hin : (S q < List.length file)%nat).
    { apply (inside_file (S q) (nth (S q) file NUL) eq_refl).
      intro Heq. rewrite Heq in E. discriminate. }
    split; [reflexivity |]. exists q.
    split; [lia | split; [exact Hat4 |]]. cbn. lia.
  - exists q. split; [lia | exact Hat4].
Qed.

Lemma fun_length_exceeded_ok (resume : bool) (fuel b i i0 : nat)
  (st : LexerState) :
  at_cursor file garbage i st -> (b <= i)%nat -> (i0 < i)%nat ->
  (i < List.length file)%nat -> (List.length file < fuel)%nat ->
  step_ok file garbage b i0
    (fun_length_exceeded resume fuel (Z.of_nat b) st).
Proof.
  intros Hat Hb Hi0 Hi Hfuel. unfold fun_length_exceeded.
  rewrite (extract_at_cursor b i st)
    by assumption.
  match goal with
  | |- context [lookup_or_add ?a ?k ?v st] =>
      pose proof (at_cursor_lookup_or_add i a k v st Hat) as H;
      destruct (lookup_or_add a k v st) as [node st1]
  end.
  cbn [snd] in H.
  rewrite (fetch_at_cursor i st1 H) by lia.
  destruct (skip_while_at_cursor isdigit eq_refl fuel (S i)
              (set_forwardPtr (Z.of_nat (S i)) st1))
    as (q & st3 & Hq & Hrun & Hat3 & Hp); try lia.
  { eapply at_cursor_set_forwardPtr. exact H. }
  rewrite Hrun. destruct q as [|q]; [lia |].
  assert (Hat4 : at_cursor file garbage q (retract st3)).
  { rewrite (retract_at_cursor q) by (try lia; exact Hat3).
    eapply at_cursor_set_forwardPtr. exact Hat3. }
  cbv zeta. rewrite Hp, andb_false_r.
  exists q. split; [lia | exact Hat4].
Qed.

Lemma case_65_ok (fuel b i i0 : nat) (st : LexerState) :
  at_cursor file garbage i st -> state_inv file 65 b i ->
  (i < List.length file)%nat -> (List.length file < fuel)%nat ->
  step_ok file garbage b i0 (case_65 fuel (Z.of_nat b) st).
Proof.
  intros Hat [Hb (j & Hj & Hnl)] Hi Hfuel. unfold case_65.
  rewrite (extract_at_cursor b i st)
    by assumption.
  match goal with
  | |- context [lookup_or_add ?a ?k ?v st] =>
      pose proof (at_cursor_lookup_or_add i a k v st Hat) as H;
      destruct (lookup_or_add a k v st) as [node st1]
  end.
  cbn [snd] in H.
  destruct (skip_line_at_cursor (j - i) fuel i j st1 H Hj Hnl)
    as (j' & st2 & Hj' & Hrun & Hat2); try lia.
  rewrite Hrun. exists j'. split; [lia |].
  apply at_cursor_set_lineNumber. exact Hat2.
Qed.


(** ** One pass through the [switch] *)

Lemma goto_ok (state' : Z) (b i : nat) (st : LexerState) (ch : ascii) :
  at_cursor file garbage i st ->
  ch = nth (S i) file NUL -> ch <> NUL ->
  state_inv file state' b (S i) ->
  step_ok file garbage b i
    (Goto state' (Z.of_nat b) (set_forwardPtr (Z.of_nat (S i)) st)).
Proof.
  intros Hat Ech Hne Hinv. split; [reflexivity |]. exists (S i).
  pose proof (inside_file (S i) ch Ech Hne).
  split; [lia | split; [| exact Hinv]].
  eapply at_cursor_set_forwardPtr. exact Hat.
Qed.

Ltac nul_contra ch :=
  let Heq := fresh "Heq" in
  intro Heq;
  match goal with
  | H : context [ch] |- _ =>
      rewrite Heq in H; vm_compute in H; discriminate H
  end.

Ltac read_one i st Hat :=
  rewrite (fetch_at_cursor i st Hat) by lia;
  let ch := fresh "ch" in
  let Ech := fresh "Ech" in
  remember (nth (S i) file NUL) as ch eqn:Ech;
  repeat match goal with
         | |- context [if ?c then _ else _] => destruct c eqn:?
         end;
  first
    [ apply (goto_ok _ _ _ _ ch);
      [exact Hat | exact Ech | nul_contra ch | cbn; lia]
    | apply (accept_ok _ _ _ i); [apply retract_ok; assumption | lia | lia]
    | apply (accept_word_ok _ i); [apply retract_ok; assumption | lia | lia]
    | apply (id_length_exceeded_ok _ _ (S i));
      [ eapply at_cursor_set_forwardPtr; exact Hat | lia | lia
      | apply (inside_file (S i) ch Ech); nul_contra ch | assumption ]
    | apply (fun_length_exceeded_ok _ _ _ (S i));
      [ eapply at_cursor_set_forwardPtr; exact Hat | lia | lia
      | apply (inside_file (S i) ch Ech); nul_contra ch | assumption ] ].

Lemma one_or_accept_ok (c : ascii) (next : Z) (tk : Token) (b i : nat)
  (st : LexerState) :
  c <> NUL -> state_inv file next b (S i) ->
  at_cursor file garbage i st -> (b <= i)%nat ->
  (i < List.length file)%nat ->
  step_ok file garbage b i (one_or_accept c next tk (Z.of_nat b) st).
Proof.
  intros Hc Hnext Hat Hb Hi. unfold one_or_accept.
  rewrite (fetch_at_cursor i st Hat) by lia.
  destruct (char_eqb (nth (S i) file NUL) c) eqn:E.
  - apply char_eqb_eq in E.
    apply (goto_ok _ _ _ _ c); [exact Hat | congruence | exact Hc | exact Hnext].
  - apply (accept_ok _ _ _ i); [apply retract_ok; assumption | lia | lia].
Qed.

Lemma digit_or_error_ok (next : Z) (b i : nat) (st : LexerState) :
  state_inv file next b (S i) ->
  at_cursor file garbage i st -> (b <= i)%nat ->
  (i < List.length file)%nat ->
  step_ok file garbage b i (digit_or_error next (Z.of_nat b) st).
Proof.
  intros Hnext Hat Hb Hi. unfold digit_or_error.
  rewrite (fetch_at_cursor i st Hat) by lia.
  remember (nth (S i) file NUL) as ch eqn:Ech.
  destruct (isdigit ch) eqn:E.
  - apply (goto_ok _ _ _ _ ch);
      [exact Hat | exact Ech | nul_contra ch | exact Hnext].
  - apply (accept_ok _ _ _ i); [apply retract_ok; assumption | lia | lia].
Qed.

Lemma main_prefix_ok (c : ascii) (next : Z) (b i : nat) (st : LexerState) :
  c <> NUL -> state_inv file next b (S i) ->
  at_cursor file garbage i st -> (b <= i)%nat ->
  (i < List.length file)%nat ->
  step_ok file garbage b i (main_prefix c next (Z.of_nat b) st).
Proof.
  intros Hc Hnext Hat Hb Hi. unfold main_prefix.
  rewrite (fetch_at_cursor i st Hat) by lia.
  remember (nth (S i) file NUL) as ch eqn:Ech.
  destruct (isdigit ch) eqn:E1.
  - apply (goto_ok _ _ _ _ ch);
      [exact Hat | exact Ech | nul_contra ch | cbn; lia].
  - destruct (char_eqb ch c) eqn:E2.
    + apply char_eqb_eq in E2.
      apply (goto_ok _ _ _ _ ch);
        [exact Hat | exact Ech | congruence | exact Hnext].
    + destruct (isalpha ch) eqn:E3.
      * apply (goto_ok _ _ _ _ ch);
          [exact Hat | exact Ech | nul_contra ch | cbn; lia].
      * apply (accept_ok _ _ _ i);
          [apply retract_ok; assumption | lia | lia].
Qed.

Lemma case_3_ok (b i : nat) (st : LexerState) :
  at_cursor file garbage i st -> (b <= i)%nat ->
  (i < List.length file)%nat ->
  step_ok file garbage b i (case_3 keywordTrie (Z.of_nat b) st).
Proof. intros Hat Hb Hi. unfold case_3. read_one i st Hat. Qed.

Lemma case_4_ok (fuel b i : nat) (st : LexerState) :
  at_cursor file garbage i st -> (b <= i)%nat ->
  (i < List.length file)%nat -> (List.length file < fuel)%nat ->
  step_ok file garbage b i (case_4 fuel (Z.of_nat b) st).
Proof. intros Hat Hb Hi Hfuel. unfold case_4. read_one i st Hat. Qed.

Lemma case_5_ok (b i : nat) (st : LexerState) :
  at_cursor file garbage i st -> (b <= i)%nat ->
  (i < List.length file)%nat ->
  step_ok file garbage b i (case_5 (Z.of_nat b) st).
Proof. intros Hat Hb Hi. unfold case_5. read_one i st Hat. Qed.

Lemma case_6_ok (b i : nat) (st : LexerState) :
  at_cursor file garbage i st -> (b <= i)%nat ->
  (i < List.length file)%nat ->
  step_ok file garbage b i (case_6 (Z.of_nat b) st).
Proof. intros Hat Hb Hi. unfold case_6. read_one i st Hat. Qed.

Lemma case_8_ok (fuel b i : nat) (st : LexerState) :
  at_cursor file garbage i st -> (b <= i)%nat ->
  (i < List.length file)%nat -> (List.length file < fuel)%nat ->
  step_ok file garbage b i (case_8 fuel (Z.of_nat b) st).
Proof. intros Hat Hb Hi Hfuel. unfold case_8. read_one i st Hat. Qed.

Lemma case_9_ok (b i : nat) (st : LexerState) :
  at_cursor file garbage i st -> (b <= i)%nat ->
  (i < List.length file)%nat ->
  step_ok file garbage b i (case_9 (Z.of_nat b) st).
Proof. intros Hat Hb Hi. unfold case_9. read_one i st Hat. Qed.

Lemma case_19_ok (b i : nat) (st : LexerState) :
  at_cursor file garbage i st -> (b <= i)%nat ->
  (i < List.length file)%nat ->
  step_ok file garbage b i (case_19 (Z.of_nat b) st).
Proof. intros Hat Hb Hi. unfold case_19. read_one i st Hat. Qed.

Lemma case_53_ok (b i : nat) (st : LexerState) :
  at_cursor file garbage i st -> (b <= i)%nat ->
  (i < List.length file)%nat ->
  step_ok file garbage b i (case_53 (Z.of_nat b) st).
Proof. intros Hat Hb Hi. unfold case_53. read_one i st Hat. Qed.

Lemma case_62_ok (b i : nat) (st : LexerState) :
  at_cursor file garbage i st -> (b <= i)%nat ->
  (i < List.length file)%nat ->
  step_ok file garbage b i (case_62 (Z.of_nat b) st).
Proof. intros Hat Hb Hi. unfold case_62. read_one i st Hat. Qed.

Lemma case_69_ok (b i : nat) (st : LexerState) :
  at_cursor file garbage i st -> (b <= i)%nat ->
  (i < List.length file)%nat ->
  step_ok file garbage b i (case_69 (Z.of_nat b) st).
Proof. intros Hat Hb Hi. unfold case_69. read_one i st Hat. Qed.

Lemma case_75_ok (b i : nat) (st : LexerState) :
  at_cursor file garbage i st -> (b <= i)%nat ->
  (i < List.length file)%nat ->
  step_ok file garbage b i (case_75 (Z.of_nat b) st).
Proof. intros Hat Hb Hi. unfold case_75. read_one i st Hat. Qed.

Lemma case_79_ok (b i : nat) (st : LexerState) :
  at_cursor file garbage i st -> (b <= i)%nat ->
  (i < List.length file)%nat ->
  step_ok file garbage b i (case_79 keywordTrie (Z.of_nat b) st).
Proof. intros Hat Hb Hi. unfold case_79. read_one i st Hat. Qed.

Lemma case_80_ok (fuel b i : nat) (st : LexerState) :
  at_cursor file garbage i st -> (b <= i)%nat ->
  (i < List.length file)%nat -> (List.length file < fuel)%nat ->
  step_ok file garbage b i (case_80 fuel (Z.of_nat b) st).
Proof. intros Hat Hb Hi Hfuel. unfold case_80. read_one i st Hat. Qed.

Lemma case_81_ok (fuel b i : nat) (st : LexerState) :
  at_cursor file garbage i st -> (b <= i)%nat ->
  (i < List.length file)%nat -> (List.length file < fuel)%nat ->
  step_ok file garbage b i (case_81 fuel (Z.of_nat b) st).
Proof. intros Hat Hb Hi Hfuel. unfold case_81. read_one i st Hat. Qed.


Lemma case_60_ok (b i : nat) (st : LexerState) :
  at_cursor file garbage i st -> (S b <= i)%nat ->
  (i < List.length file)%nat ->
  step_ok file garbage b i (case_60 (Z.of_nat b) st).
Proof.
  intros Hat Hb Hi. unfold case_60.
  rewrite (fetch_at_cursor i st Hat) by lia.
  remember (nth (S i) file NUL) as ch eqn:Ech.
  destruct (isdigit ch) eqn:E.
  - apply (goto_ok _ _ _ _ ch);
      [exact Hat | exact Ech | nul_contra ch | cbn; lia].
  - destruct i as [|i]; [lia |].
    apply (accept_ok _ _ _ i); [apply retract2_ok; assumption | lia | lia].
Qed.

Lemma case_66_ok (b i : nat) (st : LexerState) :
  at_cursor file garbage i st -> (S b <= i)%nat ->
  (i < List.length file)%nat ->
  step_ok file garbage b i (case_66 (Z.of_nat b) st).
Proof.
  intros Hat Hb Hi. unfold case_66.
  rewrite (fetch_at_cursor i st Hat) by lia.
  remember (nth (S i) file NUL) as ch eqn:Ech.
  destruct (char_eqb ch "-") eqn:E.
  - apply (goto_ok _ _ _ _ ch);
      [exact Hat | exact Ech | nul_contra ch | cbn; lia].
  - destruct i as [|i]; [lia |].
    apply (accept_ok _ _ _ i); [apply retract2_ok; assumption | lia | lia].
Qed.

(** Every state but 0. *)
Lemma dfa_step_ok (fuel : nat) (state : Z) (b i : nat) (st : LexerState) :
  at_cursor file garbage i st -> state_inv file state b i ->
  (i < List.length file)%nat -> (List.length file < fuel)%nat ->
  step_ok file garbage b i (dfa_step keywordTrie fuel state (Z.of_nat b) st).
Proof.
  intros Hat Hinv Hi Hfuel. unfold dfa_step, state_inv, case_7 in *.
  repeat match goal with
         | |- step_ok _ _ _ _ (match ?x with _ => _ end) =>
             is_var x; destruct x
         end;
    try contradiction;
    first [ apply (accept_ok _ _ _ i); assumption
          | apply case_3_ok; assumption
          | apply case_4_ok; assumption
          | apply case_5_ok; assumption
          | apply case_6_ok; assumption
          | apply case_8_ok; assumption
          | apply case_9_ok; assumption
          | apply case_19_ok; assumption
          | apply case_53_ok; assumption
          | apply case_60_ok; assumption
          | apply case_62_ok; assumption
          | apply (case_65_ok fuel b i i);
            [assumption | exact Hinv | assumption | assumption]
          | apply case_66_ok; assumption
          | apply case_69_ok; assumption
          | apply case_75_ok; assumption
          | apply case_79_ok; assumption
          | apply case_80_ok; assumption
          | apply case_81_ok; assumption
          | apply one_or_accept_ok;
            [discriminate | cbn; lia | assumption | assumption | assumption]
          | apply digit_or_error_ok;
            [cbn; lia | assumption | assumption | assumption]
          | apply main_prefix_ok;
            [discriminate | cbn; lia | assumption | assumption | assumption] ].
Qed.


(** State 0. *)
Lemma case_0_start (k : nat) (st : LexerState) :
  every_comment_ends file ->
  ready file garbage k st -> (k <= List.length file)%nat ->
  start_ok file garbage k (case_0 (Z.of_nat k) st).
Proof.
  intros Hcc Hready Hk.
  destruct (fetch_ready k st Hready Hk) as (st' & Hf & Hat & _ & _).
  unfold case_0. rewrite Hf. clear Hf.
  remember (nth k file NUL) as ch eqn:Ech.
  assert (Hpercent : char_eqb ch "%" = true ->
                     exists j, (k < j < List.length file)%nat
                               /\ nth j file NUL = NL).
  { intro E. apply char_eqb_eq in E. apply Hcc. congruence. }
  assert (Hnext : (Z.of_nat k + 1) mod (2 * BUFFER_SZ) = Z.of_nat (S k)).
  { rewrite Z.mod_small by (unfold BUFFER_SZ; lia). lia. }
  repeat match goal with
         | |- context [if ?c then _ else _] => destruct c eqn:?
         end;
    first
      [ (* white space *)
        split; [apply (inside_file k ch Ech); nul_contra ch |];
        split; [try apply at_cursor_set_lineNumber; exact Hat |];
        left; split; [reflexivity | exact Hnext]
      | (* the first character of a token *)
        split; [apply (inside_file k ch Ech); nul_contra ch |];
        split; [exact Hat |];
        right; split; [reflexivity |];
        first [ cbn; lia | split; [lia | apply Hpercent; reflexivity] ]
      | (* the end of the input *)
        left; reflexivity
      | (* an unknown character *)
        idtac ].
  match goal with
  | |- context [lookup_or_add ?a ?k0 ?v st'] =>
      pose proof (at_cursor_lookup_or_add k a k0 v st' Hat) as H;
      destruct (lookup_or_add a k0 v st') as [node st'']
  end.
  right. split; [| exact H].
  apply (inside_file k ch Ech). nul_contra ch.
Qed.

(** ** One token *)

Lemma dfa_loop_returns (m : nat) :
  forall (fuel : nat) (state : Z) (b i : nat) (st : LexerState),
  at_cursor file garbage i st -> state_inv file state b i ->
  (i < List.length file)%nat ->
  (List.length file - i <= m)%nat ->
  (m + List.length file + 2 <= fuel)%nat ->
  exists node st' j,
    dfa_loop keywordTrie fuel state (Z.of_nat b) st = Ok (Some node, st')
    /\ (b <= j < List.length file)%nat
    /\ at_cursor file garbage j st'.
Proof.
  induction m as [|m IH]; intros fuel state b i st Hat Hinv Hi Hm Hfuel;
    [lia |].
  destruct fuel as [|fuel]; [lia |]. cbn [dfa_loop].
  pose proof (dfa_step_ok fuel state b i st Hat Hinv Hi) as Hstep.
  destruct (dfa_step keywordTrie fuel state (Z.of_nat b) st)
    as [s1 b1 st1 | [node |] st1 | |]; cbn [step_ok] in Hstep;
    try (exfalso; apply Hstep; lia).
  - destruct Hstep as [-> (j & Hj & Hat1 & Hinv1)]; [lia |].
    apply (IH fuel s1 b j st1); try assumption; lia.
  - destruct Hstep as (j & Hj & Hat1); [lia |].
    exists node, st1, j. split; [reflexivity | split; assumption].
Qed.

(** From state 0: a token that ends inside the file, or the
    end-of-input token. *)
Lemma token_returns (m : nat) :
  every_comment_ends file ->
  forall (fuel k : nat) (st : LexerState),
  ready file garbage k st -> (k <= List.length file)%nat ->
  (List.length file - k <= m)%nat ->
  (m + List.length file + 4 <= fuel)%nat ->
  exists node st',
    dfa_loop keywordTrie fuel 0 (Z.of_nat k) st = Ok (Some node, st')
    /\ (tokenType (entry node) = DOLLAR
        \/ exists j, (k <= j < List.length file)%nat
                     /\ at_cursor file garbage j st').
Proof.
  intro Hcc. induction m as [|m IH]; intros fuel k st Hready Hk Hm Hfuel;
    (destruct fuel as [|fuel]; [lia |]); cbn [dfa_loop];
    change (dfa_step keywordTrie fuel 0 (Z.of_nat k) st)
      with (case_0 (Z.of_nat k) st);
    pose proof (case_0_start k st Hcc Hready Hk) as Hstep;
    destruct (case_0 (Z.of_nat k) st)
      as [s1 b1 st1 | [node |] st1 | |]; cbn [start_ok] in Hstep;
    try contradiction.
  - destruct Hstep as (Hin & _). lia.
  - destruct Hstep as [H | (Hin & Hat)]; [| lia].
    exists node, st1. split; [reflexivity | left; exact H].
  - destruct Hstep as (Hin & Hat & [[-> ->] | [-> Hinv]]).
    + destruct (IH fuel (S k) st1) as (node & st' & Hrun & Hres);
        try lia.
      { right. exists k. split; [reflexivity | exact Hat]. }
      exists node, st'. split; [exact Hrun |].
      destruct Hres as [H | (j & Hj & Hat')]; [left; exact H |].
      right. exists j. split; [lia | exact Hat'].
    + destruct (dfa_loop_returns (S m) fuel s1 k k st1 Hat Hinv Hin)
        as (node & st' & j & Hrun & Hj & Hat'); try lia.
      exists node, st'. split; [exact Hrun |].
      right. exists j. split; assumption.
  - destruct Hstep as [H | (Hin & Hat)].
    + exists node, st1. split; [reflexivity | left; exact H].
    + exists node, st1. split; [reflexivity |].
      right. exists k. split; [lia | exact Hat].
Qed.

(** ** All the tokens *)

Lemma all_tokens_return (m : nat) :
  every_comment_ends file ->
  forall (fuel k : nat) (st : LexerState) (tokenList : TokenList),
  ready file garbage k st -> (k <= List.length file)%nat ->
  (List.length file - k <= m)%nat ->
  (m + 2 * List.length file + 6 <= fuel)%nat ->
  exists body last st',
    getAllTokens_loop keywordTrie fuel st tokenList
    = Ok (tokenList ++ body ++ [last], st')
    /\ tokenType (entry last) = DOLLAR
    /\ Forall (fun tok => tokenType (entry tok) <> DOLLAR) body.
Proof.
  intro Hcc.
  induction m as [|m IH]; intros fuel k st tokenList Hready Hk Hm Hfuel;
    (destruct fuel as [|fuel]; [lia |]); cbn [getAllTokens_loop];
    unfold getNextToken; rewrite (ready_begin k st Hready Hk);
    destruct (token_returns (List.length file) Hcc fuel k st Hready Hk)
      as (node & st' & Hrun & Hres); try lia;
    rewrite Hrun;
    destruct (Token_eqb (tokenType (entry node)) DOLLAR) eqn:E.
  - apply Token_eqb_eq in E. exists [], node, st'.
    split; [reflexivity | split; [exact E | constructor]].
  - apply Token_eqb_neq in E.
    destruct Hres as [H | (j & Hj & Hat')]; [contradiction | lia].
  - apply Token_eqb_eq in E. exists [], node, st'.
    split; [reflexivity | split; [exact E | constructor]].
  - apply Token_eqb_neq in E.
    destruct Hres as [H | (j & Hj & Hat')]; [contradiction |].
    destruct (IH fuel (S j) st' (appendTokenNode tokenList node))
      as (body & last & st'' & Hrest & Hlast & Hbody); try lia.
    { right. exists j. split; [reflexivity | exact Hat']. }
    exists (node :: body), last, st''.
    split; [| split; [exact Hlast | constructor; assumption]].
    rewrite Hrest. unfold appendTokenNode. rewrite <- app_assoc.
    reflexivity.
Qed.

(** ** Exact runs *)

(** Tests on a character, as arithmetic on its code. *)
Ltac char_codes :=
  unfold is_blank, is_b_d, is_2_7, isalpha, isupper, islower, isdigit,
    char_eqb, NL, TAB, CR, NUL in *;
  repeat match goal with
         | H : context [code (Ascii ?a ?b ?c ?d ?e ?f ?g ?h)] |- _ =>
             let v := eval vm_compute in (code (Ascii a b c d e f g h)) in
             change (code (Ascii a b c d e f g h)) with v in H
         | |- context [code (Ascii ?a ?b ?c ?d ?e ?f ?g ?h)] =>
             let v := eval vm_compute in (code (Ascii a b c d e f g h)) in
             change (code (Ascii a b c d e f g h)) with v
         end;
  repeat match goal with
         | H : negb _ = true |- _ => apply negb_true_iff in H
         | H : negb _ = false |- _ => apply negb_false_iff in H
         | H : _ && _ = true |- _ => apply andb_true_iff in H
         | H : _ && _ = false |- _ => apply andb_false_iff in H
         | H : _ || _ = true |- _ => apply orb_true_iff in H
         | H : _ || _ = false |- _ => apply orb_false_iff in H
         | H : _ /\ _ |- _ => destruct H
         | H : _ \/ _ |- _ => destruct H
         | H : (_ =? _) = true |- _ => apply Z.eqb_eq in H
         | H : (_ =? _) = false |- _ => apply Z.eqb_neq in H
         | H : (_ <=? _) = true |- _ => apply Z.leb_le in H
         | H : (_ <=? _) = false |- _ => apply Z.leb_gt in H
         | H : (_ <? _) = true |- _ => apply Z.ltb_lt in H
         | H : (_ <? _) = false |- _ => apply Z.ltb_ge in H
         | H : (_ >? _) = true |- _ => rewrite Z.gtb_ltb in H
         | H : (_ >? _) = false |- _ => rewrite Z.gtb_ltb in H
         end.

Ltac char_contra := exfalso; char_codes; lia.

Lemma at_cursor_ready (i : nat) (st : LexerState) :
  at_cursor file garbage i st -> ready file garbage (S i) st.
Proof. intro H. right. exists i. split; [reflexivity | exact H]. Qed.

(** White space in front of a token: state 0 passes over it and counts
    its newlines. *)
Lemma blanks_skipped (blanks : list ascii) :
  forall (fuel k : nat) (st : LexerState),
  ready file garbage k st ->
  (forall q, (q < List.length blanks)%nat ->
             nth (k + q) file NUL = nth q blanks NUL) ->
  forallb is_blank blanks = true ->
  exists st',
    ready file garbage (k + List.length blanks) st'
    /\ lineNumber st' = lineNumber st + newlines blanks
    /\ symTable st' = symTable st
    /\ dfa_loop keywordTrie (List.length blanks + fuel) 0 (Z.of_nat k) st
       = dfa_loop keywordTrie fuel 0
           (Z.of_nat (k + List.length blanks)) st'.
Proof.
  induction blanks as [|c blanks IH]; intros fuel k st Hready Hfile Hbl.
  - exists st. cbn [List.length newlines]. rewrite Nat.add_0_r, Z.add_0_r.
    repeat split; assumption.
  - cbn [forallb] in Hbl. apply andb_true_iff in Hbl.
    destruct Hbl as [Hc Hbl].
    assert (Ec : nth k file NUL = c).
    { rewrite <- (Nat.add_0_r k). rewrite (Hfile 0%nat); [reflexivity |].
      cbn [List.length]. lia. }
    assert (Hk : (k < List.length file)%nat).
    { apply (inside_file k c (eq_sym Ec)). intro Heq. rewrite Heq in Hc.
      discriminate Hc. }
    destruct (fetch_ready k st Hready) as (st1 & Hf & Hat & Hl & Ht);
      [lia |].
    assert (Hnext : (Z.of_nat k + 1) mod (2 * BUFFER_SZ) = Z.of_nat (S k)).
    { rewrite Z.mod_small by (unfold BUFFER_SZ; lia). lia. }
    cbn [List.length Nat.add dfa_loop].
    change (dfa_step keywordTrie (List.length blanks + fuel) 0
              (Z.of_nat k) st) with (case_0 (Z.of_nat k) st).
    unfold case_0. rewrite Hf, Ec, Hnext.
    destruct (char_eqb c NL) eqn:Enl.
    + destruct (IH fuel (S k) (set_lineNumber (lineNumber st1 + 1) st1))
        as (st' & Hready' & Hl' & Ht' & Hrun); [| | exact Hbl |].
      { apply at_cursor_ready. apply at_cursor_set_lineNumber. exact Hat. }
      { intros q Hq. replace (S k + q)%nat with (k + S q)%nat by lia.
        apply (Hfile (S q)). cbn [List.length]. lia. }
      exists st'. rewrite Hrun.
      replace (k + S (List.length blanks))%nat
        with (S k + List.length blanks)%nat by lia.
      split; [exact Hready' | split; [| split; [| reflexivity]]].
      * rewrite Hl'. cbn [set_lineNumber lineNumber newlines].
        rewrite Enl, Hl. lia.
      * rewrite Ht'. cbn [set_lineNumber symTable]. exact Ht.
    + assert (Eb : char_eqb c " " || char_eqb c TAB || char_eqb c CR = true).
      { unfold is_blank in Hc. rewrite Enl in Hc. exact Hc. }
      rewrite Eb.
      destruct (IH fuel (S k) st1)
        as (st' & Hready' & Hl' & Ht' & Hrun); [| | exact Hbl |].
      { apply at_cursor_ready. exact Hat. }
      { intros q Hq. replace (S k + q)%nat with (k + S q)%nat by lia.
        apply (Hfile (S q)). cbn [List.length]. lia. }
      exists st'. rewrite Hrun.
      replace (k + S (List.length blanks))%nat
        with (S k + List.length blanks)%nat by lia.
      split; [exact Hready' | split; [| split; [| reflexivity]]].
      * rewrite Hl'. cbn [newlines]. rewrite Enl, Hl. lia.
      * rewrite Ht'. exact Ht.
Qed.

Lemma accept_word_exact (b i : nat) (st : LexerState) :
  at_cursor file garbage i st -> (b <= i)%nat ->
  (i < List.length file)%nat ->
  accepted file garbage i (cstring (file_slice file b i))
    (let tk := findKeyword keywordTrie (cstring (file_slice file b i)) in
     if Token_eqb tk TK_NOT_FOUND then FIELDID else tk) 0%Q
    (symTable st) (lineNumber st)
    (accept_word keywordTrie (Z.of_nat b) st).
Proof.
  intros Hat Hb Hi. unfold accept_word, accepted.
  rewrite (extract_at_cursor b i st) by assumption. cbv zeta.
  match goal with
  | |- context [lookup_or_add ?a ?k ?v st] =>
      pose proof (at_cursor_lookup_or_add i a k v st Hat) as H;
      destruct (lookup_or_add_entered a k v st) as (H1 & H2 & H3 & H4);
      destruct (lookup_or_add a k v st) as [node st']
  end.
  cbn [fst snd] in *. exists node, st'.
  exact (conj eq_refl (conj H1 (conj H2 (conj H3 (conj H4 H))))).
Qed.

Lemma accept_exact (tk : Token) (val : list ascii -> Q) (b i : nat)
  (st : LexerState) :
  at_cursor file garbage i st -> (b <= i)%nat ->
  (i < List.length file)%nat ->
  accepted file garbage i (cstring (file_slice file b i)) tk
    (val (file_slice file b i))
    (symTable st) (lineNumber st) (accept tk val (Z.of_nat b) st).
Proof.
  intros Hat Hb Hi. unfold accept, accepted.
  rewrite (extract_at_cursor b i st) by assumption.
  match goal with
  | |- context [lookup_or_add ?a ?k ?v st] =>
      pose proof (at_cursor_lookup_or_add i a k v st Hat) as H;
      destruct (lookup_or_add_entered a k v st) as (H1 & H2 & H3 & H4);
      destruct (lookup_or_add a k v st) as [node st']
  end.
  cbn [fst snd] in *. exists node, st'.
  exact (conj eq_refl (conj H1 (conj H2 (conj H3 (conj H4 H))))).
Qed.

(** The state after a look-ahead character has been given back. *)
Lemma retract_exact (i : nat) (st : LexerState) :
  at_cursor file garbage i st -> (i < List.length file)%nat ->
  at_cursor file garbage i (retract (set_forwardPtr (Z.of_nat (S i)) st))
  /\ symTable (retract (set_forwardPtr (Z.of_nat (S i)) st)) = symTable st
  /\ lineNumber (retract (set_forwardPtr (Z.of_nat (S i)) st))
     = lineNumber st.
Proof.
  intros Hat Hi. split; [apply retract_ok; assumption |].
  rewrite retract_symTable, retract_lineNumber. split; reflexivity.
Qed.

(** State 3 reads the rest of a word and accepts at its last letter. *)
Lemma word_run (n : nat) :
  forall (fuel b i : nat) (st : LexerState),
  at_cursor file garbage i st -> (b <= i)%nat ->
  (i < List.length file)%nat ->
  (forall q, (q < n)%nat -> islower (nth (S i + q) file NUL) = true) ->
  islower (nth (S i + n) file NUL) = false ->
  (n < fuel)%nat ->
  exists node st',
    dfa_loop keywordTrie fuel 3 (Z.of_nat b) st = Ok (Some node, st')
    /\ accepted file garbage (i + n)
         (cstring (file_slice file b (i + n)))
         (let tk := findKeyword keywordTrie
                      (cstring (file_slice file b (i + n))) in
          if Token_eqb tk TK_NOT_FOUND then FIELDID else tk) 0%Q
         (symTable st) (lineNumber st) (Return (Some node) st').
Proof.
  induction n as [|n IH]; intros fuel b i st Hat Hb Hi Hlow Hend Hfuel;
    (destruct fuel as [|fuel]; [lia |]); cbn [dfa_loop];
    change (dfa_step keywordTrie fuel 3 (Z.of_nat b) st)
      with (case_3 keywordTrie (Z.of_nat b) st);
    unfold case_3; rewrite (fetch_at_cursor i st Hat) by lia.
  - rewrite Nat.add_0_r in Hend. rewrite Hend. cbn [negb].
    destruct (retract_exact i st Hat Hi) as (Hat' & Ht & Hl).
    pose proof (accept_word_exact b i _ Hat' Hb Hi) as Hacc.
    rewrite Ht, Hl in Hacc. rewrite Nat.add_0_r.
    destruct Hacc as (node & st' & E & Hrest). rewrite E.
    exists node, st'. split; [reflexivity |].
    exists node, st'. split; [reflexivity | exact Hrest].
  - assert (Hc : islower (nth (S i) file NUL) = true).
    { rewrite <- (Nat.add_0_r (S i)). apply Hlow. lia. }
    rewrite Hc. cbn [negb].
    assert (Hin : (S i < List.length file)%nat).
    { apply (inside_file (S i) _ eq_refl). intro Heq. rewrite Heq in Hc.
      discriminate Hc. }
    destruct (IH fuel b (S i) (set_forwardPtr (Z.of_nat (S i)) st))
      as (node & st' & Hrun & Hacc); try lia.
    + eapply at_cursor_set_forwardPtr. exact Hat.
    + intros q Hq. replace (S (S i) + q)%nat with (S i + S q)%nat by lia.
      apply Hlow. lia.
    + replace (S (S i) + n)%nat with (S i + S n)%nat by lia. exact Hend.
    + exists node, st'. split; [exact Hrun |].
      replace (i + S n)%nat with (S i + n)%nat by lia. exact Hacc.
Qed.

(** State 0 on the first letter of a word. *)
Lemma case_0_lower (k : nat) (st : LexerState) :
  ready file garbage k st ->
  islower (nth k file NUL) = true ->
  exists st',
    case_0 (Z.of_nat k) st
    = Goto (if is_b_d (nth k file NUL) then 79 else 3) (Z.of_nat k) st'
    /\ at_cursor file garbage k st'
    /\ (k < List.length file)%nat
    /\ lineNumber st' = lineNumber st /\ symTable st' = symTable st.
Proof.
  intros Hready Hlow.
  assert (Hk : (k < List.length file)%nat).
  { apply (inside_file k _ eq_refl). intro Heq. rewrite Heq in Hlow.
    discriminate Hlow. }
  destruct (fetch_ready k st Hready) as (st' & Hf & Hat & Hl & Ht); [lia |].
  exists st'. split; [| exact (conj Hat (conj Hk (conj Hl Ht)))].
  unfold case_0. rewrite Hf. clear Hf.
  remember (nth k file NUL) as ch eqn:Ech. clear Ech.
  repeat match goal with
         | |- context [if ?c then _ else _] => destruct c eqn:?
         end;
    try reflexivity; char_contra.
Qed.

(** A word in its place: white space, then letters up to a character
    that is none. *)
Lemma word_in_place (blanks w : list ascii) (fuel k : nat)
  (st : LexerState) :
  ready file garbage k st ->
  (forall q, (q < List.length blanks)%nat ->
             nth (k + q) file NUL = nth q blanks NUL) ->
  forallb is_blank blanks = true ->
  (forall q, (q < List.length w)%nat ->
             nth (k + List.length blanks + q) file NUL = nth q w NUL) ->
  (0 < List.length w)%nat ->
  forallb islower w = true ->
  islower (nth (k + List.length blanks + List.length w) file NUL) = false ->
  is_b_d (nth 0 w NUL) && (List.length w =? 1)%nat
  && is_2_7 (nth (k + List.length blanks + List.length w) file NUL) = false ->
  (List.length blanks + List.length w + 2 <= fuel)%nat ->
  exists node st',
    dfa_loop keywordTrie fuel 0 (Z.of_nat k) st = Ok (Some node, st')
    /\ accepted file garbage
         (k + List.length blanks + List.length w - 1)
         (cstring (file_slice file (k + List.length blanks)
                     (k + List.length blanks + List.length w - 1)))
         (let tk := findKeyword keywordTrie
                      (cstring (file_slice file (k + List.length blanks)
                                  (k + List.length blanks
                                   + List.length w - 1))) in
          if Token_eqb tk TK_NOT_FOUND then FIELDID else tk) 0%Q
         (symTable st) (lineNumber st + newlines blanks)
         (Return (Some node) st').
Proof.
  intros Hready Hbl Hblank Hw Hlen Hlow Hend Hshape Hfuel.
  destruct (blanks_skipped blanks (fuel - List.length blanks) k st
              Hready Hbl Hblank) as (st0 & Hready0 & Hl0 & Ht0 & Hrun0).
  replace (List.length blanks + (fuel - List.length blanks))%nat
    with fuel in Hrun0 by lia.
  rewrite Hrun0. clear Hrun0.
  set (b := (k + List.length blanks)%nat) in *.
  assert (Hall : forall q, (q < List.length w)%nat ->
                           islower (nth (b + q) file NUL) = true).
  { intros q Hq. rewrite Hw by exact Hq.
    rewrite forallb_forall in Hlow. apply Hlow. apply nth_In. exact Hq. }
  assert (H0 : islower (nth b file NUL) = true).
  { rewrite <- (Nat.add_0_r b). apply Hall. exact Hlen. }
  destruct (case_0_lower b st0 Hready0 H0)
    as (st1 & Hstep & Hat1 & Hb & Hl1 & Ht1).
  destruct (fuel - List.length blanks)%nat as [|fuel1] eqn:Ef; [lia |].
  cbn [dfa_loop].
  change (dfa_step keywordTrie fuel1 0 (Z.of_nat b) st0)
    with (case_0 (Z.of_nat b) st0).
  rewrite Hstep. rewrite <- Ht0, <- Hl0, <- Ht1, <- Hl1.
  destruct (List.length w) as [|n] eqn:En; [lia |].
  replace (b + S n - 1)%nat with (b + n)%nat by lia.
  destruct (is_b_d (nth b file NUL)) eqn:Ebd.
  - (* through state 79 *)
    destruct fuel1 as [|fuel2]; [lia |]. cbn [dfa_loop].
    change (dfa_step keywordTrie fuel2 79 (Z.of_nat b) st1)
      with (case_79 keywordTrie (Z.of_nat b) st1).
    unfold case_79. rewrite (fetch_at_cursor b st1 Hat1) by lia.
    destruct n as [|n].
    + replace (b + 1)%nat with (S b) in Hend, Hshape by lia.
      rewrite Hend.
      assert (E27 : is_2_7 (nth (S b) file NUL) = false).
      { rewrite <- (Nat.add_0_r b) in Ebd. rewrite Hw in Ebd by lia.
        rewrite Ebd in Hshape. cbn in Hshape. exact Hshape. }
      rewrite E27.
      destruct (retract_exact b st1 Hat1 Hb) as (Hat' & Ht & Hl).
      pose proof (accept_word_exact b b _ Hat' (le_n b) Hb) as Hacc.
      rewrite Ht, Hl in Hacc. rewrite Nat.add_0_r.
      destruct Hacc as (node & st' & E & Hrest). rewrite E.
      exists node, st'. split; [reflexivity |].
      exists node, st'. split; [reflexivity | exact Hrest].
    + assert (Hc : islower (nth (S b) file NUL) = true).
      { replace (S b) with (b + 1)%nat by lia. apply Hall. lia. }
      rewrite Hc.
      assert (Hin : (S b < List.length file)%nat).
      { apply (inside_file (S b) _ eq_refl). intro Heq. rewrite Heq in Hc.
        discriminate Hc. }
      destruct (word_run n fuel2 b (S b)
                  (set_forwardPtr (Z.of_nat (S b)) st1))
        as (node & st' & Hrun & Hacc); try lia.
      * eapply at_cursor_set_forwardPtr. exact Hat1.
      * intros q Hq. replace (S (S b) + q)%nat with (b + S (S q))%nat by lia.
        apply Hall. lia.
      * replace (S (S b) + n)%nat with (b + S (S n))%nat by lia. exact Hend.
      * exists node, st'. split; [exact Hrun |].
        replace (b + S n)%nat with (S b + n)%nat by lia. exact Hacc.
  - destruct (word_run n fuel1 b b st1 Hat1 (le_n b) Hb)
      as (node & st' & Hrun & Hacc); try lia.
    + intros q Hq. replace (S b + q)%nat with (b + S q)%nat by lia.
      apply Hall. lia.
    + replace (S b + n)%nat with (b + S n)%nat by lia. exact Hend.
    + exists node, st'. split; [exact Hrun | exact Hacc].
Qed.

(** ** Function names *)

(** State 0 on an underscore. *)
Lemma case_0_underscore (k : nat) (st : LexerState) :
  ready file garbage k st ->
  nth k file NUL = "_"%char ->
  exists st',
    case_0 (Z.of_nat k) st = Goto 69 (Z.of_nat k) st'
    /\ at_cursor file garbage k st'
    /\ (k < List.length file)%nat
    /\ lineNumber st' = lineNumber st /\ symTable st' = symTable st.
Proof.
  intros Hready Hc.
  assert (Hk : (k < List.length file)%nat).
  { apply (inside_file k _ eq_refl). rewrite Hc. discriminate. }
  destruct (fetch_ready k st Hready) as (st' & Hf & Hat & Hl & Ht); [lia |].
  exists st'. split; [| exact (conj Hat (conj Hk (conj Hl Ht)))].
  unfold case_0. rewrite Hf, Hc. reflexivity.
Qed.

(** The letters of a function name, within the limit. *)
Lemma letters_run (l : list ascii) :
  forall (fuel : nat) (s : Z) (b i : nat) (st : LexerState),
  at_cursor file garbage i st -> (b <= i)%nat ->
  s = 69 \/ s = 70 \/ s = 71 \/ s = 72 \/ s = 19 \/ s = 8 ->
  (forall q, (q < List.length l)%nat ->
             nth (S i + q) file NUL = nth q l NUL) ->
  forallb isalpha l = true ->
  (i + List.length l - b + 1 <= 30)%nat ->
  exists st',
    at_cursor file garbage (i + List.length l) st'
    /\ lineNumber st' = lineNumber st /\ symTable st' = symTable st
    /\ (fold_left letter_step l s = 69 \/ fold_left letter_step l s = 70
        \/ fold_left letter_step l s = 71 \/ fold_left letter_step l s = 72
        \/ fold_left letter_step l s = 19 \/ fold_left letter_step l s = 8)
    /\ dfa_loop keywordTrie (List.length l + fuel) s (Z.of_nat b) st
       = dfa_loop keywordTrie fuel (fold_left letter_step l s)
           (Z.of_nat b) st'.
Proof.
  induction l as [|c l IH]; intros fuel s b i st Hat Hb Hs Hfile Hal Hlen.
  - exists st. rewrite Nat.add_0_r. cbn [fold_left List.length Nat.add].
    exact (conj Hat (conj eq_refl (conj eq_refl (conj Hs eq_refl)))).
  - cbn [forallb] in Hal. apply andb_true_iff in Hal.
    destruct Hal as [Hc Hal].
    assert (Ec : nth (S i) file NUL = c).
    { rewrite <- (Nat.add_0_r (S i)). apply (Hfile 0%nat).
      cbn [List.length]. lia. }
    assert (Hin : (S i < List.length file)%nat).
    { apply (inside_file (S i) c (eq_sym Ec)). intro Heq.
      rewrite Heq in Hc. discriminate Hc. }
    cbn [List.length] in Hlen.
    assert (Hstep : dfa_step keywordTrie (List.length l + fuel) s
                      (Z.of_nat b) st
                    = Goto (letter_step s c) (Z.of_nat b)
                        (set_forwardPtr (Z.of_nat (S i)) st)
                    /\ (letter_step s c = 69 \/ letter_step s c = 70
                        \/ letter_step s c = 71 \/ letter_step s c = 72
                        \/ letter_step s c = 19 \/ letter_step s c = 8)).
    { assert (Hd : isdigit c = false).
      { destruct (isdigit c) eqn:E; [char_contra | reflexivity]. }
      destruct Hs as [-> | [-> | [-> | [-> | [-> | ->]]]]];
        cbn [dfa_step letter_step];
        unfold case_69, main_prefix, case_19, case_8;
        rewrite (fetch_at_cursor i st Hat) by lia; rewrite Ec;
        rewrite ?Hd, ?Hc; cbn [negb andb];
        cbn [forwardPtr set_forwardPtr];
        rewrite ?(getLexemeLength_at b (S i)) by lia;
        repeat match goal with
               | |- context [if ?x then _ else _] => destruct x eqn:?
               end;
        try (split; [reflexivity | tauto]);
        try (exfalso; lia).
      all: exfalso; rewrite Z.gtb_ltb in *;
        match goal with
        | H : (_ <? _) = true |- _ => apply Z.ltb_lt in H; lia
        end. }
    destruct Hstep as [Hstep Hs'].
    destruct (IH fuel (letter_step s c) b (S i)
                (set_forwardPtr (Z.of_nat (S i)) st))
      as (st' & Hat' & Hl' & Ht' & Hs'' & Hrun); try assumption; try lia.
    + eapply at_cursor_set_forwardPtr. exact Hat.
    + intros q Hq. replace (S (S i) + q)%nat with (S i + S q)%nat by lia.
      apply (Hfile (S q)). cbn [List.length]. lia.
    + exists st'. cbn [List.length Nat.add dfa_loop fold_left].
      rewrite Hstep, Hrun.
      replace (i + S (List.length l))%nat
        with (S i + List.length l)%nat by lia.
      exact (conj Hat' (conj Hl' (conj Ht' (conj Hs'' eq_refl)))).
Qed.

(** The digits of a function name, within the limit. *)
Lemma digits_run (l : list ascii) :
  forall (fuel : nat) (s : Z) (b i : nat) (st : LexerState),
  at_cursor file garbage i st -> (b <= i)%nat ->
  s = 70 \/ s = 71 \/ s = 72 \/ s = 19 \/ s = 8 \/ s = 81 ->
  (forall q, (q < List.length l)%nat ->
             nth (S i + q) file NUL = nth q l NUL) ->
  forallb isdigit l = true ->
  (i + List.length l - b + 1 <= 30)%nat ->
  exists st',
    at_cursor file garbage (i + List.length l) st'
    /\ lineNumber st' = lineNumber st /\ symTable st' = symTable st
    /\ dfa_loop keywordTrie (List.length l + fuel) s (Z.of_nat b) st
       = dfa_loop keywordTrie fuel (match l with [] => s | _ => 81 end)
           (Z.of_nat b) st'.
Proof.
  induction l as [|c l IH]; intros fuel s b i st Hat Hb Hs Hfile Hal Hlen.
  - exists st. rewrite Nat.add_0_r. cbn [List.length Nat.add].
    exact (conj Hat (conj eq_refl (conj eq_refl eq_refl))).
  - cbn [forallb] in Hal. apply andb_true_iff in Hal.
    destruct Hal as [Hc Hal].
    assert (Ec : nth (S i) file NUL = c).
    { rewrite <- (Nat.add_0_r (S i)). apply (Hfile 0%nat).
      cbn [List.length]. lia. }
    assert (Hin : (S i < List.length file)%nat).
    { apply (inside_file (S i) c (eq_sym Ec)). intro Heq.
      rewrite Heq in Hc. discriminate Hc. }
    cbn [List.length] in Hlen.
    assert (Hstep : dfa_step keywordTrie (List.length l + fuel) s
                      (Z.of_nat b) st
                    = Goto 81 (Z.of_nat b)
                        (set_forwardPtr (Z.of_nat (S i)) st)).
    { assert (Ha : isalpha c = false).
      { destruct (isalpha c) eqn:E; [char_contra | reflexivity]. }
      destruct Hs as [-> | [-> | [-> | [-> | [-> | ->]]]]];
        cbn [dfa_step];
        unfold main_prefix, case_19, case_8, case_81;
        rewrite (fetch_at_cursor i st Hat) by lia; rewrite Ec;
        rewrite ?Ha, ?Hc; cbn [negb andb];
        cbn [forwardPtr set_forwardPtr];
        rewrite ?(getLexemeLength_at b (S i)) by lia;
        repeat match goal with
               | |- context [if ?x then _ else _] => destruct x eqn:?
               end;
        try reflexivity.
      all: exfalso; rewrite Z.gtb_ltb in *;
        match goal with
        | H : (_ <? _) = true |- _ => apply Z.ltb_lt in H; lia
        end. }
    destruct (IH fuel 81 b (S i) (set_forwardPtr (Z.of_nat (S i)) st))
      as (st' & Hat' & Hl' & Ht' & Hrun); try assumption; try lia.
    + eapply at_cursor_set_forwardPtr. exact Hat.
    + intros q Hq. replace (S (S i) + q)%nat with (S i + S q)%nat by lia.
      apply (Hfile (S q)). cbn [List.length]. lia.
    + exists st'. cbn [List.length Nat.add dfa_loop].
      rewrite Hstep, Hrun.
      replace (i + S (List.length l))%nat
        with (S i + List.length l)%nat by lia.
      split; [exact Hat' | split; [exact Hl' | split; [exact Ht' |]]].
      destruct l; reflexivity.
Qed.

(** The end of a function name within the limit. *)
Lemma name_accepted (fuel : nat) (s : Z) (b i : nat) (st : LexerState) :
  at_cursor file garbage i st -> (b <= i)%nat ->
  (i < List.length file)%nat ->
  s = 70 \/ s = 71 \/ s = 72 \/ s = 19 \/ s = 8 \/ s = 81 ->
  isdigit (nth (S i) file NUL) = false ->
  (s <> 81 -> isalpha (nth (S i) file NUL) = false) ->
  accepted file garbage i (cstring (file_slice file b i))
    (if s =? 19 then MAIN else FUNID) 0%Q (symTable st) (lineNumber st)
    (dfa_step keywordTrie fuel s (Z.of_nat b) st).
Proof.
  intros Hat Hb Hi Hs Hd Ha.
  destruct (retract_exact i st Hat Hi) as (Hat' & Ht & Hl).
  assert (Hacc : forall tk,
             accepted file garbage i (cstring (file_slice file b i)) tk 0%Q
               (symTable st) (lineNumber st)
               (accept tk no_value (Z.of_nat b)
                  (retract (set_forwardPtr (Z.of_nat (S i)) st)))).
  { intro tk. rewrite <- Ht, <- Hl.
    apply (accept_exact tk no_value b i _ Hat' Hb Hi). }
  destruct Hs as [-> | [-> | [-> | [-> | [-> | ->]]]]];
    cbn [dfa_step Z.eqb Pos.eqb];
    unfold main_prefix, case_19, case_8, case_81;
    rewrite (fetch_at_cursor i st Hat) by lia;
    rewrite Hd; try rewrite Ha by discriminate; cbn [negb andb];
    try apply Hacc.
  all: match goal with
       | |- context [char_eqb ?x ?y] =>
           let E := fresh "E" in
           destruct (char_eqb x y) eqn:E; [| apply Hacc];
           apply char_eqb_eq in E;
           assert (Hf : isalpha (nth (S i) file NUL) = false)
             by (apply Ha; discriminate);
           rewrite E in Hf; discriminate Hf
       end.
Qed.

(** A loop that skips the characters that satisfy [p], on the [n] of
    them that follow the cursor. *)
Lemma skip_while_exact (p : ascii -> bool) (n : nat) :
  forall (fuel q0 : nat) (st : LexerState),
  at_cursor file garbage q0 st ->
  (forall q, (q < n)%nat -> p (nth (q0 + q) file NUL) = true) ->
  p (nth (q0 + n) file NUL) = false ->
  p NUL = false ->
  (n < fuel)%nat ->
  exists st',
    skip_while p fuel (nth q0 file NUL) st
    = Some (nth (q0 + n) file NUL, st')
    /\ at_cursor file garbage (q0 + n) st'
    /\ lineNumber st' = lineNumber st /\ symTable st' = symTable st.
Proof.
  induction n as [|n IH]; intros fuel q0 st Hat Hp Hend Hnul Hfuel;
    (destruct fuel as [|fuel]; [lia |]); cbn [skip_while].
  - rewrite Nat.add_0_r in *. rewrite Hend. exists st.
    exact (conj eq_refl (conj Hat (conj eq_refl eq_refl))).
  - assert (Hc : p (nth q0 file NUL) = true).
    { rewrite <- (Nat.add_0_r q0). apply Hp. lia. }
    rewrite Hc.
    assert (Hin : (q0 < List.length file)%nat).
    { apply (inside_file q0 _ eq_refl). intro Heq. rewrite Heq in Hc.
      congruence. }
    rewrite (fetch_at_cursor q0 st Hat) by lia.
    destruct (IH fuel (S q0) (set_forwardPtr (Z.of_nat (S q0)) st))
      as (st' & Hrun & Hat' & Hl & Ht); try assumption; try lia.
    + eapply at_cursor_set_forwardPtr. exact Hat.
    + intros q Hq. replace (S q0 + q)%nat with (q0 + S q)%nat by lia.
      apply Hp. lia.
    + replace (S q0 + n)%nat with (q0 + S n)%nat by lia. exact Hend.
    + exists st'. replace (q0 + S n)%nat with (S q0 + n)%nat by lia.
      exact (conj Hrun (conj Hat' (conj Hl Ht))).
Qed.

(** The block for a function name that is too long, entered with the
    cursor on byte [i]: the token is made of the bytes read so far, then
    the [n] digits that follow are passed over. *)
Lemma fun_length_exceeded_exact (resume : bool) (n fuel b i : nat)
  (st : LexerState) :
  at_cursor file garbage i st -> (b <= i)%nat ->
  (i < List.length file)%nat ->
  (forall q, (q < n)%nat -> isdigit (nth (S i + q) file NUL) = true) ->
  isdigit (nth (S i + n) file NUL) = false ->
  (n < fuel)%nat ->
  accepted file garbage (i + n)
    (cstring (ellipsis 30 (file_slice file b i))) FUN_LENGTH_EXC 0%Q
    (symTable st) (lineNumber st)
    (fun_length_exceeded resume fuel (Z.of_nat b) st).
Proof.
  intros Hat Hb Hi Hdig Hend Hfuel. unfold fun_length_exceeded.
  rewrite (extract_at_cursor b i st) by assumption.
  match goal with
  | |- context [lookup_or_add ?a ?k ?v st] =>
      pose proof (at_cursor_lookup_or_add i a k v st Hat) as H;
      destruct (lookup_or_add_entered a k v st) as (H1 & H2 & H3 & H4);
      destruct (lookup_or_add a k v st) as [node st1]
  end.
  cbn [fst snd] in *.
  rewrite (fetch_at_cursor i st1 H) by lia.
  destruct (skip_while_exact isdigit n fuel (S i)
              (set_forwardPtr (Z.of_nat (S i)) st1))
    as (st3 & Hrun & Hat3 & Hl3 & Ht3); try assumption.
  { eapply at_cursor_set_forwardPtr. exact H. }
  { reflexivity. }
  rewrite Hrun. cbv zeta. rewrite Hend, andb_false_r.
  exists node, (retract st3).
  split; [reflexivity | split; [exact H1 | split; [exact H2 |]]].
  rewrite retract_symTable, retract_lineNumber, Ht3, Hl3.
  cbn [set_forwardPtr symTable lineNumber].
  split; [exact H3 | split; [exact H4 |]].
  assert (Hat3' : at_cursor file garbage (S (i + n)) st3).
  { replace (S (i + n)) with (S i + n)%nat by lia. exact Hat3. }
  rewrite (retract_at_cursor (i + n)).
  - eapply at_cursor_set_forwardPtr. exact Hat3'.
  - exact Hat3'.
  - assert (Hq : (i + n < List.length file)%nat); [| lia].
    destruct n as [|n]; [lia |].
    replace (i + S n)%nat with (S i + n)%nat by lia.
    apply (inside_file (S i + n) _ eq_refl). intro Heq.
    specialize (Hdig n (Nat.lt_succ_diag_r n)). rewrite Heq in Hdig.
    discriminate Hdig.
Qed.

(** A function name in its place, within the limit. *)
Lemma name_in_place (blanks letters digits : list ascii) (fuel k : nat)
  (st : LexerState) :
  ready file garbage k st ->
  (forall q, (q < List.length blanks)%nat ->
             nth (k + q) file NUL = nth q blanks NUL) ->
  forallb is_blank blanks = true ->
  nth (k + List.length blanks) file NUL = "_"%char ->
  (forall q, (q < List.length letters)%nat ->
             nth (S (k + List.length blanks) + q) file NUL
             = nth q letters NUL) ->
  (0 < List.length letters)%nat ->
  forallb isalpha letters = true ->
  (forall q, (q < List.length digits)%nat ->
             nth (S (k + List.length blanks + List.length letters) + q)
                 file NUL
             = nth q digits NUL) ->
  forallb isdigit digits = true ->
  isdigit (nth (S (k + List.length blanks + List.length letters
                   + List.length digits)) file NUL) = false ->
  (digits = [] ->
   isalpha (nth (S (k + List.length blanks + List.length letters
                    + List.length digits)) file NUL) = false) ->
  (1 + List.length letters + List.length digits <= 30)%nat ->
  (List.length blanks + List.length letters + List.length digits + 3
   <= fuel)%nat ->
  exists node st',
    dfa_loop keywordTrie fuel 0 (Z.of_nat k) st = Ok (Some node, st')
    /\ accepted file garbage
         (k + List.length blanks + List.length letters
          + List.length digits)
         (cstring (file_slice file (k + List.length blanks)
                     (k + List.length blanks + List.length letters
                      + List.length digits)))
         (if match digits with
             | [] => fold_left letter_step letters 69
             | _ => 81
             end =? 19
          then MAIN else FUNID) 0%Q
         (symTable st) (lineNumber st + newlines blanks)
         (Return (Some node) st').
Proof.
  intros Hready Hbl Hblank Hus Hlet Hlen Halpha Hdig Hdigit Hend Hend'
         Hlimit Hfuel.
  destruct (blanks_skipped blanks (fuel - List.length blanks) k st
              Hready Hbl Hblank) as (st0 & Hready0 & Hl0 & Ht0 & Hrun0).
  replace (List.length blanks + (fuel - List.length blanks))%nat
    with fuel in Hrun0 by lia.
  rewrite Hrun0. clear Hrun0.
  set (b := (k + List.length blanks)%nat) in *.
  destruct (case_0_underscore b st0 Hready0 Hus)
    as (st1 & Hstep & Hat1 & Hb & Hl1 & Ht1).
  destruct (fuel - List.length blanks)%nat as [|fuel1] eqn:Ef; [lia |].
  cbn [dfa_loop].
  change (dfa_step keywordTrie fuel1 0 (Z.of_nat b) st0)
    with (case_0 (Z.of_nat b) st0).
  rewrite Hstep.
  destruct (letters_run letters (fuel1 - List.length letters) 69 b b st1
              Hat1 (le_n b) (or_introl eq_refl) Hlet Halpha)
    as (st2 & Hat2 & Hl2 & Ht2 & _ & Hrun2); [lia |].
  replace (List.length letters + (fuel1 - List.length letters))%nat
    with fuel1 in Hrun2 by lia.
  rewrite Hrun2. clear Hrun2.
  assert (Hs2 : fold_left letter_step letters 69 = 70
                \/ fold_left letter_step letters 69 = 71
                \/ fold_left letter_step letters 69 = 72
                \/ fold_left letter_step letters 69 = 19
                \/ fold_left letter_step letters 69 = 8).
  { destruct letters as [|c letters]; [cbn in Hlen; lia |].
    cbn [fold_left]. apply letter_states. apply first_letter_state. }
  set (s2 := fold_left letter_step letters 69) in *.
  destruct (digits_run digits
              (fuel1 - List.length letters - List.length digits) s2 b
              (b + List.length letters) st2 Hat2)
    as (st3 & Hat3 & Hl3 & Ht3 & Hrun3); try assumption; try lia.
  replace (List.length digits
           + (fuel1 - List.length letters - List.length digits))%nat
    with (fuel1 - List.length letters)%nat in Hrun3 by lia.
  rewrite Hrun3. clear Hrun3.
  set (s3 := match digits with [] => s2 | _ => 81 end).
  set (e := (b + List.length letters + List.length digits)%nat) in *.
  assert (He : (e < List.length file)%nat).
  { destruct digits as [|d digits].
    - unfold e. cbn [List.length]. rewrite Nat.add_0_r.
      pose proof (last_satisfies isalpha letters Halpha Hlen) as Hlast.
      rewrite <- (Hlet (List.length letters - 1)%nat) in Hlast by lia.
      replace (b + List.length letters)%nat
        with (S b + (List.length letters - 1))%nat by lia.
      apply (inside_file _ _ eq_refl). intro Heq. rewrite Heq in Hlast.
      discriminate Hlast.
    - assert (Hpos : (0 < List.length (d :: digits))%nat)
        by (cbn [List.length]; lia).
      pose proof (last_satisfies isdigit (d :: digits) Hdigit Hpos)
        as Hlast.
      rewrite <- (Hdig (List.length (d :: digits) - 1)%nat) in Hlast by lia.
      unfold e.
      replace (b + List.length letters + List.length (d :: digits))%nat
        with (S (b + List.length letters)
              + (List.length (d :: digits) - 1))%nat by lia.
      apply (inside_file _ _ eq_refl). intro Heq. rewrite Heq in Hlast.
      discriminate Hlast. }
  destruct (fuel1 - List.length letters - List.length digits)%nat
    as [|fuel3] eqn:Ef3; [lia |].
  cbn [dfa_loop].
  pose proof (name_accepted fuel3 s3 b e st3 Hat3) as Hacc.
  destruct Hacc as (node & st' & E & Hrest); try assumption; try lia.
  - unfold s3. destruct digits; tauto.
  - unfold s3. intro Hne. apply Hend'. destruct digits; [reflexivity |].
    exfalso. apply Hne. reflexivity.
  - rewrite E. exists node, st'. split; [reflexivity |].
    exists node, st'. split; [reflexivity |].
    rewrite Ht3, Ht2, Ht1, Ht0, Hl3, Hl2, Hl1, Hl0 in Hrest. exact Hrest.
Qed.

(** A function name of more than 30 characters in its place: an
    underscore, letters and digits that make 30 characters, one more
    letter or digit, and then [n] digits. *)
Lemma long_name_in_place (blanks letters digits : list ascii)
  (n fuel k : nat) (st : LexerState) :
  ready file garbage k st ->
  (forall q, (q < List.length blanks)%nat ->
             nth (k + q) file NUL = nth q blanks NUL) ->
  forallb is_blank blanks = true ->
  nth (k + List.length blanks) file NUL = "_"%char ->
  (forall q, (q < List.length letters)%nat ->
             nth (S (k + List.length blanks) + q) file NUL
             = nth q letters NUL) ->
  (0 < List.length letters)%nat ->
  forallb isalpha letters = true ->
  (forall q, (q < List.length digits)%nat ->
             nth (S (k + List.length blanks + List.length letters) + q)
                 file NUL
             = nth q digits NUL) ->
  forallb isdigit digits = true ->
  (List.length letters + List.length digits = 29)%nat ->
  isdigit (nth (k + List.length blanks + 30) file NUL) = true
  \/ (digits = []
      /\ isalpha (nth (k + List.length blanks + 30) file NUL) = true) ->
  (forall q, (q < n)%nat ->
             isdigit (nth (k + List.length blanks + 31 + q) file NUL)
             = true) ->
  isdigit (nth (k + List.length blanks + 31 + n) file NUL) = false ->
  (List.length blanks + n + 33 <= fuel)%nat ->
  exists node st',
    dfa_loop keywordTrie fuel 0 (Z.of_nat k) st = Ok (Some node, st')
    /\ accepted file garbage (k + List.length blanks + 30 + n)
         (cstring (ellipsis 30
                     (file_slice file (k + List.length blanks)
                        (k + List.length blanks + 30))))
         FUN_LENGTH_EXC 0%Q
         (symTable st) (lineNumber st + newlines blanks)
         (Return (Some node) st').
Proof.
  intros Hready Hbl Hblank Hus Hlet Hlen Halpha Hdig Hdigit Hsize Hc
         Hmore Hend Hfuel.
  destruct (blanks_skipped blanks (fuel - List.length blanks) k st
              Hready Hbl Hblank) as (st0 & Hready0 & Hl0 & Ht0 & Hrun0).
  replace (List.length blanks + (fuel - List.length blanks))%nat
    with fuel in Hrun0 by lia.
  rewrite Hrun0. clear Hrun0.
  set (b := (k + List.length blanks)%nat) in *.
  destruct (case_0_underscore b st0 Hready0 Hus)
    as (st1 & Hstep & Hat1 & Hb & Hl1 & Ht1).
  destruct (fuel - List.length blanks)%nat as [|fuel1] eqn:Ef; [lia |].
  cbn [dfa_loop].
  change (dfa_step keywordTrie fuel1 0 (Z.of_nat b) st0)
    with (case_0 (Z.of_nat b) st0).
  rewrite Hstep.
  destruct (letters_run letters (fuel1 - List.length letters) 69 b b st1
              Hat1 (le_n b) (or_introl eq_refl) Hlet Halpha)
    as (st2 & Hat2 & Hl2 & Ht2 & _ & Hrun2); [lia |].
  replace (List.length letters + (fuel1 - List.length letters))%nat
    with fuel1 in Hrun2 by lia.
  rewrite Hrun2. clear Hrun2.
  assert (Hs2 : fold_left letter_step letters 69 = 70
                \/ fold_left letter_step letters 69 = 71
                \/ fold_left letter_step letters 69 = 72
                \/ fold_left letter_step letters 69 = 19
                \/ fold_left letter_step letters 69 = 8).
  { destruct letters as [|c letters]; [cbn in Hlen; lia |].
    cbn [fold_left]. apply letter_states. apply first_letter_state. }
  set (s2 := fold_left letter_step letters 69) in *.
  destruct (digits_run digits
              (fuel1 - List.length letters - List.length digits) s2 b
              (b + List.length letters) st2 Hat2)
    as (st3 & Hat3 & Hl3 & Ht3 & Hrun3); try assumption; try lia.
  replace (List.length digits
           + (fuel1 - List.length letters - List.length digits))%nat
    with (fuel1 - List.length letters)%nat in Hrun3 by lia.
  rewrite Hrun3. clear Hrun3.
  replace (b + List.length letters + List.length digits)%nat
    with (b + 29)%nat in Hat3 by lia.
  assert (Hin : (b + 30 < List.length file)%nat).
  { apply (inside_file _ _ eq_refl). intro Heq. rewrite Heq in Hc.
    destruct Hc as [Hc | [_ Hc]]; discriminate Hc. }
  destruct (fuel1 - List.length letters - List.length digits)%nat
    as [|fuel3] eqn:Ef3; [lia |].
  cbn [dfa_loop].
  assert (Hlong : (getLexemeLength (Z.of_nat b) (Z.of_nat (S (b + 29)))
                   >? 30) = true).
  { rewrite getLexemeLength_at by lia. rewrite Z.gtb_ltb.
    apply Z.ltb_lt. lia. }
  assert (Hnext : nth (S (b + 29)) file NUL = nth (b + 30) file NUL)
    by (f_equal; lia).
  assert (Hstep3 :
            exists resume,
              dfa_step keywordTrie fuel3
                (match digits with [] => s2 | _ => 81 end) (Z.of_nat b) st3
              = fun_length_exceeded resume fuel3 (Z.of_nat b)
                  (set_forwardPtr (Z.of_nat (S (b + 29))) st3)).
  { destruct digits as [|d digits].
    - assert (E8 : s2 = 8).
      { apply long_name_state. cbn [List.length] in Hsize. lia. }
      rewrite E8. exists true. cbn [dfa_step]. unfold case_8.
      rewrite (fetch_at_cursor (b + 29) st3 Hat3) by lia.
      rewrite Hnext. cbn [forwardPtr set_forwardPtr]. rewrite Hlong.
      destruct Hc as [Hc | [_ Hc]].
      + rewrite Hc. reflexivity.
      + rewrite Hc. rewrite andb_false_r. reflexivity.
    - exists false. cbn [dfa_step]. unfold case_81.
      rewrite (fetch_at_cursor (b + 29) st3 Hat3) by lia.
      rewrite Hnext. cbn [forwardPtr set_forwardPtr]. rewrite Hlong.
      destruct Hc as [Hc | [Hc _]]; [| discriminate Hc].
      rewrite Hc. reflexivity. }
  destruct Hstep3 as [resume Hstep3]. rewrite Hstep3.
  destruct (fun_length_exceeded_exact resume n fuel3 b (S (b + 29))
              (set_forwardPtr (Z.of_nat (S (b + 29))) st3))
    as (node & st' & E & Hrest); try lia.
  - eapply at_cursor_set_forwardPtr. exact Hat3.
  - intros q Hq. replace (S (S (b + 29)) + q)%nat with (b + 31 + q)%nat
      by lia. apply Hmore. exact Hq.
  - replace (S (S (b + 29)) + n)%nat with (b + 31 + n)%nat by lia.
    exact Hend.
  - rewrite E. exists node, st'. split; [reflexivity |].
    exists node, st'. split; [reflexivity |].
    cbn [set_forwardPtr symTable lineNumber] in Hrest.
    rewrite Ht3, Ht2, Ht1, Ht0, Hl3, Hl2, Hl1, Hl0 in Hrest.
    replace (b + 30)%nat with (S (b + 29)) by lia.
    replace (S (b + 29) + n)%nat with (S (b + 29 + n)) by lia.
    replace (S (b + 29) + n)%nat with (S (b + 29 + n)) in Hrest by lia.
    exact Hrest.
Qed.

(** ** The end of the input and comments *)

(** State 0 on a NUL byte. *)
Lemma eof_in_place (blanks : list ascii) (fuel k : nat) (st : LexerState) :
  ready file garbage k st ->
  (forall q, (q < List.length blanks)%nat ->
             nth (k + q) file NUL = nth q blanks NUL) ->
  forallb is_blank blanks = true ->
  (k + List.length blanks <= List.length file)%nat ->
  nth (k + List.length blanks) file NUL = NUL ->
  (List.length blanks < fuel)%nat ->
  exists st',
    dfa_loop keywordTrie fuel 0 (Z.of_nat k) st
    = Ok (Some (eof_token (lineNumber st + newlines blanks)), st')
    /\ symTable st' = symTable st
    /\ lineNumber st' = lineNumber st + newlines blanks.
Proof.
  intros Hready Hbl Hblank Hk Hnul Hfuel.
  destruct (blanks_skipped blanks (fuel - List.length blanks) k st
              Hready Hbl Hblank) as (st0 & Hready0 & Hl0 & Ht0 & Hrun0).
  replace (List.length blanks + (fuel - List.length blanks))%nat
    with fuel in Hrun0 by lia.
  rewrite Hrun0. clear Hrun0.
  destruct (fetch_ready _ st0 Hready0 Hk) as (st1 & Hf & Hat & Hl & Ht).
  destruct (fuel - List.length blanks)%nat as [|fuel1] eqn:Ef; [lia |].
  cbn [dfa_loop].
  change (dfa_step keywordTrie fuel1 0
            (Z.of_nat (k + List.length blanks)) st0)
    with (case_0 (Z.of_nat (k + List.length blanks)) st0).
  unfold case_0. rewrite Hf, Hnul. cbn.
  exists st1. unfold eof_token. rewrite Hl, Hl0, Ht, Ht0.
  repeat split.
Qed.

(** The loop that passes over the rest of a line, on [n] characters that
    are no newline and the newline behind them. *)
Lemma skip_line_exact (n : nat) :
  forall (fuel i : nat) (st : LexerState),
  at_cursor file garbage i st ->
  (forall q, (q < n)%nat -> char_eqb (nth (S i + q) file NUL) NL = false) ->
  nth (S i + n) file NUL = NL ->
  (n < fuel)%nat ->
  exists st',
    skip_line fuel st = Some st'
    /\ at_cursor file garbage (S i + n) st'
    /\ lineNumber st' = lineNumber st /\ symTable st' = symTable st.
Proof.
  induction n as [|n IH]; intros fuel i st Hat Htext Hnl Hfuel;
    (destruct fuel as [|fuel]; [lia |]); cbn [skip_line].
  - rewrite Nat.add_0_r in *.
    assert (Hin : (S i < List.length file)%nat).
    { apply (inside_file (S i) _ eq_refl). rewrite Hnl. discriminate. }
    rewrite (fetch_at_cursor i st Hat) by lia. rewrite Hnl.
    change (char_eqb NL NL) with true. cbv iota.
    exists (set_forwardPtr (Z.of_nat (S i)) st).
    split; [reflexivity | split; [| split; reflexivity]].
    eapply at_cursor_set_forwardPtr. exact Hat.
  - assert (Hin : (S i + S n < List.length file)%nat).
    { apply (inside_file _ _ eq_refl). rewrite Hnl. discriminate. }
    rewrite (fetch_at_cursor i st Hat) by lia.
    assert (Hc : char_eqb (nth (S i) file NUL) NL = false).
    { rewrite <- (Nat.add_0_r (S i)). apply Htext. lia. }
    rewrite Hc.
    destruct (IH fuel (S i) (set_forwardPtr (Z.of_nat (S i)) st))
      as (st' & Hrun & Hat' & Hl & Ht); try lia.
    + eapply at_cursor_set_forwardPtr. exact Hat.
    + intros q Hq. replace (S (S i) + q)%nat with (S i + S q)%nat by lia.
      apply Htext. lia.
    + replace (S (S i) + n)%nat with (S i + S n)%nat by lia. exact Hnl.
    + exists st'. replace (S i + S n)%nat with (S (S i) + n)%nat by lia.
      exact (conj Hrun (conj Hat' (conj Hl Ht))).
Qed.

(** A comment in its place: the percent sign, [n] characters that are no
    newline, and the newline. *)
Lemma comment_in_place (blanks : list ascii) (n fuel k : nat)
  (st : LexerState) :
  ready file garbage k st ->
  (forall q, (q < List.length blanks)%nat ->
             nth (k + q) file NUL = nth q blanks NUL) ->
  forallb is_blank blanks = true ->
  nth (k + List.length blanks) file NUL = "%"%char ->
  (forall q, (q < n)%nat ->
             char_eqb (nth (S (k + List.length blanks) + q) file NUL) NL
             = false) ->
  nth (S (k + List.length blanks) + n) file NUL = NL ->
  (List.length blanks + n + 3 <= fuel)%nat ->
  exists node st',
    dfa_loop keywordTrie fuel 0 (Z.of_nat k) st = Ok (Some node, st')
    /\ entry node = entered (symTable st) "%" COMMENT 0%Q
    /\ lineNum node = lineNumber st + newlines blanks
    /\ symTable st' = table_after (symTable st) "%" COMMENT 0%Q
    /\ lineNumber st' = lineNumber st + newlines blanks + 1
    /\ at_cursor file garbage (S (k + List.length blanks) + n) st'.
Proof.
  intros Hready Hbl Hblank Hc Htext Hnl Hfuel.
  destruct (blanks_skipped blanks (fuel - List.length blanks) k st
              Hready Hbl Hblank) as (st0 & Hready0 & Hl0 & Ht0 & Hrun0).
  replace (List.length blanks + (fuel - List.length blanks))%nat
    with fuel in Hrun0 by lia.
  rewrite Hrun0. clear Hrun0.
  set (b := (k + List.length blanks)%nat) in *.
  assert (Hb : (b < List.length file)%nat).
  { apply (inside_file b _ eq_refl). rewrite Hc. discriminate. }
  destruct (fetch_ready b st0 Hready0) as (st1 & Hf & Hat & Hl & Ht);
    [lia |].
  destruct (fuel - List.length blanks)%nat as [|fuel1] eqn:Ef; [lia |].
  cbn [dfa_loop].
  change (dfa_step keywordTrie fuel1 0 (Z.of_nat b) st0)
    with (case_0 (Z.of_nat b) st0).
  unfold case_0. rewrite Hf, Hc.
  match goal with
  | |- context [if ?c then _ else _] =>
      let v := eval vm_compute in c in change c with v
  end.
  cbv iota.
  repeat match goal with
         | |- context [if ?c then _ else _] =>
             let v := eval vm_compute in c in change c with v; cbv iota
         end.
  destruct fuel1 as [|fuel2]; [lia |]. cbn [dfa_loop dfa_step].
  unfold case_65. rewrite (extract_at_cursor b b st1 Hat (le_n b) Hb).
  assert (Eslice : cstring (file_slice file b b) = "%"%string).
  { unfold file_slice. replace (S b - b)%nat with 1%nat by lia.
    pose proof (nth_file_slice b b 0) as H. unfold file_slice in H.
    replace (S b - b)%nat with 1%nat in H by lia.
    rewrite Nat.add_0_r, Hc in H. specialize (H Nat.lt_0_1).
    pose proof (length_file_slice b b (le_n b) Hb) as Hlen.
    unfold file_slice in Hlen. replace (S b - b)%nat with 1%nat in Hlen by lia.
    destruct (firstn 1 (skipn b file)) as [|c [|c' l]];
      cbn [List.length] in Hlen; try lia.
    cbn [nth] in H. subst c. reflexivity. }
  rewrite Eslice.
  pose proof (at_cursor_lookup_or_add b "%"%string COMMENT 0%Q st1 Hat)
    as Hat2.
  destruct (lookup_or_add_entered "%"%string COMMENT 0%Q st1)
    as (H1 & H2 & H3 & H4).
  destruct (lookup_or_add "%"%string COMMENT 0%Q st1) as [node st2].
  cbn [fst snd] in *.
  destruct (skip_line_exact n fuel2 b st2 Hat2 Htext Hnl)
    as (st3 & Hrun & Hat3 & Hl3 & Ht3); [lia |].
  rewrite Hrun.
  exists node, (set_lineNumber (lineNumber st3 + 1) st3).
  split; [reflexivity |].
  cbn [set_lineNumber symTable lineNumber].
  rewrite H1, H2, Ht3, H3, Hl3, H4, Ht, Hl, Ht0, Hl0.
  split; [reflexivity | split; [reflexivity | split; [reflexivity |]]].
  split; [reflexivity |].
  apply at_cursor_set_lineNumber. exact Hat3.
Qed.

(** ** Operators and punctuation *)

(** The bytes of the file from [b] on, when they are the list [l]. *)
Lemma file_slice_is (l : list ascii) (b : nat) :
  (0 < List.length l)%nat ->
  (b + List.length l <= List.length file)%nat ->
  (forall q, (q < List.length l)%nat -> nth (b + q) file NUL = nth q l NUL) ->
  file_slice file b (b + List.length l - 1) = l.
Proof.
  intros Hl Hin Hnth.
  apply (nth_ext _ _ NUL NUL).
  - rewrite length_file_slice by lia. lia.
  - intros q Hq. rewrite length_file_slice in Hq by lia.
    rewrite nth_file_slice by lia. apply Hnth. lia.
Qed.

(** One pass through a state that moves on when it reads [c]. *)
Ltac pass_on i st Hat Hc :=
  rewrite (fetch_at_cursor i st Hat) by lia; rewrite Hc by lia;
  repeat match goal with
         | |- context [if ?c then _ else _] =>
             let v := eval vm_compute in c in change c with v; cbv iota
         end.

Lemma operator_in_place (op : string) (tk : Token) (blanks : list ascii)
  (fuel k : nat) (st : LexerState) :
  In (op, tk) operator_table ->
  ready file garbage k st ->
  (forall q, (q < List.length blanks)%nat ->
             nth (k + q) file NUL = nth q blanks NUL) ->
  forallb is_blank blanks = true ->
  (forall q, (q < String.length op)%nat ->
             nth (k + List.length blanks + q) file NUL
             = nth q (list_ascii_of_string op) NUL) ->
  (List.length blanks + String.length op + 2 <= fuel)%nat ->
  exists node st',
    dfa_loop keywordTrie fuel 0 (Z.of_nat k) st = Ok (Some node, st')
    /\ accepted file garbage (k + List.length blanks + String.length op - 1)
         op tk 0%Q (symTable st) (lineNumber st + newlines blanks)
         (Return (Some node) st').
Proof.
  intros Hop Hready Hbl Hblank Hchars Hfuel.
  destruct (blanks_skipped blanks (fuel - List.length blanks) k st
              Hready Hbl Hblank) as (st0 & Hready0 & Hl0 & Ht0 & Hrun0).
  replace (List.length blanks + (fuel - List.length blanks))%nat
    with fuel in Hrun0 by lia.
  rewrite Hrun0. clear Hrun0.
  set (b := (k + List.length blanks)%nat) in *.
  rewrite <- Ht0, <- Hl0. clear Ht0 Hl0.
  assert (Hinside : forall q, (q < String.length op)%nat ->
                              (b + q < List.length file)%nat).
  { intros q Hq. apply (inside_file _ _ eq_refl). rewrite Hchars by exact Hq.
    unfold operator_table in Hop.
    repeat (destruct Hop as [Hop | Hop];
            [injection Hop as <- <-;
             cbn [String.length] in Hq;
             do 4 (destruct q as [|q]; [first [discriminate | lia] |]);
             lia |]).
    destruct Hop. }
  assert (Hb : (b < List.length file)%nat).
  { rewrite <- (Nat.add_0_r b). apply Hinside.
    unfold operator_table in Hop.
    repeat (destruct Hop as [Hop | Hop];
            [injection Hop as <- <-; cbn [String.length]; lia |]).
    destruct Hop. }
  destruct (fetch_ready b st0 Hready0) as (st1 & Hf & Hat & Hl & Ht);
    [lia |].
  rewrite <- Ht, <- Hl. clear Ht Hl.
  destruct (fuel - List.length blanks)%nat as [|fuel1] eqn:Ef; [lia |].
  assert (Hfuel1 : (String.length op < S fuel1)%nat) by lia.
  clear Ef Hfuel.
  assert (Hslice : (0 < String.length op)%nat ->
                   cstring (file_slice file b (b + String.length op - 1))
                   = cstring (list_ascii_of_string op)).
  { intro Hpos. rewrite <- (length_list_ascii_of_string op).
    rewrite file_slice_is; [reflexivity | | |].
    - rewrite length_list_ascii_of_string. exact Hpos.
    - rewrite length_list_ascii_of_string.
      specialize (Hinside (String.length op - 1)%nat). lia.
    - intros q Hq. rewrite length_list_ascii_of_string in Hq.
      apply Hchars. exact Hq. }
  cbn [dfa_loop].
  change (dfa_step keywordTrie fuel1 0 (Z.of_nat b) st0)
    with (case_0 (Z.of_nat b) st0).
  unfold case_0. rewrite Hf. clear Hf.
  pose proof (Hchars 0%nat) as H0. pose proof (Hchars 1%nat) as H1.
  pose proof (Hchars 2%nat) as H2. pose proof (Hchars 3%nat) as H3.
  pose proof (Hinside 1%nat) as I1. pose proof (Hinside 2%nat) as I2.
  pose proof (Hinside 3%nat) as I3.
  rewrite Nat.add_0_r in H0.
  replace (b + 1)%nat with (S b) in H1, I1 by lia.
  replace (b + 2)%nat with (S (S b)) in H2, I2 by lia.
  replace (b + 3)%nat with (S (S (S b))) in H3, I3 by lia.
  unfold operator_table in Hop.
  repeat (destruct Hop as [Hop | Hop];
          [injection Hop as <- <-; cbn [String.length] in * |]);
    try destruct Hop;
    cbn [list_ascii_of_string nth] in H0, H1, H2, H3;
    rewrite H0 by lia;
    repeat match goal with
           | |- context [if ?c then _ else _] =>
               let v := eval vm_compute in c in change c with v; cbv iota
           end.
  (* the states behind state 0 *)
  all: destruct fuel1 as [|fuel2]; [exfalso; lia |];
    cbn [dfa_loop dfa_step].
  all: try (try unfold case_53; try unfold one_or_accept;
            pass_on b st1 Hat H1;
            pose proof (at_cursor_set_forwardPtr b (S b) st1 Hat) as Hat2;
            destruct fuel2 as [|fuel3]; [exfalso; lia |];
            cbn [dfa_loop dfa_step]).
  all: try (try unfold case_66; try unfold one_or_accept;
            pass_on (S b) (set_forwardPtr (Z.of_nat (S b)) st1) Hat2 H2;
            pose proof (at_cursor_set_forwardPtr (S b) (S (S b)) _ Hat2)
              as Hat3;
            destruct fuel3 as [|fuel4]; [exfalso; lia |];
            cbn [dfa_loop dfa_step]).
  all: try (unfold one_or_accept;
            pass_on (S (S b))
              (set_forwardPtr (Z.of_nat (S (S b)))
                 (set_forwardPtr (Z.of_nat (S b)) st1)) Hat3 H3;
            pose proof (at_cursor_set_forwardPtr (S (S b)) (S (S (S b))) _
                          Hat3) as Hat4;
            destruct fuel4 as [|fuel5]; [exfalso; lia |];
            cbn [dfa_loop dfa_step]).
  all: match goal with
       | |- context [accept ?tk no_value (Z.of_nat ?bb) ?s] =>
           match goal with
           | Hc : at_cursor _ _ ?i s |- _ =>
               pose proof (accept_exact tk no_value bb i s Hc) as Hacc
           end
       end;
    destruct Hacc as (node & st' & E & Hrest); try lia;
    rewrite E; exists node, st'; split; [reflexivity |];
    exists node, st'; split; [reflexivity |];
    cbn [set_forwardPtr symTable lineNumber no_value] in Hrest;
    match type of Hrest with
    | context [file_slice _ _ ?i] =>
        match type of Hslice with
        | _ -> cstring (file_slice _ _ ?j) = _ =>
            replace j with i in Hslice by lia
        end
    end;
    rewrite Hslice in Hrest by lia;
    match goal with
    | |- context [at_cursor _ _ ?j] =>
        match type of Hrest with
        | context [at_cursor _ _ ?i] =>
            replace j with i by lia
        end
    end;
    exact Hrest.
Qed.

(** ** Numbers, relational operators and unknown characters *)

Lemma retract2_exact (i : nat) (st : LexerState) :
  at_cursor file garbage (S i) st -> (S i < List.length file)%nat ->
  at_cursor file garbage i (retract2 (set_forwardPtr (Z.of_nat (S (S i))) st))
  /\ symTable (retract2 (set_forwardPtr (Z.of_nat (S (S i))) st))
     = symTable st
  /\ lineNumber (retract2 (set_forwardPtr (Z.of_nat (S (S i))) st))
     = lineNumber st.
Proof.
  intros Hat Hi. split; [apply retract2_ok; assumption |].
  rewrite retract2_symTable, retract2_lineNumber. split; reflexivity.
Qed.

(** State 5 reads the rest of a number and accepts at its last digit:
    in front of a character that is neither a digit nor a dot, or in
    front of a dot that no digit follows (state 60). *)
Lemma number_run (n : nat) :
  forall (fuel b i : nat) (st : LexerState),
  at_cursor file garbage i st -> (b <= i)%nat ->
  (i < List.length file)%nat ->
  (forall q, (q < n)%nat -> isdigit (nth (S i + q) file NUL) = true) ->
  isdigit (nth (S i + n) file NUL) = false ->
  char_eqb (nth (S i + n) file NUL) "."
  && isdigit (nth (S (S i) + n) file NUL) = false ->
  (S n < fuel)%nat ->
  exists node st',
    dfa_loop keywordTrie fuel 5 (Z.of_nat b) st = Ok (Some node, st')
    /\ accepted file garbage (i + n)
         (cstring (file_slice file b (i + n))) NUM
         (num_value (file_slice file b (i + n)))
         (symTable st) (lineNumber st) (Return (Some node) st').
Proof.
  induction n as [|n IH];
    intros fuel b i st Hat Hb Hi Hdig Hend Hdot Hfuel;
    (destruct fuel as [|fuel]; [lia |]); cbn [dfa_loop];
    change (dfa_step keywordTrie fuel 5 (Z.of_nat b) st)
      with (case_5 (Z.of_nat b) st);
    unfold case_5; rewrite (fetch_at_cursor i st Hat) by lia.
  - rewrite Nat.add_0_r in Hend. rewrite !Nat.add_0_r in Hdot.
    rewrite Nat.add_0_r.
    destruct (char_eqb (nth (S i) file NUL) ".") eqn:Ed.
    + (* a dot: state 60 *)
      cbn [andb] in Hdot.
      assert (Hin : (S i < List.length file)%nat).
      { apply (inside_file (S i) _ eq_refl). intro Heq. rewrite Heq in Ed.
        discriminate Ed. }
      pose proof (at_cursor_set_forwardPtr i (S i) st Hat) as Hat1.
      destruct fuel as [|fuel]; [lia |]. cbn [dfa_loop].
      change (dfa_step keywordTrie fuel 60 (Z.of_nat b)
                (set_forwardPtr (Z.of_nat (S i)) st))
        with (case_60 (Z.of_nat b) (set_forwardPtr (Z.of_nat (S i)) st)).
      unfold case_60. rewrite (fetch_at_cursor (S i) _ Hat1) by lia.
      rewrite Hdot.
      destruct (retract2_exact i _ Hat1 Hin) as (Hat' & Ht & Hl).
      pose proof (accept_exact NUM num_value b i _ Hat' Hb Hi) as Hacc.
      rewrite Ht, Hl in Hacc.
      cbn [set_forwardPtr symTable lineNumber] in Hacc.
      destruct Hacc as (node & st' & E & Hrest). rewrite E.
      exists node, st'. split; [reflexivity |].
      exists node, st'. split; [reflexivity | exact Hrest].
    + rewrite Hend. cbn [negb].
      destruct (retract_exact i st Hat Hi) as (Hat' & Ht & Hl).
      pose proof (accept_exact NUM num_value b i _ Hat' Hb Hi) as Hacc.
      rewrite Ht, Hl in Hacc.
      destruct Hacc as (node & st' & E & Hrest). rewrite E.
      exists node, st'. split; [reflexivity |].
      exists node, st'. split; [reflexivity | exact Hrest].
  - assert (Hc : isdigit (nth (S i) file NUL) = true).
    { rewrite <- (Nat.add_0_r (S i)). apply Hdig. lia. }
    assert (Hnd : char_eqb (nth (S i) file NUL) "." = false).
    { destruct (char_eqb (nth (S i) file NUL) ".") eqn:E; [| reflexivity].
      char_contra. }
    rewrite Hnd, Hc. cbn [negb].
    assert (Hin : (S i < List.length file)%nat).
    { apply (inside_file (S i) _ eq_refl). intro Heq. rewrite Heq in Hc.
      discriminate Hc. }
    destruct (IH fuel b (S i) (set_forwardPtr (Z.of_nat (S i)) st))
      as (node & st' & Hrun & Hacc); try lia.
    + eapply at_cursor_set_forwardPtr. exact Hat.
    + intros q Hq. replace (S (S i) + q)%nat with (S i + S q)%nat by lia.
      apply Hdig. lia.
    + replace (S (S i) + n)%nat with (S i + S n)%nat by lia. exact Hend.
    + replace (S (S i) + n)%nat with (S i + S n)%nat by lia.
      replace (S (S (S i)) + n)%nat with (S (S i) + S n)%nat by lia.
      exact Hdot.
    + exists node, st'. split; [exact Hrun |].
      replace (i + S n)%nat with (S i + n)%nat by lia. exact Hacc.
Qed.

(** State 0 on a character that is not white space. *)
Lemma case_0_dispatch (k : nat) (st : LexerState) :
  ready file garbage k st -> (k < List.length file)%nat ->
  exists st',
    fetchNextChar st = (nth k file NUL, st')
    /\ at_cursor file garbage k st'
    /\ lineNumber st' = lineNumber st /\ symTable st' = symTable st
    /\ (isdigit (nth k file NUL) = true ->
        case_0 (Z.of_nat k) st = Goto 5 (Z.of_nat k) st')
    /\ (char_eqb (nth k file NUL) "<" = true ->
        case_0 (Z.of_nat k) st = Goto 53 (Z.of_nat k) st')
    /\ (char_eqb (nth k file NUL) ">" = true ->
        case_0 (Z.of_nat k) st = Goto 56 (Z.of_nat k) st')
    /\ (unknown_character (nth k file NUL) = true ->
        case_0 (Z.of_nat k) st
        = (let (node, st'') :=
             lookup_or_add (cstring [nth k file NUL]) LEXICAL_ERROR 0%Q st'
           in Return (Some node) st'')).
Proof.
  intros Hready Hk.
  destruct (fetch_ready k st Hready) as (st' & Hf & Hat & Hl & Ht); [lia |].
  exists st'.
  split; [exact Hf |]. split; [exact Hat |]. split; [exact Hl |].
  split; [exact Ht |].
  unfold case_0. rewrite Hf. clear Hf.
  remember (nth k file NUL) as ch eqn:Ech. clear Ech.
  split; [| split; [| split]]; intro H.
  - repeat match goal with
           | |- context [if ?c then _ else _] => destruct c eqn:?
           end;
      try reflexivity; char_contra.
  - apply char_eqb_eq in H. subst ch. reflexivity.
  - apply char_eqb_eq in H. subst ch. reflexivity.
  - unfold unknown_character in H. apply negb_true_iff in H.
    repeat (apply orb_false_iff in H; destruct H as [H ?]).
    cbn [list_ascii_of_string existsb] in *.
    repeat match goal with
           | H : _ || _ = false |- _ =>
               apply orb_false_iff in H; destruct H as [? ?]
           end.
    repeat match goal with
           | E : char_eqb ch ?c = false |- context [char_eqb ch ?c] =>
               rewrite E
           end.
    repeat match goal with
           | |- context [if ?c then _ else _] => destruct c eqn:?
           end;
      try reflexivity; char_contra.
Qed.

(** A number in its place: white space, then digits up to a character
    that ends the number. *)
Lemma number_in_place (blanks w : list ascii) (fuel k : nat)
  (st : LexerState) :
  ready file garbage k st ->
  (forall q, (q < List.length blanks)%nat ->
             nth (k + q) file NUL = nth q blanks NUL) ->
  forallb is_blank blanks = true ->
  (forall q, (q < List.length w)%nat ->
             nth (k + List.length blanks + q) file NUL = nth q w NUL) ->
  (0 < List.length w)%nat ->
  forallb isdigit w = true ->
  isdigit (nth (k + List.length blanks + List.length w) file NUL) = false ->
  char_eqb (nth (k + List.length blanks + List.length w) file NUL) "."
  && isdigit (nth (S (k + List.length blanks + List.length w)) file NUL)
  = false ->
  (List.length blanks + List.length w + 2 <= fuel)%nat ->
  exists node st',
    dfa_loop keywordTrie fuel 0 (Z.of_nat k) st = Ok (Some node, st')
    /\ accepted file garbage
         (k + List.length blanks + List.length w - 1)
         (cstring (file_slice file (k + List.length blanks)
                     (k + List.length blanks + List.length w - 1)))
         NUM
         (num_value (file_slice file (k + List.length blanks)
                       (k + List.length blanks + List.length w - 1)))
         (symTable st) (lineNumber st + newlines blanks)
         (Return (Some node) st').
Proof.
  intros Hready Hbl Hblank Hw Hlen Hdig Hend Hdot Hfuel.
  destruct (blanks_skipped blanks (fuel - List.length blanks) k st
              Hready Hbl Hblank) as (st0 & Hready0 & Hl0 & Ht0 & Hrun0).
  replace (List.length blanks + (fuel - List.length blanks))%nat
    with fuel in Hrun0 by lia.
  rewrite Hrun0. clear Hrun0.
  set (b := (k + List.length blanks)%nat) in *.
  assert (Hall : forall q, (q < List.length w)%nat ->
                           isdigit (nth (b + q) file NUL) = true).
  { intros q Hq. rewrite Hw by exact Hq.
    rewrite forallb_forall in Hdig. apply Hdig. apply nth_In. exact Hq. }
  assert (H0 : isdigit (nth b file NUL) = true).
  { rewrite <- (Nat.add_0_r b). apply Hall. exact Hlen. }
  assert (Hb : (b < List.length file)%nat).
  { apply (inside_file b _ eq_refl). intro Heq. rewrite Heq in H0.
    discriminate H0. }
  destruct (case_0_dispatch b st0 Hready0 Hb)
    as (st1 & _ & Hat1 & Hl1 & Ht1 & Hstep & _).
  specialize (Hstep H0).
  destruct (fuel - List.length blanks)%nat as [|fuel1] eqn:Ef; [lia |].
  cbn [dfa_loop].
  change (dfa_step keywordTrie fuel1 0 (Z.of_nat b) st0)
    with (case_0 (Z.of_nat b) st0).
  rewrite Hstep. rewrite <- Ht0, <- Hl0, <- Ht1, <- Hl1.
  destruct (List.length w) as [|n] eqn:En; [lia |].
  replace (b + S n - 1)%nat with (b + n)%nat by lia.
  destruct (number_run n fuel1 b b st1 Hat1 (le_n b) Hb)
    as (node & st' & Hrun & Hacc); try lia.
  - intros q Hq. replace (S b + q)%nat with (b + S q)%nat by lia.
    apply Hall. lia.
  - replace (S b + n)%nat with (b + S n)%nat by lia. exact Hend.
  - replace (S b + n)%nat with (b + S n)%nat by lia.
    replace (S (S b) + n)%nat with (S (b + S n))%nat by lia. exact Hdot.
  - exists node, st'. split; [exact Hrun | exact Hacc].
Qed.

(** A less-than or greater-than sign in its place. *)
Lemma relational_in_place (op : ascii) (blanks : list ascii)
  (fuel k : nat) (st : LexerState) :
  ready file garbage k st ->
  (forall q, (q < List.length blanks)%nat ->
             nth (k + q) file NUL = nth q blanks NUL) ->
  forallb is_blank blanks = true ->
  nth (k + List.length blanks) file NUL = op ->
  op = "<"%char \/ op = ">"%char ->
  ends_relational op (nth (S (k + List.length blanks)) file NUL)
    (nth (S (S (k + List.length blanks))) file NUL) = true ->
  (List.length blanks + 3 <= fuel)%nat ->
  exists node st',
    dfa_loop keywordTrie fuel 0 (Z.of_nat k) st = Ok (Some node, st')
    /\ accepted file garbage (k + List.length blanks)
         (cstring (file_slice file (k + List.length blanks)
                     (k + List.length blanks)))
         (relational_kind op) 0%Q
         (symTable st) (lineNumber st + newlines blanks)
         (Return (Some node) st').
Proof.
  intros Hready Hbl Hblank Hop Hwhich Hends Hfuel.
  destruct (blanks_skipped blanks (fuel - List.length blanks) k st
              Hready Hbl Hblank) as (st0 & Hready0 & Hl0 & Ht0 & Hrun0).
  replace (List.length blanks + (fuel - List.length blanks))%nat
    with fuel in Hrun0 by lia.
  rewrite Hrun0. clear Hrun0.
  set (b := (k + List.length blanks)%nat) in *.
  assert (Hb : (b < List.length file)%nat).
  { apply (inside_file b _ eq_refl). rewrite Hop.
    destruct Hwhich as [-> | ->]; discriminate. }
  destruct (case_0_dispatch b st0 Hready0 Hb)
    as (st1 & _ & Hat1 & Hl1 & Ht1 & _ & Hlt & Hgt & _).
  rewrite Hop in Hlt, Hgt.
  destruct (fuel - List.length blanks)%nat as [|[|[|fuel3]]] eqn:Ef;
    try lia.
  cbn [dfa_loop].
  change (dfa_step keywordTrie (S (S fuel3)) 0 (Z.of_nat b) st0)
    with (case_0 (Z.of_nat b) st0).
  rewrite <- Ht0, <- Hl0, <- Ht1, <- Hl1.
  unfold ends_relational in Hends. apply andb_true_iff in Hends.
  destruct Hends as [Heq Hminus].
  apply negb_true_iff in Heq. apply negb_true_iff in Hminus.
  pose proof (at_cursor_set_forwardPtr b (S b) st1 Hat1) as Hat2.
  destruct Hwhich as [-> | ->].
  - rewrite (Hlt eq_refl). cbn [dfa_loop].
    change (dfa_step keywordTrie (S fuel3) 53 (Z.of_nat b) st1)
      with (case_53 (Z.of_nat b) st1).
    unfold case_53. rewrite (fetch_at_cursor b st1 Hat1) by lia.
    rewrite Heq.
    change (char_eqb "<" "<") with true in Hminus. cbn [andb] in Hminus.
    destruct (char_eqb (nth (S b) file NUL) "-") eqn:Em.
    + cbn [andb] in Hminus.
      assert (Hin : (S b < List.length file)%nat).
      { apply (inside_file (S b) _ eq_refl). intro Heq'.
        rewrite Heq' in Em. discriminate Em. }
      cbn [dfa_loop].
      change (dfa_step keywordTrie fuel3 66 (Z.of_nat b)
                (set_forwardPtr (Z.of_nat (S b)) st1))
        with (case_66 (Z.of_nat b) (set_forwardPtr (Z.of_nat (S b)) st1)).
      unfold case_66. rewrite (fetch_at_cursor (S b) _ Hat2) by lia.
      rewrite Hminus.
      destruct (retract2_exact b _ Hat2 Hin) as (Hat' & Ht & Hl).
      pose proof (accept_exact LT no_value b b _ Hat' (le_n b) Hb) as Hacc.
      rewrite Ht, Hl in Hacc.
      cbn [set_forwardPtr symTable lineNumber] in Hacc.
      destruct Hacc as (node & st' & E & Hrest). rewrite E.
      exists node, st'. split; [reflexivity |].
      exists node, st'. split; [reflexivity | exact Hrest].
    + destruct (retract_exact b st1 Hat1 Hb) as (Hat' & Ht & Hl).
      pose proof (accept_exact LT no_value b b _ Hat' (le_n b) Hb) as Hacc.
      rewrite Ht, Hl in Hacc.
      destruct Hacc as (node & st' & E & Hrest). rewrite E.
      exists node, st'. split; [reflexivity |].
      exists node, st'. split; [reflexivity | exact Hrest].
  - rewrite (Hgt eq_refl). cbn [dfa_loop].
    change (dfa_step keywordTrie (S fuel3) 56 (Z.of_nat b) st1)
      with (one_or_accept "=" 57 GT (Z.of_nat b) st1).
    unfold one_or_accept. rewrite (fetch_at_cursor b st1 Hat1) by lia.
    rewrite Heq.
    destruct (retract_exact b st1 Hat1 Hb) as (Hat' & Ht & Hl).
    pose proof (accept_exact GT no_value b b _ Hat' (le_n b) Hb) as Hacc.
    rewrite Ht, Hl in Hacc.
    destruct Hacc as (node & st' & E & Hrest). rewrite E.
    exists node, st'. split; [reflexivity |].
    exists node, st'. split; [reflexivity | exact Hrest].
Qed.

(** A character that starts no token. *)
Lemma unknown_in_place (blanks : list ascii) (fuel k : nat)
  (st : LexerState) :
  ready file garbage k st ->
  (forall q, (q < List.length blanks)%nat ->
             nth (k + q) file NUL = nth q blanks NUL) ->
  forallb is_blank blanks = true ->
  unknown_character (nth (k + List.length blanks) file NUL) = true ->
  (List.length blanks < fuel)%nat ->
  exists node st',
    dfa_loop keywordTrie fuel 0 (Z.of_nat k) st = Ok (Some node, st')
    /\ accepted file garbage (k + List.length blanks)
         (String (nth (k + List.length blanks) file NUL) EmptyString)
         LEXICAL_ERROR 0%Q
         (symTable st) (lineNumber st + newlines blanks)
         (Return (Some node) st').
Proof.
  intros Hready Hbl Hblank Hun Hfuel.
  destruct (blanks_skipped blanks (fuel - List.length blanks) k st
              Hready Hbl Hblank) as (st0 & Hready0 & Hl0 & Ht0 & Hrun0).
  replace (List.length blanks + (fuel - List.length blanks))%nat
    with fuel in Hrun0 by lia.
  rewrite Hrun0. clear Hrun0.
  set (b := (k + List.length blanks)%nat) in *.
  assert (Hnn : char_eqb (nth b file NUL) NUL = false).
  { unfold unknown_character in Hun. apply negb_true_iff in Hun.
    apply orb_false_iff in Hun. destruct Hun as [Hun _].
    apply orb_false_iff in Hun. apply Hun. }
  assert (Hb : (b < List.length file)%nat).
  { apply (inside_file b _ eq_refl). apply char_eqb_neq. exact Hnn. }
  destruct (case_0_dispatch b st0 Hready0 Hb)
    as (st1 & _ & Hat1 & Hl1 & Ht1 & _ & _ & _ & Hstep).
  specialize (Hstep Hun).
  destruct (fuel - List.length blanks)%nat as [|fuel1] eqn:Ef; [lia |].
  cbn [dfa_loop].
  change (dfa_step keywordTrie fuel1 0 (Z.of_nat b) st0)
    with (case_0 (Z.of_nat b) st0).
  rewrite Hstep. rewrite <- Ht0, <- Hl0, <- Ht1, <- Hl1.
  cbn [cstring]. rewrite Hnn.
  match goal with
  | |- context [lookup_or_add ?a ?kd ?v st1] =>
      pose proof (at_cursor_lookup_or_add b a kd v st1 Hat1) as H;
      destruct (lookup_or_add_entered a kd v st1) as (H1 & H2 & H3 & H4);
      destruct (lookup_or_add a kd v st1) as [node st']
  end.
  cbn [fst snd] in *. exists node, st'. split; [reflexivity |].
  exists node, st'.
  exact (conj eq_refl (conj H1 (conj H2 (conj H3 (conj H4 H))))).
Qed.
End SmallFile.

Lemma comments_closed_ends (file : list ascii) :
  comments_closed file = true -> every_comment_ends file.
Proof.
  induction file as [|c file IH]; intros H i Hi.
  - destruct i; discriminate.
  - cbn [comments_closed] in H. apply andb_true_iff in H.
    destruct H as [Hc Hrest]. destruct i as [|i].
    + cbn [nth] in Hi. subst c. cbn in Hc.
      apply existsb_exists in Hc. destruct Hc as (d & Hd & E).
      apply char_eqb_eq in E. subst d.
      destruct (In_nth file NL NUL Hd) as (j & Hj & Hnth).
      exists (S j). cbn [List.length nth]. split; [lia | exact Hnth].
    + destruct (IH Hrest i Hi) as (j & Hj & Hnth).
      exists (S j). cbn [List.length nth]. split; [lia | exact Hnth].
Qed.

(** X11. The lexer returns on every file that fits into the first half
    of the twin buffer with a byte to spare (at most 254 bytes), whatever
    the buffer held before, provided every comment is closed by a
    newline: with fuel for three passes over the file, [getAllTokens]
    returns a token list that ends with the end-of-input token and holds
    no other token of that kind.  (The comment left open at the end of
    the file is the case in which it does not return.) *)
Theorem lexer_returns_on_small_files :
  forall (file garbage : list ascii) (fuel : nat),
    (List.length file < 255)%nat ->
    List.length garbage = 512%nat ->
    comments_closed file = true ->
    (3 * List.length file + 6 <= fuel)%nat ->
    exists body last st,
      getAllTokens fuel (fopen_contents file) garbage
      = Ok (body ++ [last], st)
      /\ tokenType (entry last) = DOLLAR
      /\ Forall (fun tok => tokenType (entry tok) <> DOLLAR) body.
Proof.
  intros file garbage fuel Hfit Hbuf Hcc Hfuel. unfold getAllTokens.
  apply comments_closed_ends in Hcc.
  destruct (all_tokens_return file garbage Hfit Hbuf keywords
              (List.length file) Hcc fuel 0
              (initial_state (fopen_contents file) garbage) createTokenList)
    as (body & last & st & Hrun & Hlast & Hbody); try lia.
  - left. repeat split.
  - exists body, last, st. split; [exact Hrun | split; assumption].
Qed.

Lemma lexer_returns_on_small_files_witness :
  exists body last st,
    getAllTokens 60
      (fopen_contents (list_ascii_of_string "% c" ++ NL
                         :: list_ascii_of_string "<--- _main b2"))
      (repeat NUL 512)
    = Ok (body ++ [last], st)
    /\ tokenType (entry last) = DOLLAR
    /\ Forall (fun tok => tokenType (entry tok) <> DOLLAR) body.
Proof.
  apply (lexer_returns_on_small_files
           (list_ascii_of_string "% c" ++ NL
              :: list_ascii_of_string "<--- _main b2")
           (repeat NUL 512) 60).
  - vm_compute. lia.
  - reflexivity.
  - reflexivity.
  - vm_compute. lia.
Defined.

(** X12. Line numbers.  In the token list of any run of the lexer that
    returns, every token carries a line number of at least 1, and the
    line numbers never decrease along the list. *)
Theorem line_numbers_never_decrease :
  forall (fuel : nat) (file : FILE) (garbage : list ascii)
         (tokens : TokenList) (st : LexerState),
    getAllTokens fuel file garbage = Ok (tokens, st) ->
    (forall tok, In tok tokens -> 1 <= lineNum tok)
    /\ (forall pre a mid b post,
          tokens = pre ++ a :: mid ++ b :: post -> lineNum a <= lineNum b).
Proof.
  intros fuel file garbage tokens st Hrun. unfold getAllTokens in Hrun.
  destruct (getAllTokens_loop_lines keywords fuel _ _ _ _
              (fun tok (H : In tok createTokenList) => False_ind _ H) Hrun)
    as (more & -> & Hlow & Hord).
  split; [exact Hlow | exact Hord].
Qed.

Lemma line_numbers_never_decrease_witness :
  exists (tokens : TokenList) (st : LexerState),
    getAllTokens 40
      (fopen_contents (list_ascii_of_string "b2" ++ NL
                         :: list_ascii_of_string "c3"))
      (repeat NUL 512) = Ok (tokens, st)
    /\ (forall tok, In tok tokens -> 1 <= lineNum tok)
    /\ (forall pre a mid b post,
          tokens = pre ++ a :: mid ++ b :: post -> lineNum a <= lineNum b).
Proof.
  eexists. eexists. split; [vm_compute; reflexivity |].
  eapply (line_numbers_never_decrease 40
            (fopen_contents (list_ascii_of_string "b2" ++ NL
                               :: list_ascii_of_string "c3"))
            (repeat NUL 512)).
  vm_compute. reflexivity.
Defined.

(* ================================================================== *)
(** * The retraction by two characters *)
(* ================================================================== *)

Section RetractTwo.

Lemma nth_skipn_plus (k i : nat) (l : list ascii) :
  nth i (skipn k l) NUL = nth (k + i) l NUL.
Proof.
  revert l. induction k as [|k IH]; intros l; [reflexivity |].
  destruct l as [|c l]; cbn [skipn Nat.add nth].
  - destruct i; reflexivity.
  - apply IH.
Qed.

(** The first byte of the half a refill has written: the next unread
    byte of the file, and NUL when there is none. *)
Lemma refill_first_byte (off : Z) (st : LexerState) :
  off = 0 \/ off = BUFFER_SZ ->
  List.length (buffer st) = 512%nat ->
  buf_get (buffer (refill off st)) off
  = if feof (fp st) then NUL else nth 0 (unread (fp st)) NUL.
Proof.
  intros Hoff Hlen. unfold refill, buf_get, buf_set.
  destruct (feof (fp st)).
  - cbn [set_stream buffer]. apply nth_poke_same.
    unfold BUFFER_SZ in Hoff. lia.
  - unfold fread. cbv zeta.
    set (data := firstn (Z.to_nat BUFFER_SZ) (unread (fp st))).
    assert (Hd : (List.length data <= 256)%nat).
    { unfold data, BUFFER_SZ. rewrite length_firstn. lia. }
    assert (Hfit : (Z.to_nat off + List.length data <= 512)%nat)
      by (unfold BUFFER_SZ in Hoff; lia).
    assert (H0 : nth 0 data NUL = nth 0 (unread (fp st)) NUL).
    { unfold data, BUFFER_SZ. destruct (unread (fp st)); reflexivity. }
    destruct (Z.of_nat (List.length data) <? BUFFER_SZ) eqn:E;
      cbn [set_stream buffer].
    + destruct data as [|c data'] eqn:Ed.
      * cbn [List.length blit]. rewrite Z.add_0_r, <- H0.
        apply nth_poke_same. unfold BUFFER_SZ in Hoff. lia.
      * rewrite nth_poke_other
          by (cbn [List.length]; unfold BUFFER_SZ in Hoff; lia).
        rewrite <- H0.
        replace (Z.to_nat off) with (Z.to_nat off + 0)%nat at 1 by lia.
        apply nth_blit_inside; [rewrite Hlen; exact Hfit |].
        cbn [List.length]. lia.
    + destruct data as [|c data'] eqn:Ed.
      * cbn [List.length] in E. unfold BUFFER_SZ in E. discriminate.
      * rewrite <- H0.
        replace (Z.to_nat off) with (Z.to_nat off + 0)%nat at 1 by lia.
        apply nth_blit_inside; [rewrite Hlen; exact Hfit |].
        cbn [List.length]. lia.
Qed.

Lemma refill_stream (off : Z) (st : LexerState) :
  feof (fp st) = false ->
  fp (refill off st) = snd (fread (Z.to_nat BUFFER_SZ) (fp st)).
Proof.
  intro He. unfold refill. rewrite He. unfold fread. cbv zeta.
  match goal with |- context [if ?c then _ else _] => destruct c end;
    reflexivity.
Qed.

Lemma length_refill (off : Z) (st : LexerState) :
  List.length (buffer (refill off st)) = List.length (buffer st).
Proof.
  unfold refill. destruct (feof (fp st)).
  - cbn [set_stream buffer]. unfold buf_set. apply length_poke.
  - unfold fread. cbv zeta.
    match goal with |- context [if ?c then _ else _] => destruct c end;
      cbn [set_stream buffer]; unfold buf_set;
      rewrite ?length_poke, length_blit; reflexivity.
Qed.

(** The character read after a second refill of the same half. *)
Lemma second_refill_byte (u : list ascii) :
  (if feof (snd (fread (Z.to_nat BUFFER_SZ) (fopen_contents u)))
   then NUL
   else nth 0 (unread (snd (fread (Z.to_nat BUFFER_SZ) (fopen_contents u))))
            NUL)
  = nth 256 u NUL.
Proof.
  unfold fread, fopen_contents, feof, BUFFER_SZ. cbv zeta.
  cbn [unread eof_flag snd orb].
  change (Z.to_nat 256) with 256%nat.
  destruct (List.length (firstn 256 u) <? 256)%nat eqn:E.
  - apply Nat.ltb_lt in E. rewrite length_firstn in E.
    symmetry. apply nth_overflow. lia.
  - rewrite nth_skipn_plus. rewrite Nat.add_0_r. reflexivity.
Qed.

(** [fetchNextChar] away from the end of a half, or with the flag set:
    no refill. *)
Lemma fetch_plain (st : LexerState) :
  (forwardPtr st <> BUFFER_SZ - 1 /\ forwardPtr st <> 2 * BUFFER_SZ - 1)
  \/ retractFlag st = true ->
  fetchNextChar st
  = (buf_get (buffer st) ((forwardPtr st + 1) mod (2 * BUFFER_SZ)),
     set_forwardPtr ((forwardPtr st + 1) mod (2 * BUFFER_SZ))
       (if retractFlag st then set_retractFlag false st else st)).
Proof.
  intro H. unfold fetchNextChar, refill_at_boundary.
  assert (E1 : (forwardPtr st =? BUFFER_SZ - 1) && negb (retractFlag st)
               = false).
  { destruct H as [[H _] | H].
    - apply Z.eqb_neq in H. rewrite H. reflexivity.
    - rewrite H. apply andb_false_r. }
  assert (E2 : (forwardPtr st =? 2 * BUFFER_SZ - 1) && negb (retractFlag st)
               = false).
  { destruct H as [[_ H] | H].
    - apply Z.eqb_neq in H. rewrite H. reflexivity.
    - rewrite H. apply andb_false_r. }
  rewrite E1, E2. cbv zeta.
  destruct (retractFlag st); reflexivity.
Qed.

(** [fetchNextChar] at the end of a half with the flag clear: the other
    half, which starts at [off], is refilled and its first byte
    returned. *)
Lemma fetch_refill (off : Z) (st : LexerState) :
  off = 0 \/ off = BUFFER_SZ ->
  forwardPtr st = (off + 2 * BUFFER_SZ - 1) mod (2 * BUFFER_SZ) ->
  retractFlag st = false ->
  fetchNextChar st
  = (buf_get (buffer (refill off st)) off,
     set_forwardPtr off (refill off st)).
Proof.
  intros Hoff Hpos Hflag.
  destruct (refill_frame off st) as (Hf & _ & Hr & _).
  unfold fetchNextChar, refill_at_boundary.
  rewrite Hflag. unfold BUFFER_SZ in *.
  destruct Hoff as [-> | ->].
  - change ((0 + 2 * 256 - 1) mod (2 * 256)) with 511 in Hpos.
    rewrite Hpos. cbn [Z.eqb Pos.eqb Z.sub Z.add Z.mul Pos.mul Z.opp
                       Z.pos_sub Pos.pred_double andb negb].
    cbv zeta. rewrite Hr, Hflag, Hf, Hpos. reflexivity.
  - change ((256 + 2 * 256 - 1) mod (2 * 256)) with 255 in Hpos.
    rewrite Hpos. cbn [Z.eqb Pos.eqb Z.sub Z.add Z.mul Pos.mul Z.opp
                       Z.pos_sub Pos.pred_double andb negb].
    cbv zeta. rewrite Hr, Hflag, Hf, Hpos. reflexivity.
Qed.

End RetractTwo.

(** X13. The retraction by two characters of the states 60 and 66 does
    not undo two reads when the second of them crossed into the other
    half of the twin buffer.  With the cursor on the last but one byte of
    a half and the stream not at its end, the second read refills the
    other half and returns the first unread byte of the file; after the
    retraction the cursor is back where it was, but the flag it set is
    cleared by the first read, so the second read refills the same half
    once more: it returns the 257th unread byte (NUL, the end of input,
    when the file has no such byte), and the 256 bytes before it are
    never seen. *)
Theorem two_character_retraction_skips_input :
  forall (st : LexerState),
    forwardPtr st = BUFFER_SZ - 2 \/ forwardPtr st = 2 * BUFFER_SZ - 2 ->
    retractFlag st = false ->
    feof (fp st) = false ->
    List.length (buffer st) = 512%nat ->
    let first := fetchNextChar (snd (fetchNextChar st)) in
    let back := retract2 (snd first) in
    let again := fetchNextChar (snd (fetchNextChar back)) in
    fst first = nth 0 (unread (fp st)) NUL
    /\ forwardPtr back = forwardPtr st
    /\ fst (fetchNextChar back) = fst (fetchNextChar st)
    /\ fst again = nth 256 (unread (fp st)) NUL
    /\ forwardPtr (snd again) = forwardPtr (snd first).
Proof.
  intros st Hpos Hflag Heof Hlen. cbv zeta.
  set (off := (forwardPtr st + 2) mod (2 * BUFFER_SZ)).
  assert (Hoff : off = 0 \/ off = BUFFER_SZ).
  { unfold off, BUFFER_SZ in *. destruct Hpos as [-> | ->];
      [right | left]; reflexivity. }
  assert (Hnext : (forwardPtr st + 1) mod (2 * BUFFER_SZ)
                  = (off + 2 * BUFFER_SZ - 1) mod (2 * BUFFER_SZ)).
  { unfold off, BUFFER_SZ in *. destruct Hpos as [-> | ->]; reflexivity. }
  assert (Hback : (if off - 2 <? 0 then off - 2 + 2 * BUFFER_SZ else off - 2)
                  = forwardPtr st).
  { unfold off, BUFFER_SZ in *. destruct Hpos as [-> | ->]; reflexivity. }
  assert (Hend : (forwardPtr st =? BUFFER_SZ - 1)
                 || (forwardPtr st =? BUFFER_SZ - 2)
                 || (forwardPtr st =? 2 * BUFFER_SZ - 1)
                 || (forwardPtr st =? 2 * BUFFER_SZ - 2) = true).
  { unfold BUFFER_SZ in *. destruct Hpos as [-> | ->]; reflexivity. }
  assert (Hin : forwardPtr st <> BUFFER_SZ - 1
                /\ forwardPtr st <> 2 * BUFFER_SZ - 1).
  { unfold BUFFER_SZ in *. lia. }
  (* the first read *)
  rewrite (fetch_plain st (or_introl Hin)), Hflag. cbn [snd fst].
  set (st1 := set_forwardPtr ((forwardPtr st + 1) mod (2 * BUFFER_SZ)) st).
  (* the second read refills *)
  rewrite (fetch_refill off st1 Hoff Hnext Hflag). cbn [snd fst].
  set (st2 := refill off st1).
  assert (Hb2 : buf_get (buffer st2) off = nth 0 (unread (fp st)) NUL).
  { unfold st2. rewrite refill_first_byte by assumption.
    cbn [st1 fp set_forwardPtr]. rewrite Heof. reflexivity. }
  destruct (refill_frame off st1) as (_ & _ & Hr2 & _). fold st2 in Hr2.
  cbn [st1 retractFlag set_forwardPtr] in Hr2. rewrite Hflag in Hr2.
  (* the retraction *)
  assert (Eback : retract2 (set_forwardPtr off st2)
                  = set_retractFlag true
                      (set_forwardPtr (forwardPtr st)
                         (set_forwardPtr off st2))).
  { unfold retract2. cbv zeta. cbn [forwardPtr set_forwardPtr].
    rewrite Hback, Hend. reflexivity. }
  rewrite Eback. clear Eback.
  set (st3 := set_retractFlag true _).
  (* the first read again: the flag is consumed *)
  rewrite (fetch_plain st3 (or_intror eq_refl)).
  cbn [st3 retractFlag set_retractFlag forwardPtr set_forwardPtr snd fst
       buffer].
  fold st3.
  set (st4 := set_forwardPtr _ (set_retractFlag false st3)).
  (* the second read again: the same half is refilled once more *)
  rewrite (fetch_refill off st4 Hoff Hnext eq_refl). cbn [snd fst].
  split; [exact Hb2 | split; [reflexivity | split; [| split]]].
  - unfold st2, refill, buf_get. cbn [st1 fp set_forwardPtr buffer].
    rewrite Heof. unfold fread. cbv zeta.
    assert (Hpos' : (Z.to_nat ((forwardPtr st + 1) mod (2 * BUFFER_SZ))
                     < Z.to_nat off)%nat
                    \/ (Z.to_nat off + 256
                        <= Z.to_nat ((forwardPtr st + 1) mod (2 * BUFFER_SZ)))%nat).
    { unfold off, BUFFER_SZ in *. destruct Hpos as [-> | ->];
        [left | right]; vm_compute; lia. }
    assert (Hd : (List.length
                    (firstn (Z.to_nat BUFFER_SZ) (unread (fp st))) <= 256)%nat).
    { unfold BUFFER_SZ. rewrite length_firstn. lia. }
    assert (Hne : Z.to_nat ((forwardPtr st + 1) mod (2 * BUFFER_SZ))
                  <> Z.to_nat
                       (off + Z.of_nat
                          (List.length
                             (firstn (Z.to_nat BUFFER_SZ)
                                     (unread (fp st)))))
                  \/ (Z.of_nat (List.length
                        (firstn (Z.to_nat BUFFER_SZ) (unread (fp st))))
                      <? BUFFER_SZ) = false).
    { destruct (Z.of_nat _ <? BUFFER_SZ) eqn:E; [left | right; reflexivity].
      apply Z.ltb_lt in E. unfold off, BUFFER_SZ in *.
      destruct Hpos as [-> | ->]; vm_compute Z.modulo; lia. }
    match goal with |- context [if ?c then _ else _] => destruct c eqn:E end;
      cbn [set_stream buffer]; unfold buf_set.
    + destruct Hne as [Hne | Hne]; [| discriminate].
      rewrite nth_poke_other by exact Hne.
      destruct Hpos' as [Hlt | Hge];
        [apply nth_blit_below; exact Hlt | apply nth_blit_above; lia].
    + destruct Hpos' as [Hlt | Hge];
        [apply nth_blit_below; exact Hlt | apply nth_blit_above; lia].
  - rewrite refill_first_byte;
      [| exact Hoff
       | cbn [st4 st3 buffer set_forwardPtr set_retractFlag]; unfold st2;
         rewrite length_refill; exact Hlen].
    cbn [st4 st3 fp set_forwardPtr set_retractFlag]. unfold st2.
    rewrite refill_stream by (cbn [st1 fp set_forwardPtr]; exact Heof).
    cbn [st1 fp set_forwardPtr].
    destruct (fp st) as [u e]. cbn [feof eof_flag] in Heof. subst e.
    cbn [unread]. apply (second_refill_byte u).
  - reflexivity.
Qed.

Lemma two_character_retraction_skips_input_witness :
  let st := set_forwardPtr 254
              (initial_state
                 (fopen_contents (repeat "a"%char 256 ++ repeat "b"%char 3))
                 (repeat NUL 512)) in
  let first := fetchNextChar (snd (fetchNextChar st)) in
  let back := retract2 (snd first) in
  let again := fetchNextChar (snd (fetchNextChar back)) in
  fst first = "a"%char /\ fst again = "b"%char.
Proof.
  cbv zeta.
  destruct (two_character_retraction_skips_input
              (set_forwardPtr 254
                 (initial_state
                    (fopen_contents
                       (repeat "a"%char 256 ++ repeat "b"%char 3))
                    (repeat NUL 512))))
    as (H1 & _ & _ & H4 & _).
  - left. reflexivity.
  - reflexivity.
  - reflexivity.
  - reflexivity.
  - split; [rewrite H1 | rewrite H4]; reflexivity.
Defined.

(* ================================================================== *)
(** * Tokens in their place *)
(* ================================================================== *)

Section InPlace.

Lemma nth_in_parts (pre mid post : list ascii) (q : nat) :
  (q < List.length mid)%nat ->
  nth (List.length pre + q) (pre ++ mid ++ post) NUL = nth q mid NUL.
Proof.
  intro Hq. rewrite app_nth2_plus. apply app_nth1. exact Hq.
Qed.

Lemma nth_behind_parts (pre mid post : list ascii) :
  nth (List.length pre + List.length mid) (pre ++ mid ++ post) NUL
  = hd NUL post.
Proof.
  rewrite app_nth2_plus. rewrite <- (Nat.add_0_r (List.length mid)).
  rewrite app_nth2_plus. destruct post; reflexivity.
Qed.

Lemma file_slice_part (pre mid post : list ascii) :
  (0 < List.length mid)%nat ->
  file_slice (pre ++ mid ++ post) (List.length pre)
    (List.length pre + List.length mid - 1) = mid.
Proof.
  intro Hm. unfold file_slice.
  rewrite skipn_app, skipn_all, Nat.sub_diag. cbn [app skipn].
  replace (S (List.length pre + List.length mid - 1) - List.length pre)%nat
    with (List.length mid + 0)%nat by lia.
  rewrite firstn_app_2. cbn [firstn]. apply app_nil_r.
Qed.

Lemma lower_no_NUL (w : list ascii) :
  forallb islower w = true ->
  forallb (fun c => negb (char_eqb c NUL)) w = true.
Proof.
  intro H. rewrite forallb_forall in *. intros c Hc.
  specialize (H c Hc). destruct (char_eqb c NUL) eqn:E; [| reflexivity].
  apply char_eqb_eq in E. subst c. discriminate H.
Qed.

Lemma entered_lexeme (t : SymbolTable) (lex : string) (tk : Token)
  (val : Q) :
  lexeme (entered t lex tk val) = lex.
Proof.
  unfold entered. destruct (lookupToken t lex) as [e |] eqn:E;
    [| reflexivity].
  apply lookupToken_Some in E. apply E.
Qed.

Lemma nth_file_parts (pre blanks name more post : list ascii) (q : nat) :
  (q < List.length name ->
   nth (List.length pre + List.length blanks + q)
       (pre ++ blanks ++ name ++ more ++ post) NUL = nth q name NUL)%nat
  /\ (q < List.length more ->
      nth (List.length pre + List.length blanks + List.length name + q)
          (pre ++ blanks ++ name ++ more ++ post) NUL = nth q more NUL)%nat
  /\ nth (List.length pre + List.length blanks + List.length name
          + List.length more)
         (pre ++ blanks ++ name ++ more ++ post) NUL = hd NUL post.
Proof.
  split; [| split].
  - intro Hq. rewrite <- Nat.add_assoc, app_nth2_plus, app_nth2_plus.
    apply app_nth1. exact Hq.
  - intro Hq. rewrite <- !Nat.add_assoc.
    rewrite app_nth2_plus, app_nth2_plus, app_nth2_plus.
    apply app_nth1. exact Hq.
  - rewrite <- !Nat.add_assoc.
    rewrite app_nth2_plus, app_nth2_plus, app_nth2_plus.
    rewrite <- (Nat.add_0_r (List.length more)), app_nth2_plus.
    destruct post; reflexivity.
Qed.

Lemma nth_firstn_lt (m q : nat) (l : list ascii) :
  (q < m)%nat -> nth q (firstn m l) NUL = nth q l NUL.
Proof.
  revert q l. induction m as [|m IH]; intros q l Hq; [lia |].
  destruct l as [|c l]; [destruct q; reflexivity |].
  destruct q as [|q]; [reflexivity |]. cbn [firstn nth]. apply IH. lia.
Qed.

Lemma forallb_firstn (p : ascii -> bool) (m : nat) (l : list ascii) :
  forallb p l = true -> forallb p (firstn m l) = true.
Proof.
  intro H. rewrite forallb_forall in *. intros c Hc. apply H.
  rewrite <- (firstn_skipn m l). apply in_or_app. left. exact Hc.
Qed.

Lemma forallb_nth (p : ascii -> bool) (l : list ascii) (q : nat) :
  forallb p l = true -> (q < List.length l)%nat -> p (nth q l NUL) = true.
Proof.
  intros H Hq. rewrite forallb_forall in H. apply H. apply nth_In. exact Hq.
Qed.

Lemma alnum_no_NUL (letters digits : list ascii) :
  forallb isalpha letters = true -> forallb isdigit digits = true ->
  forallb (fun c => negb (char_eqb c NUL))
          ("_"%char :: letters ++ digits) = true.
Proof.
  intros Ha Hd. cbn [forallb]. rewrite forallb_app.
  apply andb_true_iff. split; [reflexivity |].
  apply andb_true_iff. split; rewrite forallb_forall in *; intros c Hc.
  - specialize (Ha c Hc). destruct (char_eqb c NUL) eqn:E; [| reflexivity].
    apply char_eqb_eq in E. subst c. discriminate Ha.
  - specialize (Hd c Hc). destruct (char_eqb c NUL) eqn:E; [| reflexivity].
    apply char_eqb_eq in E. subst c. discriminate Hd.
Qed.

(** The DFA ends the letters in state 19 exactly on the name [main]. *)
Lemma main_state (letters : list ascii) :
  fold_left letter_step letters 69 = 19
  <-> letters = list_ascii_of_string "main".
Proof.
  split.
  - intro H.
    destruct letters as [|c1 [|c2 [|c3 [|c4 [|c5 l]]]]];
      try (rewrite long_name_state in H by (cbn [List.length]; lia);
           discriminate H);
      cbn [fold_left letter_step] in H; try discriminate H;
      repeat match type of H with
             | context [char_eqb ?x ?y] =>
                 let E := fresh "E" in
                 destruct (char_eqb x y) eqn:E; cbn [letter_step] in H;
                 try discriminate H
             end.
    repeat match goal with
           | E : char_eqb _ _ = true |- _ => apply char_eqb_eq in E; subst
           end.
    reflexivity.
  - intros ->. reflexivity.
Qed.

Lemma name_kind_spec (letters digits : list ascii) :
  forallb isdigit digits = true ->
  (if match digits with
      | [] => fold_left letter_step letters 69
      | _ => 81
      end =? 19
   then MAIN else FUNID)
  = name_kind (string_of_list_ascii ("_"%char :: letters ++ digits)).
Proof.
  intro Hd. unfold name_kind.
  destruct (String.eqb (string_of_list_ascii ("_"%char :: letters ++ digits))
                       "_main") eqn:E.
  - apply String.eqb_eq in E.
    apply (f_equal list_ascii_of_string) in E.
    rewrite list_ascii_of_string_of_list_ascii in E.
    injection E as E.
    destruct digits as [|d digits].
    + rewrite app_nil_r in E. apply main_state in E. rewrite E. reflexivity.
    + exfalso.
      assert (Hal : forallb isalpha (letters ++ d :: digits) = true)
        by (rewrite E; reflexivity).
      rewrite forallb_app in Hal. apply andb_true_iff in Hal.
      destruct Hal as [_ Hal]. cbn [forallb] in Hal, Hd.
      apply andb_true_iff in Hal, Hd. destruct Hal as [Ha _].
      destruct Hd as [Hd _]. clear - Ha Hd.
      unfold isalpha, isupper, islower, isdigit in *.
      change (code "A") with 65 in *. change (code "Z") with 90 in *.
      change (code "a") with 97 in *. change (code "z") with 122 in *.
      change (code "0") with 48 in *. change (code "9") with 57 in *.
      apply andb_true_iff in Hd. destruct Hd as [H1 H2].
      apply Z.leb_le in H1, H2.
      apply orb_true_iff in Ha.
      destruct Ha as [Ha | Ha]; apply andb_true_iff in Ha;
        destruct Ha as [H3 H4]; apply Z.leb_le in H3, H4; lia.
  - apply String.eqb_neq in E.
    destruct digits as [|d digits]; [| reflexivity].
    rewrite app_nil_r in E.
    destruct (fold_left letter_step letters 69 =? 19) eqn:Es;
      [| reflexivity].
    apply Z.eqb_eq in Es. apply main_state in Es. subst letters.
    exfalso. apply E. reflexivity.
Qed.

End InPlace.

(** X14. A word in its place.  In a file that fits into the first half
    of the twin buffer, with the lexer about to read the white space
    [blanks] in front of the lowercase word [w], and [w] followed by a
    character that is no lowercase letter (and, for a single letter b, c
    or d, no digit from 2 to 7, which would start an identifier), one
    call of [getNextToken] returns the token of [w]: its entry is the one
    the symbol table holds for [w], or else a fresh one whose kind is the
    keyword of [w] or the field identifier; its line is the line of the
    call plus the newlines skipped; the next call reads the character
    behind [w]. *)
Theorem word_token :
  forall (file garbage pre blanks w post : list ascii) (st : LexerState)
         (fuel : nat),
    (List.length file < 255)%nat -> List.length garbage = 512%nat ->
    file = pre ++ blanks ++ w ++ post ->
    ready file garbage (List.length pre) st ->
    forallb is_blank blanks = true ->
    (0 < List.length w)%nat -> forallb islower w = true ->
    islower (hd NUL post) = false ->
    is_b_d (hd NUL w) && (List.length w =? 1)%nat && is_2_7 (hd NUL post)
    = false ->
    (List.length blanks + List.length w + 2 <= fuel)%nat ->
    exists node st',
      getNextToken keywords fuel st = Ok (Some node, st')
      /\ lexeme (entry node) = string_of_list_ascii w
      /\ entry node
         = entered (symTable st) (string_of_list_ascii w)
             (word_kind (string_of_list_ascii w)) 0%Q
      /\ lineNum node = lineNumber st + newlines blanks
      /\ symTable st'
         = table_after (symTable st) (string_of_list_ascii w)
             (word_kind (string_of_list_ascii w)) 0%Q
      /\ lineNumber st' = lineNumber st + newlines blanks
      /\ ready file garbage
           (List.length pre + List.length blanks + List.length w) st'.
Proof.
  intros file garbage pre blanks w post st fuel Hfit Hbuf Hfile Hready
         Hblank Hlen Hlow Hend Hshape Hfuel.
  assert (Hk : (List.length pre <= List.length file)%nat).
  { rewrite Hfile, length_app. lia. }
  assert (Hbehind :
            nth (List.length pre + List.length blanks + List.length w)
                file NUL = hd NUL post).
  { rewrite Hfile, app_assoc, <- length_app. apply nth_behind_parts. }
  destruct (word_in_place file garbage Hfit Hbuf keywords blanks w fuel
              (List.length pre) st Hready)
    as (node & st' & Hrun & node' & st'' & E & He & Hl & Ht & Hl' & Hat);
    try assumption.
  - intros q Hq. rewrite Hfile. apply nth_in_parts. exact Hq.
  - intros q Hq. rewrite Hfile, app_assoc, <- length_app.
    apply nth_in_parts. exact Hq.
  - rewrite Hbehind. exact Hend.
  - rewrite Hbehind. destruct w; [cbn in Hlen; lia | exact Hshape].
  - injection E as <- <-.
    assert (Hslice :
              cstring (file_slice file
                         (List.length pre + List.length blanks)
                         (List.length pre + List.length blanks
                          + List.length w - 1))
              = string_of_list_ascii w).
    { rewrite Hfile, app_assoc, <- length_app, file_slice_part by exact Hlen.
      apply cstring_no_NUL, lower_no_NUL, Hlow. }
    rewrite Hslice in He, Ht. fold (word_kind (string_of_list_ascii w)) in *.
    exists node, st'. unfold getNextToken.
    rewrite (ready_begin file garbage Hfit Hbuf (List.length pre) st Hready Hk).
    split; [exact Hrun |].
    split; [rewrite He; apply entered_lexeme |].
    split; [exact He |]. split; [exact Hl |]. split; [exact Ht |].
    split; [exact Hl' |].
    replace (List.length pre + List.length blanks + List.length w)%nat
      with (S (List.length pre + List.length blanks + List.length w - 1))
      by lia.
    apply at_cursor_ready. exact Hat.
Qed.

Lemma word_token_witness :
  exists node st',
    getNextToken keywords 8
      (initial_state (fopen_contents (list_ascii_of_string " end;"))
                     (repeat NUL 512))
    = Ok (Some node, st')
    /\ lexeme (entry node) = "end"%string
    /\ tokenType (entry node) = END
    /\ lineNum node = 1.
Proof.
  destruct (word_token (list_ascii_of_string " end;") (repeat NUL 512)
              [] [" "%char] (list_ascii_of_string "end") [";"%char]
              (initial_state (fopen_contents (list_ascii_of_string " end;"))
                             (repeat NUL 512)) 8)
    as (node & st' & Hrun & Hlex & He & Hl & _).
  - cbn. lia.
  - reflexivity.
  - reflexivity.
  - left. repeat split; reflexivity.
  - reflexivity.
  - cbn. lia.
  - reflexivity.
  - reflexivity.
  - reflexivity.
  - cbn. lia.
  - exists node, st'. split; [exact Hrun |]. split; [exact Hlex |].
    split; [rewrite He; reflexivity | exact Hl].
Defined.

(** X15. A function name in its place.  In a file that fits into the
    first half of the twin buffer, with the lexer about to read the white
    space [blanks] in front of a name made of an underscore, letters and
    then digits, of at most 30 characters in all, which is followed by a
    character that does not continue it, one call of [getNextToken]
    returns the token of the name: its entry is the one the symbol table
    holds for the name, or else a fresh one of kind [MAIN] for [_main]
    and [FUNID] for every other name; its line is the line of the call
    plus the newlines skipped; the next call reads the character behind
    the name. *)
Theorem function_name_token :
  forall (file garbage pre blanks letters digits post : list ascii)
         (st : LexerState) (fuel : nat),
    (List.length file < 255)%nat -> List.length garbage = 512%nat ->
    file = pre ++ blanks ++ ("_"%char :: letters ++ digits) ++ post ->
    ready file garbage (List.length pre) st ->
    forallb is_blank blanks = true ->
    (0 < List.length letters)%nat -> forallb isalpha letters = true ->
    forallb isdigit digits = true ->
    isdigit (hd NUL post) = false ->
    match digits with [] => isalpha (hd NUL post) | _ => false end = false ->
    (1 + List.length letters + List.length digits <= 30)%nat ->
    (List.length blanks + List.length letters + List.length digits + 3
     <= fuel)%nat ->
    exists node st',
      getNextToken keywords fuel st = Ok (Some node, st')
      /\ lexeme (entry node)
         = string_of_list_ascii ("_"%char :: letters ++ digits)
      /\ entry node
         = entered (symTable st)
             (string_of_list_ascii ("_"%char :: letters ++ digits))
             (name_kind
                (string_of_list_ascii ("_"%char :: letters ++ digits)))
             0%Q
      /\ lineNum node = lineNumber st + newlines blanks
      /\ symTable st'
         = table_after (symTable st)
             (string_of_list_ascii ("_"%char :: letters ++ digits))
             (name_kind
                (string_of_list_ascii ("_"%char :: letters ++ digits)))
             0%Q
      /\ lineNumber st' = lineNumber st + newlines blanks
      /\ ready file garbage
           (List.length pre + List.length blanks
            + List.length ("_"%char :: letters ++ digits)) st'.
Proof.
  intros file garbage pre blanks letters digits post st fuel Hfit Hbuf
         Hfile Hready Hblank Hlen Halpha Hdigit Hend Hend' Hlimit Hfuel.
  set (name := "_"%char :: letters ++ digits) in *.
  assert (Hname : List.length name
                  = S (List.length letters + List.length digits)).
  { unfold name. cbn [List.length]. rewrite length_app. reflexivity. }
  assert (Hk : (List.length pre <= List.length file)%nat).
  { rewrite Hfile, length_app. lia. }
  assert (Hparts : forall q,
             (q < List.length name ->
              nth (List.length pre + List.length blanks + q) file NUL
              = nth q name NUL)%nat).
  { intros q Hq. rewrite Hfile.
    pose proof (nth_file_parts pre blanks name [] post q) as (H & _).
    cbn [app] in H. apply H. exact Hq. }
  assert (Hbehind :
            nth (List.length pre + List.length blanks + List.length name)
                file NUL = hd NUL post).
  { rewrite Hfile.
    pose proof (nth_file_parts pre blanks name [] post 0%nat) as (_ & _ & H).
    cbn [app List.length] in H. rewrite Nat.add_0_r in H. exact H. }
  set (b := (List.length pre + List.length blanks)%nat) in *.
  destruct (name_in_place file garbage Hfit Hbuf keywords blanks letters
              digits fuel (List.length pre) st Hready)
    as (node & st' & Hrun & node' & st'' & E & He & Hl & Ht & Hl' & Hat);
    try assumption.
  - intros q Hq. rewrite Hfile. apply nth_in_parts. exact Hq.
  - fold b. rewrite <- (Nat.add_0_r b). rewrite Hparts by lia. reflexivity.
  - intros q Hq. fold b.
    replace (S b + q)%nat with (b + S q)%nat by lia.
    rewrite Hparts by lia. unfold name. cbn [nth].
    apply app_nth1. exact Hq.
  - intros q Hq. fold b.
    replace (S (b + List.length letters) + q)%nat
      with (b + S (List.length letters + q))%nat by lia.
    rewrite Hparts by lia. unfold name. cbn [nth].
    apply app_nth2_plus.
  - fold b.
    replace (S (b + List.length letters + List.length digits))
      with (b + List.length name)%nat by lia.
    rewrite Hbehind. exact Hend.
  - intros ->. fold b. cbn [List.length]. cbn [List.length] in Hname.
    replace (S (b + List.length letters + 0))
      with (b + List.length name)%nat by lia.
    rewrite Hbehind. exact Hend'.
  - injection E as <- <-. fold b in He, Ht, Hat.
    assert (Hslice :
              cstring (file_slice file b
                         (b + List.length letters + List.length digits))
              = string_of_list_ascii name).
    { replace (b + List.length letters + List.length digits)%nat
        with (b + List.length name - 1)%nat by lia.
      unfold b. rewrite Hfile, app_assoc, <- length_app, file_slice_part
        by lia.
      apply cstring_no_NUL. apply alnum_no_NUL; assumption. }
    rewrite Hslice, (name_kind_spec letters digits Hdigit) in He, Ht.
    fold name in He, Ht.
    exists node, st'. unfold getNextToken.
    rewrite (ready_begin file garbage Hfit Hbuf (List.length pre) st
               Hready Hk).
    split; [exact Hrun |].
    split; [rewrite He; apply entered_lexeme |].
    split; [exact He |]. split; [exact Hl |]. split; [exact Ht |].
    split; [exact Hl' |].
    replace (b + List.length name)%nat
      with (S (b + List.length letters + List.length digits)) by lia.
    apply at_cursor_ready. exact Hat.
Qed.

Lemma function_name_token_witness :
  exists node st',
    getNextToken keywords 12
      (initial_state (fopen_contents (list_ascii_of_string "_main "))
                     (repeat NUL 512))
    = Ok (Some node, st')
    /\ lexeme (entry node) = "_main"%string
    /\ tokenType (entry node) = MAIN.
Proof.
  destruct (function_name_token (list_ascii_of_string "_main ")
              (repeat NUL 512) [] [] (list_ascii_of_string "main") []
              [" "%char]
              (initial_state (fopen_contents (list_ascii_of_string "_main "))
                             (repeat NUL 512)) 12)
    as (node & st' & Hrun & Hlex & He & _).
  - cbn. lia.
  - reflexivity.
  - reflexivity.
  - left. repeat split; reflexivity.
  - reflexivity.
  - cbn. lia.
  - reflexivity.
  - reflexivity.
  - reflexivity.
  - reflexivity.
  - cbn. lia.
  - cbn. lia.
  - exists node, st'. split; [exact Hrun |]. split; [exact Hlex |].
    rewrite He. reflexivity.
Defined.

(** X16. A function name of more than 30 characters.  In a file that
    fits into the first half of the twin buffer, when the first 31
    characters of a name (an underscore, letters, then digits) stand
    behind the white space the lexer is about to read, and are followed
    by digits and a character that is none, one call of [getNextToken]
    returns the error token
    [FUN_LENGTH_EXC] whose lexeme is the first 30 characters and three
    dots.  Behind the 31st character the call passes over digits only:
    the next call reads the first character that is no digit, so letters
    that continue the name are read as the start of another token. *)
Theorem long_function_name_token :
  forall (file garbage pre blanks letters digits more post : list ascii)
         (st : LexerState) (fuel : nat),
    (List.length file < 255)%nat -> List.length garbage = 512%nat ->
    file = pre ++ blanks ++ ("_"%char :: letters ++ digits) ++ more ++ post ->
    ready file garbage (List.length pre) st ->
    forallb is_blank blanks = true ->
    (0 < List.length letters)%nat -> forallb isalpha letters = true ->
    forallb isdigit digits = true ->
    (1 + List.length letters + List.length digits = 31)%nat ->
    forallb isdigit more = true ->
    isdigit (hd NUL post) = false ->
    (List.length blanks + List.length more + 33 <= fuel)%nat ->
    exists node st',
      getNextToken keywords fuel st = Ok (Some node, st')
      /\ lexeme (entry node)
         = string_of_list_ascii
             (firstn 30 ("_"%char :: letters ++ digits)
              ++ ["."; "."; "."]%char)
      /\ entry node
         = entered (symTable st)
             (string_of_list_ascii
                (firstn 30 ("_"%char :: letters ++ digits)
                 ++ ["."; "."; "."]%char))
             FUN_LENGTH_EXC 0%Q
      /\ lineNum node = lineNumber st + newlines blanks
      /\ symTable st'
         = table_after (symTable st)
             (string_of_list_ascii
                (firstn 30 ("_"%char :: letters ++ digits)
                 ++ ["."; "."; "."]%char))
             FUN_LENGTH_EXC 0%Q
      /\ lineNumber st' = lineNumber st + newlines blanks
      /\ ready file garbage
           (List.length pre + List.length blanks + 31 + List.length more)
           st'.
Proof.
  intros file garbage pre blanks letters digits more post st fuel Hfit Hbuf
         Hfile Hready Hblank Hlen Halpha Hdigit Hsize Hmore Hend Hfuel.
  set (name := "_"%char :: letters ++ digits) in *.
  assert (Hname : List.length name = 31%nat).
  { unfold name. cbn [List.length]. rewrite length_app. lia. }
  assert (Hk : (List.length pre <= List.length file)%nat).
  { rewrite Hfile, length_app. lia. }
  assert (Hparts : forall q,
             (q < 31 ->
              nth (List.length pre + List.length blanks + q) file NUL
              = nth q name NUL)%nat).
  { intros q Hq. rewrite Hfile.
    pose proof (nth_file_parts pre blanks name more post q) as (H & _).
    apply H. lia. }
  assert (Hparts' : forall q,
             (q < List.length more ->
              nth (List.length pre + List.length blanks + 31 + q) file NUL
              = nth q more NUL)%nat).
  { intros q Hq. rewrite Hfile.
    pose proof (nth_file_parts pre blanks name more post q) as (_ & H & _).
    rewrite Hname in H. apply H. exact Hq. }
  assert (Hbehind :
            nth (List.length pre + List.length blanks + 31
                 + List.length more) file NUL = hd NUL post).
  { rewrite Hfile.
    pose proof (nth_file_parts pre blanks name more post 0%nat)
      as (_ & _ & H).
    rewrite Hname in H. exact H. }
  set (b := (List.length pre + List.length blanks)%nat) in *.
  assert (Hrest : forall q, nth (S q) name NUL
                            = nth q (letters ++ digits) NUL)
    by reflexivity.
  assert (Hrun :
            exists node st',
              dfa_loop keywords fuel 0 (Z.of_nat (List.length pre)) st
              = Ok (Some node, st')
              /\ accepted file garbage (b + 30 + List.length more)
                   (cstring (ellipsis 30 (file_slice file b (b + 30))))
                   FUN_LENGTH_EXC 0%Q (symTable st)
                   (lineNumber st + newlines blanks)
                   (Return (Some node) st')).
  { destruct (Nat.eq_dec (List.length digits) 0) as [Ed | Ed].
    - (* the name has letters only *)
      apply (long_name_in_place file garbage Hfit Hbuf keywords blanks
               (firstn 29 letters) [] (List.length more) fuel
               (List.length pre) st Hready); try assumption.
      + intros q Hq. rewrite Hfile. apply nth_in_parts. exact Hq.
      + fold b. rewrite <- (Nat.add_0_r b). rewrite Hparts by lia.
        reflexivity.
      + intros q Hq. rewrite length_firstn in Hq. fold b.
        replace (S b + q)%nat with (b + S q)%nat by lia.
        rewrite Hparts, Hrest by lia. rewrite app_nth1 by lia.
        symmetry. apply nth_firstn_lt. lia.
      + rewrite length_firstn. lia.
      + apply forallb_firstn. exact Halpha.
      + intros q Hq. cbn [List.length] in Hq. lia.
      + reflexivity.
      + rewrite length_firstn. cbn [List.length]. lia.
      + right. split; [reflexivity |]. fold b.
        rewrite Hparts, Hrest by lia. rewrite app_nth1 by lia.
        apply forallb_nth; [exact Halpha | lia].
      + intros q Hq. fold b. rewrite Hparts' by exact Hq.
        apply forallb_nth; assumption.
      + fold b. rewrite Hbehind. exact Hend.
    - (* the name ends with digits *)
      assert (Hd : (0 < List.length digits)%nat) by lia.
      apply (long_name_in_place file garbage Hfit Hbuf keywords blanks
               letters (firstn (List.length digits - 1) digits)
               (List.length more) fuel (List.length pre) st Hready);
        try assumption.
      + intros q Hq. rewrite Hfile. apply nth_in_parts. exact Hq.
      + fold b. rewrite <- (Nat.add_0_r b). rewrite Hparts by lia.
        reflexivity.
      + intros q Hq. fold b.
        replace (S b + q)%nat with (b + S q)%nat by lia.
        rewrite Hparts, Hrest by lia. apply app_nth1. exact Hq.
      + intros q Hq. rewrite length_firstn in Hq. fold b.
        replace (S (b + List.length letters) + q)%nat
          with (b + S (List.length letters + q))%nat by lia.
        rewrite Hparts, Hrest by lia. rewrite app_nth2_plus.
        symmetry. apply nth_firstn_lt. lia.
      + apply forallb_firstn. exact Hdigit.
      + rewrite length_firstn. lia.
      + left. fold b. rewrite Hparts, Hrest by lia.
        replace 29%nat
          with (List.length letters + (List.length digits - 1))%nat by lia.
        rewrite app_nth2_plus. apply forallb_nth; [exact Hdigit | lia].
      + intros q Hq. fold b. rewrite Hparts' by exact Hq.
        apply forallb_nth; assumption.
      + fold b. rewrite Hbehind. exact Hend. }
  destruct Hrun
    as (node & st' & Hrun & node' & st'' & E & He & Hl & Ht & Hl' & Hat).
  injection E as <- <-.
  assert (Hslice :
            cstring (ellipsis 30 (file_slice file b (b + 30)))
            = string_of_list_ascii (firstn 30 name ++ ["."; "."; "."]%char)).
  { replace (b + 30)%nat with (b + List.length name - 1)%nat by lia.
    unfold b. rewrite Hfile, app_assoc, <- length_app, file_slice_part
      by lia.
    unfold ellipsis. apply cstring_no_NUL. rewrite forallb_app.
    apply andb_true_iff. split; [| reflexivity].
    apply forallb_firstn. apply alnum_no_NUL; assumption. }
  rewrite Hslice in He, Ht.
  exists node, st'. unfold getNextToken.
  rewrite (ready_begin file garbage Hfit Hbuf (List.length pre) st
             Hready Hk).
  split; [exact Hrun |].
  split; [rewrite He; apply entered_lexeme |].
  split; [exact He |]. split; [exact Hl |]. split; [exact Ht |].
  split; [exact Hl' |].
  replace (b + 31 + List.length more)%nat
    with (S (b + 30 + List.length more)) by lia.
  apply at_cursor_ready. exact Hat.
Qed.

Lemma long_function_name_token_witness :
  exists node st',
    getNextToken keywords 40
      (initial_state
         (fopen_contents
            (list_ascii_of_string "_abcdefghijklmnopqrstuvwxyzabcde12xy"))
         (repeat NUL 512))
    = Ok (Some node, st')
    /\ lexeme (entry node) = "_abcdefghijklmnopqrstuvwxyzabc..."%string
    /\ tokenType (entry node) = FUN_LENGTH_EXC
    /\ ready (list_ascii_of_string "_abcdefghijklmnopqrstuvwxyzabcde12xy")
             (repeat NUL 512) 31 st'.
Proof.
  destruct (long_function_name_token
              (list_ascii_of_string "_abcdefghijklmnopqrstuvwxyzabcde12xy")
              (repeat NUL 512) [] []
              (list_ascii_of_string "abcdefghijklmnopqrstuvwxyzabcd") []
              [] (list_ascii_of_string "e12xy")
              (initial_state
                 (fopen_contents
                    (list_ascii_of_string
                       "_abcdefghijklmnopqrstuvwxyzabcde12xy"))
                 (repeat NUL 512)) 40)
    as (node & st' & Hrun & Hlex & He & _ & _ & _ & Hnext).
  - cbn. lia.
  - reflexivity.
  - reflexivity.
  - left. repeat split; reflexivity.
  - reflexivity.
  - cbn. lia.
  - reflexivity.
  - reflexivity.
  - cbn. lia.
  - reflexivity.
  - reflexivity.
  - cbn. lia.
  - exists node, st'. split; [exact Hrun |]. split; [exact Hlex |].
    split; [rewrite He; reflexivity | exact Hnext].
Defined.

(** X17. The end of the input.  In a file that fits into the first
    half of the twin buffer, when the white space [blanks] is followed by
    the end of the file, or by a NUL byte in the file, one call of
    [getNextToken] returns the end-of-input token, on the line of the
    call plus the newlines skipped, and leaves the symbol table as it
    is.  The loop of [getAllTokens], when it makes this call, appends the
    token to its list and returns: what follows a NUL byte is never
    read. *)
Theorem end_of_input_token :
  forall (file garbage pre blanks post : list ascii) (st : LexerState)
         (fuel : nat),
    (List.length file < 255)%nat -> List.length garbage = 512%nat ->
    file = pre ++ blanks ++ post ->
    ready file garbage (List.length pre) st ->
    forallb is_blank blanks = true ->
    hd NUL post = NUL ->
    (List.length blanks < fuel)%nat ->
    exists st',
      getNextToken keywords fuel st
      = Ok (Some (eof_token (lineNumber st + newlines blanks)), st')
      /\ symTable st' = symTable st
      /\ forall tokenList : TokenList,
           getAllTokens_loop keywords (S fuel) st tokenList
           = Ok (appendTokenNode tokenList
                   (eof_token (lineNumber st + newlines blanks)), st').
Proof.
  intros file garbage pre blanks post st fuel Hfit Hbuf Hfile Hready
         Hblank Hend Hfuel.
  assert (Hk : (List.length pre <= List.length file)%nat).
  { rewrite Hfile, length_app. lia. }
  destruct (eof_in_place file garbage Hfit Hbuf keywords blanks fuel
              (List.length pre) st Hready)
    as (st' & Hrun & Ht & _); try assumption.
  - intros q Hq. rewrite Hfile. apply nth_in_parts. exact Hq.
  - rewrite Hfile, !length_app. lia.
  - rewrite Hfile.
    pose proof (nth_file_parts pre blanks [] [] post 0%nat) as (_ & _ & H).
    cbn [app List.length] in H. rewrite !Nat.add_0_r in H.
    rewrite H. exact Hend.
  - assert (Hcall : getNextToken keywords fuel st
                    = Ok (Some (eof_token (lineNumber st + newlines blanks)),
                          st')).
    { unfold getNextToken.
      rewrite (ready_begin file garbage Hfit Hbuf (List.length pre) st
                 Hready Hk).
      exact Hrun. }
    exists st'. split; [exact Hcall | split; [exact Ht |]].
    intro tokenList. cbn [getAllTokens_loop]. rewrite Hcall. reflexivity.
Qed.

Lemma end_of_input_token_witness :
  exists st',
    getNextToken keywords 5
      (initial_state
         (fopen_contents (" "%char :: NL :: NUL :: list_ascii_of_string "end"))
         (repeat NUL 512))
    = Ok (Some (eof_token 2), st').
Proof.
  destruct (end_of_input_token
              (" "%char :: NL :: NUL :: list_ascii_of_string "end")
              (repeat NUL 512) [] [" "%char; NL]
              (NUL :: list_ascii_of_string "end")
              (initial_state
                 (fopen_contents
                    (" "%char :: NL :: NUL :: list_ascii_of_string "end"))
                 (repeat NUL 512)) 5)
    as (st' & Hrun & _).
  - cbn. lia.
  - reflexivity.
  - reflexivity.
  - left. repeat split; reflexivity.
  - reflexivity.
  - reflexivity.
  - cbn. lia.
  - exists st'. exact Hrun.
Defined.

(** X18. A comment in its place.  In a file that fits into the first
    half of the twin buffer, for a percent sign behind the white space
    the lexer is about to read, a text without newline and the newline
    that ends it, one call of [getNextToken]
    returns the comment token: its lexeme is the percent sign alone, its
    line is the line of the comment; the call passes over the text and
    the newline and counts the line, so the next call reads the first
    character of the next line. *)
Theorem comment_token :
  forall (file garbage pre blanks text post : list ascii) (st : LexerState)
         (fuel : nat),
    (List.length file < 255)%nat -> List.length garbage = 512%nat ->
    file = pre ++ blanks ++ ("%"%char :: text ++ [NL]) ++ post ->
    ready file garbage (List.length pre) st ->
    forallb is_blank blanks = true ->
    forallb (fun c => negb (char_eqb c NL)) text = true ->
    (List.length blanks + List.length text + 3 <= fuel)%nat ->
    exists node st',
      getNextToken keywords fuel st = Ok (Some node, st')
      /\ lexeme (entry node) = "%"%string
      /\ entry node = entered (symTable st) "%" COMMENT 0%Q
      /\ lineNum node = lineNumber st + newlines blanks
      /\ symTable st' = table_after (symTable st) "%" COMMENT 0%Q
      /\ lineNumber st' = lineNumber st + newlines blanks + 1
      /\ ready file garbage
           (List.length pre + List.length blanks + List.length text + 2)
           st'.
Proof.
  intros file garbage pre blanks text post st fuel Hfit Hbuf Hfile Hready
         Hblank Htext Hfuel.
  set (body := "%"%char :: text ++ [NL]) in *.
  assert (Hbody : List.length body = (List.length text + 2)%nat).
  { unfold body. cbn [List.length]. rewrite length_app. cbn [List.length].
    lia. }
  assert (Hk : (List.length pre <= List.length file)%nat).
  { rewrite Hfile, length_app. lia. }
  assert (Hparts : forall q,
             (q < List.length body ->
              nth (List.length pre + List.length blanks + q) file NUL
              = nth q body NUL)%nat).
  { intros q Hq. rewrite Hfile.
    pose proof (nth_file_parts pre blanks body [] post q) as (H & _).
    cbn [app] in H. apply H. exact Hq. }
  set (b := (List.length pre + List.length blanks)%nat) in *.
  destruct (comment_in_place file garbage Hfit Hbuf keywords blanks
              (List.length text) fuel (List.length pre) st Hready)
    as (node & st' & Hrun & He & Hl & Ht & Hl' & Hat); try assumption.
  - intros q Hq. rewrite Hfile. apply nth_in_parts. exact Hq.
  - fold b. rewrite <- (Nat.add_0_r b). rewrite Hparts by lia. reflexivity.
  - intros q Hq. fold b. replace (S b + q)%nat with (b + S q)%nat by lia.
    rewrite Hparts by lia. unfold body. cbn [nth].
    rewrite app_nth1 by exact Hq.
    rewrite forallb_forall in Htext.
    apply negb_true_iff. apply Htext. apply nth_In. exact Hq.
  - fold b.
    replace (S b + List.length text)%nat
      with (b + S (List.length text))%nat by lia.
    rewrite Hparts by lia. unfold body. cbn [nth].
    rewrite <- (Nat.add_0_r (List.length text)), app_nth2_plus.
    reflexivity.
  - exists node, st'. unfold getNextToken.
    rewrite (ready_begin file garbage Hfit Hbuf (List.length pre) st
               Hready Hk).
    split; [exact Hrun |].
    split; [rewrite He; apply entered_lexeme |].
    split; [exact He |]. split; [exact Hl |]. split; [exact Ht |].
    split; [exact Hl' |].
    fold b in Hat.
    replace (b + List.length text + 2)%nat
      with (S (S b + List.length text)) by lia.
    apply at_cursor_ready. exact Hat.
Qed.

Lemma comment_token_witness :
  exists node st',
    getNextToken keywords 10
      (initial_state
         (fopen_contents (list_ascii_of_string "% ab" ++ [NL; "c"%char]))
         (repeat NUL 512))
    = Ok (Some node, st')
    /\ lexeme (entry node) = "%"%string
    /\ tokenType (entry node) = COMMENT
    /\ lineNum node = 1
    /\ lineNumber st' = 2.
Proof.
  destruct (comment_token
              (list_ascii_of_string "% ab" ++ [NL; "c"%char])
              (repeat NUL 512) [] [] (list_ascii_of_string " ab")
              ["c"%char]
              (initial_state
                 (fopen_contents
                    (list_ascii_of_string "% ab" ++ [NL; "c"%char]))
                 (repeat NUL 512)) 10)
    as (node & st' & Hrun & Hlex & He & Hl & _ & Hl' & _).
  - cbn. lia.
  - reflexivity.
  - reflexivity.
  - left. repeat split; reflexivity.
  - reflexivity.
  - reflexivity.
  - cbn. lia.
  - exists node, st'. split; [exact Hrun |]. split; [exact Hlex |].
    split; [rewrite He; reflexivity |]. split; [exact Hl | exact Hl'].
Defined.

(** X19. Operators and punctuation.  Each of the twenty lexemes of
    [operator_table] is accepted without a look at the character behind
    it: in a file that fits into the first half of the twin buffer, with
    the lexer about to read white space and then the lexeme, one call of
    [getNextToken] returns its token, whatever follows, and the next
    call reads the character behind the lexeme. *)
Theorem operator_token :
  forall (op : string) (tk : Token)
         (file garbage pre blanks post : list ascii) (st : LexerState)
         (fuel : nat),
    In (op, tk) operator_table ->
    (List.length file < 255)%nat -> List.length garbage = 512%nat ->
    file = pre ++ blanks ++ list_ascii_of_string op ++ post ->
    ready file garbage (List.length pre) st ->
    forallb is_blank blanks = true ->
    (List.length blanks + String.length op + 2 <= fuel)%nat ->
    exists node st',
      getNextToken keywords fuel st = Ok (Some node, st')
      /\ lexeme (entry node) = op
      /\ entry node = entered (symTable st) op tk 0%Q
      /\ lineNum node = lineNumber st + newlines blanks
      /\ symTable st' = table_after (symTable st) op tk 0%Q
      /\ lineNumber st' = lineNumber st + newlines blanks
      /\ ready file garbage
           (List.length pre + List.length blanks + String.length op) st'.
Proof.
  intros op tk file garbage pre blanks post st fuel Hop Hfit Hbuf Hfile
         Hready Hblank Hfuel.
  assert (Hk : (List.length pre <= List.length file)%nat).
  { rewrite Hfile, length_app. lia. }
  assert (Hpos : (0 < String.length op)%nat).
  { unfold operator_table in Hop.
    repeat (destruct Hop as [Hop | Hop];
            [injection Hop as <- <-; cbn [String.length]; lia |]).
    destruct Hop. }
  destruct (operator_in_place file garbage Hfit Hbuf keywords op tk blanks
              fuel (List.length pre) st Hop Hready)
    as (node & st' & Hrun & node' & st'' & E & He & Hl & Ht & Hl' & Hat);
    try assumption.
  - intros q Hq. rewrite Hfile. apply nth_in_parts. exact Hq.
  - intros q Hq. rewrite Hfile.
    pose proof (nth_file_parts pre blanks (list_ascii_of_string op) []
                  post q) as (H & _).
    cbn [app] in H. apply H. rewrite length_list_ascii_of_string. exact Hq.
  - injection E as <- <-.
    exists node, st'. unfold getNextToken.
    rewrite (ready_begin file garbage Hfit Hbuf (List.length pre) st
               Hready Hk).
    split; [exact Hrun |].
    split; [rewrite He; apply entered_lexeme |].
    split; [exact He |]. split; [exact Hl |]. split; [exact Ht |].
    split; [exact Hl' |].
    replace (List.length pre + List.length blanks + String.length op)%nat
      with (S (List.length pre + List.length blanks + String.length op - 1))
      by lia.
    apply at_cursor_ready. exact Hat.
Qed.

Lemma operator_token_witness :
  exists node st',
    getNextToken keywords 8
      (initial_state (fopen_contents (list_ascii_of_string " <---c2"))
                     (repeat NUL 512))
    = Ok (Some node, st')
    /\ lexeme (entry node) = "<---"%string
    /\ tokenType (entry node) = ASSIGNOP.
Proof.
  destruct (operator_token "<---" ASSIGNOP
              (list_ascii_of_string " <---c2") (repeat NUL 512)
              [] [" "%char] (list_ascii_of_string "c2")
              (initial_state (fopen_contents (list_ascii_of_string " <---c2"))
                             (repeat NUL 512)) 8)
    as (node & st' & Hrun & Hlex & He & _).
  - unfold operator_table. do 13 right. left. reflexivity.
  - cbn. lia.
  - reflexivity.
  - reflexivity.
  - left. repeat split; reflexivity.
  - reflexivity.
  - cbn. lia.
  - exists node, st'. split; [exact Hrun |]. split; [exact Hlex |].
    rewrite He. reflexivity.
Defined.

(* ================================================================== *)
(** * The parse tree and the input *)
(* ================================================================== *)

Section Frontier.

Lemma flat_map_agree {A B : Type} (f g : A -> list B) (l : list A) :
  (forall x, In x l -> f x = g x) -> flat_map f l = flat_map g l.
Proof.
  induction l as [|a l IH]; intro H; [reflexivity |].
  cbn [flat_map]. rewrite (H a) by (left; reflexivity).
  rewrite IH; [reflexivity |]. intros x Hx. apply H. right. exact Hx.
Qed.

Lemma flat_map_nested {A B C : Type} (f : A -> list B) (g : B -> list C)
  (l : list A) :
  flat_map g (flat_map f l) = flat_map (fun x => flat_map g (f x)) l.
Proof.
  induction l as [|a l IH]; [reflexivity |].
  cbn [flat_map]. rewrite flat_map_app, IH. reflexivity.
Qed.

Lemma flat_map_single {A : Type} (f : A -> list A) (l : list A) :
  (forall x, In x l -> f x = [x]) -> flat_map f l = l.
Proof.
  induction l as [|a l IH]; intro H; [reflexivity |].
  cbn [flat_map]. rewrite (H a) by (left; reflexivity).
  rewrite IH; [reflexivity |]. intros x Hx. apply H. right. exact Hx.
Qed.

Lemma frontier_S (fuel : nat) (ns : list ParseNode) (p : nat) :
  frontier (S fuel) ns p
  = match pn_children (deref ns p) with
    | [] => [p]
    | c0 :: cs => flat_map (frontier fuel ns) (c0 :: cs)
    end.
Proof. reflexivity. Qed.

(** With fuel for the depth of the store the frontier does not depend
    on the fuel. *)
Lemma frontier_fuel (ns : list ParseNode) :
  well_shaped ns ->
  forall (f1 f2 p : nat),
  (List.length ns - p < f1)%nat -> (List.length ns - p < f2)%nat ->
  frontier f1 ns p = frontier f2 ns p.
Proof.
  intros Hws. induction f1 as [|f1 IH]; intros f2 p H1 H2; [lia |].
  destruct f2 as [|f2]; [lia |]. cbn [frontier].
  destruct (pn_children (deref ns p)) as [|c0 cs] eqn:Ec; [reflexivity |].
  apply flat_map_agree. intros c Hc.
  assert (Hin : In c (pn_children (deref ns p))) by (rewrite Ec; exact Hc).
  pose proof (Hws p c Hin) as Hpc.
  apply IH; lia.
Qed.

Lemma children_updated (ns : list ParseNode) (top : nat)
  (f : ParseNode -> ParseNode) (p : nat) :
  (forall n, pn_children (f n) = pn_children n) ->
  pn_children (deref (update_node top f ns) p) = pn_children (deref ns p).
Proof.
  intro Hf. destruct (Nat.eq_dec p top) as [-> | Hne].
  - destruct (Nat.lt_ge_cases top (List.length ns)) as [Hlt | Hge].
    + rewrite deref_update_node_same by exact Hlt. apply Hf.
    + rewrite !deref_beyond; [reflexivity | exact Hge |].
      rewrite length_update_node. exact Hge.
  - rewrite deref_update_node_other by exact Hne. reflexivity.
Qed.

Lemma frontier_updated (ns : list ParseNode) (top : nat)
  (f : ParseNode -> ParseNode) :
  (forall n, pn_children (f n) = pn_children n) ->
  forall (fuel p : nat),
  frontier fuel (update_node top f ns) p = frontier fuel ns p.
Proof.
  intro Hf. induction fuel as [|fuel IH]; intro p; [reflexivity |].
  cbn [frontier]. rewrite (children_updated ns top f p Hf).
  destruct (pn_children (deref ns p)); [reflexivity |].
  apply flat_map_agree. intros c _. apply IH.
Qed.

Lemma well_shaped_updated (ns : list ParseNode) (top : nat)
  (f : ParseNode -> ParseNode) :
  (forall n, pn_children (f n) = pn_children n) ->
  well_shaped ns -> well_shaped (update_node top f ns).
Proof.
  intros Hf Hws p c Hc. rewrite (children_updated ns top f p Hf) in Hc.
  rewrite length_update_node. exact (Hws p c Hc).
Qed.

Lemma frontier_expanded (ns ns' : list ParseNode) (top k : nat) :
  well_shaped ns ->
  (top < List.length ns)%nat ->
  pn_children (deref ns top) = [] ->
  (forall q, (q < List.length ns)%nat -> q <> top ->
             deref ns' q = deref ns q) ->
  pn_children (deref ns' top) = seq (List.length ns) k ->
  (forall i, (i < k)%nat ->
             pn_children (deref ns' (List.length ns + i)) = []) ->
  forall (fuel p : nat),
  (p < List.length ns)%nat -> (List.length ns - p < fuel)%nat ->
  frontier (S fuel) ns' p
  = flat_map (expanded top (List.length ns) k) (frontier fuel ns p).
Proof.
  intros Hws Htop Hleaf Hold Hnew Hfresh.
  induction fuel as [|fuel IH]; intros p Hp Hfuel; [lia |].
  rewrite (frontier_S (S fuel) ns' p), (frontier_S fuel ns p).
  destruct (Nat.eq_dec p top) as [-> | Hne].
  - rewrite Hnew, Hleaf.
    assert (E : flat_map (expanded top (List.length ns) k) [top]
                = match k with
                  | O => [top]
                  | S _ => seq (List.length ns) k
                  end).
    { cbn [flat_map]. unfold expanded.
      rewrite Nat.eqb_refl, app_nil_r. reflexivity. }
    rewrite E. clear E.
    destruct k as [|k]; [reflexivity |].
    transitivity (flat_map (frontier (S fuel) ns')
                    (seq (List.length ns) (S k))); [reflexivity |].
    apply flat_map_single. intros c Hc. apply in_seq in Hc.
    rewrite frontier_S.
    replace c with (List.length ns + (c - List.length ns))%nat by lia.
    rewrite Hfresh by lia. reflexivity.
  - rewrite (Hold p Hp Hne).
    destruct (pn_children (deref ns p)) as [|c0 cs] eqn:Ec.
    + cbn [flat_map]. unfold expanded.
      apply Nat.eqb_neq in Hne. rewrite Hne. reflexivity.
    + rewrite flat_map_nested. apply flat_map_agree. intros c Hc.
      assert (Hin : In c (pn_children (deref ns p)))
        by (rewrite Ec; exact Hc).
      pose proof (Hws p c Hin) as Hpc.
      apply IH; lia.
Qed.

Lemma expanded_other (top first k : nat) (l : list nat) :
  ~ In top l -> flat_map (expanded top first k) l = l.
Proof.
  intro H. apply flat_map_single. intros x Hx. unfold expanded.
  destruct (Nat.eqb_spec x top) as [-> | _]; [contradiction | reflexivity].
Qed.

(** [inorderTraverse] returns, and the terminal nodes it prints are
    those of the frontier, in the same order. *)
Lemma inorder_frontier (ns : list ParseNode) :
  well_shaped ns ->
  (forall p, pn_children (deref ns p) <> [] ->
             exists n, symbol (deref ns p) = NonTerminalSym n) ->
  forall (fuel p : nat) (par : option nat),
  (List.length ns - p < fuel)%nat ->
  exists calls,
    inorderTraverse fuel ns p par = Some calls
    /\ flat_map (printed_entry ns) (map fst calls)
       = flat_map (printed_entry ns) (frontier fuel ns p).
Proof.
  intros Hws Hint. induction fuel as [|fuel IH]; intros p par Hfuel; [lia |].
  cbn [inorderTraverse frontier].
  destruct (pn_children (deref ns p)) as [|c0 cs] eqn:Ec.
  - exists [(p, par)]. split; reflexivity.
  - assert (Hp : printed_entry ns p = []).
    { destruct (Hint p) as [n Hn]; [rewrite Ec; discriminate |].
      unfold printed_entry. rewrite Hn. reflexivity. }
    assert (Hcs : forall c, In c (c0 :: cs) ->
                            (List.length ns - c < fuel)%nat).
    { intros c Hc. rewrite <- Ec in Hc. pose proof (Hws p c Hc). lia. }
    destruct (IH c0 (Some p)) as (first & E0 & Y0);
      [apply Hcs; left; reflexivity |].
    rewrite E0. cbn [flat_map].
    assert (Hrest : forall (l : list nat) (acc : list (nat * option nat)),
               (forall c, In c l -> (List.length ns - c < fuel)%nat) ->
               exists calls,
                 fold_left
                   (fun a c =>
                      match a, inorderTraverse fuel ns c (Some p) with
                      | Some rows, Some more => Some (rows ++ more)
                      | _, _ => None
                      end) l (Some acc) = Some calls
                 /\ flat_map (printed_entry ns) (map fst calls)
                    = flat_map (printed_entry ns) (map fst acc)
                      ++ flat_map (printed_entry ns)
                           (flat_map (frontier fuel ns) l)).
    { induction l as [|c l IHl]; intros acc Hl.
      - exists acc. cbn [fold_left flat_map]. rewrite app_nil_r.
        split; reflexivity.
      - destruct (IH c (Some p)) as (more & Ec' & Yc);
          [apply Hl; left; reflexivity |].
        cbn [fold_left]. rewrite Ec'.
        destruct (IHl (acc ++ more)) as (calls & Ecalls & Ycalls).
        { intros c' Hc'. apply Hl. right. exact Hc'. }
        exists calls. split; [exact Ecalls |].
        rewrite Ycalls. rewrite map_app, !flat_map_app, Yc.
        cbn [flat_map]. rewrite flat_map_app, app_assoc. reflexivity. }
    destruct (Hrest cs (first ++ [(p, par)])) as (calls & Ecalls & Ycalls).
    { intros c Hc. apply Hcs. right. exact Hc. }
    exists calls. split; [exact Ecalls |].
    rewrite Ycalls, map_app, !flat_map_app, Y0.
    cbn [map fst flat_map]. rewrite Hp. rewrite !app_nil_r.
    reflexivity.
Qed.

End Frontier.

Section TreeInvariant.

Variable shouldPrint : bool.
Variable pt : ParseTable.
Variable follow : FirstFollowTable.
Variable tokens : TokenList.

Lemma NoDup_pop (done stk : list nat) (top : nat) :
  NoDup (done ++ top :: stk) ->
  NoDup ((done ++ [top]) ++ stk) /\ ~ In top done /\ ~ In top stk.
Proof.
  intro H. split; [rewrite <- app_assoc; exact H |].
  apply NoDup_remove_2 in H. split; intro Hin; apply H; apply in_or_app;
    [left | right]; exact Hin.
Qed.

Lemma NoDup_expand (done stk : list nat) (top first k : nat) :
  NoDup (done ++ top :: stk) ->
  (forall p, In p (done ++ top :: stk) -> (p < first)%nat) ->
  NoDup (done ++ seq first k ++ stk).
Proof.
  intros H Hlt.
  assert (Hds : NoDup (done ++ stk)) by (apply NoDup_remove_1 in H; exact H).
  assert (Hlow : forall p, In p (done ++ stk) -> (p < first)%nat).
  { intros p Hp. apply Hlt. apply in_app_iff in Hp. apply in_or_app.
    destruct Hp as [Hp | Hp]; [left | right; right]; exact Hp. }
  clear H Hlt.
  assert (Hfresh : NoDup (seq first k ++ stk)).
  { apply NoDup_app.
    - apply seq_NoDup.
    - apply (NoDup_app_remove_l done). exact Hds.
    - intros a Ha Hs. apply in_seq in Ha.
      assert (Hin : In a (done ++ stk)) by (apply in_or_app; right; exact Hs).
      specialize (Hlow a Hin). lia. }
  apply NoDup_app.
  - apply (NoDup_app_remove_r done stk). exact Hds.
  - exact Hfresh.
  - intros a Ha Hin. apply in_app_iff in Hin. destruct Hin as [Hin | Hin].
    + apply in_seq in Hin.
      assert (Hd : In a (done ++ stk)) by (apply in_or_app; left; exact Ha).
      specialize (Hlow a Hd). lia.
    + revert a Ha Hin. clear Hlow Hfresh.
      induction done as [|d done IH]; intros a Ha Hin; [destruct Ha |].
      cbn [app] in Hds. inversion Hds as [|? ? Hd Hds']; subst.
      destruct Ha as [-> | Ha].
      * apply Hd. apply in_or_app. right. exact Hin.
      * exact (IH Hds' a Ha Hin).
Qed.

Lemma printed_entry_same (ns ns' : list ParseNode) (q : nat) :
  deref ns' q = deref ns q -> printed_entry ns' q = printed_entry ns q.
Proof. intro H. unfold printed_entry. rewrite H. reflexivity. Qed.

Lemma symbol_updated (ns : list ParseNode) (top : nat)
  (f : ParseNode -> ParseNode) (p : nat) :
  (forall n, symbol (f n) = symbol n) ->
  symbol (deref (update_node top f ns) p) = symbol (deref ns p).
Proof.
  intro Hf. destruct (Nat.eq_dec p top) as [-> | Hne].
  - destruct (Nat.lt_ge_cases top (List.length ns)) as [Hlt | Hge].
    + rewrite deref_update_node_same by exact Hlt. apply Hf.
    + rewrite !deref_beyond; [reflexivity | exact Hge |].
      rewrite length_update_node. exact Hge.
  - rewrite deref_update_node_other by exact Hne. reflexivity.
Qed.

(** Popping a terminal node that is done after the update [f], which
    prints the entries [es]. *)
Lemma pop_terminal (ns : list ParseNode) (top : nat) (stk done : list nat)
  (f : ParseNode -> ParseNode) (es : list SymbolTableEntry) :
  (forall n, pn_children (f n) = pn_children n) ->
  (forall n, symbol (f n) = symbol n) ->
  well_shaped ns ->
  (forall p, pn_children (deref ns p) <> [] ->
             exists n, symbol (deref ns p) = NonTerminalSym n) ->
  frontier (S (List.length ns)) ns 0 = done ++ top :: stk ->
  NoDup (done ++ top :: stk) ->
  (forall p, In p (done ++ top :: stk) -> (p < List.length ns)%nat) ->
  (forall p, In p (top :: stk) -> pn_children (deref ns p) = []) ->
  printed_entry (update_node top f ns) top = es ->
  let ns' := update_node top f ns in
  well_shaped ns'
  /\ (forall p, pn_children (deref ns' p) <> [] ->
                exists n, symbol (deref ns' p) = NonTerminalSym n)
  /\ frontier (S (List.length ns')) ns' 0 = (done ++ [top]) ++ stk
  /\ NoDup ((done ++ [top]) ++ stk)
  /\ (forall p, In p ((done ++ [top]) ++ stk) ->
                (p < List.length ns')%nat)
  /\ (forall p, In p stk -> pn_children (deref ns' p) = [])
  /\ flat_map (printed_entry ns') (done ++ [top])
     = flat_map (printed_entry ns) done ++ es.
Proof.
  intros Hfc Hfs Hws Hint Hfr Hnd Hb Hleaf Hes ns'.
  destruct (NoDup_pop done stk top Hnd) as (Hnd' & Hnot & _).
  split; [apply well_shaped_updated; assumption |].
  split.
  { intros p Hp. unfold ns' in *.
    rewrite (children_updated ns top f p Hfc) in Hp.
    rewrite (symbol_updated ns top f p Hfs). exact (Hint p Hp). }
  split.
  { unfold ns'. rewrite length_update_node, frontier_updated by exact Hfc.
    rewrite Hfr, <- app_assoc. reflexivity. }
  split; [exact Hnd' |].
  split.
  { intros p Hp. unfold ns'. rewrite length_update_node. apply Hb.
    rewrite <- app_assoc in Hp. exact Hp. }
  split.
  { intros p Hp. unfold ns'. rewrite (children_updated ns top f p Hfc).
    apply Hleaf. right. exact Hp. }
  rewrite flat_map_app. cbn [flat_map]. rewrite app_nil_r.
  unfold ns'. rewrite Hes. f_equal.
  apply flat_map_agree. intros q Hq. apply printed_entry_same.
  apply deref_update_node_other. intros ->. exact (Hnot Hq).
Qed.

Lemma parse_step_tree (ps : ParserState) :
  tree_invariant tokens ps ->
  tree_invariant tokens (parse_step shouldPrint pt follow ps).
Proof.
  intro Hinv. unfold parse_step.
  destruct (theStack ps) as [|top stk] eqn:Es; [exact Hinv |].
  destruct (inputPtr ps) as [|tok rest] eqn:Ei; [exact Hinv |].
  destruct (Token_eqb (tokenType (entry tok)) COMMENT
            || (Token_to_Z (tokenType (entry tok))
                >=? Token_to_Z LEXICAL_ERROR)) eqn:Eskip.
  { (* comments and flagged tokens *)
    unfold skip_token, tree_invariant.
    cbn [nodes theStack inputPtr hasSyntaxError].
    destruct (Token_eqb (tokenType (entry tok)) COMMENT) eqn:Ec;
      cbn [negb]; [| discriminate].
    intro Hflag.
    destruct (Hinv Hflag)
      as (Hws & Hint & done & consumed & Hfr & Hnd & Hb & Hleaf & Htok & Hy).
    rewrite Ei in Htok.
    split; [exact Hws | split; [exact Hint |]].
    exists done, (consumed ++ [tok]).
    split; [exact Hfr | split; [exact Hnd | split; [exact Hb |]]].
    split; [exact Hleaf | split].
    - rewrite <- app_assoc. exact Htok.
    - assert (Hnc : no_comment tok = false)
        by (unfold no_comment; rewrite Ec; reflexivity).
      rewrite Hy, filter_app. cbn [filter]. rewrite Hnc, app_nil_r.
      reflexivity. }
  apply orb_false_iff in Eskip. destruct Eskip as [Ec _].
  destruct (symbol (deref (nodes ps) top)) as [n | t] eqn:Esym.
  2: { (* a terminal on top of the stack *)
    destruct (Token_eqb t EPS) eqn:Eeps;
      [| destruct (Token_eqb t (tokenType (entry tok))) eqn:Ematch];
      unfold tree_invariant; cbn [nodes theStack inputPtr hasSyntaxError];
      try discriminate; intro Hflag;
      destruct (Hinv Hflag)
        as (Hws & Hint & done & consumed & Hfr & Hnd & Hb & Hleaf & Htok
            & Hy);
      rewrite Es in Hfr, Hnd, Hb, Hleaf; rewrite Ei in Htok;
      assert (Htop : (top < List.length (nodes ps))%nat)
        by (apply Hb; apply in_or_app; right; left; reflexivity).
    + (* the epsilon marker *)
      destruct (pop_terminal (nodes ps) top stk done
                  (fun n => set_ste epsilon_entry
                              (set_line (lineNum tok) n)) []
                  (fun _ => eq_refl) (fun _ => eq_refl)
                  Hws Hint Hfr Hnd Hb Hleaf)
        as (H1 & H2 & H3 & H4 & H5 & H6 & H7).
      { unfold printed_entry.
        rewrite deref_update_node_same by exact Htop.
        cbn [symbol set_ste set_line]. rewrite Esym, Eeps. reflexivity. }
      split; [exact H1 | split; [exact H2 |]].
      exists (done ++ [top]), consumed.
      split; [exact H3 | split; [exact H4 | split; [exact H5 |]]].
      split; [exact H6 | split; [exact Htok |]].
      rewrite H7, app_nil_r. exact Hy.
    + (* the token expected *)
      destruct (pop_terminal (nodes ps) top stk done
                  (fun n => set_ste (entry tok)
                              (set_line (lineNum tok) n)) [entry tok]
                  (fun _ => eq_refl) (fun _ => eq_refl)
                  Hws Hint Hfr Hnd Hb Hleaf)
        as (H1 & H2 & H3 & H4 & H5 & H6 & H7).
      { unfold printed_entry.
        rewrite deref_update_node_same by exact Htop.
        cbn [symbol ste set_ste set_line]. rewrite Esym, Eeps. reflexivity. }
      split; [exact H1 | split; [exact H2 |]].
      exists (done ++ [top]), (consumed ++ [tok]).
      split; [exact H3 | split; [exact H4 | split; [exact H5 |]]].
      split; [exact H6 | split].
      * rewrite <- app_assoc. exact Htok.
      * assert (Hnc : no_comment tok = true)
          by (unfold no_comment; rewrite Ec; reflexivity).
        rewrite H7, Hy, filter_app, map_app. cbn [filter].
        rewrite Hnc. reflexivity. }
  (* a non-terminal on top of the stack *)
    destruct (pt n (tokenType (entry tok))) as [r |] eqn:Ecell.
    2: { destruct (existsInFirstFollow (follow n) (tokenType (entry tok)));
         unfold tree_invariant; cbn [hasSyntaxError]; discriminate. }
    unfold tree_invariant. cbn [nodes theStack inputPtr hasSyntaxError].
    intro Hflag.
    destruct (Hinv Hflag)
      as (Hws & Hint & done & consumed & Hfr & Hnd & Hb & Hleaf & Htok & Hy).
    rewrite Es in Hfr, Hnd, Hb, Hleaf. rewrite Ei in Htok.
    assert (Htop : (top < List.length (nodes ps))%nat)
      by (apply Hb; apply in_or_app; right; left; reflexivity).
    destruct (NoDup_pop done stk top Hnd) as (Hnd' & Hnot & Hnot').
    set (ns1 := update_node top (set_line (lineNum tok)) (nodes ps)).
    assert (Hlen1 : List.length ns1 = List.length (nodes ps))
      by apply length_update_node.
    assert (Hws1 : well_shaped ns1)
      by (apply well_shaped_updated; [reflexivity | exact Hws]).
    assert (Hleaf1 : pn_children (deref ns1 top) = []).
    { unfold ns1. rewrite children_updated by reflexivity.
      apply Hleaf. left. reflexivity. }
    assert (Hsym1 : symbol (deref ns1 top) = NonTerminalSym n).
    { unfold ns1. rewrite symbol_updated by reflexivity. exact Esym. }
    assert (Hfr1 : frontier (S (List.length ns1)) ns1 0 = done ++ top :: stk).
    { unfold ns1 at 2. rewrite frontier_updated by reflexivity.
      rewrite Hlen1. exact Hfr. }
    assert (Hold1 : forall q, q <> top -> deref ns1 q = deref (nodes ps) q).
    { intros q Hq. unfold ns1. apply deref_update_node_other. exact Hq. }
    destruct (create_children_spec top (rhs r) ns1)
      as (K1 & K2 & K3 & K4 & K5 & K6); [lia |].
    set (ns2 := create_children top (rhs r) ns1) in *.
    rewrite Hleaf1 in K5. cbn [app] in K5.
    assert (Hfresh : forall i, (i < List.length (rhs r))%nat ->
              pn_children (deref ns2 (List.length ns1 + i)) = []).
    { intros i Hi. rewrite K6 by exact Hi. reflexivity. }
    assert (Hws2 : well_shaped ns2).
    { intros p c Hc.
      destruct (Nat.eq_dec p top) as [-> | Hne].
      - rewrite K5 in Hc. apply in_seq in Hc. lia.
      - destruct (Nat.lt_ge_cases p (List.length ns1)) as [Hlt | Hge].
        + rewrite K2 in Hc by assumption. pose proof (Hws1 p c Hc). lia.
        + destruct (Nat.lt_ge_cases p (List.length ns2)) as [Hlt2 | Hge2].
          * replace p with (List.length ns1 + (p - List.length ns1))%nat
              in Hc by lia.
            rewrite Hfresh in Hc by lia. destruct Hc.
          * rewrite deref_beyond in Hc by exact Hge2. destruct Hc. }
    assert (Hint2 : forall p, pn_children (deref ns2 p) <> [] ->
              exists m, symbol (deref ns2 p) = NonTerminalSym m).
    { intros p Hp.
      destruct (Nat.eq_dec p top) as [-> | Hne].
      - exists n. rewrite K3. exact Hsym1.
      - destruct (Nat.lt_ge_cases p (List.length ns1)) as [Hlt | Hge].
        + rewrite K2 in Hp |- * by assumption.
          rewrite Hold1 in Hp |- * by exact Hne. exact (Hint p Hp).
        + exfalso. apply Hp.
          destruct (Nat.lt_ge_cases p (List.length ns2)) as [Hlt2 | Hge2].
          * replace p with (List.length ns1 + (p - List.length ns1))%nat
              by lia.
            apply Hfresh. lia.
          * rewrite deref_beyond by exact Hge2. reflexivity. }
    assert (Hsame : forall q, In q done ->
              printed_entry ns2 q = printed_entry (nodes ps) q).
    { intros q Hq. apply printed_entry_same.
      assert (Hne : q <> top) by (intros ->; exact (Hnot Hq)).
      rewrite K2, Hold1; [reflexivity | exact Hne | | exact Hne].
      rewrite Hlen1. apply Hb. apply in_or_app. left. exact Hq. }
    split; [exact Hws2 | split; [exact Hint2 |]].
    rewrite push_children_app, K5.
    destruct (rhs r) as [|su sus] eqn:Erhs.
    + (* a rule without symbols: the node stays a leaf *)
      cbn [seq app List.length] in *.
      exists (done ++ [top]), consumed.
      assert (E2 : ns2 = ns1) by reflexivity.
      rewrite E2 in *.
      split; [rewrite Hfr1, <- app_assoc; reflexivity |].
      split; [exact Hnd' |].
      split.
      { intros p Hp. rewrite Hlen1. apply Hb.
        rewrite <- app_assoc in Hp. exact Hp. }
      split.
      { intros p Hp. unfold ns1. rewrite children_updated by reflexivity.
        apply Hleaf. right. exact Hp. }
      split; [exact Htok |].
      rewrite flat_map_app. cbn [flat_map]. rewrite app_nil_r.
      unfold printed_entry at 2. rewrite Hsym1, app_nil_r.
      rewrite <- Hy. apply flat_map_agree. exact Hsame.
    + (* the children take the place of the node *)
      set (k := List.length (su :: sus)) in *.
      assert (Hk : (0 < k)%nat) by (unfold k; cbn [List.length]; lia).
      exists done, consumed.
      assert (Hfr2 : frontier (S (List.length ns2)) ns2 0
                     = done ++ seq (List.length ns1) k ++ stk).
      { rewrite (frontier_expanded ns1 ns2 top k Hws1)
          by (try assumption; try lia;
              intros q Hq Hne; apply K2; assumption).
        rewrite (frontier_fuel ns1 Hws1 (List.length ns2)
                   (S (List.length ns1)) 0) by lia.
        rewrite Hfr1, flat_map_app. cbn [flat_map].
        rewrite (expanded_other top _ k done Hnot).
        rewrite (expanded_other top _ k stk Hnot').
        unfold expanded. rewrite Nat.eqb_refl.
        destruct k as [|k']; [lia | reflexivity]. }
      split; [exact Hfr2 |].
      split.
      { apply (NoDup_expand done stk top); [exact Hnd |].
        intros p Hp. rewrite Hlen1. apply Hb. exact Hp. }
      split.
      { intros p Hp. rewrite K1. fold k.
        apply in_app_iff in Hp. destruct Hp as [Hp | Hp].
        - assert (p < List.length (nodes ps))%nat; [| lia].
          apply Hb. apply in_or_app. left. exact Hp.
        - apply in_app_iff in Hp. destruct Hp as [Hp | Hp].
          + apply in_seq in Hp. lia.
          + assert (p < List.length (nodes ps))%nat; [| lia].
            apply Hb. apply in_or_app. right. right. exact Hp. }
      split.
      { intros p Hp. apply in_app_iff in Hp. destruct Hp as [Hp | Hp].
        - apply in_seq in Hp.
          replace p with (List.length ns1 + (p - List.length ns1))%nat
            by lia.
          apply Hfresh. fold k. lia.
        - assert (Hne : p <> top) by (intros ->; exact (Hnot' Hp)).
          rewrite K2, Hold1; [| exact Hne | | exact Hne].
          + apply Hleaf. right. exact Hp.
          + rewrite Hlen1. apply Hb. apply in_or_app. right. right.
            exact Hp. }
      split; [exact Htok |].
      rewrite <- Hy. apply flat_map_agree. exact Hsame.
Qed.

Lemma parse_loop_tree (fuel : nat) :
  forall ps ps' : ParserState,
  tree_invariant tokens ps ->
  parse_loop fuel shouldPrint pt follow ps = Some ps' ->
  tree_invariant tokens ps'.
Proof.
  induction fuel as [|fuel IH]; intros ps ps' Hinv Hrun;
    cbn [parse_loop] in Hrun;
    destruct (theStack ps) as [|top stk] eqn:Es;
    try (injection Hrun as <-; exact Hinv);
    destruct (inputPtr ps) as [|tok rest] eqn:Ei;
    try (injection Hrun as <-; exact Hinv).
  - discriminate.
  - apply (IH _ _ (parse_step_tree ps Hinv) Hrun).
Qed.

End TreeInvariant.

(** X20. The parse tree spells the input.  After a parse that ends
    without the error flag, [inorderTraverse] started at the root, as
    [printParseTree] starts it, returns, and the symbol-table entries of
    the terminal nodes it prints, the epsilon markers left out, are in
    order the entries of the tokens the parser consumed, the comments
    left out. *)
Theorem parse_tree_spells_the_input :
  forall (fuel : nat) (shouldPrint : bool) (pt : ParseTable)
         (follow : FirstFollowTable) (tokens : TokenList)
         (out : list Message) (ps : ParserState),
    parseTokens fuel shouldPrint pt follow tokens false out = Some ps ->
    hasSyntaxError ps = false ->
    exists calls consumed,
      inorderTraverse (S (List.length (nodes ps))) (nodes ps) 0 None
      = Some calls
      /\ tokens = consumed ++ inputPtr ps
      /\ flat_map (printed_entry (nodes ps)) (map fst calls)
         = map entry (filter no_comment consumed).
Proof.
  intros fuel shouldPrint pt follow tokens out ps Hrun Hflag.
  unfold parseTokens in Hrun.
  match type of Hrun with
  | match parse_loop _ _ _ _ ?p with _ => _ end = _ => set (ps0 := p) in Hrun
  end.
  assert (Hinv0 : tree_invariant tokens ps0).
  { intros _. unfold ps0.
    cbn [nodes theStack inputPtr hasSyntaxError List.length].
    split; [| split].
    - intros p c Hc. destruct p as [|[|p]]; destruct Hc.
    - intros p Hp. destruct p as [|[|p]]; exfalso; apply Hp; reflexivity.
    - exists [], []. cbn [app].
      split; [reflexivity |].
      split; [constructor; [intros [] | constructor] |].
      split; [intros p [<- | []]; lia |].
      split; [intros p [<- | []]; reflexivity |].
      split; reflexivity. }
  destruct (parse_loop fuel shouldPrint pt follow ps0) as [ps1 |] eqn:Eloop;
    [| discriminate].
  injection Hrun as <-.
  pose proof (parse_loop_tree shouldPrint pt follow tokens fuel ps0 ps1
                Hinv0 Eloop) as Hinv.
  unfold parse_finish in *.
  destruct (negb (hasSyntaxError ps1)
            && match theStack ps1 with [] => true | _ :: _ => false end
            && match inputPtr ps1 with
               | [] => true
               | tok :: _ => Token_eqb (tokenType (entry tok)) DOLLAR
               end) eqn:Econd.
  - cbn [nodes theStack inputPtr hasSyntaxError] in *.
    apply andb_true_iff in Econd. destruct Econd as [Econd _].
    apply andb_true_iff in Econd. destruct Econd as [_ Hempty].
    destruct (Hinv Hflag)
      as (Hws & Hint & done & consumed & Hfr & _ & _ & _ & Htok & Hy).
    destruct (theStack ps1) as [|top stk]; [| discriminate].
    rewrite app_nil_r in Hfr.
    destruct (inorder_frontier (nodes ps1) Hws Hint
                (S (List.length (nodes ps1))) 0 None)
      as (calls & Ecalls & Ycalls); [lia |].
    exists calls, consumed.
    split; [exact Ecalls | split; [exact Htok |]].
    rewrite Ycalls, Hfr. exact Hy.
  - destruct (drain_input shouldPrint (inputPtr ps1)
                (drain_stack shouldPrint ps1)) as [input' out2].
    cbn [hasSyntaxError] in Hflag. discriminate.
Qed.

Lemma parse_tree_spells_the_input_witness :
  exists (ps : ParserState) (calls : list (nat * option nat)),
    parseTokens 10 true main_end_table empty_sets
                [main_token; end_token; eof_token 1] false [] = Some ps
    /\ inorderTraverse (S (List.length (nodes ps))) (nodes ps) 0 None
       = Some calls
    /\ flat_map (printed_entry (nodes ps)) (map fst calls)
       = [entry main_token; entry end_token].
Proof.
  eexists.
  destruct (parse_tree_spells_the_input 10 true main_end_table empty_sets
              [main_token; end_token; eof_token 1] []
              (parse_finish true
                 {| nodes :=
                      [{| symbol := NonTerminalSym program; ste := None;
                          pn_children := [1%nat; 2%nat];
                          pn_lineNumber := 1 |};
                       {| symbol := TerminalSym MAIN;
                          ste := Some (entry main_token);
                          pn_children := []; pn_lineNumber := 1 |};
                       {| symbol := TerminalSym END;
                          ste := Some (entry end_token);
                          pn_children := []; pn_lineNumber := 1 |}];
                    theStack := []; inputPtr := [eof_token 1];
                    hasSyntaxError := false; cln := 1;
                    console := [ParsingStarting] |}))
    as (calls & consumed & Ecalls & _ & _).
  - vm_compute. reflexivity.
  - reflexivity.
  - exists calls. split; [vm_compute; reflexivity |].
    split; [exact Ecalls |].
    vm_compute in Ecalls. injection Ecalls as <-. reflexivity.
Defined.

Section Derivation.

Variable shouldPrint : bool.
Variable pt : ParseTable.
Variable follow : FirstFollowTable.

Lemma derived_updated (ns : list ParseNode) (top : nat)
  (f : ParseNode -> ParseNode) :
  (forall n, pn_children (f n) = pn_children n) ->
  (forall n, symbol (f n) = symbol n) ->
  (forall p, derived pt ns p) ->
  forall p, derived pt (update_node top f ns) p.
Proof.
  intros Hfc Hfs Hall p. unfold derived.
  rewrite (children_updated ns top f p Hfc), (symbol_updated ns top f p Hfs).
  destruct (Hall p) as [H | (n & tk & r & H1 & H2 & H3)]; [left; exact H |].
  right. exists n, tk, r. split; [exact H1 | split; [exact H2 |]].
  rewrite <- H3. apply map_ext. intro c. apply symbol_updated. exact Hfs.
Qed.

(** A pass that pops the stack and changes no child and no symbol. *)
Lemma pop_derivation (ps : ParserState) (top : nat) (stk : list nat)
  (f : ParseNode -> ParseNode) :
  (forall n, pn_children (f n) = pn_children n) ->
  (forall n, symbol (f n) = symbol n) ->
  theStack ps = top :: stk ->
  derivation_invariant pt ps ->
  NoDup stk
  /\ (forall p, In p stk ->
                (p < List.length (update_node top f (nodes ps)))%nat
                /\ pn_children (deref (update_node top f (nodes ps)) p) = [])
  /\ (forall p c,
        In c (pn_children (deref (update_node top f (nodes ps)) p)) ->
        (c < List.length (update_node top f (nodes ps)))%nat)
  /\ (forall p, derived pt (update_node top f (nodes ps)) p)
  /\ symbol (deref (update_node top f (nodes ps)) 0)
     = NonTerminalSym program.
Proof.
  intros Hfc Hfs Es (Hnd & Hstk & Hch & Hder & Hroot).
  rewrite Es in Hnd, Hstk.
  split; [inversion Hnd; assumption |].
  split.
  { intros p Hp. rewrite length_update_node, children_updated by exact Hfc.
    apply Hstk. right. exact Hp. }
  split.
  { intros p c Hc. rewrite length_update_node.
    rewrite children_updated in Hc by exact Hfc. exact (Hch p c Hc). }
  split; [apply derived_updated; assumption |].
  rewrite symbol_updated by exact Hfs. exact Hroot.
Qed.

Lemma parse_step_derivation (ps : ParserState) :
  derivation_invariant pt ps ->
  derivation_invariant pt (parse_step shouldPrint pt follow ps).
Proof.
  intro Hinv. unfold parse_step.
  destruct (theStack ps) as [|top stk] eqn:Es; [exact Hinv |].
  destruct (inputPtr ps) as [|tok rest] eqn:Ei; [exact Hinv |].
  destruct (Token_eqb (tokenType (entry tok)) COMMENT
            || (Token_to_Z (tokenType (entry tok))
                >=? Token_to_Z LEXICAL_ERROR)).
  { unfold skip_token, derivation_invariant. cbn [nodes theStack].
    exact Hinv. }
  destruct (symbol (deref (nodes ps) top)) as [n | t] eqn:Esym.
  2: { destruct (Token_eqb t EPS);
         [| destruct (Token_eqb t (tokenType (entry tok)))];
         unfold derivation_invariant; cbn [nodes theStack];
         apply (pop_derivation ps top stk); try assumption;
         intro; reflexivity. }
  destruct (pt n (tokenType (entry tok))) as [r |] eqn:Ecell.
  2: { destruct (existsInFirstFollow (follow n) (tokenType (entry tok))).
       - unfold derivation_invariant; cbn [nodes theStack].
         apply (pop_derivation ps top stk); try assumption;
           intro; reflexivity.
       - destruct Hinv as (Hnd & Hstk & Hch & Hrest).
         unfold derivation_invariant; cbn [nodes theStack].
         rewrite Es in Hnd, Hstk.
         destruct rest as [|tok' rest'].
         + split; [inversion Hnd; assumption |].
           split; [intros p Hp; apply Hstk; right; exact Hp |].
           split; assumption.
         + split; [exact Hnd | split; [exact Hstk | split; assumption]]. }
  destruct Hinv as (Hnd & Hstk & Hch & Hder & Hroot).
  rewrite Es in Hnd, Hstk.
  unfold derivation_invariant. cbn [nodes theStack].
  destruct (Hstk top (or_introl eq_refl)) as [Htop Hleaf].
  assert (Hnot : ~ In top stk) by (inversion Hnd; assumption).
  assert (Hnd' : NoDup stk) by (inversion Hnd; assumption).
  set (ns1 := update_node top (set_line (lineNum tok)) (nodes ps)).
  assert (Hlen1 : List.length ns1 = List.length (nodes ps))
    by apply length_update_node.
  assert (Hleaf1 : pn_children (deref ns1 top) = []).
  { unfold ns1. rewrite children_updated by reflexivity. exact Hleaf. }
  assert (Hsym1 : forall q, symbol (deref ns1 q) = symbol (deref (nodes ps) q)).
  { intro q. unfold ns1. apply symbol_updated. reflexivity. }
  assert (Hch1 : forall q, pn_children (deref ns1 q)
                           = pn_children (deref (nodes ps) q)).
  { intro q. unfold ns1. apply children_updated. reflexivity. }
  destruct (create_children_spec top (rhs r) ns1)
    as (K1 & K2 & K3 & K4 & K5 & K6); [lia |].
  set (ns2 := create_children top (rhs r) ns1) in *.
  rewrite Hleaf1 in K5. cbn [app] in K5.
  assert (Hnew : forall q, (List.length ns1 <= q)%nat ->
                           pn_children (deref ns2 q) = []).
  { intros q Hq.
    destruct (Nat.lt_ge_cases q (List.length ns2)) as [Hlt | Hge].
    - replace q with (List.length ns1 + (q - List.length ns1))%nat by lia.
      rewrite K6 by lia. reflexivity.
    - rewrite deref_beyond by exact Hge. reflexivity. }
  assert (Hsym2 : forall q, (q < List.length ns1)%nat ->
                            symbol (deref ns2 q) = symbol (deref (nodes ps) q)).
  { intros q Hq. destruct (Nat.eq_dec q top) as [-> | Hne].
    - rewrite K3. apply Hsym1.
    - rewrite K2 by assumption. apply Hsym1. }
  rewrite push_children_app, K5.
  split.
  { apply NoDup_app; [apply seq_NoDup | exact Hnd' |].
    intros a Ha Hs. apply in_seq in Ha.
    destruct (Hstk a (or_intror Hs)) as [Hlt _]. lia. }
  split.
  { intros p Hp. apply in_app_iff in Hp. destruct Hp as [Hp | Hp].
    - apply in_seq in Hp. split; [lia |]. apply Hnew. lia.
    - destruct (Hstk p (or_intror Hp)) as [Hlt Hl].
      split; [lia |].
      assert (Hne : p <> top) by (intros ->; exact (Hnot Hp)).
      rewrite K2, Hch1 by (try lia; exact Hne). exact Hl. }
  split.
  { intros p c Hc. destruct (Nat.eq_dec p top) as [-> | Hne].
    - rewrite K5 in Hc. apply in_seq in Hc. lia.
    - destruct (Nat.lt_ge_cases p (List.length ns1)) as [Hlt | Hge].
      + rewrite K2, Hch1 in Hc by assumption.
        pose proof (Hch p c Hc). lia.
      + rewrite Hnew in Hc by exact Hge. destruct Hc. }
  split; [| rewrite Hsym2 by lia; exact Hroot].
  intro p. destruct (Nat.eq_dec p top) as [-> | Hne].
  - right. exists n, (tokenType (entry tok)), r.
    split; [rewrite K3, Hsym1; exact Esym | split; [exact Ecell |]].
    rewrite K5. apply (map_seq_nth _ (TerminalSym TK_NOT_FOUND)).
    intros i Hi. rewrite K6 by exact Hi. reflexivity.
  - destruct (Nat.lt_ge_cases p (List.length ns1)) as [Hlt | Hge].
    + unfold derived. rewrite K2, Hch1, Hsym1 by assumption.
      destruct (Hder p) as [H | (m & tk & r' & H1 & H2 & H3)];
        [left; exact H |].
      right. exists m, tk, r'. split; [exact H1 | split; [exact H2 |]].
      rewrite <- H3. apply map_ext_in. intros c Hc. apply Hsym2.
      rewrite Hlen1. exact (Hch p c Hc).
    + left. apply Hnew. exact Hge.
Qed.

Lemma parse_loop_derivation (fuel : nat) :
  forall ps ps' : ParserState,
  derivation_invariant pt ps ->
  parse_loop fuel shouldPrint pt follow ps = Some ps' ->
  derivation_invariant pt ps'.
Proof.
  induction fuel as [|fuel IH]; intros ps ps' Hinv Hrun;
    cbn [parse_loop] in Hrun;
    destruct (theStack ps) as [|top stk] eqn:Es;
    try (injection Hrun as <-; exact Hinv);
    destruct (inputPtr ps) as [|tok rest] eqn:Ei;
    try (injection Hrun as <-; exact Hinv).
  - discriminate.
  - apply (IH _ _ (parse_step_derivation ps Hinv) Hrun).
Qed.

End Derivation.

(** X21. The parse tree is built from the rules of the parse table.
    Whatever the tokens and whether or not errors are reported, in the
    tree [parseTokens] returns every node with children carries a
    non-terminal, and its children carry, in order, the symbols of the
    right-hand side of a rule that the table holds in the row of that
    non-terminal; the root carries the start symbol. *)
Theorem parse_tree_follows_the_table :
  forall (fuel : nat) (shouldPrint : bool) (pt : ParseTable)
         (follow : FirstFollowTable) (tokens : TokenList) (flag : bool)
         (out : list Message) (ps : ParserState),
    parseTokens fuel shouldPrint pt follow tokens flag out = Some ps ->
    symbol (deref (nodes ps) 0) = NonTerminalSym program
    /\ forall p, derived pt (nodes ps) p.
Proof.
  intros fuel shouldPrint pt follow tokens flag out ps Hrun.
  unfold parseTokens in Hrun.
  match type of Hrun with
  | match parse_loop _ _ _ _ ?p with _ => _ end = _ => set (ps0 := p) in Hrun
  end.
  assert (Hinv0 : derivation_invariant pt ps0).
  { unfold derivation_invariant, ps0. cbn [nodes theStack List.length].
    split; [constructor; [intros [] | constructor] |].
    split; [intros p [<- | []]; split; [lia | reflexivity] |].
    split; [| split; [| reflexivity]].
    - intros p c Hc. destruct p as [|[|p]]; destruct Hc.
    - intro p. left. destruct p as [|[|p]]; reflexivity. }
  destruct (parse_loop fuel shouldPrint pt follow ps0) as [ps1 |] eqn:Eloop;
    [| discriminate].
  injection Hrun as <-.
  destruct (parse_loop_derivation shouldPrint pt follow fuel ps0 ps1
              Hinv0 Eloop) as (_ & _ & _ & Hder & Hroot).
  assert (Hnodes : nodes (parse_finish shouldPrint ps1) = nodes ps1).
  { unfold parse_finish.
    destruct (negb (hasSyntaxError ps1)
              && match theStack ps1 with [] => true | _ :: _ => false end
              && match inputPtr ps1 with
                 | [] => true
                 | tok :: _ => Token_eqb (tokenType (entry tok)) DOLLAR
                 end); [reflexivity |].
    destruct (drain_input shouldPrint (inputPtr ps1)
                (drain_stack shouldPrint ps1)); reflexivity. }
  rewrite Hnodes. split; [exact Hroot | exact Hder].
Qed.

Lemma parse_tree_follows_the_table_witness :
  exists ps : ParserState,
    parseTokens 10 true main_end_table empty_sets
                [main_token; end_token; eof_token 1] false [] = Some ps
    /\ symbol (deref (nodes ps) 0) = NonTerminalSym program
    /\ forall p, derived main_end_table (nodes ps) p.
Proof.
  eexists. split; [vm_compute; reflexivity |].
  eapply (parse_tree_follows_the_table 10 true main_end_table empty_sets
            [main_token; end_token; eof_token 1] false []).
  vm_compute. reflexivity.
Defined.

(* ================================================================== *)
(** * FIRST and FOLLOW of the grammar *)
(* ================================================================== *)

Section GrammarFirst.

Variable G : list GrammarRule.

#[local] Abbreviation grounded := (inside (first_of_grammar G)).

(** What a table inside FIRST of the grammar gives for a sequence, the
    grammar gives. *)
Lemma first_of_grammar_first (F : FirstFollowTable) (l : list SymbolUnit)
  (t : Token) :
  grounded F -> first_of F l t -> grammar_first G l t.
Proof.
  intros Hg H. induction H as [t rest | n rest t Hin Hne | n rest t Hin _ IH |].
  - apply gf_terminal.
  - destruct (Hg _ _ Hin) as (r & Hr & <- & Hf).
    apply gf_nonterminal; assumption.
  - destruct (Hg _ _ Hin) as (r & Hr & <- & Hf).
    apply gf_behind; assumption.
  - apply gf_end.
Qed.

(** What the grammar gives for a sequence, a closed table gives. *)
Lemma grammar_first_first_of (F : FirstFollowTable) (l : list SymbolUnit)
  (t : Token) :
  closed G F -> grammar_first G l t -> first_of F l t.
Proof.
  intros Hc H.
  induction H as [t rest | r rest t Hr _ IH Hne | r rest t Hr _ IH1 _ IH2 |].
  - apply first_terminal.
  - apply first_nonterminal; [| exact Hne]. exact (Hc r t Hr IH).
  - apply first_behind; [| exact IH2]. exact (Hc r EPS Hr IH1).
  - apply first_end.
Qed.

Lemma add_to_row_grounded (r : GrammarRule) (acc : FirstFollowTable * bool)
  (tk : Token) :
  In r G -> grounded (fst acc) -> first_of (fst acc) (rhs r) tk ->
  grounded (fst (add_to_row (lhs r) acc tk))
  /\ table_le (fst acc) (fst (add_to_row (lhs r) acc tk)).
Proof.
  intros Hr Hg Hf. unfold add_to_row.
  destruct (existsInFirstFollow (fst acc (lhs r)) tk);
    [split; [exact Hg | apply table_le_refl] |].
  cbn [fst]. split.
  - intros n t Ht. unfold set_row, insertFirstFollowNode in Ht.
    destruct (NonTerminal_eqb n (lhs r)) eqn:E; [| exact (Hg _ _ Ht)].
    apply NonTerminal_eqb_eq in E. subst n. apply in_app_iff in Ht.
    destruct Ht as [Ht | [<- | []]]; [exact (Hg _ _ Ht) |].
    exists r. split; [exact Hr | split; [reflexivity |]].
    apply (first_of_grammar_first (fst acc)); assumption.
  - intros n t Ht. unfold set_row, insertFirstFollowNode.
    destruct (NonTerminal_eqb n (lhs r)) eqn:E; [| exact Ht].
    apply NonTerminal_eqb_eq in E. subst n. apply in_app_iff. left. exact Ht.
Qed.

Lemma add_row_but_eps_grounded (r : GrammarRule) (src : FirstFollowSet) :
  forall acc : FirstFollowTable * bool,
  In r G -> grounded (fst acc) ->
  (forall tk, In tk src -> tk <> EPS -> first_of (fst acc) (rhs r) tk) ->
  grounded (fst (add_row_but_eps (lhs r) src acc))
  /\ table_le (fst acc) (fst (add_row_but_eps (lhs r) src acc)).
Proof.
  unfold add_row_but_eps.
  induction src as [|x src IH]; intros acc Hr Hg Hsrc; simpl;
    [split; [exact Hg | apply table_le_refl] |].
  destruct (Token_eqb x EPS) eqn:E.
  - apply IH; try assumption. intros tk Htk. apply Hsrc. right. exact Htk.
  - apply Token_eqb_neq in E.
    destruct (add_to_row_grounded r acc x Hr Hg
                (Hsrc x (or_introl eq_refl) E)) as [Hg1 Hle1].
    destruct (IH (add_to_row (lhs r) acc x) Hr Hg1) as [Hg2 Hle2].
    + intros tk Htk Hne. eapply first_of_mono; [exact Hle1 |].
      apply Hsrc; [right |]; assumption.
    + split; [exact Hg2 | eapply table_le_trans; eassumption].
Qed.

Lemma first_walk_grounded (r : GrammarRule) (rhsItr : list SymbolUnit) :
  forall (prefix : list SymbolUnit) (acc : FirstFollowTable * bool),
  In r G -> rhs r = prefix ++ rhsItr ->
  grounded (fst acc) -> reaches (fst acc) prefix ->
  grounded (fst (first_walk (lhs r) rhsItr acc))
  /\ table_le (fst acc) (fst (first_walk (lhs r) rhsItr acc)).
Proof.
  induction rhsItr as [|[n | t] rhsItr IH]; intros prefix acc Hr Hrhs Hg Hp;
    simpl.
  - apply add_to_row_grounded; try assumption.
    rewrite Hrhs. apply first_of_behind_prefix; [exact Hp | apply first_end].
  - destruct (add_row_but_eps_grounded r (fst acc n) acc Hr Hg)
      as [Hg1 Hle1].
    { intros tk Htk Hne. rewrite Hrhs.
      apply first_of_behind_prefix; [exact Hp |].
      apply first_nonterminal; assumption. }
    destruct (existsInFirstFollow (fst acc n) EPS) eqn:E;
      [| split; assumption].
    apply existsInFirstFollow_In in E.
    destruct (IH (prefix ++ [NonTerminalSym n])
                 (add_row_but_eps (lhs r) (fst acc n) acc) Hr)
      as [Hg2 Hle2]; try assumption.
    + rewrite <- app_assoc. exact Hrhs.
    + apply Forall_app. split; [eapply reaches_mono; eassumption |].
      constructor; [| constructor].
      exists n. split; [reflexivity | apply Hle1, E].
    + split; [exact Hg2 | eapply table_le_trans; eassumption].
  - apply add_to_row_grounded; try assumption.
    rewrite Hrhs. apply first_of_behind_prefix; [exact Hp |].
    apply first_terminal.
Qed.

Lemma first_pass_grounded (F : FirstFollowTable) :
  grounded F ->
  grounded (fst (first_pass G F)) /\ table_le F (fst (first_pass G F)).
Proof.
  unfold first_pass.
  assert (H : forall (l : list GrammarRule) (acc : FirstFollowTable * bool),
             incl l G -> grounded (fst acc) ->
             grounded
               (fst (fold_left (fun a r => first_walk (lhs r) (rhs r) a) l acc))
             /\ table_le (fst acc)
                  (fst (fold_left (fun a r => first_walk (lhs r) (rhs r) a)
                                  l acc))).
  { induction l as [|r l IH]; intros acc Hin Hg; simpl;
      [split; [exact Hg | apply table_le_refl] |].
    destruct (first_walk_grounded r (rhs r) [] acc) as [Hg1 Hle1];
      try assumption; try reflexivity.
    - apply Hin. left. reflexivity.
    - constructor.
    - destruct (IH (first_walk (lhs r) (rhs r) acc)) as [Hg2 Hle2];
        try assumption.
      + intros x Hx. apply Hin. right. exact Hx.
      + split; [exact Hg2 | eapply table_le_trans; eassumption]. }
  intro Hg. apply (H G (F, false)); [apply incl_refl | exact Hg].
Qed.

Lemma computeFirstSets_loop_grounded (fuel : nat) :
  forall F F' : FirstFollowTable,
  grounded F -> computeFirstSets_loop fuel G F = Some F' ->
  grounded F' /\ first_pass G F' = (F', false).
Proof.
  induction fuel as [|fuel IH]; intros F F' Hg Hrun; [discriminate |].
  cbn [computeFirstSets_loop] in Hrun.
  destruct (first_pass_grounded F Hg) as [Hg1 _].
  pose proof (first_pass_quiet G F) as Hq.
  destruct (first_pass G F) as [F1 m] eqn:E. cbn [fst snd] in *.
  destruct m.
  - exact (IH F1 F' Hg1 Hrun).
  - injection Hrun as <-. specialize (Hq eq_refl). injection Hq as ->.
    split; [exact Hg | exact E].
Qed.

End GrammarFirst.

Section GrammarFollow.

Variable F : FirstFollowTable.
Variable G : list GrammarRule.

Hypothesis first_grounded : inside (first_of_grammar G) F.
Hypothesis first_closed : closed G F.

#[local] Abbreviation derivable := (inside (grammar_follow G)).

(** A token with a source over sets inside FOLLOW of the grammar is in
    FOLLOW of the grammar. *)
Lemma follow_source_grammar (Fo : FirstFollowTable) (B : NonTerminal)
  (t : Token) :
  derivable Fo -> follow_source G F Fo B t -> grammar_follow G B t.
Proof.
  intros Hd [[-> ->] | (r & pre & post & Hr & Hs & [[H1 H2] | [H1 H2]])].
  - apply gfo_start.
  - apply (gfo_first G r pre post); try assumption.
    apply (first_of_grammar_first G F); assumption.
  - apply (gfo_behind G r pre post); try assumption.
    + apply (first_of_grammar_first G F); assumption.
    + apply Hd. exact H2.
Qed.

Lemma add_to_row_derivable (b : NonTerminal) (acc : FirstFollowTable * bool)
  (tk : Token) :
  derivable (fst acc) -> follow_source G F (fst acc) b tk ->
  derivable (fst (add_to_row b acc tk))
  /\ table_le (fst acc) (fst (add_to_row b acc tk)).
Proof.
  intros Hd Hsrc. unfold add_to_row.
  destruct (existsInFirstFollow (fst acc b) tk);
    [split; [exact Hd | apply table_le_refl] |].
  cbn [fst]. split.
  - intros n t Ht. unfold set_row, insertFirstFollowNode in Ht.
    destruct (NonTerminal_eqb n b) eqn:E; [| exact (Hd _ _ Ht)].
    apply NonTerminal_eqb_eq in E. subst n. apply in_app_iff in Ht.
    destruct Ht as [Ht | [<- | []]]; [exact (Hd _ _ Ht) |].
    apply (follow_source_grammar (fst acc)); assumption.
  - intros n t Ht. unfold set_row, insertFirstFollowNode.
    destruct (NonTerminal_eqb n b) eqn:E; [| exact Ht].
    apply NonTerminal_eqb_eq in E. subst n. apply in_app_iff. left. exact Ht.
Qed.

(** A loop of guarded insertions into row [b] of tokens that have a
    source there. *)
Lemma add_tokens_derivable (b : NonTerminal) (kept : Token -> Prop)
  (step : FirstFollowTable * bool -> Token -> FirstFollowTable * bool)
  (l : list Token) :
  (forall a tk, In tk l ->
     step a tk = a \/ (kept tk /\ step a tk = add_to_row b a tk)) ->
  forall acc : FirstFollowTable * bool,
  derivable (fst acc) ->
  (forall tk, In tk l -> kept tk -> follow_source G F (fst acc) b tk) ->
  derivable (fst (fold_left step l acc))
  /\ table_le (fst acc) (fst (fold_left step l acc)).
Proof.
  induction l as [|x l IH]; intros Hstep acc Hd Hsrc; cbn [fold_left];
    [split; [exact Hd | apply table_le_refl] |].
  assert (Hstep' : forall a tk, In tk l ->
            step a tk = a \/ (kept tk /\ step a tk = add_to_row b a tk)).
  { intros a tk Htk. apply Hstep. right. exact Htk. }
  destruct (Hstep acc x (or_introl eq_refl)) as [E | [Hk E]]; rewrite E.
  - apply (IH Hstep'); [exact Hd |].
    intros tk Htk. apply Hsrc. right. exact Htk.
  - destruct (add_to_row_derivable b acc x Hd) as [Hd1 Hle1].
    { apply Hsrc; [left; reflexivity | exact Hk]. }
    destruct (IH Hstep' (add_to_row b acc x) Hd1) as [Hd2 Hle2].
    + intros tk Htk Hk'. eapply follow_source_mono; [exact Hle1 |].
      apply Hsrc; [right |]; assumption.
    + split; [exact Hd2 | eapply table_le_trans; eassumption].
Qed.

Lemma follow_walk_derivable (r : GrammarRule) (rhsItr : list SymbolUnit) :
  forall (pre : list SymbolUnit) (acc : FirstFollowTable * bool),
  In r G -> rhs r = pre ++ rhsItr -> derivable (fst acc) ->
  derivable (fst (follow_walk F (lhs r) rhsItr acc))
  /\ table_le (fst acc) (fst (follow_walk F (lhs r) rhsItr acc)).
Proof.
  induction rhsItr as [|[b | x] rhsItr IH]; intros pre acc Hr Hrhs Hd;
    cbn [follow_walk].
  - split; [exact Hd | apply table_le_refl].
  - cbv zeta.
    set (src := getFirstOfRhs F rhsItr).
    destruct (add_tokens_derivable b (fun tk => tk <> EPS)
                (fun a tk => if Token_eqb tk EPS then a else add_to_row b a tk)
                src) with (acc := acc) as [Hd1 Hle1].
    { intros a tk _. destruct (Token_eqb tk EPS) eqn:E; [left; reflexivity |].
      right. split; [apply Token_eqb_neq; exact E | reflexivity]. }
    { exact Hd. }
    { intros tk Htk Hne. right. exists r, pre, rhsItr.
      repeat split; try assumption. left.
      split; [apply In_getFirstOfRhs; exact Htk | exact Hne]. }
    fold (add_row_but_eps b src acc) in Hd1, Hle1.
    set (acc1 := add_row_but_eps b src acc) in *.
    assert (Hnext :
              forall acc2 : FirstFollowTable * bool,
                derivable (fst acc2) -> table_le (fst acc) (fst acc2) ->
                derivable (fst (follow_walk F (lhs r) rhsItr acc2))
                /\ table_le (fst acc)
                     (fst (follow_walk F (lhs r) rhsItr acc2))).
    { intros acc2 Hd2 Hle2.
      destruct (IH (pre ++ [NonTerminalSym b]) acc2 Hr) as [Hd3 Hle3];
        [rewrite <- app_assoc; exact Hrhs | exact Hd2 |].
      split; [exact Hd3 | eapply table_le_trans; eassumption]. }
    destruct (existsInFirstFollow src EPS
              || match rhsItr with [] => true | _ :: _ => false end) eqn:Ec;
      [| apply Hnext; assumption].
    destruct (add_tokens_derivable b (fun _ => True) (add_to_row b)
                (fst acc1 (lhs r)))
      with (acc := acc1) as [Hd2 Hle2].
    { intros a tk Htk. right. split; [exact I | reflexivity]. }
    { exact Hd1. }
    { intros tk Htk _. right. exists r, pre, rhsItr.
      repeat split; try assumption. right.
      split; [apply tail_nullable; exact Ec | exact Htk]. }
    apply Hnext; [exact Hd2 | eapply table_le_trans; eassumption].
  - destruct (IH (pre ++ [TerminalSym x]) acc Hr) as [Hd1 Hle1];
      [rewrite <- app_assoc; exact Hrhs | exact Hd |].
    split; assumption.
Qed.

Lemma follow_pass_derivable (Fo : FirstFollowTable) :
  derivable Fo ->
  derivable (fst (follow_pass F G Fo))
  /\ table_le Fo (fst (follow_pass F G Fo)).
Proof.
  unfold follow_pass.
  assert (H : forall (l : list GrammarRule) (acc : FirstFollowTable * bool),
             incl l G -> derivable (fst acc) ->
             derivable
               (fst (fold_left (fun a r => follow_walk F (lhs r) (rhs r) a)
                               l acc))
             /\ table_le (fst acc)
                  (fst (fold_left (fun a r => follow_walk F (lhs r) (rhs r) a)
                                  l acc))).
  { induction l as [|r l IH]; intros acc Hin Hd; cbn [fold_left];
      [split; [exact Hd | apply table_le_refl] |].
    destruct (follow_walk_derivable r (rhs r) [] acc) as [Hd1 Hle1];
      try assumption; try reflexivity.
    - apply Hin. left. reflexivity.
    - destruct (IH (follow_walk F (lhs r) (rhs r) acc)) as [Hd2 Hle2];
        try assumption.
      + intros x Hx. apply Hin. right. exact Hx.
      + split; [exact Hd2 | eapply table_le_trans; eassumption]. }
  intro Hd. apply (H G (Fo, false)); [apply incl_refl | exact Hd].
Qed.

Lemma computeFollowSets_loop_derivable (fuel : nat) :
  forall Fo Fo' : FirstFollowTable,
  derivable Fo -> computeFollowSets_loop fuel F G Fo = Some Fo' ->
  derivable Fo' /\ follow_pass F G Fo' = (Fo', false) /\ table_le Fo Fo'.
Proof.
  induction fuel as [|fuel IH]; intros Fo Fo' Hd Hrun; [discriminate |].
  cbn [computeFollowSets_loop] in Hrun.
  destruct (follow_pass_derivable Fo Hd) as [Hd1 Hle1].
  pose proof (follow_pass_quiet F G Fo) as Hq.
  destruct (follow_pass F G Fo) as [F1 m] eqn:E. cbn [fst snd] in *.
  destruct m.
  - destruct (IH F1 Fo' Hd1 Hrun) as (H1 & H2 & H3).
    split; [exact H1 | split; [exact H2 |]].
    eapply table_le_trans; eassumption.
  - injection Hrun as <-. specialize (Hq eq_refl). injection Hq as ->.
    split; [exact Hd | split; [exact E | apply table_le_refl]].
Qed.

(** Sets that a pass leaves alone and that hold the end-of-input token
    for the start symbol hold FOLLOW of the grammar. *)
Lemma grammar_follow_in_fixed (Fo : FirstFollowTable) (B : NonTerminal)
  (t : Token) :
  follow_pass F G Fo = (Fo, false) -> In DOLLAR (Fo program) ->
  grammar_follow G B t -> In t (Fo B).
Proof.
  intros Hfix Hstart H.
  induction H as [| r pre post B t Hr Hs Hf Hne
                  | r pre post B t Hr Hs Hf _ IH].
  - exact Hstart.
  - apply (proj1 (follow_pass_fixed_closed F G Fo Hfix r pre B post Hr Hs));
      [| exact Hne].
    apply (grammar_first_first_of G F); assumption.
  - apply (proj2 (follow_pass_fixed_closed F G Fo Hfix r pre B post Hr Hs));
      [| exact IH].
    apply (grammar_first_first_of G F); assumption.
Qed.

End GrammarFollow.

(** X22. The FIRST sets are those of the grammar.  On a grammar whose
    non-terminals all have a row in the arrays, [computeFirstSets]
    returns, and in the table it returns a token is in the set of a
    non-terminal exactly when the rules give it: the token, the epsilon
    marker written in a rule counting as one, is the terminal that some
    right-hand side of the non-terminal starts with once each
    non-terminal in front of it has been replaced by a right-hand side of
    its own that gives the marker; and the marker is given as well by a
    right-hand side that is used up in this way.  Nothing is in a set
    without such a derivation, so the table is the least one that
    satisfies the equations of the FIRST sets. *)
Theorem first_sets_of_the_grammar :
  forall G : list GrammarRule,
  rows_in_range G = true ->
  exists F : FirstFollowTable,
    (exists fuel, forall fuel', (fuel <= fuel')%nat ->
                                computeFirstSets fuel' G = Some F)
    /\ (forall n t, In t (F n) <-> first_of_grammar G n t)
    /\ (forall n, has_row n = false -> F n = []).
Proof.
  intros G Hrows.
  destruct (computeFirstSets_loop_ends G (S capacity) empty_sets)
    as (F & Hrun & Hfix & _).
  - intro n. constructor.
  - intros n t [].
  - lia.
  - destruct (computeFirstSets_loop_grounded G (S capacity) empty_sets F)
      as [Hg _]; [intros m x [] | exact Hrun |].
    exists F. split; [| split].
    + exists (S capacity). intros fuel' Hle. unfold computeFirstSets.
      eapply computeFirstSets_loop_fuel_le; eassumption.
    + intros n t. split; [apply Hg |].
      intros (r & Hr & <- & Hf).
      pose proof (first_pass_fixed_closed G F Hfix) as Hc.
      apply (Hc r t Hr). apply (grammar_first_first_of G); assumption.
    + intros n Hn. destruct (F n) as [|t l] eqn:E; [reflexivity |].
      destruct (Hg n t) as (r & Hr & Hl & _); [rewrite E; left; reflexivity |].
      unfold rows_in_range in Hrows. rewrite forallb_forall in Hrows.
      specialize (Hrows r Hr). apply andb_true_iff in Hrows.
      rewrite Hl, Hn in Hrows. destruct Hrows as [Hrows _]. discriminate.
Qed.

Lemma first_sets_of_the_grammar_witness :
  exists F : FirstFollowTable,
    (exists fuel, forall fuel', (fuel <= fuel')%nat ->
       computeFirstSets fuel'
         [{| lhs := program; rhs := [NonTerminalSym mainFunction] |};
          {| lhs := mainFunction;
             rhs := [TerminalSym MAIN; TerminalSym END] |}]
       = Some F)
    /\ In MAIN (F program).
Proof.
  destruct (first_sets_of_the_grammar
              [{| lhs := program; rhs := [NonTerminalSym mainFunction] |};
               {| lhs := mainFunction;
                  rhs := [TerminalSym MAIN; TerminalSym END] |}] eq_refl)
    as (F & Hrun & Hsets & _).
  exists F. split; [exact Hrun |].
  apply Hsets.
  exists {| lhs := program; rhs := [NonTerminalSym mainFunction] |}.
  split; [left; reflexivity | split; [reflexivity |]].
  apply (gf_nonterminal _
           {| lhs := mainFunction;
              rhs := [TerminalSym MAIN; TerminalSym END] |} [] MAIN).
  - right. left. reflexivity.
  - apply gf_terminal.
  - discriminate.
Defined.

(** X23. The FOLLOW sets are those of the grammar.  On a grammar whose
    non-terminals all have a row in the arrays, [computeFirstSets] and
    then [computeFollowSets] on its result return, and in the table of
    FOLLOW sets a token is in the set of a non-terminal exactly when the
    rules of the grammar put it there: the end-of-input token behind the
    start symbol [program]; a token, other than the epsilon marker, that
    the symbols behind an occurrence of the non-terminal in some rule
    give as their first; or, when these symbols give the marker, a token
    that follows the left-hand side of that rule.  Nothing is in a set
    without such a derivation. *)
Theorem follow_sets_of_the_grammar :
  forall G : list GrammarRule,
  rows_in_range G = true ->
  exists F Fo : FirstFollowTable,
    (exists fuel, forall fuel', (fuel <= fuel')%nat ->
       computeFirstSets fuel' G = Some F
       /\ computeFollowSets fuel' F G = Some Fo)
    /\ (forall B t, In t (Fo B) <-> grammar_follow G B t)
    /\ (forall B, has_row B = false -> Fo B = []).
Proof.
  intros G Hrows.
  destruct (computeFirstSets_loop_ends G (S capacity) empty_sets)
    as (F & HF & HfixF & _);
    [intro n; constructor | intros n t [] | lia |].
  destruct (computeFirstSets_loop_grounded G (S capacity) empty_sets F)
    as [Hg _]; [intros m x [] | exact HF |].
  pose proof (first_pass_fixed_closed G F HfixF) as Hc.
  destruct (computeFollowSets_loop_ends F G (S capacity) initial_follow)
    as (Fo & HFo & Hfix & _ & _ & Hle);
    [apply initial_follow_nodup | apply initial_follow_sourced
    | rewrite initial_follow_size; lia |].
  destruct (computeFollowSets_loop_derivable F G Hg (S capacity)
              initial_follow Fo) as (Hd & _ & _).
  { intros n x. unfold initial_follow, set_row, insertFirstFollowNode,
      empty_sets.
    destruct (NonTerminal_eqb n program) eqn:E; [| intros []].
    apply NonTerminal_eqb_eq in E. intros [<- | []]. subst n.
    apply gfo_start. }
  { exact HFo. }
  exists F, Fo. split; [| split].
  - exists (S capacity). intros fuel' Hfuel. split.
    + unfold computeFirstSets.
      eapply computeFirstSets_loop_fuel_le; eassumption.
    + unfold computeFollowSets.
      eapply computeFollowSets_loop_fuel_le; eassumption.
  - intros B t. split; [apply Hd |].
    apply (grammar_follow_in_fixed F G Hc Fo B t Hfix).
    apply Hle. unfold initial_follow. rewrite set_row_same.
    left. reflexivity.
  - intros B HB. destruct (Fo B) as [|t l] eqn:E; [reflexivity |].
    assert (H : grammar_follow G B t)
      by (apply Hd; rewrite E; left; reflexivity).
    assert (Hrow : has_row B = true); [| rewrite Hrow in HB; discriminate].
    unfold rows_in_range in Hrows. rewrite forallb_forall in Hrows.
    destruct H as [| r pre post B t Hr Hs _ _ | r pre post B t Hr Hs _ _];
      [reflexivity | |];
      specialize (Hrows r Hr); apply andb_true_iff in Hrows;
      destruct Hrows as [_ Hrows]; rewrite forallb_forall in Hrows;
      apply (Hrows (NonTerminalSym B)); rewrite Hs;
      apply in_app_iff; right; left; reflexivity.
Qed.

Lemma follow_sets_of_the_grammar_witness :
  exists F Fo : FirstFollowTable,
    (exists fuel, forall fuel', (fuel <= fuel')%nat ->
       computeFirstSets fuel'
         [{| lhs := program; rhs := [NonTerminalSym mainFunction] |};
          {| lhs := mainFunction;
             rhs := [TerminalSym MAIN; TerminalSym END] |}]
       = Some F
       /\ computeFollowSets fuel' F
            [{| lhs := program; rhs := [NonTerminalSym mainFunction] |};
             {| lhs := mainFunction;
                rhs := [TerminalSym MAIN; TerminalSym END] |}]
          = Some Fo)
    /\ In DOLLAR (Fo mainFunction).
Proof.
  destruct (follow_sets_of_the_grammar
              [{| lhs := program; rhs := [NonTerminalSym mainFunction] |};
               {| lhs := mainFunction;
                  rhs := [TerminalSym MAIN; TerminalSym END] |}] eq_refl)
    as (F & Fo & Hrun & Hsets & _).
  exists F, Fo. split; [exact Hrun |].
  apply Hsets.
  apply (gfo_behind _
           {| lhs := program; rhs := [NonTerminalSym mainFunction] |}
           [] [] mainFunction DOLLAR).
  - left. reflexivity.
  - reflexivity.
  - apply gf_end.
  - apply gfo_start.
Defined.

(* ================================================================== *)
(** * The output of [removeComments] *)
(* ================================================================== *)

Section RemoveComments.

Lemma fgets_parts (room : nat) :
  forall stream : list ascii,
    stream = fst (fgets room stream) ++ snd (fgets room stream)
    /\ (List.length (fst (fgets room stream)) <= room)%nat.
Proof.
  induction room as [|room IH]; intros [|c stream]; cbn [fgets];
    try (cbn; split; [reflexivity | lia]).
  destruct (char_eqb c NL); [cbn; split; [reflexivity | lia] |].
  specialize (IH stream). destruct (fgets room stream) as [l rest].
  cbn [fst snd app List.length] in *. destruct IH as [-> IH].
  split; [reflexivity | lia].
Qed.

Lemma fgets_nothing (room : nat) (c : ascii) (stream : list ascii) :
  fst (fgets (S room) (c :: stream)) <> [].
Proof.
  cbn [fgets]. destruct (char_eqb c NL); [discriminate |].
  destruct (fgets room stream). discriminate.
Qed.

(** A line that fits is read with its newline. *)
Lemma fgets_line (room : nat) :
  forall l rest : list ascii,
    newline_free l = true -> (List.length l < room)%nat ->
    fgets room (l ++ NL :: rest) = (l ++ [NL], rest).
Proof.
  induction room as [|room IH]; intros l rest Hl Hlen; [lia |].
  destruct l as [|c l]; cbn [app fgets].
  - reflexivity.
  - cbn [newline_free forallb] in Hl. apply andb_true_iff in Hl.
    destruct Hl as [Hc Hl]. apply negb_true_iff in Hc. rewrite Hc.
    rewrite (IH l rest Hl); [reflexivity | cbn [List.length] in Hlen; lia].
Qed.

(** Without a newline the read stops when the room is used up or the
    stream ends. *)
Lemma fgets_full (room : nat) :
  forall l rest : list ascii,
    newline_free l = true -> List.length l = room ->
    fgets room (l ++ rest) = (l, rest).
Proof.
  induction room as [|room IH]; intros l rest Hl Hlen.
  - destruct l; [| discriminate]. cbn [app]. destruct rest; reflexivity.
  - destruct l as [|c l]; [discriminate |]. cbn [app fgets].
    cbn [newline_free forallb] in Hl. apply andb_true_iff in Hl.
    destruct Hl as [Hc Hl]. apply negb_true_iff in Hc. rewrite Hc.
    rewrite (IH l rest Hl); [reflexivity | cbn [List.length] in Hlen; lia].
Qed.

Lemma fgets_last (room : nat) :
  forall l : list ascii,
    newline_free l = true -> (List.length l <= room)%nat ->
    fgets room l = (l, []).
Proof.
  induction room as [|room IH]; intros l Hl Hlen.
  - destruct l; [reflexivity | cbn [List.length] in Hlen; lia].
  - destruct l as [|c l]; [reflexivity |]. cbn [fgets].
    cbn [newline_free forallb] in Hl. apply andb_true_iff in Hl.
    destruct Hl as [Hc Hl]. apply negb_true_iff in Hc. rewrite Hc.
    rewrite (IH l Hl); [reflexivity | cbn [List.length] in Hlen; lia].
Qed.

(** The search, the two stores and the [printf] of one turn. *)
Lemma printed_line (line : list ascii) :
  c_string (cut_comment (line ++ [NUL])) = written line.
Proof.
  unfold cut_comment. induction line as [|x line IH]; [reflexivity |].
  cbn [app strchr written].
  destruct (char_eqb x NUL) eqn:E0; [cbn [c_string]; rewrite E0; reflexivity |].
  destruct (char_eqb x PERCENT) eqn:Ep.
  - unfold store. cbn [firstn skipn app c_string].
    replace (char_eqb NL NUL) with false by reflexivity.
    replace (char_eqb NUL NUL) with true by reflexivity. reflexivity.
  - destruct (strchr (line ++ [NUL]) PERCENT) as [i|]; cbn [option_map].
    + unfold store in *. cbn [firstn skipn app c_string].
      rewrite E0. f_equal. exact IH.
    + cbn [c_string]. rewrite E0. f_equal. exact IH.
Qed.

Lemma written_clean (line : list ascii) :
  ~ In PERCENT (written line) /\ ~ In NUL (written line).
Proof.
  induction line as [|x line [IH1 IH2]]; cbn [written];
    [split; intros [] |].
  destruct (char_eqb x NUL) eqn:E0; [split; intros [] |].
  destruct (char_eqb x PERCENT) eqn:Ep.
  - split; intros [H | []]; discriminate H.
  - apply char_eqb_neq in E0, Ep.
    split; intros [H | H]; auto.
Qed.

(** A line with its newline, and a comment in it or not. *)
Lemma written_line (l : list ascii) :
  forallb (fun x => negb (char_eqb x NUL) && negb (char_eqb x NL)) l = true ->
  written (l ++ [NL]) = without_comment l.
Proof.
  unfold without_comment.
  induction l as [|x l IH]; intro H; [reflexivity |].
  cbn [forallb] in H. apply andb_true_iff in H. destruct H as [Hx H].
  apply andb_true_iff in Hx. destruct Hx as [Hx _].
  apply negb_true_iff in Hx.
  cbn [app written before_percent]. rewrite Hx.
  destruct (char_eqb x PERCENT); [reflexivity |].
  cbn [app]. f_equal. exact (IH H).
Qed.

(** The rest of a file behind its last newline. *)
Lemma written_rest (l : list ascii) :
  forallb (fun x => negb (char_eqb x NUL) && negb (char_eqb x NL)) l = true ->
  written l = if has_percent l then without_comment l else l.
Proof.
  unfold without_comment, has_percent.
  induction l as [|x l IH]; intro H; [reflexivity |].
  cbn [forallb] in H. apply andb_true_iff in H. destruct H as [Hx H].
  apply andb_true_iff in Hx. destruct Hx as [Hx _].
  apply negb_true_iff in Hx.
  cbn [written before_percent existsb]. rewrite Hx.
  destruct (char_eqb x PERCENT); [reflexivity |].
  cbn [orb app]. rewrite (IH H).
  destruct (existsb (fun x0 => char_eqb x0 PERCENT) l); reflexivity.
Qed.

Lemma plain_line_parts (l : list ascii) :
  plain_line l = true ->
  forallb (fun x => negb (char_eqb x NUL) && negb (char_eqb x NL)) l = true
  /\ newline_free l = true /\ (List.length l < LINE_BUF - 1)%nat.
Proof.
  unfold plain_line. intro H. apply andb_true_iff in H.
  destruct H as [H1 H2]. apply Nat.ltb_lt in H2.
  split; [exact H1 | split; [| exact H2]].
  unfold newline_free. rewrite forallb_forall in *.
  intros x Hx. specialize (H1 x Hx). apply andb_true_iff in H1. apply H1.
Qed.

(** One turn of the loop. *)
Lemma removeComments_loop_turn (fuel : nat) (inFile line rest out : list ascii) :
  fgets (LINE_BUF - 1) inFile = (line, rest) -> line <> [] ->
  removeComments_loop (S fuel) inFile out
  = removeComments_loop fuel rest (out ++ written line).
Proof.
  intros Hread Hne. cbn [removeComments_loop]. rewrite Hread.
  rewrite printed_line. destruct line; [contradiction | reflexivity].
Qed.

(** What has been written stays in front. *)
Lemma removeComments_loop_out (fuel : nat) :
  forall inFile out : list ascii,
    removeComments_loop fuel inFile out
    = option_map (app out) (removeComments_loop fuel inFile []).
Proof.
  induction fuel as [|fuel IH]; intros inFile out; [reflexivity |].
  cbn [removeComments_loop].
  destruct (fgets (LINE_BUF - 1) inFile) as [[|c line] rest].
  - cbn [option_map]. rewrite app_nil_r. reflexivity.
  - rewrite IH. rewrite (IH rest ([] ++ _)). cbn [app].
    destruct (removeComments_loop fuel rest []) as [o|]; cbn [option_map];
      [rewrite app_assoc |]; reflexivity.
Qed.

Lemma removeComments_loop_more_fuel (fuel : nat) :
  forall (inFile out res : list ascii),
    removeComments_loop fuel inFile out = Some res ->
    removeComments_loop (S fuel) inFile out = Some res.
Proof.
  induction fuel as [|fuel IH]; intros inFile out res H; [discriminate |].
  cbn [removeComments_loop] in H.
  remember (S fuel) as fuel1 eqn:E1. cbn [removeComments_loop]. subst fuel1.
  destruct (fgets (LINE_BUF - 1) inFile) as [[|c line] rest];
    [exact H | apply IH; exact H].
Qed.

Lemma removeComments_loop_fuel_le (fuel fuel' : nat)
  (inFile out res : list ascii) :
  (fuel <= fuel')%nat ->
  removeComments_loop fuel inFile out = Some res ->
  removeComments_loop fuel' inFile out = Some res.
Proof.
  intros Hle H. induction Hle; [exact H |].
  apply removeComments_loop_more_fuel. assumption.
Qed.

(** The loop ends on every file, and nothing it writes is a percent sign
    or a NUL. *)
Lemma removeComments_loop_ends (fuel : nat) :
  forall inFile out : list ascii,
    (List.length inFile < fuel)%nat ->
    ~ In PERCENT out -> ~ In NUL out ->
    exists res,
      removeComments_loop fuel inFile out = Some res
      /\ ~ In PERCENT res /\ ~ In NUL res.
Proof.
  induction fuel as [|fuel IH]; intros inFile out Hfuel Hp Hn; [lia |].
  destruct inFile as [|c inFile].
  - exists out. split; [reflexivity | split; assumption].
  - pose proof (fgets_nothing (LINE_BUF - 2) c inFile) as Hne.
    pose proof (fgets_parts (LINE_BUF - 1) (c :: inFile)) as [Hsplit _].
    change (S (LINE_BUF - 2)) with (LINE_BUF - 1)%nat in Hne.
    destruct (fgets (LINE_BUF - 1) (c :: inFile)) as [line rest] eqn:E.
    cbn [fst snd] in *.
    rewrite (removeComments_loop_turn fuel _ line rest out E Hne).
    destruct (written_clean line) as [Hw1 Hw2].
    apply IH.
    + assert (List.length (c :: inFile) = List.length line + List.length rest)%nat
        by (rewrite Hsplit at 1; apply length_app).
      destruct line; [contradiction |]. cbn [List.length] in *. lia.
    + intro H. apply in_app_iff in H. tauto.
    + intro H. apply in_app_iff in H. tauto.
Qed.

(** The lines of a file, one turn each. *)
Lemma removeComments_loop_lines (lines : list (list ascii)) :
  forall (rest out res : list ascii) (fuel : nat),
    forallb plain_line lines = true ->
    removeComments_loop fuel rest
      (out ++ List.concat (map without_comment lines)) = Some res ->
    removeComments_loop (List.length lines + fuel)
      (List.concat (map (fun l => l ++ [NL]) lines) ++ rest) out = Some res.
Proof.
  induction lines as [|l lines IH]; intros rest out res fuel Hl Hrun.
  - cbn [map List.concat app List.length Nat.add] in *.
    rewrite app_nil_r in Hrun. exact Hrun.
  - cbn [forallb] in Hl. apply andb_true_iff in Hl. destruct Hl as [Hl Hls].
    destruct (plain_line_parts l Hl) as (Hclean & Hnl & Hlen).
    cbn [map List.concat List.length Nat.add].
    rewrite <- !app_assoc. cbn [app].
    rewrite (removeComments_loop_turn _ _ (l ++ [NL])
               (List.concat (map (fun l0 => l0 ++ [NL]) lines) ++ rest) out).
    + rewrite (written_line l Hclean). apply IH; [exact Hls |].
      rewrite <- app_assoc. exact Hrun.
    + apply fgets_line; assumption.
    + destruct l; discriminate.
Qed.

End RemoveComments.

(** X24. [removeComments] never writes a percent sign.  Whatever the
    source file holds, the loop ends, and the text written to the
    console holds no percent sign and no NUL byte: every piece read by
    [fgets] is cut at its first percent sign. *)
Theorem removeComments_writes_no_percent :
  forall (sourceFile : string) (inFile : list ascii),
  exists out : list ascii,
    (forall fuel, (List.length inFile < fuel)%nat ->
       removeComments fuel sourceFile (Some inFile) = Some out)
    /\ ~ In PERCENT out /\ ~ In NUL out.
Proof.
  intros sourceFile inFile.
  destruct (removeComments_loop_ends (S (List.length inFile)) inFile [])
    as (out & Hrun & Hp & Hn); [lia | intros [] | intros [] |].
  exists out. split; [| split; assumption].
  intros fuel Hfuel. unfold removeComments.
  apply (removeComments_loop_fuel_le (S (List.length inFile))); [lia | exact Hrun].
Qed.

(** X25. [removeComments] line by line.  For a file without NUL bytes
    whose lines have fewer than 4095 characters, the text written is the
    file with every line cut at its first percent sign: the characters
    in front of it and a newline.  Lines without a percent sign are
    written as they are, no line is dropped or joined with another, and
    a last line that has no newline gets one exactly when it holds a
    comment. *)
Theorem removeComments_line_by_line :
  forall (sourceFile : string) (lines : list (list ascii))
         (last : list ascii) (fuel : nat),
    forallb plain_line lines = true -> plain_line last = true ->
    (List.length lines + 1 < fuel)%nat ->
    removeComments fuel sourceFile
      (Some (List.concat (map (fun l => l ++ [NL]) lines) ++ last))
    = Some (List.concat (map without_comment lines)
            ++ (if has_percent last then without_comment last else last)).
Proof.
  intros sourceFile lines last fuel Hl Hlast Hfuel. unfold removeComments.
  replace fuel with (List.length lines + (fuel - List.length lines))%nat by lia.
  apply removeComments_loop_lines; [exact Hl |].
  cbn [app].
  destruct (plain_line_parts last Hlast) as (Hclean & Hnl & Hlen).
  destruct (fuel - List.length lines)%nat as [|[|k]] eqn:Ek; try lia.
  destruct last as [|c last].
  - cbn [has_percent existsb]. rewrite app_nil_r. reflexivity.
  - rewrite (removeComments_loop_turn _ _ (c :: last) []).
    + rewrite (written_rest _ Hclean). reflexivity.
    + apply fgets_last; [exact Hnl | lia].
    + discriminate.
Qed.

Lemma removeComments_line_by_line_witness :
  removeComments 4 "t.txt"
    (Some (List.concat (map (fun l => l ++ [NL])
                     [list_ascii_of_string "a%b"; list_ascii_of_string "c"])
           ++ list_ascii_of_string "d%"))
  = Some (list_ascii_of_string "a" ++ [NL] ++ list_ascii_of_string "c"
          ++ [NL] ++ list_ascii_of_string "d" ++ [NL]).
Proof.
  apply (removeComments_line_by_line "t.txt"
           [list_ascii_of_string "a%b"; list_ascii_of_string "c"]
           (list_ascii_of_string "d%") 4);
    [vm_compute; reflexivity | vm_compute; reflexivity | simpl; lia].
Defined.

(** X26. A comment in a long line is removed only up to the end of the
    piece [fgets] read.  When the first 4095 characters of a line hold a
    percent sign and the line goes on, what stands in the line behind
    those 4095 characters is written to the console although it belongs
    to the comment: the output is the text in front of the percent sign,
    a newline, and then the rest of the line as a line of its own. *)
Theorem removeComments_long_line :
  forall (sourceFile : string) (pre c1 c2 rest out : list ascii)
         (fuel : nat),
    plain_line pre = true -> has_percent pre = false ->
    newline_free c1 = true ->
    List.length (pre ++ PERCENT :: c1) = (LINE_BUF - 1)%nat ->
    plain_line c2 = true -> has_percent c2 = false ->
    removeComments fuel sourceFile (Some rest) = Some out ->
    removeComments (S (S fuel)) sourceFile
      (Some (pre ++ PERCENT :: c1 ++ c2 ++ NL :: rest))
    = Some (pre ++ NL :: c2 ++ NL :: out).
Proof.
  intros sourceFile pre c1 c2 rest out fuel Hpre Hnp Hc1 Hlen Hc2 Hnp2 Hrun.
  unfold removeComments in *.
  destruct (plain_line_parts pre Hpre) as (Hclean & Hnl & _).
  destruct (plain_line_parts c2 Hc2) as (Hclean2 & Hnl2 & Hlen2).
  assert (Hbefore : forall l, has_percent l = false -> before_percent l = l).
  { induction l as [|x l IH]; [reflexivity |].
    unfold has_percent. cbn [existsb before_percent]. intro H.
    apply orb_false_iff in H. destruct H as [-> H].
    f_equal. exact (IH H). }
  rewrite (removeComments_loop_turn _ _ (pre ++ PERCENT :: c1)
             (c2 ++ NL :: rest) []).
  - rewrite (removeComments_loop_turn _ _ (c2 ++ [NL]) rest).
    + rewrite removeComments_loop_out, Hrun. cbn [option_map app].
      rewrite (written_line c2 Hclean2). unfold without_comment.
      rewrite (Hbefore c2 Hnp2).
      assert (Hw : written (pre ++ PERCENT :: c1) = pre ++ [NL]).
      { clear - Hclean Hnp. induction pre as [|x pre IH]; [reflexivity |].
        cbn [forallb] in Hclean. apply andb_true_iff in Hclean.
        destruct Hclean as [Hx Hclean].
        apply andb_true_iff in Hx. destruct Hx as [Hx _].
        apply negb_true_iff in Hx.
        unfold has_percent in Hnp. cbn [existsb] in Hnp.
        apply orb_false_iff in Hnp. destruct Hnp as [Hp Hnp].
        cbn [app written]. rewrite Hx, Hp. f_equal. exact (IH Hnp Hclean). }
      rewrite Hw. rewrite <- !app_assoc. reflexivity.
    + apply fgets_line; assumption.
    + destruct c2; discriminate.
  - replace (pre ++ PERCENT :: c1 ++ c2 ++ NL :: rest)
      with ((pre ++ PERCENT :: c1) ++ c2 ++ NL :: rest)
      by (rewrite <- app_assoc; reflexivity).
    apply fgets_full; [| exact Hlen].
    unfold newline_free in *. rewrite forallb_app. rewrite Hnl.
    cbn [forallb]. rewrite Hc1. reflexivity.
  - destruct pre; discriminate.
Qed.

Lemma removeComments_long_line_witness :
  removeComments 3 "t.txt"
    (Some (repeat "a"%char 4000 ++ PERCENT :: repeat "b"%char 94
           ++ list_ascii_of_string "cd" ++ NL :: []))
  = Some (repeat "a"%char 4000 ++ NL :: list_ascii_of_string "cd"
          ++ NL :: []).
Proof.
  apply (removeComments_long_line "t.txt" (repeat "a"%char 4000)
           (repeat "b"%char 94) (list_ascii_of_string "cd") [] [] 1);
    vm_compute; reflexivity.
Defined.

(* ================================================================== *)
(** * Numbers, relational operators and unknown characters in place *)
(* ================================================================== *)

Section BehindTheToken.

Lemma nth_behind (front post : list ascii) (q : nat) :
  nth (List.length front + q) (front ++ post) NUL = nth q post NUL.
Proof. apply app_nth2_plus. Qed.

(** Below [2 ^ 53] nothing is rounded. *)
Lemma to_double_exact (n : Z) : n < 2 ^ 53 -> to_double n = n.
Proof.
  intro H. unfold to_double.
  destruct (n <? 2 ^ 53) eqn:E; [reflexivity |].
  apply Z.ltb_ge in E. lia.
Qed.

(** The accumulation of a number of digits is exact while the value
    stays below ten to the power 15. *)
Lemma num_loop_exact (l : list ascii) :
  forall acc : Z,
  forallb isdigit l = true -> 0 <= acc ->
  (acc + 1) * 10 ^ Z.of_nat (List.length l) <= 10 ^ 15 ->
  num_loop acc l = fold_left (fun a c => a * 10 + digit_val c) l acc.
Proof.
  induction l as [|c l IH]; intros acc Hd Hacc Hbound; [reflexivity |].
  cbn [forallb] in Hd. apply andb_true_iff in Hd. destruct Hd as [Hc Hd].
  assert (Hnul : char_eqb c NUL = false).
  { destruct (char_eqb c NUL) eqn:E; [| reflexivity].
    apply char_eqb_eq in E. subst c. discriminate Hc. }
  assert (Hv : 0 <= digit_val c <= 9).
  { apply isdigit_code in Hc. unfold digit_val.
    change (code "0") with 48. lia. }
  cbn [num_loop fold_left]. rewrite Hnul.
  cbn [List.length] in Hbound.
  rewrite Nat2Z.inj_succ, Z.pow_succ_r in Hbound by lia.
  assert (Hp : 0 < 10 ^ Z.of_nat (List.length l))
    by (apply Z.pow_pos_nonneg; lia).
  assert (Hs : (acc * 10 + digit_val c + 1) * 10 ^ Z.of_nat (List.length l)
               <= 10 ^ 15) by nia.
  assert (H53 : acc * 10 + digit_val c < 2 ^ 53).
  { assert ((10 : Z) ^ 15 < 2 ^ 53) by reflexivity. nia. }
  rewrite (to_double_exact (acc * 10)) by lia.
  rewrite (to_double_exact (acc * 10 + digit_val c)) by exact H53.
  apply IH; [exact Hd | lia | exact Hs].
Qed.

Lemma digits_no_NUL (w : list ascii) :
  forallb isdigit w = true ->
  forallb (fun c => negb (char_eqb c NUL)) w = true.
Proof.
  intro H. rewrite forallb_forall in *. intros c Hc.
  specialize (H c Hc). destruct (char_eqb c NUL) eqn:E; [| reflexivity].
  apply char_eqb_eq in E. subst c. discriminate H.
Qed.

End BehindTheToken.

(** X27. An integer literal in its place.  In a file that fits into the
    first half of the twin buffer, with the lexer about to read the white
    space [blanks] in front of the digits [w], and [w] followed by a
    character that is no digit and that is not a dot with a digit behind
    it, one call of [getNextToken] returns the token of [w]: its entry
    is the one the symbol table holds for [w], or else a fresh one of
    kind [NUM] with the value the loop over the digits leaves in its
    [double]; its line is the line of the call plus the newlines
    skipped; the next call reads the character behind [w], the dot
    included.  For up to 15 digits the value is the number that the
    digits spell in base ten. *)
Theorem number_token :
  forall (file garbage pre blanks w post : list ascii) (st : LexerState)
         (fuel : nat),
    (List.length file < 255)%nat -> List.length garbage = 512%nat ->
    file = pre ++ blanks ++ w ++ post ->
    ready file garbage (List.length pre) st ->
    forallb is_blank blanks = true ->
    (0 < List.length w)%nat -> forallb isdigit w = true ->
    isdigit (hd NUL post) = false ->
    char_eqb (hd NUL post) "." && isdigit (nth 1 post NUL) = false ->
    (List.length blanks + List.length w + 2 <= fuel)%nat ->
    (exists node st',
       getNextToken keywords fuel st = Ok (Some node, st')
       /\ lexeme (entry node) = string_of_list_ascii w
       /\ entry node
          = entered (symTable st) (string_of_list_ascii w) NUM (num_value w)
       /\ lineNum node = lineNumber st + newlines blanks
       /\ symTable st'
          = table_after (symTable st) (string_of_list_ascii w) NUM
              (num_value w)
       /\ lineNumber st' = lineNumber st + newlines blanks
       /\ ready file garbage
            (List.length pre + List.length blanks + List.length w) st')
    /\ ((List.length w <= 15)%nat ->
        num_value w
        = inject_Z (fold_left (fun acc c => acc * 10 + digit_val c) w 0)).
Proof.
  intros file garbage pre blanks w post st fuel Hfit Hbuf Hfile Hready
         Hblank Hlen Hdig Hend Hdot Hfuel.
  split.
  2: { intro H15. unfold num_value. f_equal.
       apply num_loop_exact; [exact Hdig | lia |].
       rewrite Z.add_0_l, Z.mul_1_l.
       apply Z.pow_le_mono_r; lia. }
  assert (Hk : (List.length pre <= List.length file)%nat).
  { rewrite Hfile, length_app. lia. }
  assert (Hfront : file = (pre ++ blanks ++ w) ++ post).
  { rewrite Hfile, <- !app_assoc. reflexivity. }
  assert (Hflen : List.length (pre ++ blanks ++ w)
                  = (List.length pre + List.length blanks
                     + List.length w)%nat).
  { rewrite !length_app. lia. }
  assert (Hbehind : forall q,
            nth (List.length pre + List.length blanks + List.length w + q)
                file NUL = nth q post NUL).
  { intro q. rewrite Hfront at 1. rewrite <- Hflen. apply nth_behind. }
  destruct (number_in_place file garbage Hfit Hbuf keywords blanks w fuel
              (List.length pre) st Hready)
    as (node & st' & Hrun & node' & st'' & E & He & Hl & Ht & Hl' & Hat);
    try assumption.
  - intros q Hq. rewrite Hfile. apply nth_in_parts. exact Hq.
  - intros q Hq. rewrite Hfile, app_assoc, <- length_app.
    apply nth_in_parts. exact Hq.
  - pose proof (Hbehind 0%nat) as H0. rewrite Nat.add_0_r in H0.
    rewrite H0. destruct post; exact Hend.
  - pose proof (Hbehind 0%nat) as H0. rewrite Nat.add_0_r in H0.
    pose proof (Hbehind 1%nat) as H1.
    replace (List.length pre + List.length blanks + List.length w + 1)%nat
      with (S (List.length pre + List.length blanks + List.length w))
      in H1 by lia.
    rewrite H0, H1. destruct post; exact Hdot.
  - injection E as <- <-.
    assert (Hslice :
              file_slice file
                (List.length pre + List.length blanks)
                (List.length pre + List.length blanks + List.length w - 1)
              = w).
    { rewrite Hfile, app_assoc, <- length_app.
      apply file_slice_part. exact Hlen. }
    rewrite Hslice in He, Ht.
    rewrite (cstring_no_NUL w (digits_no_NUL w Hdig)) in He, Ht.
    exists node, st'. unfold getNextToken.
    rewrite (ready_begin file garbage Hfit Hbuf (List.length pre) st Hready Hk).
    split; [exact Hrun |].
    split; [rewrite He; apply entered_lexeme |].
    split; [exact He |]. split; [exact Hl |]. split; [exact Ht |].
    split; [exact Hl' |].
    replace (List.length pre + List.length blanks + List.length w)%nat
      with (S (List.length pre + List.length blanks + List.length w - 1))
      by lia.
    apply at_cursor_ready. exact Hat.
Qed.

Lemma number_token_witness :
  exists node st',
    getNextToken keywords 8
      (initial_state (fopen_contents (list_ascii_of_string " 42.x"))
                     (repeat NUL 512))
    = Ok (Some node, st')
    /\ lexeme (entry node) = "42"%string
    /\ tokenType (entry node) = NUM
    /\ numericValue (entry node) = inject_Z 42
    /\ ready (list_ascii_of_string " 42.x") (repeat NUL 512) 3 st'.
Proof.
  destruct (number_token (list_ascii_of_string " 42.x") (repeat NUL 512)
              [] [" "%char] (list_ascii_of_string "42")
              (list_ascii_of_string ".x")
              (initial_state (fopen_contents (list_ascii_of_string " 42.x"))
                             (repeat NUL 512)) 8)
    as ((node & st' & Hrun & Hlex & He & _ & _ & _ & Hnext) & _).
  - cbn. lia.
  - reflexivity.
  - reflexivity.
  - left. repeat split; reflexivity.
  - reflexivity.
  - cbn. lia.
  - reflexivity.
  - reflexivity.
  - reflexivity.
  - cbn. lia.
  - exists node, st'. split; [exact Hrun |]. split; [exact Hlex |].
    split; [rewrite He; reflexivity |].
    split; [rewrite He; reflexivity | exact Hnext].
Defined.

(** X28. A less-than or greater-than sign in its place.  In a file that
    fits into the first half of the twin buffer, a less-than or
    greater-than sign behind white space is returned as the token [LT]
    or [GT] when what follows does not continue it: no equals sign, and
    behind the less-than sign no two minus signs.  A less-than sign
    followed by a single minus sign is the token [LT]; the lexer gives
    back both characters it read ahead, and the next call reads the minus
    sign. *)
Theorem relational_token :
  forall (op : ascii) (file garbage pre blanks post : list ascii)
         (st : LexerState) (fuel : nat),
    op = "<"%char \/ op = ">"%char ->
    (List.length file < 255)%nat -> List.length garbage = 512%nat ->
    file = pre ++ blanks ++ op :: post ->
    ready file garbage (List.length pre) st ->
    forallb is_blank blanks = true ->
    ends_relational op (hd NUL post) (nth 1 post NUL) = true ->
    (List.length blanks + 3 <= fuel)%nat ->
    exists node st',
      getNextToken keywords fuel st = Ok (Some node, st')
      /\ lexeme (entry node) = String op EmptyString
      /\ entry node
         = entered (symTable st) (String op EmptyString)
             (relational_kind op) 0%Q
      /\ lineNum node = lineNumber st + newlines blanks
      /\ symTable st'
         = table_after (symTable st) (String op EmptyString)
             (relational_kind op) 0%Q
      /\ lineNumber st' = lineNumber st + newlines blanks
      /\ ready file garbage (List.length pre + List.length blanks + 1) st'.
Proof.
  intros op file garbage pre blanks post st fuel Hwhich Hfit Hbuf Hfile
         Hready Hblank Hends Hfuel.
  assert (Hk : (List.length pre <= List.length file)%nat).
  { rewrite Hfile, length_app. lia. }
  assert (Hfront : file = (pre ++ blanks) ++ op :: post).
  { rewrite Hfile, <- app_assoc. reflexivity. }
  assert (Hnth : forall q,
            nth (List.length pre + List.length blanks + q) file NUL
            = nth q (op :: post) NUL).
  { intro q. rewrite Hfront at 1. rewrite <- length_app. apply nth_behind. }
  destruct (relational_in_place file garbage Hfit Hbuf keywords op blanks
              fuel (List.length pre) st Hready)
    as (node & st' & Hrun & node' & st'' & E & He & Hl & Ht & Hl' & Hat);
    try assumption.
  - intros q Hq. rewrite Hfile. apply nth_in_parts. exact Hq.
  - pose proof (Hnth 0%nat) as H0. rewrite Nat.add_0_r in H0. exact H0.
  - pose proof (Hnth 1%nat) as H1. pose proof (Hnth 2%nat) as H2.
    replace (List.length pre + List.length blanks + 1)%nat
      with (S (List.length pre + List.length blanks)) in H1 by lia.
    replace (List.length pre + List.length blanks + 2)%nat
      with (S (S (List.length pre + List.length blanks))) in H2 by lia.
    rewrite H1, H2. cbn [nth]. destruct post; exact Hends.
  - injection E as <- <-.
    assert (Hslice :
              cstring (file_slice file
                         (List.length pre + List.length blanks)
                         (List.length pre + List.length blanks))
              = String op EmptyString).
    { pose proof (file_slice_part (pre ++ blanks) [op] post) as H.
      cbn [List.length app] in H. rewrite length_app in H.
      replace (List.length pre + List.length blanks + 1 - 1)%nat
        with (List.length pre + List.length blanks)%nat in H by lia.
      rewrite Hfront, H by lia.
      destruct Hwhich as [-> | ->]; reflexivity. }
    rewrite Hslice in He, Ht.
    exists node, st'. unfold getNextToken.
    rewrite (ready_begin file garbage Hfit Hbuf (List.length pre) st Hready Hk).
    split; [exact Hrun |].
    split; [rewrite He; apply entered_lexeme |].
    split; [exact He |]. split; [exact Hl |]. split; [exact Ht |].
    split; [exact Hl' |].
    replace (List.length pre + List.length blanks + 1)%nat
      with (S (List.length pre + List.length blanks)) by lia.
    apply at_cursor_ready. exact Hat.
Qed.

Lemma relational_token_witness :
  exists node st',
    getNextToken keywords 8
      (initial_state (fopen_contents (list_ascii_of_string " <-1"))
                     (repeat NUL 512))
    = Ok (Some node, st')
    /\ lexeme (entry node) = "<"%string
    /\ tokenType (entry node) = LT
    /\ ready (list_ascii_of_string " <-1") (repeat NUL 512) 2 st'.
Proof.
  destruct (relational_token "<"%char
              (list_ascii_of_string " <-1") (repeat NUL 512)
              [] [" "%char] (list_ascii_of_string "-1")
              (initial_state (fopen_contents (list_ascii_of_string " <-1"))
                             (repeat NUL 512)) 8)
    as (node & st' & Hrun & Hlex & He & _ & _ & _ & Hnext).
  - left. reflexivity.
  - cbn. lia.
  - reflexivity.
  - reflexivity.
  - left. repeat split; reflexivity.
  - reflexivity.
  - reflexivity.
  - cbn. lia.
  - exists node, st'. split; [exact Hrun |]. split; [exact Hlex |].
    split; [rewrite He; reflexivity | exact Hnext].
Defined.

(** X29. A character that starts no token.  In a file that fits into
    the first half of the twin buffer, a character behind white space
    for which state 0 has no transition (an uppercase letter, a dollar
    sign, a question mark, a quote, a brace and so on) is returned by one
    call of [getNextToken] as a token of its own: its entry is the one
    the symbol table holds for the character, or else a fresh one of the
    error kind [LEXICAL_ERROR]; the next call reads the character behind
    it, so a run of such characters gives one error token each. *)
Theorem unknown_character_token :
  forall (c : ascii) (file garbage pre blanks post : list ascii)
         (st : LexerState) (fuel : nat),
    unknown_character c = true ->
    (List.length file < 255)%nat -> List.length garbage = 512%nat ->
    file = pre ++ blanks ++ c :: post ->
    ready file garbage (List.length pre) st ->
    forallb is_blank blanks = true ->
    (List.length blanks < fuel)%nat ->
    exists node st',
      getNextToken keywords fuel st = Ok (Some node, st')
      /\ lexeme (entry node) = String c EmptyString
      /\ entry node
         = entered (symTable st) (String c EmptyString) LEXICAL_ERROR 0%Q
      /\ lineNum node = lineNumber st + newlines blanks
      /\ symTable st'
         = table_after (symTable st) (String c EmptyString)
             LEXICAL_ERROR 0%Q
      /\ lineNumber st' = lineNumber st + newlines blanks
      /\ ready file garbage (List.length pre + List.length blanks + 1) st'.
Proof.
  intros c file garbage pre blanks post st fuel Hun Hfit Hbuf Hfile
         Hready Hblank Hfuel.
  assert (Hk : (List.length pre <= List.length file)%nat).
  { rewrite Hfile, length_app. lia. }
  assert (Hc : nth (List.length pre + List.length blanks) file NUL = c).
  { rewrite Hfile, app_assoc, <- length_app.
    rewrite <- (Nat.add_0_r (List.length (pre ++ blanks))).
    rewrite nth_behind. reflexivity. }
  destruct (unknown_in_place file garbage Hfit Hbuf keywords blanks
              fuel (List.length pre) st Hready)
    as (node & st' & Hrun & node' & st'' & E & He & Hl & Ht & Hl' & Hat);
    try assumption.
  - intros q Hq. rewrite Hfile. apply nth_in_parts. exact Hq.
  - rewrite Hc. exact Hun.
  - injection E as <- <-. rewrite Hc in He, Ht.
    exists node, st'. unfold getNextToken.
    rewrite (ready_begin file garbage Hfit Hbuf (List.length pre) st Hready Hk).
    split; [exact Hrun |].
    split; [rewrite He; apply entered_lexeme |].
    split; [exact He |]. split; [exact Hl |]. split; [exact Ht |].
    split; [exact Hl' |].
    replace (List.length pre + List.length blanks + 1)%nat
      with (S (List.length pre + List.length blanks)) by lia.
    apply at_cursor_ready. exact Hat.
Qed.

Lemma unknown_character_token_witness :
  exists node st',
    getNextToken keywords 8
      (initial_state (fopen_contents (list_ascii_of_string " Ab"))
                     (repeat NUL 512))
    = Ok (Some node, st')
    /\ lexeme (entry node) = "A"%string
    /\ tokenType (entry node) = LEXICAL_ERROR
    /\ ready (list_ascii_of_string " Ab") (repeat NUL 512) 2 st'.
Proof.
  destruct (unknown_character_token "A"%char
              (list_ascii_of_string " Ab") (repeat NUL 512)
              [] [" "%char] (list_ascii_of_string "b")
              (initial_state (fopen_contents (list_ascii_of_string " Ab"))
                             (repeat NUL 512)) 8)
    as (node & st' & Hrun & Hlex & He & _ & _ & _ & Hnext).
  - reflexivity.
  - cbn. lia.
  - reflexivity.
  - reflexivity.
  - left. repeat split; reflexivity.
  - reflexivity.
  - cbn. lia.
  - exists node, st'. split; [exact Hrun |]. split; [exact Hlex |].
    split; [rewrite He; reflexivity | exact Hnext].
Defined.

(* ================================================================== *)
(** * Variable identifiers in their place *)
(* ================================================================== *)

Section Identifiers.

Variables file garbage : list ascii.

Hypothesis file_fits : (List.length file < 255)%nat.
Hypothesis buffer_size : List.length garbage = 512%nat.

Variable keywordTrie : TrieNode.

(** The lexeme of an identifier that is too long, which starts at byte
    [b]. *)
#[local] Abbreviation cut b :=
  (cstring (ellipsis 20 (file_slice file b (b + 19)))).








End Identifiers.


